(* ===== verification/_CoqProject ===== *)
-Q . S2P
Prelude.v
Hash.v
CText.v
Varint.v
Codec.v
CodecFacts.v
HTree.v
HTreeLeaf.v
HTreeShape.v
HTreeOps.v
HTreeAdd.v
HTreeMap.v
HTreeUpdate.v
HTreeSpec.v
HTreeVisit.v
HTreeFile.v
HTreeFileFacts.v
HTreeFine.v
QuickLZ.v
QuickLZFormat.v
QuickLZDecomp.v
QuickLZComp.v
QuickLZFacts.v
Disk.v
DiskFacts.v
Hint.v
HintFacts.v
Record.v
RecordFacts.v
Scan.v
ScanFacts.v
GcFacts.v
Buckets.v
BucketsFacts.v
Bitcask.v
BitcaskInv.v
BitcaskLog.v
BitcaskSteps.v
BitcaskSpec.v
BitcaskLife.v
BitcaskHistory.v
Collection.v
Reopen.v
Shutdown.v
Restart.v
HStore.v
Parallel.v
HStoreFacts.v
Dirs.v
StoreRestart.v
Protocol.v
ProtocolFacts.v
Sessions.v
EventLoop.v
EventLoopFacts.v
Items.v
MFile.v
Options.v
Listen.v
Server.v
Findings.v
