(* ===== verification/Prelude.v ===== *)
(** * Beansdb: a verification development

    Beansdb is a key-value server: memcached's protocol in front of a
    log-structured store ("bitcask") with an in-memory hash tree per bucket of the
    key space.  This library translates its C code (src/src/) into executable
    definitions and proves what the parts promise to each other and to a client.

    ** The program and its model

    - A connection ([Protocol], beansdb.c and item.c) reads command lines, looks
      keys up and stores values, and sends replies as lists of buffers.
    - The store ([HStore], hstore.c) sends each key to one of 16^h bitcasks by the
      first hex digits of its hash ([Hash], fnv1a.h, crc32.c and gen_hash).
    - A bitcask ([Buckets], [Bitcask], [BitcaskLife]; bitcask.c) appends records to
      a write buffer, flushes it to numbered data files, and keeps a tree of all
      keys and one of the keys of the current file; it opens, scans, closes and
      collects garbage.
    - Records and data files ([Record], [Scan]; record.c): encoding with a
      checksum, compression, reading, scanning with recovery, rewriting of a file.
    - Hint files ([Hint], hint.c): the index of a data file, compressed.
    - The hash tree ([HTree], [HTreeFile]; htree.c): a 16-ary tree in one array of
      nodes, leaves being chains of packed blocks; snapshots on disk.
    - The key codec ([Codec], codec.c; [Varint], varint.h): keys are stored as a
      format number and arguments.
    - QuickLZ ([QuickLZ], quicklz.c): level 3, as quicklz.h configures it.
    - The disk manager ([Disk], diskmgr.c): files of a store on several disks,
      joined by symbolic links.
    - The C library's number parsing and printing ([CText], util.h).
    - The worker threads ([EventLoop]; thread.c, ae_epoll.c and the connection list
      of beansdb.c) take turns waiting for the kernel and drive the connections.
    - The threads that scan and close the bitcasks ([Parallel], hstore.c), the pool
      of item buffers ([Items], item.c), the budget for mapped files ([MFile],
      mfile.c).
    - The directories of a store and the space on its disks ([Dirs]; hs_open of
      hstore.c, diskmgr.c).
    - The settings, the command line and its checks ([Options]; common.c and [main]
      of beansdb.c), the listening sockets and the start of the workers ([Listen];
      server_socket of beansdb.c, loop_run of thread.c), and the life of the server
      from the command line to the exit, with the pid file, the signals and the
      flush thread ([Server]; [main] of beansdb.c).

    ** How code becomes definitions

    A C function is a Rocq function of the same name; a struct is a record; a
    function that changes a structure returns the new one.  Machine integers are
    [Z] with the conversions [u8] ... [s64] written where C converts.  Bytes are
    [Z] below 256, strings and buffers lists of them.  A function that may fail
    returns an [outcome]: [Ret], [Exit] (the process ends, as the [safe_*] wrappers
    and the fatal branches do) or [Fault] (an access out of bounds or to memory that
    was never written).  A loop that is not structural has fuel, and running out of
    it is a [Fault]: a theorem that concludes [Ret] also shows that the loop ends.
    The fuels are those the definitions are called with: [ADD_FUEL] (one round per
    level and one enlargement), [scan_fuel] (the length of the file, a round moving
    at least a block), 3 rounds of [add_iov], 3 readings in [read_retry], 32
    doublings in [grow_wbuf], the length of the line in [get_tokens], the length of the
    key in [parse_fmt].
    What the kernel decides (free space, directory order, [rand], the addresses in
    a saved tree, the contents of fresh memory, which items can be allocated) is a
    field of [Env], [DiskEnv], [ServerEnv], [OS], [ServerOS] or [Kernel]; the file system is a map from
    paths to files and links, part of the state of a bitcask.  Where threads share
    memory, each access to it is a step of a relation and the steps interleave
    freely ([EventLoop], [Parallel], [Items], [MFile]); the invariants are proved by
    induction on the steps.

    ** The files and what they prove

    - Hash, CText, Varint: the table-driven CRC is the bit-serial one; varints are
      decoded; printed numbers are read back.
    - CodecFacts: decoding inverts encoding, encodings are stable and injective,
      the dictionary survives a dump.  The class [KeyCodecLaws] is what the tree
      relies on; [codec_laws] discharges it.
    - HTreeLeaf, HTreeShape, HTreeOps, HTreeAdd, HTreeMap, HTreeUpdate, HTreeSpec:
      the invariant [tree_ok] of the node array, the map [abs] of a tree, and the
      theorem that any history of operations acts as on a finite map; root hashes
      depend on the live entries only.  HTreeVisit: a visit meets every entry
      once.  HTreeFileFacts: saving and opening gives the same map; HTreeFine: the
      leaves of a tree that took few changes are short enough to be saved.
    - QuickLZFormat, QuickLZDecomp, QuickLZComp, QuickLZFacts: the grammar of
      compressed streams, and that decompression inverts compression.
    - DiskFacts, BucketsFacts, HintFacts, RecordFacts: renaming across disks,
      buckets.txt, hint files, and records are what was written; damaged records
      are rejected.
    - ScanFacts: a data file is a log ([logged]); scanning it replays the records,
      the hint file left behind does the same, a damaged record costs only itself.
      GcFacts: the collection of a data file copies what the tree points to,
      moves the tree to the copies and loses no live key.  Collection: the same for
      [bc_optimize] over all the files of a bitcask, with the loop invariant [gst]:
      after any history it returns 0 and every read is answered as before.
    - BitcaskInv, BitcaskSteps, BitcaskSpec, BitcaskHistory: the invariant that
      relates a bitcask (tree, buffers, files) to a map from keys to (version, flag,
      value), its preservation by every step of flushing, rotation, reading and
      writing, and the theorem that histories of requests, with the two halves of a
      flush at any moments, answer as the map does.
    - BitcaskLog, BitcaskLife: what the files of a bitcask hold, as a log from which
      the map can be replayed.  Reopen, Shutdown, Restart: through any number of
      sessions, a bitcask that is closed and opened again on the files it left, in
      whatever order they are listed, holds every live entry and goes on as a map;
      a session may start from the hint files or from a snapshot of the tree that an
      earlier one saved ([Snaps]).
    - HStoreFacts: the same for a store of 1, 16, 256 or 4096 bitcasks and the
      operations set, append, incr, delete, get and flush.  StoreRestart: the same
      through any number of sessions, all bitcasks being closed and opened again.
      Dirs: opening a store makes the directories of all its bitcasks.
    - ProtocolFacts, Sessions: replies are built and delivered whole and in order
      however the socket cuts them; get and set lines are answered as the map of the
      store demands, however the value arrives.
    - EventLoopFacts: under epoll every descriptor and every connection object is in
      one place only, so no two workers drive one connection, and the table of
      connections is never inconsistent.  Parallel: the order of the threads does
      not matter.  Items: every item lies within its buffer and no buffer is leaked
      or shared.  MFile: the counter of mapped memory is exact, a file that fits the
      budget goes on when the files before it are closed, and only a file larger than
      the whole budget waits for ever.
    - Options: a command line that is accepted gives limits under which the theorems
      about the store hold, and a server started with it answers as a map.
    - Listen: on every path the sockets left open are those registered in the event
      loop, and the workers start from a consistent state.  Server: the whole
      program, run after run with the same command line, answers as one map and
      keeps every live entry from one run to the next.
    - Findings: inputs on which the code hangs, reads out of bounds or answers
      wrongly; more such facts are with the theorems they limit ([HTreeSpec],
      [RecordFacts], [BitcaskHistory]).

    ** Bounds

    The histories have at most two million requests ([MAX_OPS]) so that counters of
    entries and versions stay within their fields.  The limit of a data file is any
    the command line allows for bitcasks, with values up to 64 MB above 3968 MB
    (where a larger write buffer makes a 32-bit test wrap around: see
    [rotate_test_wraps]), and up to 3968 MB for stores.  Keys of requests have at
    most 232 bytes because an empty value under a longer key is stored unreadably
    ([empty_value_long_key]).  A collection works with any limit from 128 MB on that
    leaves room for the longest record before 4 GB ([big]: with the default limit,
    records of at most 64 MB); a file that is scanned has at most two million records
    so that the buffer of its hint file can be doubled within an [int].

    ** Not modelled

    Within a bitcask the steps are the critical sections, the interleavings those
    of a flush with requests; the thread that writes a hint file runs at once, but
    for the crash of [crash_after_rotate]; in [Server] a request and a round of the
    flush thread are atomic, and collections and the queries for [@] and [?] keys are
    no events.  A worker that runs out of descriptors gives up and takes back
    [stub_fd] in one step.  Failing allocations, but for items and connections: the
    buffers of a connection are taken to grow.  The figures of [stats]; kqueue (it is one-shot,
    like epoll); zlog (vendored); madvise and posix_fadvise (a mapped file is its
    contents and zeros to the end of its last page of 4096 bytes); failing disks; what
    the stores of lower height, which [hs_open] opens to make directories, write to
    those directories, which hold no bitcask of the store.  The theorem about restarts is
    for clean shutdowns; for a bitcask that holds the whole key space (depth 0) it
    stops at three data files, since the size in bytes of the nodes of a tree of
    height 8 overflows an [int].  The theorem about a collection is about one,
    between two flushes: the next one may lose keys until the next start
    ([second_collection_loses]). *)
From Stdlib Require Import ZArith Lia List.
From stdpp Require Import base numbers list list_numbers option gmap.

#[global] Open Scope Z_scope.

(** ** Outcomes of C code

    [Ret a] is a normal return, [Exit c] the process ending in [exit(c)]
    (the [safe_*] wrappers of util.h and the fatal branches), [Fault] an
    access outside an array or to indeterminate memory, i.e. undefined
    behaviour.  A fuelled loop that runs out of fuel also yields [Fault], so
    that a theorem concluding [Ret] shows both safety and termination. *)
Inductive outcome (A : Type) : Type :=
| Ret (a : A)
| Exit (code : Z)
| Fault.
Arguments Ret {A} a.
Arguments Exit {A} code.
Arguments Fault {A}.

#[global] Instance outcome_ret : MRet outcome := @Ret.
#[global] Instance outcome_bind : MBind outcome := fun A B f m =>
  match m with Ret a => f a | Exit c => Exit c | Fault => Fault end.
#[global] Instance outcome_fmap : FMap outcome := fun A B f m =>
  match m with Ret a => Ret (f a) | Exit c => Exit c | Fault => Fault end.

Definition is_ret {A} (m : outcome A) : bool :=
  match m with Ret _ => true | _ => false end.

(** An array access: out of range is a fault. *)
Definition fetch {A} (l : list A) (i : Z) : outcome A :=
  if i <? 0 then Fault else
  match l !! Z.to_nat i with Some x => Ret x | None => Fault end.

(** ** Machine integers

    A w-bit integer is a [Z]; these are C's conversions to the type. *)
Definition u8 (x : Z) : Z := x mod 2 ^ 8.
Definition u16 (x : Z) : Z := x mod 2 ^ 16.
Definition u32 (x : Z) : Z := x mod 2 ^ 32.
Definition u64 (x : Z) : Z := x mod 2 ^ 64.
Definition swrap (w x : Z) : Z :=
  let y := x mod 2 ^ w in if y <? 2 ^ (w - 1) then y else y - 2 ^ w.
Definition s8 : Z -> Z := swrap 8.
Definition s16 : Z -> Z := swrap 16.
Definition s32 : Z -> Z := swrap 32.
Definition s64 : Z -> Z := swrap 64.

(** C's truth value of a comparison, as used in arithmetic. *)
Definition b2z (b : bool) : Z := if b then 1 else 0.

(** ** Bytes *)
Abbreviation bytes := (list Z).
Definition byte_ok (b : Z) : Prop := 0 <= b < 256.
Abbreviation bytes_ok := (Forall byte_ok).
Definition blen (l : bytes) : Z := Z.of_nat (length l).

(** Little-endian layout of an n-byte integer, and back. *)
Fixpoint le_bytes (n : nat) (x : Z) : bytes :=
  match n with
  | O => []
  | S k => x mod 256 :: le_bytes k (x / 256)
  end.
Fixpoint le_val (l : bytes) : Z :=
  match l with
  | [] => 0
  | b :: r => b + 256 * le_val r
  end.

(** ** Tactics and hint databases *)
Create HintDb word.
Create HintDb bytes.
Create Rewrite HintDb word.
Create Rewrite HintDb bytes.

Ltac unfold_words := unfold u8, u16, u32, u64, s8, s16, s32, s64, swrap, b2z, byte_ok in *.
Ltac mod_lia := unfold_words; cbv zeta in *;
  change (2 ^ 8) with 256 in *; change (2 ^ 16) with 65536 in *;
  change (2 ^ 32) with 4294967296 in *;
  change (2 ^ 64) with 18446744073709551616 in *;
  repeat match goal with |- context [if ?b then _ else _] => destruct b eqn:? end;
  Z.div_mod_to_equations; lia.

(** A decidable closed statement. *)
Ltac by_compute := refine (bool_decide_eq_true_1 _ _); vm_compute; reflexivity.

(** Step through one bind of an [outcome] whose first computation is known. *)
Ltac inv_ret :=
  repeat match goal with
  | H : Ret _ = Ret _ |- _ => injection H as H
  | H : Ret _ = Exit _ |- _ => discriminate H
  | H : Ret _ = Fault |- _ => discriminate H
  | H : Exit _ = Ret _ |- _ => discriminate H
  | H : Fault = Ret _ |- _ => discriminate H
  end.

(** Split every boolean conjunction and disjunction test into propositions. *)
Ltac bool_to_prop :=
  repeat match goal with
  | H : (_ && _)%bool = true |- _ => apply andb_prop in H as [? ?]
  | H : (_ || _)%bool = false |- _ => apply orb_false_elim in H as [? ?]
  | H : negb _ = true |- _ => apply negb_true_iff in H
  | H : negb _ = false |- _ => apply negb_false_iff in H
  end.

(** ** Outcomes: lemmas *)
Lemma bind_ret {A B} (m : outcome A) (f : A -> outcome B) b :
  (m ≫= f) = Ret b <-> exists a, m = Ret a /\ f a = Ret b.
Proof.
  split.
  - destruct m as [a| |]; simpl; intros H; [|discriminate|discriminate]. eauto.
  - intros (a & -> & H). exact H.
Qed.

Lemma fetch_ret {A} (l : list A) i x :
  fetch l i = Ret x <-> 0 <= i /\ l !! Z.to_nat i = Some x.
Proof.
  unfold fetch. destruct (Z.ltb_spec i 0).
  - split; [discriminate|lia].
  - destruct (l !! Z.to_nat i); naive_solver.
Qed.

Lemma fetch_nat {A} (l : list A) i x :
  l !! i = Some x -> fetch l (Z.of_nat i) = Ret x.
Proof. intros H. apply fetch_ret. rewrite Nat2Z.id. split; [lia|done]. Qed.

(** The least number with a decidable property. *)
Lemma least_nat (P : nat -> Prop) `{forall k, Decision (P k)} n :
  P n -> exists k, (k <= n)%nat /\ P k /\ forall j, (j < k)%nat -> ~ P j.
Proof.
  induction n as [n IH] using lt_wf_ind. intros Hn.
  destruct (decide (Exists P (seq 0 n))) as [He|He].
  - apply Exists_exists in He as (k & Hk & HP). rewrite elem_of_seq in Hk.
    destruct (IH k ltac:(lia) HP) as (m & ? & ? & ?). exists m. split; [lia|auto].
  - exists n. split; [done|]. split; [done|]. intros j Hj HP. apply He.
    apply Exists_exists. exists j. rewrite elem_of_seq. split; [lia|done].
Qed.

(** ** Machine integers: lemmas *)
Lemma u32_range x : 0 <= u32 x < 2 ^ 32.
Proof. mod_lia. Qed.
Lemma u16_range x : 0 <= u16 x < 2 ^ 16.
Proof. mod_lia. Qed.
Lemma u32_id x : 0 <= x < 2 ^ 32 -> u32 x = x.
Proof. intros. mod_lia. Qed.
Lemma s32_u32 x : s32 (u32 x) = s32 x.
Proof. unfold s32, swrap, u32. by rewrite Zmod_mod. Qed.
Lemma s32_id x : - 2 ^ 31 <= x < 2 ^ 31 -> s32 x = x.
Proof.
  intros. unfold s32, swrap. change (2 ^ (32 - 1)) with 2147483648.
  change (2 ^ 31) with 2147483648 in *. change (2 ^ 32) with 4294967296.
  cbv zeta. destruct (Z.ltb_spec (x mod 4294967296) 2147483648);
    Z.div_mod_to_equations; lia.
Qed.
Lemma u32_s32 x : u32 (s32 x) = u32 x.
Proof.
  unfold s32, swrap, u32. cbv zeta. destruct (_ <? _).
  - by rewrite Zmod_mod.
  - rewrite Zminus_mod, Zmod_mod, Z_mod_same_full, Z.sub_0_r. by rewrite Zmod_mod.
Qed.
Lemma s64_u64_id x : 0 <= x < 2 ^ 63 -> s64 (u64 x) = x.
Proof.
  intros. unfold s64, swrap, u64. rewrite Zmod_mod. cbv zeta. change (2 ^ (64 - 1)) with 9223372036854775808.
  change (2 ^ 63) with 9223372036854775808 in *. change (2 ^ 64) with 18446744073709551616.
  rewrite Z.mod_small by lia. by rewrite (proj2 (Z.ltb_lt _ _)) by lia.
Qed.
#[export] Hint Resolve u32_range u16_range u32_id s32_id : word.
#[export] Hint Rewrite s32_u32 u32_s32 : word.

(** ** Bytes: lemmas *)
Lemma length_le_bytes n x : length (le_bytes n x) = n.
Proof. revert x. induction n; intros; simpl; auto. Qed.

Lemma le_bytes_ok n x : bytes_ok (le_bytes n x).
Proof.
  revert x. induction n; intros; simpl; constructor; auto.
  unfold byte_ok. apply Z.mod_pos_bound. lia.
Qed.

Lemma le_val_le_bytes n x : le_val (le_bytes n x) = x mod 256 ^ Z.of_nat n.
Proof.
  revert x. induction n as [|n IH]; intros x; cbn [le_val le_bytes].
  - by rewrite Z.mod_1_r.
  - rewrite IH, Nat2Z.inj_succ, Z.pow_succ_r by lia.
    rewrite Z.rem_mul_r by lia. lia.
Qed.

Lemma le_val_le_bytes_id n x :
  0 <= x < 256 ^ Z.of_nat n -> le_val (le_bytes n x) = x.
Proof. intros. rewrite le_val_le_bytes. by apply Z.mod_small. Qed.

Lemma le_val_range l : bytes_ok l -> 0 <= le_val l < 256 ^ blen l.
Proof.
  unfold blen. induction 1 as [|b l Hb _ IH]; cbn [le_val length]; [done|].
  rewrite Nat2Z.inj_succ, Z.pow_succ_r by lia. unfold byte_ok in Hb. lia.
Qed.

Lemma le_bytes_le_val l : bytes_ok l -> le_bytes (length l) (le_val l) = l.
Proof.
  induction 1 as [|b l Hb _ IH]; simpl; [done|]. unfold byte_ok in Hb.
  replace ((b + 256 * le_val l) mod 256) with b
    by (rewrite Z.mul_comm, Z.mod_add by lia; symmetry; apply Z.mod_small; lia).
  replace ((b + 256 * le_val l) / 256) with (le_val l)
    by (rewrite Z.mul_comm, Z.div_add, Z.div_small by lia; lia).
  by rewrite IH.
Qed.

Lemma blen_app l k : blen (l ++ k) = blen l + blen k.
Proof. unfold blen. rewrite length_app. lia. Qed.
Lemma blen_le n x : blen (le_bytes n x) = Z.of_nat n.
Proof. unfold blen. by rewrite length_le_bytes. Qed.
Lemma take_app_n {A} (a b : list A) n : n = length a -> take n (a ++ b) = a.
Proof. intros ->. apply take_app_length. Qed.
Lemma drop_app_n {A} (a b : list A) n : n = length a -> drop n (a ++ b) = b.
Proof. intros ->. apply drop_app_length. Qed.
Lemma blen_nonneg l : 0 <= blen l.
Proof. unfold blen. lia. Qed.
(** [n] zero bytes: one thing newly allocated memory may hold. *)
Definition zeros (n : Z) : bytes := repeat 0 (Z.to_nat n).
Lemma zeros_ok n : length (zeros n) = Z.to_nat n /\ bytes_ok (zeros n).
Proof. split; [apply repeat_length|]. apply Forall_forall. intros x Hx%list_elem_of_In%repeat_spec. subst. done. Qed.
#[export] Hint Resolve le_bytes_ok blen_nonneg : bytes.
#[export] Hint Rewrite blen_app length_le_bytes : bytes.

(** ** Bit operations stay within their width *)
Lemma shiftr_0_lt w x : 0 <= w -> 0 <= x -> (Z.shiftr x w = 0 <-> x < 2 ^ w).
Proof.
  intros. rewrite Z.shiftr_div_pow2 by lia.
  assert (0 < 2 ^ w) by (apply Z.pow_pos_nonneg; lia).
  split; intros; [|apply Z.div_small; lia]. Z.div_mod_to_equations; nia.
Qed.

Lemma lxor_range w a b :
  0 <= w -> 0 <= a < 2 ^ w -> 0 <= b < 2 ^ w -> 0 <= Z.lxor a b < 2 ^ w.
Proof.
  intros Hw Ha Hb. assert (0 <= Z.lxor a b) by (apply Z.lxor_nonneg; lia).
  split; [done|]. apply shiftr_0_lt; try lia. rewrite Z.shiftr_lxor.
  rewrite (proj2 (shiftr_0_lt w a ltac:(lia) ltac:(lia))) by lia.
  by rewrite (proj2 (shiftr_0_lt w b ltac:(lia) ltac:(lia))) by lia.
Qed.

Lemma lor_range w a b :
  0 <= w -> 0 <= a < 2 ^ w -> 0 <= b < 2 ^ w -> 0 <= Z.lor a b < 2 ^ w.
Proof.
  intros Hw Ha Hb. assert (0 <= Z.lor a b) by (apply Z.lor_nonneg; lia).
  split; [done|]. apply shiftr_0_lt; try lia. rewrite Z.shiftr_lor.
  rewrite (proj2 (shiftr_0_lt w a ltac:(lia) ltac:(lia))) by lia.
  by rewrite (proj2 (shiftr_0_lt w b ltac:(lia) ltac:(lia))) by lia.
Qed.

Ltac bits_disjoint w :=
  apply Z.bits_inj'; let n := fresh "n" in intros n ?;
  rewrite Z.land_spec, Z.bits_0; destruct (Z.ltb_spec n w);
  [ rewrite Z.shiftl_spec_low by lia; apply andb_false_r
  | match goal with H : 0 <= ?a < 2 ^ w |- _ =>
      rewrite <- (Z.mod_small a (2 ^ w)) by exact H end;
    rewrite Z.mod_pow2_bits_high by lia; done ].

(** [a | (b << w)] is [a + b * 2^w] when [a] fits in [w] bits. *)
Lemma lor_shiftl_add w a b :
  0 <= w -> 0 <= a < 2 ^ w -> Z.lor a (Z.shiftl b w) = a + b * 2 ^ w.
Proof.
  intros Hw Ha. rewrite <- Z.shiftl_mul_pow2 by lia.
  symmetry.
  rewrite <- Z.lxor_lor.
  - apply Z.add_nocarry_lxor. bits_disjoint w.
  - bits_disjoint w.
Qed.

Lemma lxor_cancel_l x a b : Z.lxor x a = Z.lxor x b -> a = b.
Proof.
  intros H. apply (f_equal (Z.lxor x)) in H.
  by rewrite <- !Z.lxor_assoc, !Z.lxor_nilpotent, !Z.lxor_0_l in H.
Qed.
#[export] Hint Resolve lxor_range lor_range : word.

(** ** Lists: lemmas *)
Lemma flat_map_ext_elem {A B} (f g : A -> list B) l :
  (forall x, x ∈ l -> f x = g x) -> flat_map f l = flat_map g l.
Proof.
  induction l as [|x l IH]; intros H; simpl; [done|].
  rewrite H by apply list_elem_of_here. rewrite IH; [done|]. intros y Hy. by apply H, list_elem_of_further.
Qed.

Lemma flat_map_perm {A B} (f g : A -> list B) l :
  (forall x, x ∈ l -> f x ≡ₚ g x) -> flat_map f l ≡ₚ flat_map g l.
Proof.
  induction l as [|x l IH]; intros H; simpl; [done|].
  rewrite (H x) by apply list_elem_of_here. rewrite IH; [done|]. intros y Hy. by apply H, list_elem_of_further.
Qed.

Lemma elem_of_flat_map {A B} (f : A -> list B) l y : y ∈ flat_map f l <-> exists x, x ∈ l /\ y ∈ f x.
Proof.
  rewrite list_elem_of_In, in_flat_map. setoid_rewrite list_elem_of_In. done.
Qed.

(** One element of a list without duplicates singled out. *)
Lemma flat_map_single {A B} (f : A -> list B) l x :
  NoDup l -> x ∈ l -> exists r, flat_map f l ≡ₚ f x ++ flat_map f r /\ l ≡ₚ x :: r /\ x ∉ r.
Proof.
  intros Hnd Hx. apply elem_of_Permutation in Hx as [r Hr]. exists r.
  rewrite Hr in Hnd. apply NoDup_cons in Hnd as [Hni _]. split; [|done].
  rewrite Hr. done.
Qed.
