(* ===== verification/Hash.v ===== *)
(** * Checksums and hashes

    [fnv1a] of fnv1a.h (the key hash that routes a key through the store and
    the hash tree), [gen_hash] of record.c (the 16-bit value digest kept in the
    tree), and [crc32] of crc32.c (the checksum of a record).  The theorems:
    the table-driven CRC is the bit-serial CRC-32 it optimises, it can be fed in
    pieces, and it tells apart any two buffers that differ in a single byte. *)
From Stdlib Require Import ZArith Lia List.
From stdpp Require Import base numbers list.
From S2P Require Import Prelude.

Module Fnv.

Definition FNV_32_PRIME : Z := 0x01000193.
Definition FNV_32_INIT : Z := 0x811c9dc5.

(** One round: [h ^= (uint32_t)key[i]; h *= FNV_32_PRIME].  [key[i]] is a
    (signed) [char], so a byte above 127 is sign-extended before the xor. *)
Definition fnv1a_step (h c : Z) : Z := u32 (Z.lxor h (u32 (s8 c)) * FNV_32_PRIME).

(** [fnv1a(key, key_len)], on the list of the [key_len] bytes. *)
Definition fnv1a (key : bytes) : Z := fold_left fnv1a_step key FNV_32_INIT.

(** [gen_hash(buf, len)] of record.c: long values are digested by both ends. *)
Definition gen_hash (buf : bytes) : Z :=
  let len := blen buf in
  let hash := u32 (len * 97) in
  if len <=? 1024 then u32 (hash + fnv1a buf)
  else
    let hash := u32 (hash + fnv1a (take 512 buf)) in
    let hash := u32 (hash * 97) in
    u32 (hash + fnv1a (drop (length buf - 512)%nat buf)).

End Fnv.

Module Crc.

Definition crc32_table : list Z :=
  [0x00000000; 0x77073096; 0xee0e612c; 0x990951ba; 0x076dc419; 0x706af48f;
   0xe963a535; 0x9e6495a3; 0x0edb8832; 0x79dcb8a4; 0xe0d5e91e; 0x97d2d988;
   0x09b64c2b; 0x7eb17cbd; 0xe7b82d07; 0x90bf1d91; 0x1db71064; 0x6ab020f2;
   0xf3b97148; 0x84be41de; 0x1adad47d; 0x6ddde4eb; 0xf4d4b551; 0x83d385c7;
   0x136c9856; 0x646ba8c0; 0xfd62f97a; 0x8a65c9ec; 0x14015c4f; 0x63066cd9;
   0xfa0f3d63; 0x8d080df5; 0x3b6e20c8; 0x4c69105e; 0xd56041e4; 0xa2677172;
   0x3c03e4d1; 0x4b04d447; 0xd20d85fd; 0xa50ab56b; 0x35b5a8fa; 0x42b2986c;
   0xdbbbc9d6; 0xacbcf940; 0x32d86ce3; 0x45df5c75; 0xdcd60dcf; 0xabd13d59;
   0x26d930ac; 0x51de003a; 0xc8d75180; 0xbfd06116; 0x21b4f4b5; 0x56b3c423;
   0xcfba9599; 0xb8bda50f; 0x2802b89e; 0x5f058808; 0xc60cd9b2; 0xb10be924;
   0x2f6f7c87; 0x58684c11; 0xc1611dab; 0xb6662d3d; 0x76dc4190; 0x01db7106;
   0x98d220bc; 0xefd5102a; 0x71b18589; 0x06b6b51f; 0x9fbfe4a5; 0xe8b8d433;
   0x7807c9a2; 0x0f00f934; 0x9609a88e; 0xe10e9818; 0x7f6a0dbb; 0x086d3d2d;
   0x91646c97; 0xe6635c01; 0x6b6b51f4; 0x1c6c6162; 0x856530d8; 0xf262004e;
   0x6c0695ed; 0x1b01a57b; 0x8208f4c1; 0xf50fc457; 0x65b0d9c6; 0x12b7e950;
   0x8bbeb8ea; 0xfcb9887c; 0x62dd1ddf; 0x15da2d49; 0x8cd37cf3; 0xfbd44c65;
   0x4db26158; 0x3ab551ce; 0xa3bc0074; 0xd4bb30e2; 0x4adfa541; 0x3dd895d7;
   0xa4d1c46d; 0xd3d6f4fb; 0x4369e96a; 0x346ed9fc; 0xad678846; 0xda60b8d0;
   0x44042d73; 0x33031de5; 0xaa0a4c5f; 0xdd0d7cc9; 0x5005713c; 0x270241aa;
   0xbe0b1010; 0xc90c2086; 0x5768b525; 0x206f85b3; 0xb966d409; 0xce61e49f;
   0x5edef90e; 0x29d9c998; 0xb0d09822; 0xc7d7a8b4; 0x59b33d17; 0x2eb40d81;
   0xb7bd5c3b; 0xc0ba6cad; 0xedb88320; 0x9abfb3b6; 0x03b6e20c; 0x74b1d29a;
   0xead54739; 0x9dd277af; 0x04db2615; 0x73dc1683; 0xe3630b12; 0x94643b84;
   0x0d6d6a3e; 0x7a6a5aa8; 0xe40ecf0b; 0x9309ff9d; 0x0a00ae27; 0x7d079eb1;
   0xf00f9344; 0x8708a3d2; 0x1e01f268; 0x6906c2fe; 0xf762575d; 0x806567cb;
   0x196c3671; 0x6e6b06e7; 0xfed41b76; 0x89d32be0; 0x10da7a5a; 0x67dd4acc;
   0xf9b9df6f; 0x8ebeeff9; 0x17b7be43; 0x60b08ed5; 0xd6d6a3e8; 0xa1d1937e;
   0x38d8c2c4; 0x4fdff252; 0xd1bb67f1; 0xa6bc5767; 0x3fb506dd; 0x48b2364b;
   0xd80d2bda; 0xaf0a1b4c; 0x36034af6; 0x41047a60; 0xdf60efc3; 0xa867df55;
   0x316e8eef; 0x4669be79; 0xcb61b38c; 0xbc66831a; 0x256fd2a0; 0x5268e236;
   0xcc0c7795; 0xbb0b4703; 0x220216b9; 0x5505262f; 0xc5ba3bbe; 0xb2bd0b28;
   0x2bb45a92; 0x5cb36a04; 0xc2d7ffa7; 0xb5d0cf31; 0x2cd99e8b; 0x5bdeae1d;
   0x9b64c2b0; 0xec63f226; 0x756aa39c; 0x026d930a; 0x9c0906a9; 0xeb0e363f;
   0x72076785; 0x05005713; 0x95bf4a82; 0xe2b87a14; 0x7bb12bae; 0x0cb61b38;
   0x92d28e9b; 0xe5d5be0d; 0x7cdcefb7; 0x0bdbdf21; 0x86d3d2d4; 0xf1d4e242;
   0x68ddb3f8; 0x1fda836e; 0x81be16cd; 0xf6b9265b; 0x6fb077e1; 0x18b74777;
   0x88085ae6; 0xff0f6a70; 0x66063bca; 0x11010b5c; 0x8f659eff; 0xf862ae69;
   0x616bffd3; 0x166ccf45; 0xa00ae278; 0xd70dd2ee; 0x4e048354; 0x3903b3c2;
   0xa7672661; 0xd06016f7; 0x4969474d; 0x3e6e77db; 0xaed16a4a; 0xd9d65adc;
   0x40df0b66; 0x37d83bf0; 0xa9bcae53; 0xdebb9ec5; 0x47b2cf7f; 0x30b5ffe9;
   0xbdbdf21c; 0xcabac28a; 0x53b39330; 0x24b4a3a6; 0xbad03605; 0xcdd70693;
   0x54de5729; 0x23d967bf; 0xb3667a2e; 0xc4614ab8; 0x5d681b02; 0x2a6f2b94;
   0xb40bbe37; 0xc30c8ea1; 0x5a05df1b; 0x2d02ef8d].

(** [~crc] on a [uint32_t]. *)
Definition not32 (x : Z) : Z := Z.lxor x 0xffffffff.

Definition crc32_step (crc b : Z) : Z :=
  Z.lxor (nth (Z.to_nat (Z.land (Z.lxor crc b) 0xff)) crc32_table 0) (Z.shiftr crc 8).

(** [crc32(crc, buf, len)] *)
Definition crc32 (crc : Z) (buf : bytes) : Z :=
  not32 (fold_left crc32_step buf (not32 crc)).

(** The bit-serial CRC-32 (reflected polynomial 0xEDB88320) that the table
    stands for: the reference definition. *)
Definition crc_bit (c : Z) : Z :=
  if Z.odd c then Z.lxor (Z.shiftr c 1) 0xedb88320 else Z.shiftr c 1.
Definition crc_byte (c : Z) : Z := Nat.iter 8 crc_bit c.
Definition crc32_ref (crc : Z) (buf : bytes) : Z :=
  not32 (fold_left (fun c b => crc_byte (Z.lxor c b)) buf (not32 crc)).

End Crc.

(** ** Facts about [fnv1a] *)
Module FnvFacts.
Import Fnv.

Lemma fnv1a_app a b : fnv1a (a ++ b) = fold_left fnv1a_step b (fnv1a a).
Proof. apply fold_left_app. Qed.

Lemma fnv1a_step_range h c : 0 <= fnv1a_step h c < 2 ^ 32.
Proof. apply u32_range. Qed.

Lemma fold_fnv_range l h : 0 <= h < 2 ^ 32 -> 0 <= fold_left fnv1a_step l h < 2 ^ 32.
Proof. revert h. induction l; intros; simpl; auto using fnv1a_step_range. Qed.

Lemma fnv1a_range key : 0 <= fnv1a key < 2 ^ 32.
Proof. apply fold_fnv_range. done. Qed.

(** The prime is odd, so multiplication by it is a bijection on 32 bits. *)
Lemma prime_cancel x y : u32 (x * FNV_32_PRIME) = u32 (y * FNV_32_PRIME) -> u32 x = u32 y.
Proof.
  intros H. apply (f_equal (fun z => u32 (z * 0x359c449b))) in H.
  revert H. unfold u32. rewrite !Zmult_mod_idemp_l, <- !Z.mul_assoc.
  rewrite (Zmult_mod x), (Zmult_mod y).
  replace ((FNV_32_PRIME * 0x359c449b) mod 2 ^ 32) with 1 by (vm_compute; reflexivity).
  by rewrite !Z.mul_1_r, !Zmod_mod.
Qed.

Lemma u32_lxor h c : 0 <= h < 2 ^ 32 -> u32 (Z.lxor h (u32 c)) = Z.lxor h (u32 c).
Proof. intros. apply u32_id, lxor_range; auto with word. lia. Qed.

Lemma fnv1a_step_inj_state h h' c :
  0 <= h < 2 ^ 32 -> 0 <= h' < 2 ^ 32 -> fnv1a_step h c = fnv1a_step h' c -> h = h'.
Proof.
  intros Hh Hh' H. apply prime_cancel in H.
  rewrite !u32_lxor in H by done.
  rewrite (Z.lxor_comm h), (Z.lxor_comm h') in H. by apply lxor_cancel_l in H.
Qed.

Lemma fnv1a_step_inj_byte h x y :
  0 <= h < 2 ^ 32 -> byte_ok x -> byte_ok y -> fnv1a_step h x = fnv1a_step h y -> x = y.
Proof.
  intros Hh Hx Hy H. apply prime_cancel in H.
  rewrite !u32_lxor in H by done.
  apply lxor_cancel_l in H. revert H. unfold s8, swrap, u32.
  change (2 ^ (8 - 1)) with 128. mod_lia.
Qed.

Lemma fold_fnv_inj l h h' :
  0 <= h < 2 ^ 32 -> 0 <= h' < 2 ^ 32 ->
  fold_left fnv1a_step l h = fold_left fnv1a_step l h' -> h = h'.
Proof.
  revert h h'. induction l as [|c l IH]; intros h h' Hh Hh'; simpl; [done|].
  intros E%IH; try apply fnv1a_step_range. by apply fnv1a_step_inj_state in E.
Qed.

End FnvFacts.

(** ** Facts about [crc32] *)
Module CrcFacts.
Import Crc.

Lemma not32_invol x : not32 (not32 x) = x.
Proof. unfold not32. by rewrite Z.lxor_assoc, Z.lxor_nilpotent, Z.lxor_0_r. Qed.

Lemma not32_range x : 0 <= x < 2 ^ 32 -> 0 <= not32 x < 2 ^ 32.
Proof. intros. by apply lxor_range. Qed.

Lemma odd_lxor a b : Z.odd (Z.lxor a b) = xorb (Z.odd a) (Z.odd b).
Proof. by rewrite <- !Z.bit0_odd, Z.lxor_spec. Qed.

(** The bit-serial step is linear over xor ... *)
Lemma crc_bit_lxor a b : crc_bit (Z.lxor a b) = Z.lxor (crc_bit a) (crc_bit b).
Proof.
  unfold crc_bit. rewrite odd_lxor, Z.shiftr_lxor.
  set (P := 0xedb88320). generalize P. intros p. clear P.
  generalize (Z.shiftr a 1) (Z.shiftr b 1). intros x y.
  destruct (Z.odd a), (Z.odd b); simpl.
  - rewrite Z.lxor_assoc, (Z.lxor_comm y p), <- (Z.lxor_assoc p p y), Z.lxor_nilpotent.
    by rewrite Z.lxor_0_l.
  - by rewrite !Z.lxor_assoc, (Z.lxor_comm p y).
  - by rewrite Z.lxor_assoc.
  - done.
Qed.

Lemma crc_byte_lxor a b : crc_byte (Z.lxor a b) = Z.lxor (crc_byte a) (crc_byte b).
Proof. unfold crc_byte. simpl. by rewrite !crc_bit_lxor. Qed.

(** ... and just shifts while the low bits are zero. *)
Lemma crc_bit_shiftl h k : 0 < k -> crc_bit (Z.shiftl h k) = Z.shiftl h (k - 1).
Proof.
  intros. unfold crc_bit. rewrite <- Z.bit0_odd, Z.shiftl_spec_low by lia.
  rewrite Z.shiftr_shiftl_l by lia. f_equal.
Qed.

Lemma crc_byte_shiftl h : crc_byte (Z.shiftl h 8) = h.
Proof.
  unfold crc_byte. cbn [Nat.iter nat_rect]. rewrite !crc_bit_shiftl by lia.
  apply Z.shiftl_0_r.
Qed.

Lemma table_crc_byte i :
  0 <= i < 256 -> nth (Z.to_nat i) crc32_table 0 = crc_byte i.
Proof.
  intros Hi.
  assert (H : forallb (fun k => nth k crc32_table 0 =? crc_byte (Z.of_nat k)) (seq 0 256) = true)
    by (vm_compute; reflexivity).
  rewrite forallb_forall in H. specialize (H (Z.to_nat i)).
  rewrite in_seq, Z.eqb_eq, Z2Nat.id in H by lia. apply H. lia.
Qed.

Lemma split_low8 x : x = Z.lxor (Z.land x 0xff) (Z.shiftl (Z.shiftr x 8) 8).
Proof.
  change 0xff with (Z.ones 8). rewrite <- Z.ldiff_ones_r by lia.
  apply Z.bits_inj'. intros n ?. rewrite Z.lxor_spec, Z.land_spec, Z.ldiff_spec.
  by destruct (Z.testbit x n), (Z.testbit (Z.ones 8) n).
Qed.

(** The table lookup is eight bit-serial steps. *)
Lemma crc32_step_ref c b :
  byte_ok b -> crc32_step c b = crc_byte (Z.lxor c b).
Proof.
  intros Hb. rewrite (split_low8 (Z.lxor c b)), crc_byte_lxor, crc_byte_shiftl.
  unfold crc32_step. rewrite Z.shiftr_lxor.
  rewrite (proj2 (shiftr_0_lt 8 b ltac:(lia) ltac:(unfold byte_ok in Hb; lia)))
    by (unfold byte_ok in Hb; lia).
  rewrite Z.lxor_0_r. f_equal. apply table_crc_byte.
  change 0xff with (Z.ones 8). rewrite Z.land_ones by lia. by apply Z.mod_pos_bound.
Qed.

(** C38. The table-driven [crc32] of crc32.c computes the bit-serial CRC-32. *)
Theorem crc32_is_bitserial crc buf :
  bytes_ok buf -> crc32 crc buf = crc32_ref crc buf.
Proof.
  intros H. unfold crc32, crc32_ref. f_equal. generalize (not32 crc).
  induction H as [|b l Hb _ IH]; intros c; simpl; [done|].
  by rewrite crc32_step_ref, IH.
Qed.

(** Feeding a buffer in two pieces is feeding it at once: [read_record] relies
    on this where [decode_record] runs over the whole record. *)
Lemma crc32_app crc a b : crc32 (crc32 crc a) b = crc32 crc (a ++ b).
Proof. unfold crc32. by rewrite not32_invol, fold_left_app. Qed.

Lemma crc_bit_range c : 0 <= c < 2 ^ 32 -> 0 <= crc_bit c < 2 ^ 32.
Proof.
  intros. assert (0 <= Z.shiftr c 1 < 2 ^ 32)
    by (rewrite Z.shiftr_div_pow2 by lia; Z.div_mod_to_equations; lia).
  unfold crc_bit. destruct (Z.odd c); [|done]. by apply lxor_range.
Qed.

Lemma crc_byte_range c : 0 <= c < 2 ^ 32 -> 0 <= crc_byte c < 2 ^ 32.
Proof. intros. unfold crc_byte. simpl. by do 8 apply crc_bit_range. Qed.

(** Bit 31 of the result is the bit shifted out: the step is injective. *)
Lemma crc_bit_top c : 0 <= c < 2 ^ 32 -> Z.testbit (crc_bit c) 31 = Z.odd c.
Proof.
  intros. unfold crc_bit.
  assert (Hs : Z.testbit (Z.shiftr c 1) 31 = false).
  { rewrite Z.shiftr_spec by lia. rewrite <- (Z.mod_small c (2 ^ 32)) by done.
    by apply Z.mod_pow2_bits_high. }
  destruct (Z.odd c); [|done]. by rewrite Z.lxor_spec, Hs.
Qed.

Lemma crc_bit_inj a b :
  0 <= a < 2 ^ 32 -> 0 <= b < 2 ^ 32 -> crc_bit a = crc_bit b -> a = b.
Proof.
  intros Ha Hb H. assert (Hodd : Z.odd a = Z.odd b)
    by (rewrite <- !crc_bit_top by done; by rewrite H).
  assert (Hs : Z.shiftr a 1 = Z.shiftr b 1).
  { unfold crc_bit in H. rewrite Hodd in H. destruct (Z.odd b); [|done].
    rewrite (Z.lxor_comm (Z.shiftr a 1)), (Z.lxor_comm (Z.shiftr b 1)) in H.
    by apply lxor_cancel_l in H. }
  rewrite (Z.div2_odd a), (Z.div2_odd b), !Z.div2_spec. by rewrite Hs, Hodd.
Qed.

Lemma crc_byte_inj a b :
  0 <= a < 2 ^ 32 -> 0 <= b < 2 ^ 32 -> crc_byte a = crc_byte b -> a = b.
Proof.
  intros Ha Hb. unfold crc_byte. simpl.
  intros H. repeat (apply crc_bit_inj in H; [|by repeat apply crc_bit_range ..]). done.
Qed.

Lemma byte_lt_2_32 b : byte_ok b -> 0 <= b < 2 ^ 32.
Proof. unfold byte_ok. lia. Qed.
#[export] Hint Resolve byte_lt_2_32 : word.

Lemma fold_crc_inj l a b :
  bytes_ok l -> 0 <= a < 2 ^ 32 -> 0 <= b < 2 ^ 32 ->
  fold_left crc32_step l a = fold_left crc32_step l b -> a = b.
Proof.
  intros Hl. revert a b. induction Hl as [|c l Hc _ IH]; intros a b Ha Hb; simpl; [done|].
  assert (Hr : forall z, 0 <= z < 2 ^ 32 -> 0 <= Z.lxor z c < 2 ^ 32)
    by (intros; apply lxor_range; auto with word; lia).
  rewrite !crc32_step_ref by done. intros H%IH; [|by apply crc_byte_range, Hr ..].
  apply crc_byte_inj in H; [|by apply Hr ..].
  rewrite (Z.lxor_comm a), (Z.lxor_comm b) in H. by apply lxor_cancel_l in H.
Qed.

Lemma fold_crc_range l a :
  bytes_ok l -> 0 <= a < 2 ^ 32 -> 0 <= fold_left crc32_step l a < 2 ^ 32.
Proof.
  intros Hl. revert a. induction Hl as [|c l Hc _ IH]; intros a Ha; simpl; [done|].
  apply IH. rewrite crc32_step_ref by done. apply crc_byte_range, lxor_range; auto with word. lia.
Qed.

Lemma crc32_range crc l : bytes_ok l -> 0 <= crc < 2 ^ 32 -> 0 <= crc32 crc l < 2 ^ 32.
Proof. intros. by apply not32_range, fold_crc_range, not32_range. Qed.

(** A single changed byte changes the checksum. *)
Lemma crc32_byte_change crc pre x y post :
  0 <= crc < 2 ^ 32 -> bytes_ok pre -> bytes_ok post -> byte_ok x -> byte_ok y ->
  x <> y -> crc32 crc (pre ++ x :: post) <> crc32 crc (pre ++ y :: post).
Proof.
  intros Hc Hpre Hpost Hx Hy Hxy H. apply Hxy.
  unfold crc32 in H. apply (f_equal not32) in H. rewrite !not32_invol, !fold_left_app in H.
  assert (Hs := fold_crc_range pre (not32 crc) Hpre (not32_range crc Hc)).
  revert H Hs. generalize (fold_left crc32_step pre (not32 crc)). intros s H Hs.
  simpl in H. rewrite !crc32_step_ref in H by done.
  assert (Hr : forall z, byte_ok z -> 0 <= Z.lxor s z < 2 ^ 32)
    by (intros; apply lxor_range; auto with word; lia).
  apply fold_crc_inj in H; [|done|by apply crc_byte_range, Hr ..].
  apply crc_byte_inj in H; [|by apply Hr ..]. by apply lxor_cancel_l in H.
Qed.

(** The check value of CRC-32, the checksum of the digits 1 to 9. *)
Lemma crc32_is_bitserial_witness :
  crc32 0 [49; 50; 51; 52; 53; 54; 55; 56; 57] = crc32_ref 0 [49; 50; 51; 52; 53; 54; 55; 56; 57] /\
  crc32 0 [49; 50; 51; 52; 53; 54; 55; 56; 57] = 0xcbf43926.
Proof.
  split; [|vm_compute; reflexivity]. apply (crc32_is_bitserial 0 [49; 50; 51; 52; 53; 54; 55; 56; 57]).
  repeat constructor; discriminate.
Defined.

End CrcFacts.
