(* ===== verification/CText.v ===== *)
(** * The C library's text functions the program uses

    Character classes of <ctype.h> (the "C" locale), the number conversions of
    <stdlib.h> ([strtol], [strtoul], [strtoll], [atoi]) and the conversions
    [%d], [%u], [%x] of [snprintf].  A text is a list of bytes without its
    terminating zero. *)
From Stdlib Require Import ZArith Lia List Ascii String.
From stdpp Require Import base numbers list.
From S2P Require Import Prelude.

(** A string literal as bytes. *)
Definition lit (s : string) : bytes :=
  List.map (fun c => Z.of_N (N_of_ascii c)) (list_ascii_of_string s).

(** [isspace] and [iscntrl]; the argument is a [char], and the "C" locale has
    no space or control character among the negative values. *)
Definition isspace (c : Z) : bool := (c =? 32) || ((9 <=? c) && (c <=? 13)).
Definition iscntrl (c : Z) : bool := ((0 <=? c) && (c <=? 31)) || (c =? 127).

(** ** Printing numbers *)
Fixpoint digits_aux (base : Z) (fuel : nat) (n : Z) : list Z :=
  match fuel with
  | O => []
  | S f => if n <? base then [n] else digits_aux base f (n / base) ++ [n mod base]
  end.
(** The digits of [n >= 0], most significant first; [log2 n + 1] digits are
    enough in any base. *)
Definition digits (base n : Z) : list Z := digits_aux base (S (Z.to_nat (Z.log2 n))) n.

Definition digit_char (d : Z) : Z := if d <? 10 then 48 + d else 87 + d.

(** [%u] and [%llu]; [%x]; [%d] and [%lld]. *)
Definition print_u (n : Z) : bytes := List.map digit_char (digits 10 n).
Definition print_x (n : Z) : bytes := List.map digit_char (digits 16 n).
Definition print_d (n : Z) : bytes :=
  if n <? 0 then 45 :: print_u (- n) else print_u n.

(** ** Reading numbers *)
Definition digit_val (c : Z) : Z :=
  if (48 <=? c) && (c <=? 57) then c - 48
  else if (97 <=? c) && (c <=? 122) then c - 87
  else if (65 <=? c) && (c <=? 90) then c - 55
  else 99.

(** The longest prefix of digits: its value and length. *)
Fixpoint scan_digits (base : Z) (s : bytes) (acc : Z) (n : nat) : Z * nat :=
  match s with
  | c :: r => if digit_val c <? base then scan_digits base r (acc * base + digit_val c) (S n)
              else (acc, n)
  | [] => (acc, n)
  end.

Fixpoint skip_spaces (s : bytes) : bytes * nat :=
  match s with
  | c :: r => if isspace c then let '(r', n) := skip_spaces r in (r', S n) else (s, O)
  | [] => ([], O)
  end.

Definition take_sign (s : bytes) : bool * bytes * nat :=
  match s with
  | 45 :: r => (true, r, 1%nat)
  | 43 :: r => (false, r, 1%nat)
  | _ => (false, s, O)
  end.

(** In base 16 an optional 0x, if a hexadecimal digit follows it. *)
Definition take_0x (base : Z) (s : bytes) : bytes * nat :=
  match s with
  | 48 :: x :: c :: r =>
      if (base =? 16) && ((x =? 120) || (x =? 88)) && (digit_val c <? 16)
      then (c :: r, 2%nat) else (s, O)
  | _ => (s, O)
  end.

Record strto := { st_neg : bool; st_mag : Z; st_used : nat }.

(** The common part of the [strto*] family: sign, magnitude, and how many
    characters were read ([endptr - str]); nothing is read when no digit is. *)
Definition strto_scan (base : Z) (str : bytes) : strto :=
  let '(s1, n1) := skip_spaces str in
  let '(neg, s2, n2) := take_sign s1 in
  let '(s3, n3) := take_0x base s2 in
  let '(v, n4) := scan_digits base s3 0 0 in
  if (n4 =? 0)%nat then {| st_neg := false; st_mag := 0; st_used := 0 |}
  else {| st_neg := neg; st_mag := v; st_used := n1 + n2 + n3 + n4 |}.

Definition LONG_MAX : Z := 2 ^ 63 - 1.
Definition LONG_MIN : Z := - 2 ^ 63.

(** [strtol] and [strtoll]: value, and whether [errno] is set to [ERANGE]. *)
Definition strtol (base : Z) (str : bytes) : Z * bool :=
  let r := strto_scan base str in
  let v := if st_neg r then - st_mag r else st_mag r in
  if v >? LONG_MAX then (LONG_MAX, true)
  else if v <? LONG_MIN then (LONG_MIN, true) else (v, false).

(** [strtoul] and [strtoull]: a minus sign negates in the unsigned type. *)
Definition strtoul (base : Z) (str : bytes) : Z * bool :=
  let r := strto_scan base str in
  if st_mag r >=? 2 ^ 64 then (2 ^ 64 - 1, true)
  else (u64 (if st_neg r then - st_mag r else st_mag r), false).

Definition atoi (str : bytes) : Z := s32 (fst (strtol 10 str)).
Definition atoll (str : bytes) : Z := fst (strtol 10 str).

(** [safe_strtol(str, base, &out)] of util.h: [None] is the return value 0. *)
Definition safe_strtol (str : bytes) (base : Z) : option Z :=
  let '(l, erange) := strtoul base str in
  if erange then None else
  let n := st_used (strto_scan base str) in
  match str !! n with
  | Some c => if isspace c then Some (s64 l) else None
  | None => if (n =? 0)%nat then None else Some (s64 l)
  end.

(** ** Lemmas: digits *)
Definition from_digits (base : Z) (ds : list Z) : Z :=
  fold_left (fun acc d => acc * base + d) ds 0.

Lemma from_digits_snoc base ds d :
  from_digits base (ds ++ [d]) = from_digits base ds * base + d.
Proof. unfold from_digits. by rewrite fold_left_app. Qed.

Lemma from_digits_nonneg base ds :
  0 <= base -> Forall (fun d => 0 <= d) ds -> 0 <= from_digits base ds.
Proof.
  intros Hb. induction ds as [|d ds IH] using rev_ind; intros H; [done|].
  apply Forall_app in H as [H1 H2]. apply Forall_cons_1 in H2 as [Hd _].
  rewrite from_digits_snoc. specialize (IH H1). nia.
Qed.

Definition digits_ok (base : Z) (ds : list Z) : Prop := Forall (fun d => 0 <= d < base) ds.

Lemma digits_ok_nonneg base ds : digits_ok base ds -> Forall (fun d => 0 <= d) ds.
Proof. intros H. eapply Forall_impl; [exact H|]. simpl. lia. Qed.

Lemma from_digits_lt base ds :
  0 < base -> digits_ok base ds -> from_digits base ds < base ^ Z.of_nat (length ds).
Proof.
  intros Hb. induction ds as [|d ds IH] using rev_ind; intros H; [done|].
  apply Forall_app in H as [H1 H2]. apply Forall_cons_1 in H2 as [Hd _].
  rewrite from_digits_snoc, length_app. simpl.
  rewrite Nat2Z.inj_add, Z.pow_add_r by lia. specialize (IH H1). simpl. nia.
Qed.

(** A nonempty digit string without leading zero is the canonical one. *)
Lemma digits_aux_from_digits base fuel ds :
  1 < base -> digits_ok base ds -> ds <> [] -> head ds <> Some 0 \/ length ds = 1%nat ->
  (length ds <= fuel)%nat -> digits_aux base fuel (from_digits base ds) = ds.
Proof.
  intros Hb. revert fuel. induction ds as [|d ds IH] using rev_ind; intros fuel H Hne Hhd Hf; [done|].
  apply Forall_app in H as [H1 H2]. apply Forall_cons_1 in H2 as [Hd _].
  rewrite length_app in Hf. simpl in Hf. destruct fuel as [|fuel]; [lia|]. simpl.
  rewrite from_digits_snoc.
  destruct ds as [|e ds].
  { change (from_digits base []) with 0. rewrite Z.mul_0_l, Z.add_0_l.
    by rewrite (proj2 (Z.ltb_lt d base)) by lia. }
  assert (He : e <> 0).
  { destruct Hhd as [Hhd|Hl]; [simpl in Hhd; congruence|]. rewrite length_app in Hl. simpl in Hl. lia. }
  assert (1 <= from_digits base (e :: ds)).
  { clear IH. clear Hhd Hf Hne. revert H1. generalize ds as l. intros l.
    induction l as [|x l IHl] using rev_ind; intros H1.
    - apply Forall_cons_1 in H1 as [? _]. unfold from_digits. simpl. lia.
    - change (e :: l ++ [x]) with ((e :: l) ++ [x]) in *. apply Forall_app in H1 as [Ha Hx].
      apply Forall_cons_1 in Hx as [Hx _]. rewrite from_digits_snoc. specialize (IHl Ha). nia. }
  set (n := from_digits base (e :: ds)) in *.
  destruct (Z.ltb_spec (n * base + d) base); [nia|].
  rewrite Z.add_comm, Z.div_add, Z.mod_add, Z.div_small, Z.mod_small by lia.
  rewrite Z.add_0_l. unfold n. rewrite IH; auto; try lia.
  left. simpl. congruence.
Qed.

Lemma digits_aux_ok base fuel n :
  1 < base -> 0 <= n -> digits_ok base (digits_aux base fuel n).
Proof.
  intros Hb. revert n. induction fuel as [|f IH]; intros n Hn; simpl; [constructor|].
  destruct (Z.ltb_spec n base).
  - repeat constructor; lia.
  - apply Forall_app. split; [apply IH; apply Z.div_pos; lia|].
    repeat constructor; apply Z.mod_pos_bound; lia.
Qed.

Lemma from_digits_digits_aux base fuel n :
  1 < base -> 0 <= n < base ^ Z.of_nat fuel -> from_digits base (digits_aux base fuel n) = n.
Proof.
  intros Hb. revert n. induction fuel as [|f IH]; intros n Hn.
  { change (base ^ Z.of_nat 0) with 1 in Hn. unfold from_digits. simpl. lia. }
  rewrite Nat2Z.inj_succ, Z.pow_succ_r in Hn by lia. simpl.
  destruct (Z.ltb_spec n base).
  - unfold from_digits. simpl. lia.
  - rewrite from_digits_snoc, IH; [rewrite (Z.div_mod n base) at 3 by lia; lia|].
    split; [apply Z.div_pos; lia|]. apply Z.div_lt_upper_bound; lia.
Qed.

Lemma digits_fuel base n :
  1 < base -> 0 <= n -> n < base ^ Z.of_nat (S (Z.to_nat (Z.log2 n))).
Proof.
  intros Hb Hn. rewrite Nat2Z.inj_succ, Z2Nat.id by apply Z.log2_nonneg.
  destruct (Z.eq_dec n 0) as [->|].
  - apply Z.pow_pos_nonneg; [lia|]. simpl. lia.
  - pose proof (Z.log2_spec n ltac:(lia)).
    assert (2 ^ Z.succ (Z.log2 n) <= base ^ Z.succ (Z.log2 n)).
    { apply Z.pow_le_mono_l. lia. }
    lia.
Qed.

(** Printing then reading gives the number back. *)
Lemma from_digits_digits base n : 1 < base -> 0 <= n -> from_digits base (digits base n) = n.
Proof. intros. apply from_digits_digits_aux; auto. split; [done|]. by apply digits_fuel. Qed.

(** Reading a canonical digit string then printing gives it back. *)
Lemma digits_from_digits base ds :
  1 < base -> digits_ok base ds -> ds <> [] -> head ds <> Some 0 ->
  digits base (from_digits base ds) = ds.
Proof.
  intros Hb Hok Hne Hhd. unfold digits.
  destruct (Nat.le_gt_cases (length ds) (S (Z.to_nat (Z.log2 (from_digits base ds))))) as [Hl|Hl].
  { apply digits_aux_from_digits; auto. }
  exfalso. destruct ds as [|e ds]; [done|].
  assert (Hlow : base ^ Z.of_nat (length ds) <= from_digits base (e :: ds)).
  { clear Hl Hne. induction ds as [|x l IHl] using rev_ind.
    - apply Forall_cons_1 in Hok as [? _]. unfold from_digits. simpl in *.
      assert (e <> 0) by congruence. lia.
    - change (e :: l ++ [x]) with ((e :: l) ++ [x]) in *. apply Forall_app in Hok as [Ha Hx].
      apply Forall_cons_1 in Hx as [Hx _]. rewrite from_digits_snoc. specialize (IHl Ha Hhd).
      rewrite length_app, Nat2Z.inj_add, Z.pow_add_r by lia. simpl. nia. }
  simpl in Hl. set (n := from_digits base (e :: ds)) in *.
  assert (2 ^ Z.of_nat (length ds) <= base ^ Z.of_nat (length ds)) by (apply Z.pow_le_mono_l; lia).
  assert (0 < 2 ^ Z.of_nat (length ds)) by (apply Z.pow_pos_nonneg; lia).
  pose proof (Z.log2_le_pow2 n (Z.of_nat (length ds)) ltac:(lia)). lia.
Qed.

Lemma digits_ok_digits base n : 1 < base -> 0 <= n -> digits_ok base (digits base n).
Proof. apply digits_aux_ok. Qed.

Lemma digits_nonempty base n : digits base n <> [].
Proof. unfold digits. simpl. destruct (_ <? _); [done|]. intros [_ ?]%app_eq_nil. done. Qed.

(** ** Lemmas: characters and digits *)
Lemma digit_val_char d : 0 <= d < 16 -> digit_val (digit_char d) = d.
Proof.
  intros. unfold digit_val, digit_char.
  destruct (Z.ltb_spec d 10);
    repeat match goal with |- context [?a <=? ?b] => destruct (Z.leb_spec a b) end; simpl; lia.
Qed.

Lemma scan_digits_app base ds rest acc n :
  0 < base <= 16 -> digits_ok base ds ->
  (forall c r, rest = c :: r -> base <= digit_val c) ->
  scan_digits base (List.map digit_char ds ++ rest) acc n =
    (fold_left (fun a d => a * base + d) ds acc, (n + length ds)%nat).
Proof.
  intros Hb Hok Hrest. revert acc n. induction Hok as [|d ds Hd _ IH]; intros acc n; simpl.
  - rewrite Nat.add_0_r. destruct rest as [|c r]; [done|]. simpl.
    specialize (Hrest c r eq_refl). destruct (Z.ltb_spec (digit_val c) base); [lia|done].
  - rewrite digit_val_char by lia. destruct (Z.ltb_spec d base); [|lia].
    rewrite IH. f_equal. lia.
Qed.
