(* ===== verification/Varint.v ===== *)
(** * Variable-length integers (varint.h)

    [encode_varint]/[decode_varint] (64-bit, seven bits a byte after the first)
    and the [_old] pair that the key codec uses for its format index: a negative
    first byte marks an encoded key. *)
From Stdlib Require Import ZArith Lia List.
From stdpp Require Import base numbers list.
From S2P Require Import Prelude.

(** The loop [while (n > 0) { p++; *p = (n & 0x7f) + 0x80; n >>= 7; }]; ten
    rounds clear 64 bits. *)
Fixpoint varint_loop (fuel : nat) (n : Z) : bytes :=
  match fuel with
  | O => []
  | S f => if 0 <? n then Z.land n 0x7f + 0x80 :: varint_loop f (Z.shiftr n 7) else []
  end.

(** [*p &= 0x7f] on the last byte written. *)
Fixpoint clear_last (l : bytes) : bytes :=
  match l with
  | [] => []
  | [b] => [Z.land b 0x7f]
  | b :: r => b :: clear_last r
  end.

Definition encode_varint (n : Z) : bytes :=
  if n <? 64 then [n + 0x80]
  else clear_last ((Z.land n 0x3f + 0xc0) :: varint_loop 10 (Z.shiftr n 6)).

(** The [do ... while] of [decode_varint], reading at [p]; result: the number
    and the count of bytes read by the loop. *)
Fixpoint decode_loop (p : bytes) (n multi : Z) (used : Z) : outcome (Z * Z) :=
  match p with
  | [] => Fault
  | b :: r =>
      let v := Z.land b 0x7f in
      let n := u64 (n + multi * v) in
      let multi := u64 (Z.shiftl multi 7) in
      if Z.land b 0x80 =? 0 then Ret (n, used + 1) else decode_loop r n multi (used + 1)
  end.

(** [decode_varint(src, &len)]: the value and [*len]. *)
Definition decode_varint (src : bytes) : outcome (Z * Z) :=
  match src with
  | [] => Fault
  | b :: r =>
      let n := Z.land b 0x7f in
      if n <? 64 then Ret (n, 1) else decode_loop r (Z.land n 0x3f) (Z.shiftl 1 6) 1
  end.

(** [encode_varint_old(n, buf)], [n] an int. *)
Definition encode_varint_old (n : Z) : bytes :=
  if n <? 64 then [u8 (- n)]
  else [u8 (- Z.land n 0x3f - 64); u8 (Z.shiftr n 6)].

(** [decode_varint_old(src, &len)] *)
Definition decode_varint_old (src : bytes) : outcome (Z * Z) :=
  match src with
  | [] => Fault
  | b :: r =>
      let n := - s8 b in
      if 64 <=? n then
        match r with
        | [] => Fault
        | c :: _ => Ret (n - 64 + Z.shiftl c 6, 2)
        end
      else Ret (n, 1)
  end.

(** ** Facts *)
Lemma land_7f x : Z.land x 0x7f = x mod 128.
Proof. by apply (Z.land_ones x 7). Qed.
Lemma land_3f x : Z.land x 0x3f = x mod 64.
Proof. by apply (Z.land_ones x 6). Qed.
Lemma land_80 x : 0 <= x < 256 -> (Z.land x 0x80 =? 0) = (x <? 128).
Proof.
  intros H.
  assert (Hall : forallb (fun k => Bool.eqb (Z.land (Z.of_nat k) 0x80 =? 0) (Z.of_nat k <? 128))
    (seq 0 256) = true) by (vm_compute; reflexivity).
  rewrite forallb_forall in Hall. specialize (Hall (Z.to_nat x)).
  rewrite in_seq, Z2Nat.id in Hall by lia. by apply eqb_prop, Hall; lia.
Qed.

(** The decoding loop inverts the encoding loop: [n < 128^k] needs [k] bytes. *)
Lemma decode_loop_encode k n acc mexp used rest :
  (k <= 10)%nat -> 0 < n < 128 ^ Z.of_nat k -> 0 <= acc < 2 ^ mexp -> 0 <= mexp ->
  acc + n * 2 ^ mexp < 2 ^ 64 ->
  exists l, clear_last (varint_loop k n) = l /\ l <> [] /\
    decode_loop (l ++ rest) acc (u64 (2 ^ mexp)) used =
      Ret (acc + n * 2 ^ mexp, used + blen l).
Proof.
  revert n acc mexp used. induction k as [|k IH]; intros n acc mexp used Hk Hn Hacc Hm Hb.
  { change (128 ^ Z.of_nat 0) with 1 in Hn. lia. }
  rewrite Nat2Z.inj_succ, Z.pow_succ_r in Hn by lia.
  assert (Hp : 0 < 2 ^ mexp) by (apply Z.pow_pos_nonneg; lia).
  assert (Hm64 : 2 ^ mexp < 2 ^ 64) by nia.
  assert (Hu : u64 (2 ^ mexp) = 2 ^ mexp) by (apply Z.mod_small; lia).
  cbn [varint_loop]. destruct (Z.ltb_spec 0 n); [|lia].
  rewrite land_7f, Z.shiftr_div_pow2 by lia. change (2 ^ 7) with 128.
  pose proof (Z.div_mod n 128 ltac:(lia)) as Hdm.
  pose proof (Z.mod_pos_bound n 128 ltac:(lia)) as Hmod.
  pose proof (Z.div_pos n 128 ltac:(lia) ltac:(lia)) as Hdp.
  set (q := n / 128) in *. set (r := n mod 128) in *.
  destruct (Z.eq_dec q 0) as [Hq|Hq].
  - assert (Hnil : varint_loop k q = []) by (rewrite Hq; by destruct k).
    rewrite Hnil. cbn [clear_last]. eexists. split; [reflexivity|]. split; [done|].
    replace (Z.land (r + 128) 0x7f) with r by (rewrite land_7f; Z.div_mod_to_equations; lia).
    cbn [app decode_loop blen length]. rewrite land_7f, land_80 by lia.
    rewrite (Z.mod_small r 128), Hu by lia.
    destruct (Z.ltb_spec r 128); [|lia].
    unfold u64. rewrite Z.mod_small by nia. do 2 f_equal. nia.
  - destruct (IH q (acc + r * 2 ^ mexp) (mexp + 7) (used + 1)) as (l & Hl & Hne & Hd);
      rewrite ?Z.pow_add_r by lia; change (2 ^ 7) with 128 in *; try nia.
    exists (r + 128 :: l). split; [|split; [done|]].
    { revert Hl Hne. destruct (varint_loop k q); intros <- ?; [done|]. done. }
    cbn [app decode_loop]. rewrite land_7f, land_80 by lia.
    replace ((r + 128) mod 128) with r by (Z.div_mod_to_equations; lia).
    destruct (Z.ltb_spec (r + 128) 128); [lia|].
    rewrite Hu, Z.shiftl_mul_pow2, <- Z.pow_add_r by lia.
    replace (u64 (acc + 2 ^ mexp * r)) with (acc + r * 2 ^ mexp)
      by (unfold u64; rewrite Z.mod_small by nia; lia).
    rewrite Hd. do 2 f_equal.
    + rewrite Z.pow_add_r by lia. change (2 ^ 7) with 128. nia.
    + unfold blen. simpl. lia.
Qed.

(** Every 64-bit number is decoded from its encoding, whatever follows it
    in the buffer, and the decoder reports exactly the bytes the encoder wrote. *)
Theorem varint_roundtrip n rest :
  0 <= n < 2 ^ 64 ->
  decode_varint (encode_varint n ++ rest) = Ret (n, blen (encode_varint n)).
Proof.
  intros Hn. unfold encode_varint. destruct (Z.ltb_spec n 64).
  - cbn [app decode_varint]. rewrite land_7f.
    replace ((n + 128) mod 128) with n by (Z.div_mod_to_equations; lia).
    destruct (Z.ltb_spec n 64); [done|lia].
  - rewrite land_3f, Z.shiftr_div_pow2 by lia. change (2 ^ 6) with 64.
    pose proof (Z.div_mod n 64 ltac:(lia)). pose proof (Z.mod_pos_bound n 64 ltac:(lia)).
    assert (0 < n / 64 < 128 ^ Z.of_nat 10)
      by (change (128 ^ Z.of_nat 10) with (2 ^ 70); Z.div_mod_to_equations; lia).
    destruct (decode_loop_encode 10 (n / 64) (n mod 64) 6 1 rest) as (l & Hl & Hne & Hd);
      [lia|done|lia|lia|lia|].
    replace (clear_last (n mod 64 + 192 :: varint_loop 10 (n / 64))) with (n mod 64 + 192 :: l).
    2: { revert Hl Hne. destruct (varint_loop 10 (n / 64)); intros <- ?; done. }
    cbn [app decode_varint]. rewrite land_7f.
    replace ((n mod 64 + 192) mod 128) with (n mod 64 + 64) by (Z.div_mod_to_equations; lia).
    destruct (Z.ltb_spec (n mod 64 + 64) 64); [lia|]. rewrite land_3f.
    replace ((n mod 64 + 64) mod 64) with (n mod 64) by (Z.div_mod_to_equations; lia).
    change (Z.shiftl 1 6) with (u64 (2 ^ 6)). rewrite Hd. do 2 f_equal; [lia|].
    unfold blen. simpl. lia.
Qed.

Lemma varint_roundtrip_witness :
  decode_varint (encode_varint 300000 ++ [7]) = Ret (300000, blen (encode_varint 300000)).
Proof. apply (varint_roundtrip 300000 [7]). split; [discriminate|reflexivity]. Defined.

(** The index encoding of the key codec: exact below 2^14, marked by a first
    byte above 127. *)
Lemma varint_old_roundtrip n rest :
  0 <= n < 2 ^ 14 ->
  decode_varint_old (encode_varint_old n ++ rest) = Ret (n, blen (encode_varint_old n)).
Proof.
  intros Hn. change (2 ^ 14) with 16384 in Hn. unfold encode_varint_old.
  destruct (Z.ltb_spec n 64).
  - cbn [app decode_varint_old]. replace (s8 (u8 (- n))) with (- n)
      by (unfold s8, swrap, u8; change (2 ^ (8 - 1)) with 128; mod_lia).
    rewrite Z.opp_involutive. destruct (Z.leb_spec 64 n); [lia|done].
  - rewrite land_3f, Z.shiftr_div_pow2 by lia. change (2 ^ 6) with 64.
    cbn [app decode_varint_old].
    replace (s8 (u8 (- (n mod 64) - 64))) with (- (n mod 64) - 64)
      by (unfold s8, swrap, u8; change (2 ^ (8 - 1)) with 128; mod_lia).
    destruct (Z.leb_spec 64 (- (- (n mod 64) - 64))); [|Z.div_mod_to_equations; lia].
    rewrite Z.shiftl_mul_pow2 by lia. change (2 ^ 6) with 64.
    replace (u8 (n / 64)) with (n / 64) by mod_lia.
    do 2 f_equal. Z.div_mod_to_equations; lia.
Qed.

Lemma varint_old_head n :
  1 <= n < 2 ^ 14 -> exists b r, encode_varint_old n = b :: r /\ 128 <= b < 256 /\ bytes_ok r.
Proof.
  intros Hn. change (2 ^ 14) with 16384 in Hn. unfold encode_varint_old.
  destruct (Z.ltb_spec n 64).
  - eexists _, _. split; [done|]. split; [mod_lia|constructor].
  - rewrite land_3f, Z.shiftr_div_pow2 by lia. change (2 ^ 6) with 64.
    eexists _, _. split; [done|]. split; [mod_lia|]. constructor; [mod_lia|constructor].
Qed.

Lemma length_varint_old n : (1 <= length (encode_varint_old n) <= 2)%nat.
Proof. unfold encode_varint_old. destruct (n <? 64); simpl; lia. Qed.
