(* ===== verification/Codec.v ===== *)
(** * The key codec (codec.c, codec.h)

    The hash tree stores keys compressed: a key such as [/photo/12345] is split
    into a format ([/photo/%d], kept once in a dictionary) and its numeric
    arguments.  This file models [parse_fmt], the dictionary with its open
    addressing index [rdict], [dc_encode], [dc_decode], [dc_dump], [dc_load] and
    the index rebuild, in the default build ([NEW_ENCODE] undefined).  The facts
    are in CodecFacts.v. *)
From Stdlib Require Import ZArith Lia List.
From stdpp Require Import base numbers list gmap.
From S2P Require Import Prelude Hash CText Varint.

Import Fnv.

Definition MAX_FMT_ARGS : Z := 2.
Definition DEFAULT_DICT_SIZE : Z := 1024.
Definition MAX_DICT_SIZE : Z := 16384.
Definition RDICT_SIZE (dict_size : Z) : Z := dict_size * 7 + 1.

Record Fmt := { nargs : Z; fmt : bytes }.

(** [dict] holds the entries that were allocated, [rdict] the nonzero slots. *)
Record Codec := {
  dict_size : Z;
  dict : gmap Z Fmt;
  rdict_size : Z;
  rdict : gmap Z Z;
  dict_used : Z
}.

Definition dc_new : Codec := {|
  dict_size := DEFAULT_DICT_SIZE;
  dict := ∅;
  rdict_size := RDICT_SIZE DEFAULT_DICT_SIZE;
  rdict := ∅;
  dict_used := 1
|}.

(** The C string held in a buffer: the bytes before the first zero. *)
Fixpoint cstr (l : bytes) : bytes :=
  match l with
  | [] => []
  | c :: r => if c =? 0 then [] else c :: cstr r
  end.
Definition strcmp_eq (a b : bytes) : bool := bool_decide (cstr a = cstr b).

(** [sizeof(Fmt) + strlen(fmt->fmt) - 7 + 1], [sizeof(Fmt)] being 8. *)
Definition fmt_size (f : Fmt) : Z := 8 + blen (cstr (fmt f)) - 7 + 1.

(** [dc->dict[i]]: the first [DEFAULT_DICT_SIZE] pointers were zeroed by
    [dc_new]; those added by [realloc] are indeterminate until set. *)
Definition dict_at (dc : Codec) (i : Z) : outcome (option Fmt) :=
  match dict dc !! i with
  | Some f => Ret (Some f)
  | None => if (0 <=? i) && (i <? DEFAULT_DICT_SIZE) then Ret None else Fault
  end.

(** [dc->rdict[h]], a zero-initialised array. *)
Definition rdict_get (rd : gmap Z Z) (h : Z) : Z := default 0 (rd !! h).

(** [++h; if (h == rdict_size) h = 0;] *)
Definition next_slot (n h : Z) : Z := if h + 1 =? n then 0 else h + 1.

(** [while (dc->rdict[h] > 0) { ++h; ... }] of [dc_rebuild] *)
Fixpoint free_slot (fuel : nat) (n : Z) (rd : gmap Z Z) (h : Z) : outcome Z :=
  match fuel with
  | O => Fault
  | S f => if 0 <? rdict_get rd h then free_slot f n rd (next_slot n h) else Ret h
  end.

(** The loop of [dc_rebuild] over the entries [i], [i+1], ... ([k] of them). *)
Fixpoint rebuild_loop (k : nat) (dc : Codec) (i : Z) (rd : gmap Z Z) : outcome (gmap Z Z) :=
  match k with
  | O => Ret rd
  | S k' =>
      f ← dict_at dc i;
      match f with
      | None => Fault
      | Some f =>
          h ← free_slot (Z.to_nat (rdict_size dc)) (rdict_size dc) rd
                (fnv1a (cstr (fmt f)) mod rdict_size dc);
          rebuild_loop k' dc (i + 1) (<[h := s16 i]> rd)
      end
  end.

Definition dc_rebuild (dc : Codec) : outcome Codec :=
  let dc := {| dict_size := dict_size dc; dict := dict dc;
               rdict_size := RDICT_SIZE (dict_size dc); rdict := ∅; dict_used := dict_used dc |} in
  rd ← rebuild_loop (Z.to_nat (dict_used dc - 1)) dc 1 ∅;
  Ret {| dict_size := dict_size dc; dict := dict dc;
         rdict_size := rdict_size dc; rdict := rd; dict_used := dict_used dc |}.

Definition dc_enlarge (dc : Codec) : outcome Codec :=
  dc_rebuild {| dict_size := Z.min (dict_size dc * 2) MAX_DICT_SIZE; dict := dict dc;
                rdict_size := rdict_size dc; rdict := rdict dc; dict_used := dict_used dc |}.

(** ** Parsing a key into a format *)
Definition is_dec (c : Z) : bool := (48 <=? c) && (c <=? 57).
Definition is_hexl (c : Z) : bool := (97 <=? c) && (c <=? 102).
(** [*p == '%' || *p == '@' || *p == ':'] *)
Definition unsupported (c : Z) : bool := (c =? 37) || (c =? 64) || (c =? 58).

(** The inner loop: collect hexadecimal digits into [num[m]] ([nd]), at most 9
    decimal or 8 hexadecimal ones.  Result: [hex[m]], the digits, the rest. *)
Fixpoint scan_num (hex : bool) (nd : bytes) (p : bytes) : bool * bytes * bytes :=
  match p with
  | c :: p' =>
      if is_dec c || is_hexl c then
        let hex := hex || is_hexl c in
        let nd := nd ++ [c] in
        if (hex && (8 <=? blen nd)) || (negb hex && (9 <=? blen nd)) then (hex, nd, p')
        else scan_num hex nd p'
      else (hex, nd, p)
  | [] => (hex, nd, [])
  end.

(** "8digit+1hex, pop it" *)
Definition pop_hex (r : bool * bytes * bytes) : bool * bytes * bytes :=
  let '(hex, nd, p) := r in
  if hex && (blen nd =? 9) then (false, take 8 nd, drop 8 nd ++ p) else r.

(** [char fmt[255]] of [dc_encode].  [parse_fmt] does not know its size: a write past
    its end is a fault. *)
Definition FMT_SIZE : Z := 255.
Definition put_fmt (fm x : bytes) : outcome bytes := if FMT_SIZE <? blen (fm ++ x) then Fault else Ret (fm ++ x).

(** The main loop; every round consumes a character, so the length of the key
    is enough fuel.  [None] is the early [return 0]. *)
Fixpoint parse_loop (fuel : nat) (m : Z) (fm : bytes) (args : list Z) (p : bytes)
  : outcome (option (Z * bytes * list Z)) :=
  match p, fuel with
  | [], _ => Ret (Some (m, fm, args))
  | _ :: _, O => Fault
  | c :: p', S f =>
      if unsupported c then Ret None
      else if (((49 <=? c) && (c <=? 57)) || is_hexl c) && (m <? MAX_FMT_ARGS + 1) then
        let '(hex, nd, p1) := pop_hex (scan_num false [] p) in
        if hex && (4 <=? blen nd) then
          fm ← put_fmt fm [37; 120];
          parse_loop f (m + 1) fm (args ++ [s32 (fst (strtol 16 nd))]) p1
        else if negb hex && (3 <=? blen nd) then
          fm ← put_fmt fm [37; 100];
          parse_loop f (m + 1) fm (args ++ [atoi nd]) p1
        else fm ← put_fmt fm nd; parse_loop f m fm args p1
      else fm ← put_fmt fm [c]; parse_loop f m fm args p'
  end.

(** [parse_fmt(src, len, fmt, &flen, args)]: [narg], the format, the arguments.  The
    terminating zero is written after the format. *)
Definition parse_fmt (src : bytes) : outcome (Z * bytes * list Z) :=
  r ← parse_loop (length src) 0 [] [] src;
  match r with
  | Some (m, fm, args) => _ ← put_fmt fm [0]; Ret (m, fm, args)
  | None => Ret (0, [], [])
  end.

(** ** Formatting: [snprintf] with the formats [parse_fmt] builds *)
Fixpoint fmt_print (f : bytes) (args : list Z) : outcome bytes :=
  match f with
  | [] => Ret []
  | 37 :: 120 :: r =>
      match args with a :: args' => t ← fmt_print r args'; Ret (print_x (u32 a) ++ t) | [] => Fault end
  | 37 :: 100 :: r =>
      match args with a :: args' => t ← fmt_print r args'; Ret (print_d (s32 a) ++ t) | [] => Fault end
  | 37 :: _ => Fault
  | c :: r => t ← fmt_print r args; Ret (c :: t)
  end.

(** [safe_snprintf(buf, n, fmt, args...)]: truncation ends the process. *)
Definition snprintf_fmt (n : Z) (f : bytes) (args : list Z) : outcome bytes :=
  t ← fmt_print (cstr f) args; if n <=? blen t then Exit 1 else Ret t.

(** [safe_memcpy(dst, dst_num, src, src_num)]: the copied bytes. *)
Definition safe_memcpy (dst_num : Z) (src : bytes) : outcome bytes :=
  if dst_num <? blen src then Exit 1 else Ret src.

(** ** Encoding a key *)
Definition dc_encode_key_with_fmt (idx buf_size : Z) (args : list Z) (narg : Z) : outcome bytes :=
  let v := encode_varint_old idx in
  a ← safe_memcpy (buf_size - blen v) (flat_map (fun a => le_bytes 4 (u32 a)) (take (Z.to_nat narg) args));
  Ret (v ++ a).

(** [while (rdict[h] > 0 && strcmp(fmt, dict[rdict[h]]->fmt) != 0) ...] *)
Fixpoint find_slot (fuel : nat) (dc : Codec) (f : bytes) (h : Z) : outcome Z :=
  match fuel with
  | O => Fault
  | S k =>
      if 0 <? rdict_get (rdict dc) h then
        e ← dict_at dc (rdict_get (rdict dc) h);
        match e with
        | None => Fault
        | Some e => if strcmp_eq f (fmt e) then Ret h
                    else find_slot k dc f (next_slot (rdict_size dc) h)
        end
      else Ret h
  end.

(** The dictionary part of [dc_encode]: the entry number for the format, [-1]
    when the dictionary is full. *)
Definition dc_intern (dc : Codec) (narg : Z) (f : bytes) : outcome (Codec * Z) :=
  h ← find_slot (Z.to_nat (rdict_size dc)) dc f (fnv1a f mod rdict_size dc);
  let rh := rdict_get (rdict dc) h in
  if rh =? 0 then
    if dict_used dc <? dict_size dc then
      let dc1 := {| dict_size := dict_size dc;
                    dict := <[dict_used dc := {| nargs := u8 narg; fmt := f |}]> (dict dc);
                    rdict_size := rdict_size dc;
                    rdict := <[h := s16 (dict_used dc)]> (rdict dc);
                    dict_used := dict_used dc + 1 |} in
      let rh := dict_used dc in
      if (dict_used dc1 =? dict_size dc1) && (dict_size dc1 <? MAX_DICT_SIZE) then
        dc2 ← dc_enlarge dc1; Ret (dc2, rh)
      else Ret (dc1, rh)
    else
      Ret ({| dict_size := dict_size dc; dict := dict dc; rdict_size := rdict_size dc;
              rdict := <[h := -1]> (rdict dc); dict_used := dict_used dc |}, -1)
  else Ret (dc, rh).

(** [src[0] > 0] with [char] signed. *)
Definition first_positive (src : bytes) : bool :=
  match src with c :: _ => 0 <? s8 c | [] => false end.

Definition dc_encode (dc : Codec) (buf_size : Z) (src : bytes) : outcome (Codec * bytes) :=
  '(narg, f, args) ← parse_fmt src;
  if (6 <? blen src) && (blen src <? 100) && first_positive src && (0 <? narg)
     && (narg <=? MAX_FMT_ARGS)
  then
    '(dc', rh) ← dc_intern dc narg f;
    if 0 <? rh then
      e ← dc_encode_key_with_fmt rh buf_size args narg; Ret (dc', e)
    else
      e ← safe_memcpy buf_size src; Ret (dc', e)
  else
    e ← safe_memcpy buf_size src; Ret (dc, e).

(** ** Decoding a key *)
(** The [int32_t] arguments stored after the index. *)
Definition read_arg (src : bytes) (off : nat) : Z := s32 (le_val (take 4 (drop off src))).

Definition dc_decode_key_with_fmt (dc : Codec) (buf_size : Z) (src : bytes) : outcome bytes :=
  if blen src <? 5 then Ret [] else
  '(idx, intlen) ← decode_varint_old src;
  e ← dict_at dc idx;
  match e with
  | None => Ret []
  | Some f =>
      if negb (blen src =? nargs f * 4 + intlen) then Ret [] else
      let a k := read_arg src (Z.to_nat intlen + 4 * k) in
      if nargs f =? 1 then snprintf_fmt buf_size (fmt f) [a 0%nat]
      else if nargs f =? 2 then snprintf_fmt buf_size (fmt f) [a 0%nat; a 1%nat]
      else if nargs f =? 3 then snprintf_fmt buf_size (fmt f) [a 0%nat; a 1%nat; a 2%nat]
      else Ret []
  end.

(** [dc_decode(dc, buf, buf_size, src, len)]: the decoded bytes; an error is the
    length 0.  The plain branch also writes [buf[len] = 0]. *)
Definition dc_decode (dc : Codec) (buf_size : Z) (src : bytes) : outcome bytes :=
  match src with
  | [] => Fault
  | c :: _ =>
      if s8 c <? 0 then dc_decode_key_with_fmt dc buf_size src
      else
        e ← safe_memcpy buf_size src;
        if blen src <? buf_size then Ret e else Fault
  end.

(** ** Saving and loading the dictionary *)
Fixpoint dc_size_loop (k : nat) (dc : Codec) (i s : Z) : outcome Z :=
  match k with
  | O => Ret s
  | S k' => e ← dict_at dc i;
            match e with None => Fault | Some f => dc_size_loop k' dc (i + 1) (s + (1 + fmt_size f)) end
  end.
Definition dc_size (dc : Codec) : outcome Z := dc_size_loop (Z.to_nat (dict_used dc - 1)) dc 1 4.

(** A [Fmt] in memory: the argument count, the format, its zero byte. *)
Definition fmt_bytes (f : Fmt) : bytes := nargs f :: fmt f ++ [0].

(** The loop of [dc_dump]; [out] is what was written so far.  [None] is the
    return value -1. *)
Fixpoint dump_loop (k : nat) (dc : Codec) (i size : Z) (out : bytes) : outcome (option bytes) :=
  match k with
  | O => Ret (Some out)
  | S k' =>
      e ← dict_at dc i;
      match e with
      | None => Fault
      | Some f =>
          let s := u8 (fmt_size f) in
          if size <? blen out + s + 1 then Ret None
          else dump_loop k' dc (i + 1) size (out ++ [s] ++ take (Z.to_nat s) (fmt_bytes f))
      end
  end.
Definition dc_dump (dc : Codec) (size : Z) : outcome (option bytes) :=
  if size <? 4 then Ret None
  else dump_loop (Z.to_nat (dict_used dc - 1)) dc 1 size (le_bytes 4 (u32 (dict_used dc))).

(** An entry read back from [s] bytes of the file. *)
Definition fmt_of_bytes (b : bytes) : outcome Fmt :=
  match b with [] => Fault | n :: r => Ret {| nargs := n; fmt := cstr r |} end.

(** The loop of [dc_load]; [buf] is what is left to read ([offset] bytes were
    consumed).  Reading past the buffer is a fault, as the C code reads first
    and compares [offset] with [size] afterwards. *)
Fixpoint load_loop (k : nat) (d : gmap Z Fmt) (i offset size : Z) (buf : bytes)
  : outcome (option (gmap Z Fmt * Z)) :=
  match k with
  | O => Ret (Some (d, i))
  | S k' =>
      match buf with
      | [] => Fault
      | s :: buf =>
          if size <? offset + 1 then Ret None
          else if blen buf <? s then Fault
          else
            f ← fmt_of_bytes (take (Z.to_nat s) buf);
            if size <? offset + 1 + s then Ret None
            else load_loop k' (<[i := f]> d) (i + 1) (offset + 1 + s) size (drop (Z.to_nat s) buf)
      end
  end.

(** [dc_load(dc, buf, size)] on a codec fresh from [dc_new], as [ht_open] calls
    it; [None] is the return value -1. *)
Definition dc_load (dc : Codec) (buf : bytes) (size : Z) : outcome (option Codec) :=
  if blen buf <? 4 then Fault else
  let used := s32 (le_val (take 4 buf)) in
  if size <? 4 then Ret None
  else if MAX_DICT_SIZE <? used then Ret None
  else
    let dsize := u32 (Z.min (used * 2) MAX_DICT_SIZE) in
    let dsize := if dict_size dc <? dsize then dsize else dict_size dc in
    r ← load_loop (Z.to_nat (used - 1)) (dict dc) 1 4 size (drop 4 buf);
    match r with
    | None => Ret None
    | Some (d, n) =>
        dc' ← dc_rebuild {| dict_size := dsize; dict := d; rdict_size := rdict_size dc;
                            rdict := rdict dc; dict_used := n |};
        Ret (Some dc')
    end.

(** ** What the hash tree uses of the codec *)
Class KeyCodec (C : Type) := {
  kc_new : C;
  kc_encode : C -> Z -> bytes -> outcome (C * bytes);
  kc_decode : C -> Z -> bytes -> outcome bytes;
  kc_size : C -> outcome Z;
  kc_dump : C -> Z -> outcome (option bytes);
  kc_load : C -> bytes -> Z -> outcome (option C)
}.

#[export] Instance codec_key_codec : KeyCodec Codec := {
  kc_new := dc_new; kc_encode := dc_encode; kc_decode := dc_decode;
  kc_size := dc_size; kc_dump := dc_dump; kc_load := dc_load
}.
