(* ===== verification/CodecFacts.v ===== *)
(** * Correctness of the key codec

    Decoding inverts encoding; an encoding once issued stays the encoding of
    its key however the dictionary grows afterwards; the open-addressing index
    always terminates and finds every entry; the dictionary survives a dump and
    a load.  The last section packages this as what the hash tree relies on. *)
From Stdlib Require Import ZArith Lia List.
From stdpp Require Import base numbers list gmap strings.
From S2P Require Import Prelude Hash CText Varint Codec.

Import Fnv FnvFacts.

(** ** Digits collected by the parser *)
Definition hexdig (c : Z) : Prop := is_dec c = true \/ is_hexl c = true.

Lemma hexdig_val c : hexdig c -> 0 <= digit_val c < 16 /\ digit_char (digit_val c) = c.
Proof.
  unfold hexdig, is_dec, is_hexl, digit_val, digit_char. intros H.
  assert (Hc : (48 <= c <= 57) \/ (97 <= c <= 102)) by (destruct H as [H|H]; bool_to_prop; lia).
  destruct Hc; repeat match goal with |- context [?a <=? ?b] => destruct (Z.leb_spec a b) end;
    simpl; try lia;
    match goal with |- context [?a <? ?b] => destruct (Z.ltb_spec a b) end; lia.
Qed.

Lemma dec_val c : is_dec c = true -> 0 <= digit_val c < 10 /\ digit_char (digit_val c) = c.
Proof.
  intros H. destruct (hexdig_val c (or_introl H)) as [_ ?]. split; [|done].
  unfold is_dec, digit_val in *. bool_to_prop.
  repeat match goal with |- context [?a <=? ?b] => destruct (Z.leb_spec a b) end; simpl; lia.
Qed.

Lemma map_digit_char nd :
  Forall hexdig nd -> List.map digit_char (List.map digit_val nd) = nd.
Proof.
  induction 1 as [|c l Hc _ IH]; simpl; [done|]. f_equal; [|done]. by apply hexdig_val.
Qed.

Lemma Forall_is_dec_hexdig nd : Forall (fun c => is_dec c = true) nd -> Forall hexdig nd.
Proof. intros H. eapply Forall_impl; [exact H|]. intros c Hc. by left. Qed.

Lemma digits_ok_16 nd : Forall hexdig nd -> digits_ok 16 (List.map digit_val nd).
Proof. induction 1; simpl; constructor; auto. by apply hexdig_val. Qed.
Lemma digits_ok_10 nd :
  Forall (fun c => is_dec c = true) nd -> digits_ok 10 (List.map digit_val nd).
Proof. induction 1; simpl; constructor; auto. by apply dec_val. Qed.

(** What the [strto*] family reads from a string of digits that does not start
    with a zero. *)
Lemma strto_scan_digits base nd :
  0 < base <= 16 -> nd <> [] -> Forall hexdig nd -> digits_ok base (List.map digit_val nd) ->
  head nd <> Some 48 ->
  strto_scan base nd =
    {| st_neg := false; st_mag := from_digits base (List.map digit_val nd); st_used := length nd |}.
Proof.
  intros Hb Hne Hhex Hok Hhd. destruct nd as [|c r]; [done|].
  assert (Hc : c <> 48) by (intros ->; done).
  pose proof (Forall_inv Hhex) as Hch.
  assert (Hcr : (49 <= c <= 57) \/ (97 <= c <= 102)).
  { destruct Hch as [H|H]; unfold is_dec, is_hexl in H; bool_to_prop; lia. }
  assert (Hsp : isspace c = false) by (unfold isspace; lia).
  unfold strto_scan. cbn [skip_spaces]. rewrite Hsp.
  assert (Hsign : take_sign (c :: r) = (false, c :: r, 0%nat)).
  { unfold take_sign. destruct c as [|q|q]; try done; do 6 (destruct q as [q|q|]; try done); lia. }
  rewrite Hsign.
  assert (H0x : take_0x base (c :: r) = (c :: r, 0%nat)).
  { unfold take_0x. destruct c as [|q|q]; try done; do 6 (destruct q as [q|q|]; try done); lia. }
  rewrite H0x. rewrite <- (map_digit_char (c :: r) Hhex) at 1.
  rewrite <- (app_nil_r (List.map digit_char _)).
  rewrite scan_digits_app by (done || lia). rewrite length_map. simpl. done.
Qed.

(** [%x] of [strtol(nd, NULL, 16)], stored in an [int32_t], is [nd]. *)
Lemma print_strtol16 nd :
  nd <> [] -> Forall hexdig nd -> head nd <> Some 48 -> (length nd <= 8)%nat ->
  print_x (u32 (s32 (fst (strtol 16 nd)))) = nd.
Proof.
  intros Hne Hhex Hhd Hlen. assert (Hok := digits_ok_16 nd Hhex).
  unfold strtol. rewrite strto_scan_digits by (done || lia). cbn [st_neg st_mag].
  pose proof (from_digits_nonneg 16 _ ltac:(lia) (digits_ok_nonneg _ _ Hok)).
  pose proof (from_digits_lt 16 _ ltac:(lia) Hok) as Hlt. rewrite length_map in Hlt.
  set (v := from_digits 16 _) in *.
  assert (v < 2 ^ 32).
  { eapply Z.lt_le_trans; [exact Hlt|]. change (2 ^ 32) with (16 ^ 8).
    apply Z.pow_le_mono_r; lia. }
  unfold LONG_MAX, LONG_MIN. destruct (Z.gtb_spec v (2 ^ 63 - 1)); [lia|].
  destruct (Z.ltb_spec v (- 2 ^ 63)); [lia|]. simpl. rewrite u32_s32, u32_id by lia.
  unfold print_x, v. rewrite digits_from_digits; auto; try lia.
  - by apply map_digit_char.
  - destruct nd; [done|discriminate].
  - destruct nd as [|c r]; [done|]. simpl in *. intros [= Hc].
    pose proof (Forall_inv Hhex) as Hch. apply hexdig_val in Hch as [_ Hch].
    rewrite Hc in Hch. apply Hhd. by rewrite <- Hch.
Qed.

(** [%d] of [atoi(nd)] is [nd]. *)
Lemma print_atoi nd :
  nd <> [] -> Forall (fun c => is_dec c = true) nd -> head nd <> Some 48 -> (length nd <= 9)%nat ->
  - 2 ^ 31 <= atoi nd < 2 ^ 31 /\ print_d (s32 (atoi nd)) = nd.
Proof.
  intros Hne Hdec Hhd Hlen. assert (Hok := digits_ok_10 nd Hdec).
  assert (Hhex := Forall_is_dec_hexdig nd Hdec).
  unfold atoi, strtol. rewrite strto_scan_digits by (done || lia). cbn [st_neg st_mag].
  pose proof (from_digits_nonneg 10 _ ltac:(lia) (digits_ok_nonneg _ _ Hok)).
  pose proof (from_digits_lt 10 _ ltac:(lia) Hok) as Hlt. rewrite length_map in Hlt.
  set (v := from_digits 10 _) in *.
  assert (v < 10 ^ 9).
  { eapply Z.lt_le_trans; [exact Hlt|]. apply Z.pow_le_mono_r; lia. }
  unfold LONG_MAX, LONG_MIN. destruct (Z.gtb_spec v (2 ^ 63 - 1)); [lia|].
  destruct (Z.ltb_spec v (- 2 ^ 63)); [lia|]. cbn [fst]. rewrite !s32_id by (rewrite ?s32_id; lia).
  split; [lia|]. unfold print_d. destruct (Z.ltb_spec v 0); [lia|].
  unfold print_u, v. rewrite digits_from_digits; auto; try lia.
  - by apply map_digit_char.
  - destruct nd; [done|discriminate].
  - destruct nd as [|c r]; [done|]. simpl in *. intros [= Hc].
    pose proof (Forall_inv Hdec) as Hch. apply dec_val in Hch as [_ Hch].
    rewrite Hc in Hch. apply Hhd. by rewrite <- Hch.
Qed.

(** ** The number scanner *)
Definition scan_inv (hex : bool) (nd : bytes) : Prop :=
  Forall hexdig nd /\ (length nd <= 9)%nat /\
  (if hex then (length nd <= 8)%nat \/ Forall (fun c => is_dec c = true) (take 8 nd)
   else Forall (fun c => is_dec c = true) nd).

Lemma scan_inv_init (hex : bool) (nd : bytes) :
  Forall hexdig nd ->
  (if hex then (length nd <= 7)%nat
   else (length nd <= 8)%nat /\ Forall (fun c => is_dec c = true) nd) -> scan_inv hex nd.
Proof. intros H Hh. split; [done|]. destruct hex; [|destruct Hh]; split; auto; lia. Qed.

Lemma scan_num_spec p hex nd hex' nd' rest :
  scan_num hex nd p = (hex', nd', rest) ->
  Forall hexdig nd -> (if hex then (length nd <= 7)%nat
                       else (length nd <= 8)%nat /\ Forall (fun c => is_dec c = true) nd) ->
  scan_inv hex' nd' /\ exists t, nd' = nd ++ t /\ p = t ++ rest.
Proof.
  revert hex nd. induction p as [|c p IH]; intros hex nd H Hnd Hh; simpl in H.
  { injection H as <- <- <-. split; [|exists []; by rewrite app_nil_r].
    apply scan_inv_init; auto. }
  destruct (is_dec c || is_hexl c) eqn:Hc.
  2: { injection H as <- <- <-. split; [|exists []; by rewrite app_nil_r].
       apply scan_inv_init; auto. }
  assert (Hcd : hexdig c) by (apply orb_prop in Hc; done).
  assert (Hnd' : Forall hexdig (nd ++ [c])) by (apply Forall_app; auto).
  assert (Hl' : length (nd ++ [c]) = S (length nd)) by (rewrite length_app; simpl; lia).
  assert (Hstep : scan_inv (hex || is_hexl c) (nd ++ [c])).
  { split; [done|]. destruct hex; simpl; [split; [lia|left; lia]|].
    destruct Hh as [Hh1 Hh2]. split; [lia|]. destruct (is_hexl c) eqn:Hx.
    - destruct (Nat.eq_dec (length nd) 8%nat); [|left; lia]. right.
      rewrite take_app_le, take_ge by lia. done.
    - apply Forall_app. split; [done|]. constructor; [|done].
      destruct (is_dec c); [done|discriminate]. }
  destruct ((hex || is_hexl c) && (8 <=? blen (nd ++ [c])) ||
            negb (hex || is_hexl c) && (9 <=? blen (nd ++ [c]))) eqn:Hbrk.
  { injection H as <- <- <-. split; [done|]. by exists [c]. }
  apply IH in H as [Hi (t & -> & ->)]; [|done|].
  { split; [done|]. exists (c :: t). by rewrite <- app_assoc. }
  unfold blen in Hbrk. rewrite Hl' in *. destruct Hstep as (_ & _ & Hs).
  destruct (hex || is_hexl c); cbn [andb orb negb] in Hbrk.
  - apply orb_false_elim in Hbrk as [Hbrk _]. apply Z.leb_gt in Hbrk. clear -Hbrk. lia.
  - apply Z.leb_gt in Hbrk. split; [clear -Hbrk; lia|done].
Qed.

(** The digits of a number at the head of [p], after the pop. *)
Lemma pop_scan_spec c p hex nd rest :
  hexdig c -> pop_hex (scan_num false [] (c :: p)) = (hex, nd, rest) ->
  exists nd1, nd = c :: nd1 /\ c :: p = nd ++ rest /\ Forall hexdig nd /\
    (if hex then (length nd <= 8)%nat else (length nd <= 9)%nat /\ Forall (fun c => is_dec c = true) nd).
Proof.
  intros Hc H. destruct (scan_num false [] (c :: p)) as [[h n] r] eqn:Hs.
  assert (Hhead : exists n1, n = c :: n1).
  { revert Hs. cbn [scan_num]. destruct (is_dec c || is_hexl c) eqn:E;
      [|apply orb_false_elim in E as [E1 E2]; destruct Hc; congruence].
    cbn [app orb]. match goal with |- context [if ?b then _ else _] => destruct b eqn:Hb end.
    - intros [= <- <- <-]. by exists [].
    - intros Hs. apply scan_num_spec in Hs as [_ (t & -> & _)]; [by exists t|by constructor|].
      destruct (is_hexl c) eqn:Ex; simpl; [lia|]. split; [lia|]. constructor; [|done].
      by destruct (is_dec c). }
  destruct Hhead as [n1 ->].
  apply scan_num_spec in Hs as [Hi (t & Ht & Hp)]; [|constructor|split; [simpl; lia|constructor]].
  simpl in Ht. subst t. destruct Hi as (Hhex & Hl9 & Hi). unfold pop_hex in H.
  destruct (h && (blen (c :: n1) =? 9)) eqn:Hpop.
  - injection H as <- <- <-. apply andb_prop in Hpop as [-> Hl]. unfold blen in Hl.
    exists (take 7 n1). split; [done|]. split.
    { rewrite Hp. simpl. f_equal. by rewrite app_assoc, take_drop. }
    split; [by apply (Forall_take _ 8 (c :: n1))|].
    split; [simpl; rewrite length_take; lia|].
    destruct Hi as [Hi|Hi]; [|exact Hi]. apply Z.eqb_eq in Hl. exfalso. lia.
  - injection H as <- <- <-. exists n1. split; [done|]. split; [done|]. split; [done|].
    destruct h; [|done]. apply andb_false_elim in Hpop as [?|Hl]; [done|].
    unfold blen in Hl. apply Z.eqb_neq in Hl. lia.
Qed.

(** ** The format parser *)
Definition count_pct (f : bytes) : nat := length (List.filter (fun c => c =? 37) f).

Lemma count_pct_app a b : count_pct (a ++ b) = (count_pct a + count_pct b)%nat.
Proof. unfold count_pct. by rewrite List.filter_app, length_app. Qed.

Lemma fmt_print_cons c f args :
  c <> 37 -> fmt_print (c :: f) args = (t ← fmt_print f args; Ret (c :: t)).
Proof.
  intros Hc. destruct c as [|q|q]; try done.
  do 6 (destruct q as [q|q|]; try done).
Qed.

Lemma fmt_print_lit l f args t :
  Forall (fun c => c <> 37) l -> fmt_print f args = Ret t -> fmt_print (l ++ f) args = Ret (l ++ t).
Proof.
  intros Hl Hf. induction Hl as [|c l Hc _ IH]; [done|].
  rewrite <- !app_comm_cons, fmt_print_cons by done. by rewrite IH.
Qed.

Lemma hexdig_plain c : hexdig c -> c <> 37 /\ c <> 0.
Proof. intros [H|H]; unfold is_dec, is_hexl in H; bool_to_prop; lia. Qed.

Lemma count_pct_plain l : Forall (fun c => c <> 37) l -> count_pct l = 0%nat.
Proof.
  unfold count_pct. induction 1 as [|c l Hc _ IH]; [done|]. simpl.
  destruct (Z.eqb_spec c 37); [done|exact IH].
Qed.

(** What a format and its arguments stand for. *)
Record parses (p f : bytes) (a : list Z) : Prop := {
  parses_count : count_pct f = length a;
  parses_nz : Forall (fun c => c <> 0) f;
  parses_len : (length f <= length p)%nat;
  parses_print : fmt_print f a = Ret p
}.

Lemma parses_nil : parses [] [] [].
Proof. by repeat constructor. Qed.

Lemma parses_lit l p f a :
  Forall (fun c => c <> 37) l -> Forall (fun c => c <> 0) l -> parses p f a ->
  parses (l ++ p) (l ++ f) a.
Proof.
  intros H1 H2 [Hc Hz Hl Hp]. constructor.
  - by rewrite count_pct_app, count_pct_plain.
  - by apply Forall_app.
  - rewrite !length_app. lia.
  - by apply fmt_print_lit.
Qed.

Lemma parses_spec x n v p f a :
  (x = 120 /\ print_x (u32 v) = n) \/ (x = 100 /\ print_d (s32 v) = n) ->
  (2 <= length n)%nat -> parses p f a -> parses (n ++ p) (37 :: x :: f) (v :: a).
Proof.
  intros Hx Hn [Hc Hz Hl Hp]. constructor.
  - change (37 :: x :: f) with ([37; x] ++ f). rewrite count_pct_app, Hc.
    destruct Hx as [[-> _]|[-> _]]; done.
  - repeat constructor; [done| |done]. destruct Hx as [[-> _]|[-> _]]; done.
  - rewrite length_app. simpl. lia.
  - destruct Hx as [[-> <-]|[-> <-]]; simpl; by rewrite Hp.
Qed.

Lemma put_fmt_ok fm x : blen fm + blen x <= FMT_SIZE -> put_fmt fm x = Ret (fm ++ x).
Proof. intros H. unfold put_fmt. rewrite blen_app. by rewrite (proj2 (Z.ltb_ge _ _)). Qed.
Lemma put_fmt_ret fm x y : put_fmt fm x = Ret y -> y = fm ++ x.
Proof. unfold put_fmt. case_match; [done|]. by intros [= <-]. Qed.

(** The parser's loop: what it appends prints back what it consumed. *)
Lemma parse_loop_spec fuel m fm args p m' fm' args' :
  parse_loop fuel m fm args p = Ret (Some (m', fm', args')) -> Forall (fun c => c <> 0) p ->
  exists f a, fm' = fm ++ f /\ args' = args ++ a /\ m' = m + Z.of_nat (length a) /\ parses p f a.
Proof.
  assert (Hdone : forall m fm args, exists f a : list Z, fm = fm ++ f /\ args = args ++ a /\
    m = m + Z.of_nat (length a) /\ parses [] f a).
  { intros. exists [], []. rewrite !app_nil_r. simpl. auto using parses_nil with lia. }
  revert m fm args p. induction fuel as [|fuel IH]; intros m fm args [|c p] H Hp; cbn [parse_loop] in H;
    try (injection H as <- <- <-; apply Hdone); [done|].
  destruct (unsupported c) eqn:Hu; [done|].
  assert (Hc37 : c <> 37) by (unfold unsupported in Hu; lia).
  destruct (Forall_cons_1 _ _ _ Hp) as [Hc0 Hp'].
  destruct ((((49 <=? c) && (c <=? 57)) || is_hexl c) && (m <? MAX_FMT_ARGS + 1)) eqn:Hnum.
  2: { apply bind_ret in H as (fm1 & ->%put_fmt_ret & H). apply IH in H as (f & a & -> & -> & -> & Hps); [|done].
       exists (c :: f), a. rewrite <- app_assoc. do 3 (split; [done|]).
       apply (parses_lit [c]); [by apply Forall_singleton ..|done]. }
  apply andb_prop in Hnum as [Hnum _].
  assert (Hc : hexdig c /\ c <> 48).
  { unfold hexdig, is_dec, is_hexl in *. lia. }
  destruct Hc as [Hc Hc48].
  destruct (pop_hex (scan_num false [] (c :: p))) as [[hex nd] p1] eqn:Hs.
  destruct (pop_scan_spec _ _ _ _ _ Hc Hs) as (nd1 & Hnd & Hsplit & Hhex & Hlen).
  rewrite Hsplit in Hp. apply Forall_app in Hp as [Hndnz Hp1nz].
  assert (Hhd : head nd <> Some 48) by (rewrite Hnd; simpl; congruence).
  assert (Hne : nd <> []) by (rewrite Hnd; done).
  rewrite Hsplit. clear Hnd Hs.
  destruct (hex && (4 <=? blen nd)) eqn:E1; [|destruct (negb hex && (3 <=? blen nd)) eqn:E2];
    apply bind_ret in H as (fm1 & ->%put_fmt_ret & H).
  - apply andb_prop in E1 as [-> E1]. apply Z.leb_le in E1. unfold blen in E1.
    apply IH in H as (f & a & -> & -> & -> & Hps); [|done].
    eexists (37 :: 120 :: f), (_ :: a). rewrite <- !app_assoc. simpl. split; [done|].
    split; [done|]. split; [lia|]. apply parses_spec; [|lia|done].
    left. split; [done|]. by apply print_strtol16.
  - apply andb_prop in E2 as [Eh E2]. apply Z.leb_le in E2. unfold blen in E2.
    destruct hex; [done|]. destruct Hlen as [Hlen Hdec].
    apply IH in H as (f & a & -> & -> & -> & Hps); [|done].
    eexists (37 :: 100 :: f), (_ :: a). rewrite <- !app_assoc. simpl. split; [done|].
    split; [done|]. split; [lia|]. apply parses_spec; [|lia|done].
    right. split; [done|]. by apply print_atoi.
  - apply IH in H as (f & a & -> & -> & -> & Hps); [|done].
    exists (nd ++ f), a. rewrite <- app_assoc. split; [done|]. split; [done|]. split; [done|].
    apply parses_lit; auto. eapply Forall_impl; [exact Hhex|]. intros x Hx. by apply hexdig_plain.
Qed.

(** What [parse_fmt] finds, when it returns. *)
Definition parsed (src : bytes) : Z * bytes * list Z := match parse_fmt src with Ret r => r | _ => (0, [], []) end.

Lemma parsed_parses src n f a :
  Forall (fun c => c <> 0) src -> parsed src = (n, f, a) -> 0 < n ->
  n = Z.of_nat (length a) /\ parses src f a.
Proof.
  unfold parsed, parse_fmt. intros Hz H Hn.
  destruct (parse_loop (length src) 0 [] [] src) as [[[[m fm] args]|]|?|] eqn:Hl; cbn [mbind outcome_bind] in H; try (injection H as <- <- <-; lia).
  destruct (put_fmt fm [0]); cbn [mbind outcome_bind] in H; injection H as <- <- <-; try lia.
  apply parse_loop_spec in Hl as (f & a & -> & -> & -> & Hp); [|done]. done.
Qed.

(** The fuel and the buffer are enough: a key of at most 254 bytes is parsed. *)
Lemma parse_loop_ret fuel m fm args p :
  (length p <= fuel)%nat -> blen fm + blen p < FMT_SIZE ->
  exists r, parse_loop fuel m fm args p = Ret r /\ match r with Some (_, f, _) => blen f <= blen fm + blen p | None => True end.
Proof.
  revert m fm args p. induction fuel as [|fuel IH]; intros m fm args [|c p] Hl Hb; cbn [parse_loop];
    [eexists; split; [done|]; cbv beta iota; unfold blen; cbn [length]; lia|simpl in Hl; lia|eexists; split; [done|]; cbv beta iota; unfold blen; cbn [length]; lia|].
  destruct (unsupported c); [by exists None|]. unfold blen in *. cbn [length] in *.
  assert (Hgo : forall m' x args' p1, (length x + length p1 <= S (length p))%nat -> (1 <= length x)%nat -> (length p1 <= length p)%nat ->
    exists r, (fm ← put_fmt fm x; parse_loop fuel m' fm args' p1) = Ret r /\
      match r with Some (_, f, _) => Z.of_nat (length f) <= Z.of_nat (length fm) + Z.of_nat (S (length p)) | None => True end).
  { intros m' x args' p1 H1 H2 H3. rewrite put_fmt_ok by (unfold blen; lia). cbn [mbind outcome_bind].
    destruct (IH m' (fm ++ x) args' p1) as (r & -> & Hr); [lia|rewrite length_app; lia|]. exists r. split; [done|]. destruct r as [[[? f] ?]|]; [|done]. rewrite length_app in Hr. lia. }
  destruct ((((49 <=? c) && (c <=? 57)) || is_hexl c) && (m <? MAX_FMT_ARGS + 1)) eqn:Hnum; [|apply Hgo; simpl; lia].
  apply andb_prop in Hnum as [Hnum _].
  assert (Hc : hexdig c) by (unfold hexdig, is_dec, is_hexl in *; lia).
  destruct (pop_hex (scan_num false [] (c :: p))) as [[hex nd] p1] eqn:Hs.
  destruct (pop_scan_spec _ _ _ _ _ Hc Hs) as (nd1 & -> & Hsplit & _ & _).
  apply (f_equal length) in Hsplit. rewrite length_app in Hsplit. cbn [length] in Hsplit.
  destruct (hex && _) eqn:E1; [|destruct (negb hex && _) eqn:E2]; apply Hgo; try (cbn [length]; lia);
    [apply andb_prop in E1 as [_ E%Z.leb_le]|apply andb_prop in E2 as [_ E%Z.leb_le]]; unfold blen in E; cbn [length] in *; lia.
Qed.

Lemma parse_fmt_ret src : blen src < FMT_SIZE -> parse_fmt src = Ret (parsed src).
Proof.
  intros H. unfold parsed. destruct (parse_loop_ret (length src) 0 [] [] src) as (r & E & Hr); [done|done|]. unfold parse_fmt. rewrite E. cbn [mbind outcome_bind].
  destruct r as [[[m f] a]|]; [|done]. change (blen []) with 0 in Hr. by rewrite put_fmt_ok by (change (blen [0]) with 1; lia).
Qed.

(** A longer key overflows the buffer, although [dc_encode] then does not use the
    format ([len < 100] is tested afterwards); the trees only encode keys of at most
    250 bytes. *)
Example parse_fmt_overflow : parse_fmt (repeat 45 254) = Ret (0, repeat 45 254, []) /\ parse_fmt (repeat 45 255) = Fault.
Proof. vm_compute. split; reflexivity. Qed.

(** ** The stored form of a key *)
Lemma cstr_id l : Forall (fun c => c <> 0) l -> cstr l = l.
Proof.
  induction 1 as [|c l Hc _ IH]; simpl; [done|].
  destruct (Z.eqb_spec c 0); [done|]. by rewrite IH.
Qed.

Lemma strcmp_eq_iff a b :
  Forall (fun c => c <> 0) a -> Forall (fun c => c <> 0) b -> strcmp_eq a b = true <-> a = b.
Proof. intros Ha Hb. unfold strcmp_eq. rewrite bool_decide_eq_true, !cstr_id by done. done. Qed.

Definition args_bytes (a : list Z) : bytes := flat_map (fun a => le_bytes 4 (u32 a)) a.

Lemma length_args_bytes a : length (args_bytes a) = (4 * length a)%nat.
Proof. induction a; simpl; [done|]. rewrite IHa. lia. Qed.

Lemma take_args_bytes a k x : a !! k = Some x -> take 4 (drop (4 * k) (args_bytes a)) = le_bytes 4 (u32 x).
Proof.
  revert k. induction a as [|y a IH]; intros k Hx; [done|]. destruct k as [|k]; simpl in Hx.
  - by injection Hx as ->.
  - replace (4 * S k)%nat with (4 + 4 * k)%nat by lia. simpl. by apply IH.
Qed.

Lemma read_arg_spec v a k x :
  a !! k = Some x -> read_arg (v ++ args_bytes a) (Z.to_nat (blen v) + 4 * k) = s32 x.
Proof.
  intros Hx. unfold read_arg, blen. rewrite Nat2Z.id, drop_app_add.
  rewrite (take_args_bytes a k x Hx), le_val_le_bytes_id by apply u32_range. apply s32_u32.
Qed.

Lemma s32_idemp x : s32 (s32 x) = s32 x.
Proof. by rewrite <- s32_u32, u32_s32, s32_u32. Qed.

(** An argument that went through an [int32_t] prints as before. *)
Lemma fmt_print_s32 g l : fmt_print g (List.map s32 l) = fmt_print g l.
Proof.
  revert l. induction g as [g IH] using (induction_ltof1 _ (@length _)).
  unfold ltof in IH. intros l. destruct g as [|c g]; [done|].
  destruct (Z.eq_dec c 37) as [->|Hc37].
  2: { rewrite !fmt_print_cons by done. rewrite IH by (simpl; lia). done. }
  destruct g as [|x g]; [done|].
  assert (Hg : (length g < length (37%Z :: x :: g))%nat) by (simpl; lia).
  destruct l as [|y l]; [done|].
  assert (Hcase : x = 120 \/ x = 100 \/ (x <> 120 /\ x <> 100)) by lia.
  destruct Hcase as [->|[->|[H1 H2]]]; cbn [fmt_print List.map].
  - rewrite IH by done. by rewrite u32_s32.
  - rewrite IH by done. by rewrite s32_idemp.
  - destruct x as [|q|q]; try done; do 7 (destruct q as [q|q|]; try done).
Qed.

(** What one decodes from an index and arguments, when the dictionary has the
    format under that index. *)
Lemma decode_with_fmt dc idx src f a sz :
  1 <= idx < 2 ^ 14 -> parses src f a -> (1 <= length a <= 2)%nat ->
  dict dc !! idx = Some {| nargs := Z.of_nat (length a); fmt := f |} -> blen src < sz ->
  dc_decode dc sz (encode_varint_old idx ++ args_bytes a) = Ret src.
Proof.
  intros Hidx [Hc Hz Hl Hp] Hn Hd Hsz.
  destruct (varint_old_head idx Hidx) as (b & r & Hv & Hb & _).
  assert (Hs8 : (s8 b <? 0) = true).
  { apply Z.ltb_lt. unfold s8, swrap. change (2 ^ (8 - 1)) with 128. change (2 ^ 8) with 256.
    cbv zeta. destruct (Z.ltb_spec (b mod 256) 128); Z.div_mod_to_equations; lia. }
  unfold dc_decode. rewrite Hv. cbn [app]. rewrite Hs8.
  change (b :: r ++ args_bytes a) with ((b :: r) ++ args_bytes a). rewrite <- Hv.
  pose proof (length_varint_old idx) as Hlv.
  assert (Hbl : blen (encode_varint_old idx ++ args_bytes a) =
                blen (encode_varint_old idx) + 4 * Z.of_nat (length a)).
  { rewrite blen_app. unfold blen. rewrite length_args_bytes. lia. }
  unfold dc_decode_key_with_fmt. rewrite (proj2 (Z.ltb_ge _ 5)) by (rewrite Hbl; unfold blen; lia).
  rewrite varint_old_roundtrip by lia. simpl. unfold dict_at. rewrite Hd. simpl.
  rewrite Hbl, (proj2 (Z.eqb_eq _ _)) by lia. simpl.
  assert (Hfin : snprintf_fmt sz f (List.map s32 a) = Ret src).
  { unfold snprintf_fmt. rewrite cstr_id, fmt_print_s32, Hp by done. simpl.
    destruct (Z.leb_spec sz (blen src)); [lia|done]. }
  pose proof (read_arg_spec (encode_varint_old idx) a) as Harg.
  destruct a as [|x [|y [|]]]; simpl in Hn; try lia.
  - pose proof (Harg 0%nat x eq_refl) as H0. simpl in *. by rewrite H0.
  - pose proof (Harg 0%nat x eq_refl) as H0. pose proof (Harg 1%nat y eq_refl) as H1.
    simpl in *. by rewrite H0, H1.
Qed.

(** ** The open-addressing index *)

(** The [k]-th slot of the probe sequence from [h] in a table of size [n]. *)
Definition slot (n h : Z) (k : nat) : Z := (h + Z.of_nat k) mod n.

Lemma slot_0 n h : 0 <= h < n -> slot n h 0 = h.
Proof. intros. unfold slot. rewrite Z.add_0_r. by apply Z.mod_small. Qed.

Lemma slot_range n h k : 0 < n -> 0 <= slot n h k < n.
Proof. intros. by apply Z.mod_pos_bound. Qed.

Lemma next_slot_slot n h k : 0 < n -> next_slot n (slot n h k) = slot n h (S k).
Proof.
  intros Hn. unfold next_slot, slot. rewrite Nat2Z.inj_succ.
  pose proof (Z.mod_pos_bound (h + Z.of_nat k) n Hn) as Hb.
  replace (h + Z.succ (Z.of_nat k)) with (h + Z.of_nat k + 1) by lia.
  rewrite <- (Zplus_mod_idemp_l (h + Z.of_nat k)).
  set (r := (h + Z.of_nat k) mod n) in *. destruct (Z.eqb_spec (r + 1) n) as [E|E].
  - by rewrite E, Z_mod_same_full.
  - symmetry. apply Z.mod_small. lia.
Qed.

Definition fmt_hash (n : Z) (f : Fmt) : Z := fnv1a (fmt f) mod n.

(** The index is right for the entries below [used]: an occupied slot holds such
    an entry, no entry has two slots, and each entry is reached from its hash
    through occupied slots only. *)
Record index_ok (d : gmap Z Fmt) (n used : Z) (rd : gmap Z Z) : Prop := {
  index_range : forall h, 0 < rdict_get rd h -> 0 <= h < n /\ 1 <= rdict_get rd h < used;
  index_inj : forall h h', 0 < rdict_get rd h -> rdict_get rd h = rdict_get rd h' -> h = h';
  index_reach : forall i f, 1 <= i < used -> d !! i = Some f ->
    exists k, rdict_get rd (slot n (fmt_hash n f) k) = i /\
      forall j, (j < k)%nat -> 0 < rdict_get rd (slot n (fmt_hash n f) j)
}.

Lemma rdict_get_insert rd h v h' :
  rdict_get (<[h := v]> rd) h' = if decide (h = h') then v else rdict_get rd h'.
Proof. unfold rdict_get. rewrite lookup_insert. by destruct (decide (h = h')). Qed.

Lemma index_ok_empty d n : index_ok d n 1 ∅.
Proof.
  constructor; unfold rdict_get; intros *; rewrite ?lookup_empty; simpl; intros; lia.
Qed.

Lemma index_ok_mono d d' n used rd :
  index_ok d n used rd -> (forall i, 1 <= i < used -> d' !! i = d !! i) -> index_ok d' n used rd.
Proof.
  intros [H1 H2 H3] Hd. constructor; auto. intros i f Hi Hf. rewrite Hd in Hf by done. eauto.
Qed.

(** Putting a new entry in the first free slot of its probe sequence. *)
Lemma index_ok_insert d n used rd f k :
  0 < n -> 1 <= used -> index_ok d n used rd -> d !! used = Some f ->
  rdict_get rd (slot n (fmt_hash n f) k) <= 0 ->
  (forall j, (j < k)%nat -> 0 < rdict_get rd (slot n (fmt_hash n f) j)) ->
  index_ok d n (used + 1) (<[slot n (fmt_hash n f) k := used]> rd).
Proof.
  intros Hn Hu [H1 H2 H3] Hf Hfree Hocc. set (s := slot n (fmt_hash n f) k) in *.
  constructor.
  - intros h. rewrite rdict_get_insert. destruct (decide (s = h)) as [<-|Hne].
    + intros _. split; [apply slot_range; lia|lia].
    + intros Hh. apply H1 in Hh. lia.
  - intros h h'. rewrite !rdict_get_insert.
    destruct (decide (s = h)) as [<-|Hne], (decide (s = h')) as [<-|Hne']; auto.
    + intros _ Hh. rewrite Hh in Hu. destruct (H1 h'); lia.
    + intros Hh Hh'. destruct (H1 h); lia.
  - intros i g Hi Hg. destruct (Z.eq_dec i used) as [->|Hne].
    + rewrite Hf in Hg. injection Hg as <-. exists k. fold s. rewrite rdict_get_insert.
      rewrite decide_True by done. split; [done|]. intros j Hj. rewrite rdict_get_insert.
      destruct (decide _); [lia|auto].
    + destruct (H3 i g) as (k' & Hk' & Hc'); [lia|done|]. exists k'. split.
      * rewrite rdict_get_insert. destruct (decide _) as [E|]; [|done].
        rewrite <- E in Hk'. lia.
      * intros j Hj. rewrite rdict_get_insert. destruct (decide _) as [E|]; [lia|auto].
Qed.

(** Marking a free slot "not again". *)
Lemma index_ok_block d n used rd h :
  index_ok d n used rd -> rdict_get rd h <= 0 -> index_ok d n used (<[h := -1]> rd).
Proof.
  intros [H1 H2 H3] Hh. constructor.
  - intros h'. rewrite rdict_get_insert. destruct (decide _); [lia|auto].
  - intros h' h''. rewrite !rdict_get_insert.
    destruct (decide _), (decide _); subst; try lia; auto.
  - intros i f Hi Hf. destruct (H3 i f Hi Hf) as (k & Hk & Hc). exists k. split.
    + rewrite rdict_get_insert. destruct (decide _) as [E|]; [rewrite <- E in Hk; lia|done].
    + intros j Hj. specialize (Hc j Hj). rewrite rdict_get_insert.
      destruct (decide _) as [E|]; [rewrite <- E in Hc; lia|done].
Qed.

(** There are more slots than entries, so some slot of every probe sequence is
    free: the pigeonhole argument behind the termination of the probing loops. *)
Lemma free_slot_exists d n used rd h :
  1 <= used <= n -> index_ok d n used rd ->
  exists k, (k < Z.to_nat n)%nat /\ rdict_get rd (slot n h k) <= 0.
Proof.
  intros Hn [H1 H2 _].
  destruct (decide (Exists (fun k => rdict_get rd (slot n h k) <= 0) (seq 0 (Z.to_nat n)))) as [He|He].
  { apply Exists_exists in He as (k & Hk & Hle). exists k. rewrite elem_of_seq in Hk. split; [lia|done]. }
  exfalso. apply not_Exists_Forall in He; [|apply _].
  assert (Hocc : forall k, (k < Z.to_nat n)%nat -> 0 < rdict_get rd (slot n h k)).
  { intros k Hk. rewrite Forall_forall in He. apply Z.nle_gt, He, elem_of_seq. lia. }
  set (l := (fun k => Z.to_nat (rdict_get rd (slot n h k) - 1)) <$> seq 0 (Z.to_nat n)).
  assert (Hnd : NoDup l).
  { apply NoDup_fmap_2_strong; [|apply NoDup_seq]. intros x y Hx Hy E.
    rewrite elem_of_seq in Hx, Hy. pose proof (Hocc x ltac:(lia)) as Px.
    pose proof (Hocc y ltac:(lia)) as Py. assert (Es : slot n h x = slot n h y) by (apply H2; lia).
    unfold slot in Es. assert (Hxy : (Z.of_nat x - Z.of_nat y) mod n = 0).
    { replace (Z.of_nat x - Z.of_nat y) with ((h + Z.of_nat x) - (h + Z.of_nat y)) by lia.
      rewrite Zminus_mod, Es, Z.sub_diag. apply Z.mod_0_l. lia. }
    apply Z.mod_divide in Hxy as [q Hq]; [|lia]. assert (q = 0) by nia. lia. }
  assert (Hsub : l ⊆ seq 0 (Z.to_nat (used - 1))).
  { intros v Hv. apply list_elem_of_fmap in Hv as (k & -> & Hk). rewrite elem_of_seq in Hk.
    pose proof (H1 _ (Hocc k ltac:(lia))). apply elem_of_seq. lia. }
  pose proof (submseteq_length _ _ (NoDup_submseteq _ _ Hnd Hsub)) as Hlen.
  unfold l in Hlen. rewrite length_fmap, !length_seq in Hlen. lia.
Qed.

(** ** The probing loops *)
Lemma free_slot_run n rd h k j fuel :
  0 < n -> (j <= k)%nat -> (k - j < fuel)%nat -> rdict_get rd (slot n h k) <= 0 ->
  (forall i, (i < k)%nat -> 0 < rdict_get rd (slot n h i)) ->
  free_slot fuel n rd (slot n h j) = Ret (slot n h k).
Proof.
  intros Hn. revert j. induction fuel as [|f IH]; intros j Hj Hf Hk Hocc; [lia|]. simpl.
  destruct (Nat.eq_dec j k) as [->|Hne].
  - by rewrite (proj2 (Z.ltb_ge _ _)).
  - rewrite (proj2 (Z.ltb_lt _ _)) by (apply Hocc; lia).
    rewrite next_slot_slot by done. apply IH; auto; lia.
Qed.

Lemma free_slot_spec d n used rd h :
  1 <= used <= n -> index_ok d n used rd -> 0 <= h < n ->
  exists k, free_slot (Z.to_nat n) n rd h = Ret (slot n h k) /\
    rdict_get rd (slot n h k) <= 0 /\
    forall j, (j < k)%nat -> 0 < rdict_get rd (slot n h j).
Proof.
  intros Hn Hok Hh. destruct (free_slot_exists d n used rd h Hn Hok) as (m & Hm & Hle).
  destruct (least_nat (fun k => rdict_get rd (slot n h k) <= 0) m Hle) as (k & Hk & Hk0 & Hmin).
  assert (Hocc : forall j, (j < k)%nat -> 0 < rdict_get rd (slot n h j))
    by (intros j Hj; apply Z.nle_gt; by apply Hmin).
  exists k. split; [|done]. rewrite <- (slot_0 n h) at 1 by done.
  apply free_slot_run; auto; lia.
Qed.

(** ** Well-formed codecs and their growth *)
Record fmt_ok (f : Fmt) : Prop := {
  fmt_nargs : nargs f = Z.of_nat (count_pct (fmt f));
  fmt_nargs_range : 1 <= nargs f <= MAX_FMT_ARGS;
  fmt_nz : Forall (fun c => c <> 0) (fmt f);
  fmt_short : (length (fmt f) < 100)%nat
}.

Record dict_ok (d : gmap Z Fmt) (used : Z) : Prop := {
  dict_dom : forall i, is_Some (d !! i) <-> 1 <= i < used;
  dict_fmt : forall i f, d !! i = Some f -> fmt_ok f;
  dict_inj : forall i j f g, d !! i = Some f -> d !! j = Some g -> fmt f = fmt g -> i = j
}.

Record codec_ok (dc : Codec) : Prop := {
  ok_size : DEFAULT_DICT_SIZE <= dict_size dc <= MAX_DICT_SIZE;
  ok_rsize : rdict_size dc = RDICT_SIZE (dict_size dc);
  ok_used : 1 <= dict_used dc <= dict_size dc;
  ok_full : dict_used dc = dict_size dc -> dict_size dc = MAX_DICT_SIZE;
  ok_dict : dict_ok (dict dc) (dict_used dc);
  ok_index : index_ok (dict dc) (rdict_size dc) (dict_used dc) (rdict dc);
  ok_block : forall h, rdict_get (rdict dc) h < 0 ->
    rdict_get (rdict dc) h = -1 /\ dict_used dc = MAX_DICT_SIZE
}.

(** A later state of the codec: entries are never changed, and a full
    dictionary stays as it is. *)
Record codec_le (dc dc' : Codec) : Prop := {
  le_dict : dict dc ⊆ dict dc';
  le_full : dict_used dc = MAX_DICT_SIZE -> dict dc' = dict dc
}.

#[export] Instance codec_le_refl : Reflexive codec_le.
Proof. by intros dc. Qed.

Lemma codec_ok_used_le dc dc' :
  codec_ok dc -> codec_ok dc' -> dict dc ⊆ dict dc' -> dict_used dc <= dict_used dc'.
Proof.
  intros H H' Hs. destruct (Z.le_gt_cases (dict_used dc) 1); [pose proof (ok_used _ H'); lia|].
  assert (Hl : is_Some (dict dc !! (dict_used dc - 1)))
    by (apply (dict_dom _ _ (ok_dict _ H)); lia).
  destruct Hl as [f Hf]. eapply lookup_weaken in Hf; [|exact Hs].
  assert (is_Some (dict dc' !! (dict_used dc - 1))) as Hl by by eexists.
  apply (dict_dom _ _ (ok_dict _ H')) in Hl. lia.
Qed.

Lemma codec_le_trans a b c : codec_ok a -> codec_ok b -> codec_le a b -> codec_le b c -> codec_le a c.
Proof.
  intros Ha Hb [H1 H2] [H3 H4]. constructor.
  - by transitivity (dict b).
  - intros Hf. rewrite <- (H2 Hf). apply H4.
    pose proof (codec_ok_used_le a b Ha Hb H1). pose proof (ok_used _ Hb). pose proof (ok_size _ Hb). lia.
Qed.

Lemma dc_new_ok : codec_ok dc_new.
Proof.
  constructor; simpl; try done.
  - constructor.
    + intros i. rewrite lookup_empty. split; [intros [? [=]]|lia].
    + intros i f. by rewrite lookup_empty.
    + intros i j f g. by rewrite lookup_empty.
Qed.

Lemma dict_at_some dc i f : dict dc !! i = Some f -> dict_at dc i = Ret (Some f).
Proof. intros H. unfold dict_at. by rewrite H. Qed.

Lemma s16_id i : - 2 ^ 15 <= i < 2 ^ 15 -> s16 i = i.
Proof.
  intros. unfold s16, swrap. change (2 ^ (16 - 1)) with 32768. change (2 ^ 16) with 65536.
  change (2 ^ 15) with 32768 in *. cbv zeta.
  destruct (Z.ltb_spec (i mod 65536) 32768); Z.div_mod_to_equations; lia.
Qed.

(** ** Rebuilding the index *)
Lemma rebuild_loop_spec k dc i rd :
  dict_ok (dict dc) (dict_used dc) -> dict_used dc <= MAX_DICT_SIZE ->
  dict_used dc <= rdict_size dc -> 1 <= i -> i + Z.of_nat k = dict_used dc ->
  index_ok (dict dc) (rdict_size dc) i rd -> (forall h, 0 <= rdict_get rd h) ->
  exists rd', rebuild_loop k dc i rd = Ret rd' /\
    index_ok (dict dc) (rdict_size dc) (dict_used dc) rd' /\ (forall h, 0 <= rdict_get rd' h).
Proof.
  intros Hd Hmax Hn. revert i rd. induction k as [|k IH]; intros i rd Hi Hk Hix Hpos; simpl.
  { exists rd. split; [done|]. by replace (dict_used dc) with i by lia. }
  destruct (proj2 (dict_dom _ _ Hd i) ltac:(lia)) as [f Hf].
  rewrite (dict_at_some _ _ _ Hf). simpl.
  rewrite cstr_id by apply (fmt_nz _ (dict_fmt _ _ Hd _ _ Hf)).
  destruct (free_slot_spec (dict dc) (rdict_size dc) i rd (fmt_hash (rdict_size dc) f))
    as (s & Hs & Hfree & Hocc); [lia|done|apply Z.mod_pos_bound; lia|].
  unfold fmt_hash in Hs at 1. rewrite Hs. simpl. rewrite s16_id by (unfold MAX_DICT_SIZE in Hmax; lia).
  apply IH; [lia|lia|by apply index_ok_insert; try lia|].
  intros h. rewrite rdict_get_insert. destruct (decide _); [lia|auto].
Qed.

Lemma dc_rebuild_spec dc :
  DEFAULT_DICT_SIZE <= dict_size dc <= MAX_DICT_SIZE -> 1 <= dict_used dc <= dict_size dc ->
  (dict_used dc = dict_size dc -> dict_size dc = MAX_DICT_SIZE) ->
  dict_ok (dict dc) (dict_used dc) ->
  exists dc', dc_rebuild dc = Ret dc' /\ codec_ok dc' /\ dict dc' = dict dc /\
    dict_used dc' = dict_used dc.
Proof.
  intros Hs Hu Hf Hd. unfold dc_rebuild.
  set (dc1 := {| dict_size := _ |}).
  assert (Hn : dict_used dc1 <= rdict_size dc1) by (simpl; unfold RDICT_SIZE; lia).
  destruct (rebuild_loop_spec (Z.to_nat (dict_used dc1 - 1)) dc1 1 ∅) as (rd & Hr & Hix & Hpos);
    [done|simpl; lia|done|lia|simpl; lia|apply index_ok_empty|done|].
  rewrite Hr. simpl. eexists. split; [done|]. split; [|done].
  constructor; simpl; auto. intros h Hh. specialize (Hpos h). lia.
Qed.

(** ** Interning a format *)

(** Where the probing of [dc_encode] stops. *)
Definition stops (dc : Codec) (f : bytes) (h : Z) (k : nat) : Prop :=
  let s := slot (rdict_size dc) h k in
  rdict_get (rdict dc) s <= 0 \/
  exists e, dict dc !! rdict_get (rdict dc) s = Some e /\ fmt e = f.

#[local] Instance stops_dec dc f h k : Decision (stops dc f h k).
Proof.
  unfold stops. cbv zeta. apply or_dec; [apply _|].
  destruct (dict dc !! rdict_get (rdict dc) (slot (rdict_size dc) h k)) as [e|] eqn:E.
  - destruct (decide (fmt e = f)); [left|right]; naive_solver.
  - right. naive_solver.
Defined.

Lemma find_slot_run dc f h k j fuel :
  codec_ok dc -> Forall (fun c => c <> 0) f -> (j <= k)%nat -> (k - j < fuel)%nat ->
  stops dc f h k -> (forall i, (i < k)%nat -> ~ stops dc f h i) ->
  find_slot fuel dc f (slot (rdict_size dc) h j) = Ret (slot (rdict_size dc) h k).
Proof.
  intros Hok Hz. assert (Hn : 0 < rdict_size dc)
    by (rewrite (ok_rsize _ Hok); pose proof (ok_size _ Hok); unfold RDICT_SIZE, DEFAULT_DICT_SIZE in *; lia).
  revert j. induction fuel as [|fu IH]; intros j Hj Hf Hk Hmin; [lia|]. cbn [find_slot].
  set (v := rdict_get (rdict dc) (slot (rdict_size dc) h j)).
  destruct (Z.ltb_spec 0 v) as [Hv|Hv].
  - destruct (index_range _ _ _ _ (ok_index _ Hok) _ Hv) as [_ Hvr].
    destruct (proj2 (dict_dom _ _ (ok_dict _ Hok) v) Hvr) as [e He].
    rewrite (dict_at_some _ _ _ He). simpl.
    pose proof (fmt_nz _ (dict_fmt _ _ (ok_dict _ Hok) _ _ He)) as Hez.
    destruct (strcmp_eq f (fmt e)) eqn:Hcmp.
    + apply strcmp_eq_iff in Hcmp; [|done|done]. destruct (Nat.eq_dec j k) as [->|Hne]; [done|].
      exfalso. apply (Hmin j ltac:(lia)). right. by exists e.
    + destruct (Nat.eq_dec j k) as [->|Hne].
      * exfalso. destruct Hk as [Hk|(e' & He' & Hfe)]; [fold v in Hk; lia|].
        fold v in He'. rewrite He in He'. injection He' as <-.
        apply not_true_iff_false in Hcmp. apply Hcmp. by apply strcmp_eq_iff.
      * rewrite next_slot_slot by done. apply IH; auto; lia.
  - destruct (Nat.eq_dec j k) as [->|Hne]; [done|]. exfalso. apply (Hmin j ltac:(lia)). by left.
Qed.

(** The lookup loop of [dc_encode] terminates; it ends at the slot of the format
    if the dictionary has it, else at the first free slot of its sequence. *)
Lemma find_slot_spec dc f :
  codec_ok dc -> Forall (fun c => c <> 0) f ->
  let h := fnv1a f mod rdict_size dc in
  exists k, find_slot (Z.to_nat (rdict_size dc)) dc f h = Ret (slot (rdict_size dc) h k) /\
    (forall j, (j < k)%nat -> 0 < rdict_get (rdict dc) (slot (rdict_size dc) h j)) /\
    ((exists i e, dict dc !! i = Some e /\ fmt e = f /\
        rdict_get (rdict dc) (slot (rdict_size dc) h k) = i) \/
     (rdict_get (rdict dc) (slot (rdict_size dc) h k) <= 0 /\
      forall i e, dict dc !! i = Some e -> fmt e <> f)).
Proof.
  intros Hok Hz h. assert (Hn : 1 <= dict_used dc <= rdict_size dc).
  { rewrite (ok_rsize _ Hok). pose proof (ok_used _ Hok). unfold RDICT_SIZE. lia. }
  assert (Hh : 0 <= h < rdict_size dc) by (apply Z.mod_pos_bound; lia).
  destruct (free_slot_exists _ _ _ _ h Hn (ok_index _ Hok)) as (m & Hm & Hle).
  destruct (least_nat (stops dc f h) m) as (k & Hk & Hst & Hmin); [by left|].
  exists k. split; [|split].
  - rewrite <- (slot_0 _ _ Hh) at 1. apply find_slot_run; auto; lia.
  - intros j Hj. apply Z.nle_gt. intros Hle'. apply (Hmin j Hj). by left.
  - destruct Hst as [Hst|(e & He & Hfe)]; [right|left; eauto].
    split; [done|]. intros i e He Hfe.
    pose proof (proj1 (dict_dom _ _ (ok_dict _ Hok) i) ltac:(eauto)) as Hi.
    destruct (index_reach _ _ _ _ (ok_index _ Hok) i e Hi He) as (k' & Hk' & Hocc).
    assert (Hhe : fmt_hash (rdict_size dc) e = h) by (unfold fmt_hash; by rewrite Hfe).
    rewrite Hhe in *. destruct (Nat.lt_trichotomy k k') as [Hlt|[->|Hlt]].
    + specialize (Hocc k Hlt). lia.
    + lia.
    + apply (Hmin k' Hlt). right. exists e. by rewrite Hk'.
Qed.

(** A format already in the dictionary is found; nothing changes. *)
Lemma dc_intern_found dc i e narg :
  codec_ok dc -> dict dc !! i = Some e -> dc_intern dc narg (fmt e) = Ret (dc, i).
Proof.
  intros Hok He. pose proof (dict_fmt _ _ (ok_dict _ Hok) _ _ He) as Hf.
  destruct (find_slot_spec dc (fmt e) Hok (fmt_nz _ Hf)) as (k & Hfs & _ & Hc).
  unfold dc_intern. rewrite Hfs. simpl.
  destruct Hc as [(i' & e' & He' & Hfe & Hr)|[_ Hno]]; [|by destruct (Hno i e He)].
  assert (i' = i) as -> by eauto using dict_inj, ok_dict.
  rewrite Hr. pose proof (proj1 (dict_dom _ _ (ok_dict _ Hok) i) ltac:(eauto)).
  by rewrite (proj2 (Z.eqb_neq i 0)) by lia.
Qed.

(** A new entry keeps the dictionary well formed. *)
Lemma dict_ok_insert d used f :
  1 <= used -> dict_ok d used -> fmt_ok f -> (forall i e, d !! i = Some e -> fmt e <> fmt f) ->
  dict_ok (<[used := f]> d) (used + 1).
Proof.
  intros Hu [H1 H2 H3] Hf Hnew. constructor.
  - intros i. rewrite lookup_insert. destruct (decide (used = i)) as [<-|].
    + split; [lia|by eexists].
    + rewrite H1. lia.
  - intros i g. rewrite lookup_insert. destruct (decide _); [by intros [= <-]|by apply H2].
  - intros i j a b. rewrite !lookup_insert.
    destruct (decide (used = i)), (decide (used = j)); subst; auto; intros; simplify_eq.
    + by destruct (Hnew j b).
    + by destruct (Hnew i a).
    + eauto.
Qed.

(** The outcome of interning: the format has an entry, or the dictionary is full
    without it. *)
Definition interned (dc : Codec) (narg : Z) (f : bytes) (rh : Z) : Prop :=
  dict dc !! rh = Some {| nargs := narg; fmt := f |} \/
  (rh = -1 /\ dict_used dc = MAX_DICT_SIZE /\ forall i e, dict dc !! i = Some e -> fmt e <> f).

(** The three ways [dc_encode] leaves the dictionary when the format is new. *)
Lemma dc_intern_new dc narg f s k :
  codec_ok dc -> fmt_ok {| nargs := narg; fmt := f |} ->
  (forall i e, dict dc !! i = Some e -> fmt e <> f) -> dict_used dc < dict_size dc ->
  s = slot (rdict_size dc) (fnv1a f mod rdict_size dc) k ->
  rdict_get (rdict dc) s <= 0 ->
  (forall j, (j < k)%nat -> 0 < rdict_get (rdict dc) (slot (rdict_size dc) (fnv1a f mod rdict_size dc) j)) ->
  let d1 := <[dict_used dc := {| nargs := narg; fmt := f |}]> (dict dc) in
  dict_ok d1 (dict_used dc + 1) /\ dict dc ⊆ d1 /\
  index_ok d1 (rdict_size dc) (dict_used dc + 1) (<[s := dict_used dc]> (rdict dc)).
Proof.
  intros Hok Hf Hno Hlt -> Hle Hocc d1. pose proof (ok_used _ Hok) as Hu.
  assert (Hfresh : dict dc !! dict_used dc = None).
  { apply eq_None_not_Some. intros H%(dict_dom _ _ (ok_dict _ Hok)). lia. }
  assert (Hn : 0 < rdict_size dc) by (rewrite (ok_rsize _ Hok); unfold RDICT_SIZE; lia).
  split; [|split].
  - apply dict_ok_insert; auto; [lia|by apply ok_dict].
  - by apply insert_subseteq.
  - apply (index_ok_insert d1 _ _ _ {| nargs := narg; fmt := f |}); auto; try lia.
    + apply (index_ok_mono (dict dc)); [by apply ok_index|]. intros i Hi.
      unfold d1. rewrite lookup_insert_ne by lia. done.
    + unfold d1. by rewrite lookup_insert_eq.
Qed.

Lemma dc_intern_spec dc narg f :
  codec_ok dc -> fmt_ok {| nargs := narg; fmt := f |} ->
  exists dc' rh, dc_intern dc narg f = Ret (dc', rh) /\ codec_ok dc' /\ codec_le dc dc' /\
    interned dc' narg f rh.
Proof.
  intros Hok Hf. destruct (find_slot_spec dc f Hok (fmt_nz _ Hf)) as (k & Hfs & Hocc & Hc).
  pose proof (ok_used _ Hok) as Hu. pose proof (ok_size _ Hok) as Hsz.
  destruct Hc as [(i & e & He & <- & Hr)|[Hle Hno]].
  { exists dc, i. split; [by apply dc_intern_found|]. split; [done|]. split; [done|]. left.
    rewrite He. f_equal. pose proof (dict_fmt _ _ (ok_dict _ Hok) _ _ He) as Hfe.
    destruct e as [n g]; simpl in *. f_equal.
    etransitivity; [apply (fmt_nargs _ Hfe)|symmetry; apply (fmt_nargs _ Hf)]. }
  unfold dc_intern. rewrite Hfs. simpl. set (s := slot _ _ k) in *.
  destruct (Z.eqb_spec (rdict_get (rdict dc) s) 0) as [E0|E0].
  2: { destruct (ok_block _ Hok s ltac:(lia)) as [-> Hfull]. exists dc, (-1).
       split; [done|]. split; [done|]. split; [done|]. right. auto. }
  destruct (Z.ltb_spec (dict_used dc) (dict_size dc)) as [Hlt|Hge].
  - pose proof (fmt_nargs_range _ Hf) as Hnr. simpl in Hnr. unfold MAX_FMT_ARGS, MAX_DICT_SIZE in *.
    replace (u8 narg) with narg by mod_lia. rewrite s16_id by lia.
    destruct (dc_intern_new dc narg f s k) as (Hd1 & Hsub & Hix1); auto.
    set (d1 := <[dict_used dc := _]> (dict dc)) in *.
    assert (Hnew : forall dc', dict dc' = d1 -> codec_le dc dc' /\ interned dc' narg f (dict_used dc)).
    { intros dc' E. split; [constructor; rewrite E; [done|unfold MAX_DICT_SIZE; lia]|].
      left. rewrite E. unfold d1. by rewrite lookup_insert_eq. }
    destruct (_ && _) eqn:Hen.
    + bool_to_prop. unfold dc_enlarge. cbn [dict_size dict_used dict rdict_size rdict] in *.
      match goal with |- context [dc_rebuild ?x] => destruct (dc_rebuild_spec x) as (dc2 & -> & Hok2 & Hd2 & _) end;
        cbn [dict_size dict_used dict]; unfold DEFAULT_DICT_SIZE, MAX_DICT_SIZE in *; try lia; [done|].
      simpl. exists dc2, (dict_used dc). split; [done|]. split; [done|]. by apply Hnew.
    + eexists _, _. split; [done|]. split; [|by apply Hnew].
      cbn [dict_size dict_used dict rdict_size rdict] in *. apply andb_false_iff in Hen.
      constructor; simpl; try done; unfold MAX_DICT_SIZE in *; try lia.
      * apply ok_rsize, Hok.
      * intros h. rewrite rdict_get_insert. destruct (decide _); [lia|].
        intros Hneg. destruct (ok_block _ Hok h Hneg). unfold MAX_DICT_SIZE in *. lia.
  - pose proof (ok_full _ Hok ltac:(lia)) as Hmax. eexists _, _. split; [done|].
    split; [|split; [by constructor|right; simpl; split; [done|]; split; [lia|done]]].
    destruct Hok. constructor; simpl; auto.
    + by apply index_ok_block.
    + intros h. rewrite rdict_get_insert. destruct (decide _); [lia|auto].
Qed.

(** ** Encoding and decoding whole keys *)

(** The test of [dc_encode]. *)
Definition formattable (k : bytes) : bool :=
  let '(narg, _, _) := parsed k in
  (6 <? blen k) && (blen k <? 100) && first_positive k && (0 <? narg) && (narg <=? MAX_FMT_ARGS).

(** [e] is the stored form of [k] under the dictionary of [dc]. *)
Definition coded (dc : Codec) (k e : bytes) : Prop :=
  if formattable k then
    let '(n, f, a) := parsed k in
    (exists i, dict dc !! i = Some {| nargs := n; fmt := f |} /\
               e = encode_varint_old i ++ args_bytes a) \/
    (e = k /\ dict_used dc = MAX_DICT_SIZE /\ forall i g, dict dc !! i = Some g -> fmt g <> f)
  else e = k.

(** A key the tree may store: C strings that fit the buffer of [create_item]. *)
Definition key_ok (k : bytes) : Prop :=
  k <> [] /\ bytes_ok k /\ Forall (fun c => c <> 0) k /\ first_positive k = true.

#[export] Instance key_ok_decision k : Decision (key_ok k).
Proof. unfold key_ok, byte_ok. apply _. Defined.

Lemma formattable_parse k n f a :
  key_ok k -> formattable k = true -> parsed k = (n, f, a) ->
  6 < blen k < 100 /\ n = Z.of_nat (length a) /\ (1 <= length a <= 2)%nat /\ parses k f a /\
  fmt_ok {| nargs := n; fmt := f |}.
Proof.
  intros (_ & _ & Hz & _) Hf Hp. unfold formattable in Hf. rewrite Hp in Hf. bool_to_prop.
  destruct (parsed_parses k n f a Hz Hp ltac:(lia)) as [-> [Hc Hnz Hl Hpr]].
  unfold MAX_FMT_ARGS in *.
  assert (Hbl : blen k < 100) by lia. unfold blen in *.
  do 3 (split; [lia|]). split; [done|].
  constructor; cbn [nargs fmt]; [lia|unfold MAX_FMT_ARGS; lia|done|lia].
Qed.

(** [dc_encode] returns, and what it returns is the stored form of the key. *)
Lemma dc_encode_spec dc sz k :
  codec_ok dc -> key_ok k -> blen k <= sz -> 10 <= sz -> blen k < FMT_SIZE ->
  exists dc' e, dc_encode dc sz k = Ret (dc', e) /\ codec_ok dc' /\ codec_le dc dc' /\ coded dc' k e.
Proof.
  intros Hok Hk Hl Hsz Hfs. unfold dc_encode, coded. rewrite (parse_fmt_ret k Hfs).
  assert (Hcpy : safe_memcpy sz k = Ret k).
  { unfold safe_memcpy. destruct (Z.ltb_spec sz (blen k)); [lia|done]. }
  destruct (parsed k) as [[n f] a] eqn:Hp. cbn [mbind outcome_bind].
  destruct (formattable k) eqn:Hf; pose proof Hf as Hf'; unfold formattable in Hf'; rewrite Hp in Hf'; rewrite Hf'.
  2: { rewrite Hcpy. simpl. by exists dc, k. }
  destruct (formattable_parse k n f a Hk Hf Hp) as (Hkl & Hn & Ha & Hps & Hfok).
  destruct (dc_intern_spec dc n f Hok Hfok) as (dc' & rh & -> & Hok' & Hle & Hin). simpl.
  destruct Hin as [Hd|(-> & Hu & Hno)].
  - pose proof (proj1 (dict_dom _ _ (ok_dict _ Hok') rh) ltac:(eauto)) as Hr.
    rewrite (proj2 (Z.ltb_lt 0 rh)) by lia.
    assert (He : dc_encode_key_with_fmt rh sz a n = Ret (encode_varint_old rh ++ args_bytes a)).
    { unfold dc_encode_key_with_fmt. rewrite Hn, Nat2Z.id, take_ge by done.
      fold (args_bytes a). pose proof (length_varint_old rh). pose proof (length_args_bytes a).
      unfold safe_memcpy, blen in *. destruct (Z.ltb_spec (sz - Z.of_nat (length (encode_varint_old rh))) (Z.of_nat (length (args_bytes a)))); [lia|done]. }
    rewrite He. simpl. eexists _, _. do 3 (split; [done|]). left. eauto.
  - rewrite Hcpy. simpl. eexists _, _. do 3 (split; [done|]). right. eauto.
Qed.

(** An encoding stays valid as the dictionary grows. *)
Lemma coded_mono dc dc' k e :
  codec_ok dc -> codec_ok dc' -> codec_le dc dc' -> coded dc k e -> coded dc' k e.
Proof.
  intros Ho Ho' [Hs Hfull] Hc. unfold coded in *. destruct (formattable k); [|done].
  destruct (parsed k) as [[n f] a]. destruct Hc as [(i & Hi & ->)|(-> & Hu & Hno)].
  - left. exists i. split; [|done]. by eapply lookup_weaken.
  - right. split; [done|]. split; [|by rewrite Hfull].
    pose proof (codec_ok_used_le _ _ Ho Ho' Hs). pose proof (ok_used _ Ho'). pose proof (ok_size _ Ho'). lia.
Qed.

(** A key has one encoding. *)
Lemma coded_fun dc k e1 e2 : codec_ok dc -> coded dc k e1 -> coded dc k e2 -> e1 = e2.
Proof.
  intros Ho. unfold coded. destruct (formattable k); [|congruence].
  destruct (parsed k) as [[n f] a].
  intros [(i & Hi & ->)|(-> & _ & Hno)] [(j & Hj & ->)|(-> & _ & Hno')]; auto.
  - by rewrite (dict_inj _ _ (ok_dict _ Ho) i j _ _ Hi Hj).
  - by destruct (Hno' _ _ Hi).
  - by destruct (Hno _ _ Hj).
Qed.

(** Decoding gives the key back. *)
Lemma coded_decode dc k e sz :
  codec_ok dc -> key_ok k -> coded dc k e -> blen k < sz -> dc_decode dc sz e = Ret k.
Proof.
  intros Ho Hk Hc Hsz. pose proof Hk as (Hne & Hb & Hz & Hpos).
  assert (Hplain : dc_decode dc sz k = Ret k).
  { destruct k as [|c r]; [done|]. simpl in *. destruct (Z.ltb_spec 0 (s8 c)); [|done].
    destruct (Z.ltb_spec (s8 c) 0); [lia|]. unfold safe_memcpy.
    destruct (Z.ltb_spec sz (blen (c :: r))); [lia|]. simpl.
    by rewrite (proj2 (Z.ltb_lt _ _) Hsz). }
  unfold coded in Hc. destruct (formattable k) eqn:Hf; [|by subst].
  destruct (parsed k) as [[n f] a] eqn:Hp.
  destruct Hc as [(i & Hi & ->)|(-> & _ & _)]; [|done].
  destruct (formattable_parse k n f a Hk Hf Hp) as (_ & -> & Ha & Hps & _).
  eapply decode_with_fmt; eauto.
  pose proof (proj1 (dict_dom _ _ (ok_dict _ Ho) i) ltac:(eauto)).
  pose proof (ok_used _ Ho). pose proof (ok_size _ Ho). unfold MAX_DICT_SIZE in *. lia.
Qed.

(** Different keys have different encodings. *)
Lemma coded_inj dc k k' e :
  codec_ok dc -> key_ok k -> key_ok k' -> coded dc k e -> coded dc k' e -> k = k'.
Proof.
  intros Ho Hk Hk' Hc Hc'. set (sz := Z.max (blen k) (blen k') + 1).
  pose proof (coded_decode dc k e sz Ho Hk Hc ltac:(lia)) as H1.
  pose proof (coded_decode dc k' e sz Ho Hk' Hc' ltac:(lia)) as H2. congruence.
Qed.

(** The stored form is no longer than the key, and not empty. *)
Lemma coded_length dc k e : key_ok k -> coded dc k e -> (1 <= length e <= Nat.max (length k) 10)%nat.
Proof.
  intros Hk. unfold coded. destruct Hk as (Hne & Hb & Hz & Hpos).
  assert (1 <= length k)%nat by (destruct k; simpl in *; [done|lia]).
  destruct (formattable k) eqn:Hf; [|intros ->; lia].
  destruct (parsed k) as [[n f] a] eqn:Hp. intros [(i & Hi & ->)|(-> & _)]; [|lia].
  destruct (formattable_parse k n f a (conj Hne (conj Hb (conj Hz Hpos))) Hf Hp) as (_ & _ & Ha & _).
  rewrite length_app, length_args_bytes. pose proof (length_varint_old i). lia.
Qed.

(** ** Saving and loading the dictionary *)

(** Entries [i], [i+1], ... ([k] of them) as [dc_dump] writes them. *)
Fixpoint wire (k : nat) (dc : Codec) (i : Z) : bytes :=
  match k with
  | O => []
  | S k' => match dict dc !! i with Some f => fmt_size f :: fmt_bytes f | None => [] end ++ wire k' dc (i + 1)
  end.

Lemma cstr_app0 l : Forall (fun c => c <> 0) l -> cstr (l ++ [0]) = l.
Proof.
  induction 1 as [|c l Hc _ IH]; simpl; [done|]. destruct (Z.eqb_spec c 0); [done|]. by rewrite IH.
Qed.

Lemma fmt_size_bytes f : fmt_ok f -> fmt_size f = blen (fmt_bytes f) /\ u8 (fmt_size f) = fmt_size f.
Proof.
  intros [_ _ Hz Hs]. unfold fmt_size, fmt_bytes, blen. rewrite cstr_id by done. simpl.
  rewrite length_app. simpl. split; [lia|mod_lia].
Qed.

Section Loops.
Context (dc : Codec) (Hok : codec_ok dc).

Lemma entry_at i : 1 <= i < dict_used dc -> exists f, dict dc !! i = Some f /\ fmt_ok f.
Proof.
  intros Hi. destruct (proj2 (dict_dom _ _ (ok_dict _ Hok) i) Hi) as [f Hf]. exists f.
  split; [done|]. by eapply dict_fmt, Hf; apply ok_dict.
Qed.

Lemma wire_S k i f : dict dc !! i = Some f -> fmt_ok f ->
  wire (S k) dc i = fmt_size f :: fmt_bytes f ++ wire k dc (i + 1) /\
  blen (wire (S k) dc i) = 1 + fmt_size f + blen (wire k dc (i + 1)).
Proof.
  intros Hf Hfo. cbn [wire]. rewrite Hf. split; [done|]. destruct (fmt_size_bytes f Hfo) as [E _].
  rewrite blen_app. unfold blen in *. cbn [length]. lia.
Qed.

Lemma dc_size_loop_spec k i s :
  1 <= i -> i + Z.of_nat k <= dict_used dc -> dc_size_loop k dc i s = Ret (s + blen (wire k dc i)).
Proof.
  revert i s. induction k as [|k IH]; intros i s Hi Hk; [simpl; f_equal; unfold blen; simpl; lia|].
  destruct (entry_at i ltac:(lia)) as (f & Hf & Hfo). destruct (wire_S k i f Hf Hfo) as [_ ->].
  cbn [dc_size_loop]. rewrite (dict_at_some _ _ _ Hf). simpl. rewrite IH by lia. f_equal. lia.
Qed.

Lemma dump_loop_spec k i size out :
  1 <= i -> i + Z.of_nat k <= dict_used dc -> blen out + blen (wire k dc i) <= size ->
  dump_loop k dc i size out = Ret (Some (out ++ wire k dc i)).
Proof.
  revert i out. induction k as [|k IH]; intros i out Hi Hk Hs; [simpl; by rewrite app_nil_r|].
  destruct (entry_at i ltac:(lia)) as (f & Hf & Hfo). destruct (wire_S k i f Hf Hfo) as [Hw Hl].
  destruct (fmt_size_bytes f Hfo) as [E U]. rewrite Hl in Hs. rewrite Hw.
  cbn [dump_loop]. rewrite (dict_at_some _ _ _ Hf). simpl. rewrite U.
  pose proof (blen_nonneg (wire k dc (i + 1))).
  destruct (Z.ltb_spec size (blen out + fmt_size f + 1)); [lia|].
  rewrite take_ge by (unfold blen in E; lia).
  rewrite IH; [|lia|lia|]; rewrite ?blen_app.
  - by rewrite <- app_assoc.
  - change (fmt_size f :: fmt_bytes f) with ([fmt_size f] ++ fmt_bytes f). rewrite blen_app, <- E.
    unfold blen in *. simpl. lia.
Qed.

Lemma load_loop_spec k d i off rest :
  1 <= i -> i + Z.of_nat k <= dict_used dc -> 0 <= off ->
  exists d', load_loop k d i off (off + blen (wire k dc i)) (wire k dc i ++ rest) = Ret (Some (d', i + Z.of_nat k)) /\
    forall j, d' !! j = if decide (i <= j < i + Z.of_nat k) then dict dc !! j else d !! j.
Proof.
  revert d i off. induction k as [|k IH]; intros d i off Hi Hk Ho.
  { exists d. simpl. split; [do 3 f_equal; lia|]. intros j. destruct (decide _); [lia|done]. }
  destruct (entry_at i ltac:(lia)) as (f & Hf & Hfo). destruct (wire_S k i f Hf Hfo) as [-> Hl].
  destruct (fmt_size_bytes f Hfo) as [E _]. pose proof (blen_nonneg (wire k dc (i + 1))) as Hp.
  assert (Hl2 : off + blen (fmt_size f :: fmt_bytes f ++ wire k dc (i + 1)) =
                (off + 1 + fmt_size f) + blen (wire k dc (i + 1))).
  { unfold blen in *. cbn [length]. rewrite length_app. lia. }
  pose proof (blen_nonneg (fmt_bytes f)) as Hs. rewrite <- E in Hs. rewrite Hl2.
  cbn [load_loop app]. destruct (Z.ltb_spec (off + 1 + fmt_size f + blen (wire k dc (i + 1))) (off + 1)); [lia|].
  rewrite <- app_assoc. rewrite (proj2 (Z.ltb_ge (blen (fmt_bytes f ++ _)) _)) by (rewrite blen_app, <- E; unfold blen; lia).
  assert (Hn : Z.to_nat (fmt_size f) = length (fmt_bytes f)) by (unfold blen in E; lia).
  rewrite Hn, take_app_length, drop_app_length.
  unfold fmt_bytes at 1, fmt_of_bytes. rewrite cstr_app0 by apply Hfo. simpl.
  destruct (Z.ltb_spec (off + 1 + fmt_size f + blen (wire k dc (i + 1))) (off + 1 + fmt_size f)); [lia|].
  destruct (IH (<[i:=f]> d) (i + 1) (off + 1 + fmt_size f)) as (d' & Hd' & Hj); [lia..|].
  exists d'. destruct f as [n g]. cbn [nargs fmt] in *. rewrite Hd'. split; [do 3 f_equal; lia|].
  intros j. rewrite Hj, lookup_insert.
  repeat destruct (decide _); subst; try done; try lia.
Qed.
End Loops.

Lemma blen_wire_nonneg k dc i : 0 <= blen (wire k dc i).
Proof. apply blen_nonneg. Qed.

(** The dump is exactly as long as [dc_size] says, and loading it into a fresh
    codec gives a well-formed codec with the same entries under the same numbers. *)
Lemma dc_dump_load_spec dc rest :
  codec_ok dc ->
  exists s b dc', dc_size dc = Ret s /\ dc_dump dc s = Ret (Some b) /\ blen b = s /\
    dc_load dc_new (b ++ rest) s = Ret (Some dc') /\ codec_ok dc' /\
    dict dc' = dict dc /\ dict_used dc' = dict_used dc.
Proof.
  intros Hok. pose proof (ok_used _ Hok) as Hu. pose proof (ok_size _ Hok) as Hsz.
  pose proof (ok_full _ Hok) as Hfl. unfold MAX_DICT_SIZE, DEFAULT_DICT_SIZE in *.
  set (k := Z.to_nat (dict_used dc - 1)). set (w := wire k dc 1).
  assert (Hw : 0 <= blen w) by apply blen_nonneg.
  set (hd := le_bytes 4 (u32 (dict_used dc))). assert (Hhd : blen hd = 4) by done.
  exists (4 + blen w), (hd ++ w).
  destruct (load_loop_spec dc Hok k ∅ 1 4 rest) as (d' & Hl & Hd); [lia..|].
  assert (Hdd : d' = dict dc).
  { apply map_eq. intros j. rewrite Hd. destruct (decide _) as [|Hn]; [done|]. rewrite lookup_empty.
    symmetry. apply eq_None_not_Some. intros Hs%(dict_dom _ _ (ok_dict _ Hok)). lia. }
  set (ds := if DEFAULT_DICT_SIZE <? u32 (Z.min (dict_used dc * 2) MAX_DICT_SIZE)
             then u32 (Z.min (dict_used dc * 2) MAX_DICT_SIZE) else DEFAULT_DICT_SIZE).
  assert (Hds : 1024 <= ds <= 16384 /\ dict_used dc <= ds /\ (dict_used dc = ds -> ds = 16384)).
  { unfold ds, DEFAULT_DICT_SIZE, MAX_DICT_SIZE. rewrite u32_id by lia.
    destruct (Z.ltb_spec 1024 (Z.min (dict_used dc * 2) 16384)); lia. }
  destruct (dc_rebuild_spec {| dict_size := ds; dict := d'; rdict_size := rdict_size dc_new;
    rdict := rdict dc_new; dict_used := 1 + Z.of_nat k |}) as (dc' & Hr & Hok' & Hd' & Hu');
    cbn [dict_size dict dict_used]; unfold MAX_DICT_SIZE, DEFAULT_DICT_SIZE; try lia.
  { rewrite Hdd. replace (1 + Z.of_nat k) with (dict_used dc) by lia. apply Hok. }
  exists dc'. split; [apply dc_size_loop_spec; auto; lia|]. split; [|split; [by rewrite blen_app|split]].
  - unfold dc_dump. destruct (Z.ltb_spec (4 + blen w) 4); [lia|].
    apply dump_loop_spec; auto; try lia. fold k w hd. lia.
  - unfold dc_load. rewrite <- app_assoc.
    rewrite (proj2 (Z.ltb_ge _ 4)) by (rewrite blen_app, Hhd; unfold blen; lia).
    change (take 4 (hd ++ w ++ rest)) with hd. change (drop 4 (hd ++ w ++ rest)) with (w ++ rest).
    assert (Hv : s32 (le_val hd) = dict_used dc).
    { unfold hd. rewrite le_val_le_bytes_id by apply u32_range. rewrite s32_u32, s32_id by lia. done. }
    rewrite Hv.
    destruct (Z.ltb_spec (4 + blen w) 4); [lia|]. unfold MAX_DICT_SIZE at 1.
    destruct (Z.ltb_spec 16384 (dict_used dc)); [lia|]. cbv zeta. fold k.
    change (dict dc_new) with (∅ : gmap Z Fmt). fold w in Hl. rewrite Hl. cbn [mbind outcome_bind].
    cbn [dict_size dc_new] in *. fold ds. by rewrite Hr.
  - split; [done|]. cbn [dict dict_used] in *. split; [congruence|lia].
Qed.

(** The dictionary always fits the limit that [ht_open] puts on it. *)
Lemma wire_bound dc k i : codec_ok dc -> blen (wire k dc i) <= Z.of_nat k * 110.
Proof.
  intros Hok. revert i. induction k as [|k IH]; intros i; [done|]. cbn [wire]. rewrite blen_app. specialize (IH (i + 1)).
  destruct (dict dc !! i) as [f|] eqn:Hf; [|unfold blen in *; simpl; lia].
  destruct (dict_fmt _ _ (ok_dict _ Hok) _ _ Hf) as [_ _ _ Hs]. unfold fmt_bytes, blen in *. simpl. rewrite length_app. simpl. lia.
Qed.

Lemma dc_size_bound dc : codec_ok dc -> exists s, dc_size dc = Ret s /\ 0 < s <= 10 * 2 ^ 20.
Proof.
  intros Hok. pose proof (ok_used _ Hok) as Hu. pose proof (ok_size _ Hok) as Hsz. unfold MAX_DICT_SIZE, DEFAULT_DICT_SIZE in *.
  eexists. split; [apply dc_size_loop_spec; auto; lia|].
  pose proof (wire_bound dc (Z.to_nat (dict_used dc - 1)) 1 Hok). pose proof (blen_nonneg (wire (Z.to_nat (dict_used dc - 1)) dc 1)).
  change (10 * 2 ^ 20) with 10485760. lia.
Qed.

Lemma coded_same dc dc' k e :
  dict dc' = dict dc -> dict_used dc' = dict_used dc -> coded dc k e -> coded dc' k e.
Proof. intros H1 H2. unfold coded. by rewrite H1, H2. Qed.

(** Encoding a sequence of keys, as the tree does while it is filled. *)
Fixpoint encode_all (dc : Codec) (sz : Z) (ks : list bytes) : outcome Codec :=
  match ks with
  | [] => Ret dc
  | k :: r => '(dc', _) ← dc_encode dc sz k; encode_all dc' sz r
  end.

Lemma encode_all_spec ks dc sz :
  codec_ok dc -> 10 <= sz -> Forall (fun k => key_ok k /\ blen k <= sz /\ blen k < FMT_SIZE) ks ->
  exists dc', encode_all dc sz ks = Ret dc' /\ codec_ok dc' /\ codec_le dc dc'.
Proof.
  intros Hok Hsz Hks. revert dc Hok. induction Hks as [|k ks (Hk & Hl & Hf) _ IH]; intros dc Hok.
  { by exists dc. }
  destruct (dc_encode_spec dc sz k Hok Hk Hl Hsz Hf) as (dc1 & e & He & Hok1 & Hle1 & _).
  destruct (IH dc1 Hok1) as (dc2 & H2 & Hok2 & Hle2).
  exists dc2. cbn [encode_all]. rewrite He. simpl. split; [done|]. split; [done|].
  by eapply codec_le_trans, Hle2.
Qed.

(** C28. Key encoding is lossless for the life of the tree: [dc_encode] of a valid
    key of at most 254 bytes (the trees take at most 250; the buffer for the format
    has 255) returns, and whatever such keys are encoded afterwards (growing the
    dictionary, enlarging the index, filling it up), decoding the stored bytes
    still gives the key back and encoding the key again gives the same bytes. *)
Theorem codec_roundtrip dc sz k ks :
  codec_ok dc -> 10 <= sz -> Forall (fun k => key_ok k /\ blen k <= sz /\ blen k < FMT_SIZE) (k :: ks) ->
  exists dc1 e dc2 dc3, dc_encode dc sz k = Ret (dc1, e) /\ encode_all dc1 sz ks = Ret dc2 /\
    dc_decode dc2 (sz + 1) e = Ret k /\ dc_encode dc2 sz k = Ret (dc3, e).
Proof.
  intros Hok Hsz [(Hk & Hl & Hf) Hks]%Forall_cons_1.
  destruct (dc_encode_spec dc sz k Hok Hk Hl Hsz Hf) as (dc1 & e & He & Hok1 & _ & Hc).
  destruct (encode_all_spec ks dc1 sz Hok1 Hsz Hks) as (dc2 & H2 & Hok2 & Hle).
  destruct (dc_encode_spec dc2 sz k Hok2 Hk Hl Hsz Hf) as (dc3 & e' & He' & Hok3 & Hle3 & Hc').
  assert (e' = e) as ->.
  { eapply (coded_fun dc3 k); eauto using coded_mono. }
  exists dc1, e, dc2, dc3. repeat split; auto.
  apply coded_decode; eauto using coded_mono. lia.
Qed.

Lemma key_ok_dec k :
  bool_decide (k <> [] /\ Forall (fun c => 0 < c < 256) k) && first_positive k = true -> key_ok k.
Proof.
  intros [[Hne Ha]%bool_decide_eq_true Hp]%andb_prop. repeat split; auto.
  - eapply Forall_impl; [exact Ha|]. unfold byte_ok. simpl. lia.
  - eapply Forall_impl; [exact Ha|]. simpl. lia.
Qed.

Lemma codec_roundtrip_witness :
  exists dc1 e dc2 dc3, dc_encode dc_new 501 (lit "/photo/12345/x9abcd0") = Ret (dc1, e) /\
    encode_all dc1 501 [lit "/photo/777/x9abcd1"; lit "user"] = Ret dc2 /\
    dc_decode dc2 502 e = Ret (lit "/photo/12345/x9abcd0") /\
    dc_encode dc2 501 (lit "/photo/12345/x9abcd0") = Ret (dc3, e).
Proof.
  apply (codec_roundtrip dc_new 501); [apply dc_new_ok|lia|].
  repeat (apply Forall_cons_2; [split; [apply key_ok_dec; vm_compute; reflexivity|split; [vm_compute; discriminate|vm_compute; reflexivity]]|]).
  apply Forall_nil_2.
Defined.

(** Two valid keys never share a stored form, so the byte comparison of the
    tree compares keys. *)
Theorem codec_injective dc sz k k' dc1 dc2 e e' :
  codec_ok dc -> 10 <= sz -> key_ok k -> key_ok k' -> blen k <= sz -> blen k' <= sz -> blen k < FMT_SIZE -> blen k' < FMT_SIZE ->
  dc_encode dc sz k = Ret (dc1, e) -> dc_encode dc1 sz k' = Ret (dc2, e') -> (e = e' <-> k = k').
Proof.
  intros Hok Hsz Hk Hk' Hl Hl' Hf Hf' H1 H2.
  destruct (dc_encode_spec dc sz k Hok Hk Hl Hsz Hf) as (d1 & e1 & E1 & Hok1 & _ & Hc1).
  rewrite H1 in E1. injection E1 as <- <-.
  destruct (dc_encode_spec dc1 sz k' Hok1 Hk' Hl' Hsz Hf') as (d2 & e2 & E2 & Hok2 & Hle & Hc2).
  rewrite H2 in E2. injection E2 as <- <-.
  pose proof (coded_mono _ _ _ _ Hok1 Hok2 Hle Hc1) as Hc1'. split; intros ->.
  - by eapply coded_inj.
  - by eapply coded_fun.
Qed.

Definition demo_key (n : bytes) : bytes := lit "/album/" ++ n.

Lemma codec_injective_witness :
  exists dc1 e dc2 e', dc_encode dc_new 501 (demo_key (lit "1234")) = Ret (dc1, e) /\
    dc_encode dc1 501 (demo_key (lit "1235")) = Ret (dc2, e') /\ e <> e'.
Proof.
  destruct (dc_encode dc_new 501 (demo_key (lit "1234"))) as [[dc1 e]| |] eqn:H1;
    [|vm_compute in H1; discriminate|vm_compute in H1; discriminate].
  destruct (dc_encode dc1 501 (demo_key (lit "1235"))) as [[dc2 e']| |] eqn:H2;
    [|vm_compute in H1; injection H1 as <- <-; vm_compute in H2; discriminate
     |vm_compute in H1; injection H1 as <- <-; vm_compute in H2; discriminate].
  exists dc1, e, dc2, e'. split; [reflexivity|]. split; [done|]. intros He.
  apply (codec_injective dc_new 501 (demo_key (lit "1234")) (demo_key (lit "1235")) dc1 dc2 e e') in He;
    [vm_compute in He; discriminate|apply dc_new_ok|lia
    |apply key_ok_dec; vm_compute; reflexivity|apply key_ok_dec; vm_compute; reflexivity
    |vm_compute; discriminate|vm_compute; discriminate|vm_compute; reflexivity|vm_compute; reflexivity|exact H1|exact H2].
Defined.

(** C29. The dictionary survives a save and a load: [dc_dump] fills the [dc_size]
    bytes exactly, and [dc_load] of them (whatever follows in the buffer) returns
    a codec in which every stored key decodes as before. *)
Theorem codec_dump_load dc rest k e sz :
  codec_ok dc -> key_ok k -> coded dc k e -> blen k < sz ->
  exists s b dc', dc_size dc = Ret s /\ dc_dump dc s = Ret (Some b) /\ blen b = s /\
    dc_load dc_new (b ++ rest) s = Ret (Some dc') /\ codec_ok dc' /\
    dict dc' = dict dc /\ dc_decode dc' sz e = Ret k.
Proof.
  intros Hok Hk Hc Hsz. destruct (dc_dump_load_spec dc rest Hok) as (s & b & dc' & H1 & H2 & H3 & H4 & H5 & H6 & H7).
  exists s, b, dc'. do 6 (split; [done|]). apply coded_decode; auto.
  by apply (coded_same dc).
Qed.

Lemma codec_dump_load_witness :
  exists dc e s b dc', dc_encode dc_new 501 (demo_key (lit "1234")) = Ret (dc, e) /\
    dc_size dc = Ret s /\ dc_dump dc s = Ret (Some b) /\ blen b = s /\
    dc_load dc_new (b ++ [1; 2]) s = Ret (Some dc') /\ codec_ok dc' /\
    dict dc' = dict dc /\ dc_decode dc' 255 e = Ret (demo_key (lit "1234")).
Proof.
  assert (Hk : key_ok (demo_key (lit "1234"))) by (apply key_ok_dec; vm_compute; reflexivity).
  destruct (dc_encode_spec dc_new 501 (demo_key (lit "1234"))) as (dc & e & He & Hok & _ & Hc);
    [apply dc_new_ok|exact Hk|vm_compute; discriminate|lia|vm_compute; reflexivity|].
  exists dc, e. destruct (codec_dump_load dc [1; 2] (demo_key (lit "1234")) e 255) as (s & b & dc' & H);
    [exact Hok|exact Hk|exact Hc|vm_compute; reflexivity|].
  exists s, b, dc'. split; [exact He|exact H].
Defined.

(** ** What the hash tree relies on

    [kc_rep c k e]: the codec [c] stores the key [k] as [e].  The laws say that
    encoding never fails and only extends the codec, that extensions keep every
    representation, and that representations are functional, injective, short
    and decodable. *)
Class KeyCodecLaws (C : Type) `{KeyCodec C} := {
  kc_ok : C -> Prop;
  kc_le : C -> C -> Prop;
  kc_rep : C -> bytes -> bytes -> Prop;
  kc_new_ok : kc_ok kc_new;
  kc_le_refl c : kc_le c c;
  kc_le_trans a b c : kc_ok a -> kc_ok b -> kc_le a b -> kc_le b c -> kc_le a c;
  kc_encode_rep c sz k : kc_ok c -> key_ok k -> blen k <= sz -> 10 <= sz -> blen k < FMT_SIZE ->
    exists c' e, kc_encode c sz k = Ret (c', e) /\ kc_ok c' /\ kc_le c c' /\ kc_rep c' k e;
  kc_rep_mono c c' k e : kc_ok c -> kc_ok c' -> kc_le c c' -> kc_rep c k e -> kc_rep c' k e;
  kc_rep_fun c k e e' : kc_ok c -> kc_rep c k e -> kc_rep c k e' -> e = e';
  kc_rep_decode c k e sz : kc_ok c -> key_ok k -> kc_rep c k e -> blen k < sz -> kc_decode c sz e = Ret k;
  kc_rep_length c k e : key_ok k -> kc_rep c k e -> (1 <= length e <= Nat.max (length k) 10)%nat;
  kc_dump_load c rest : kc_ok c ->
    exists s b c', kc_size c = Ret s /\ kc_dump c s = Ret (Some b) /\ blen b = s /\
      kc_load kc_new (b ++ rest) s = Ret (Some c') /\ kc_ok c' /\
      forall k e, kc_rep c k e -> kc_rep c' k e;
  kc_size_bound c : kc_ok c -> exists s, kc_size c = Ret s /\ 0 < s <= 10 * 2 ^ 20
}.

#[export] Instance codec_laws : KeyCodecLaws Codec.
Proof.
  refine {| kc_ok := codec_ok; kc_le := codec_le; kc_rep := coded |}.
  - apply dc_new_ok.
  - done.
  - apply codec_le_trans.
  - intros. by apply dc_encode_spec.
  - apply coded_mono.
  - apply coded_fun.
  - intros. by apply coded_decode.
  - apply coded_length.
  - intros c rest Hc. destruct (dc_dump_load_spec c rest Hc) as (s & b & c' & H1 & H2 & H3 & H4 & H5 & H6 & H7).
    exists s, b, c'. do 5 (split; [done|]). intros k e. by apply coded_same.
  - apply dc_size_bound.
Defined.

(** Representations are injective, from decoding. *)
Lemma kc_rep_inj {C} `{KeyCodecLaws C} (c : C) k k' e :
  kc_ok c -> key_ok k -> key_ok k' -> kc_rep c k e -> kc_rep c k' e -> k = k'.
Proof.
  intros Hc Hk Hk' Hr Hr'. set (sz := Z.max (blen k) (blen k') + 1).
  pose proof (kc_rep_decode c k e sz Hc Hk Hr ltac:(lia)) as H1.
  pose proof (kc_rep_decode c k' e sz Hc Hk' Hr' ltac:(lia)) as H2. congruence.
Qed.
