(* ===== verification/HTree.v ===== *)
(** * The hash tree (htree.c, htree.h)

    The index of a bucket: a 16-ary tree over the nibbles of the key hash, kept
    in one array of nodes ([tree->root]) addressed by arithmetic on indices.  A
    leaf holds a chain of blocks ([Data]) of variable-length items; inner nodes
    cache a count and a 16-bit hash of what is below them, used to compare
    replicas.  All functions of htree.c are modelled, over any key codec
    ([KeyCodec]); pthread locks are left out, each function here being the
    critical section.  The facts are in the files
    HTreeLeaf to HTreeVisit. *)
From Stdlib Require Import ZArith Lia List.
From stdpp Require Import base numbers list gmap strings.
From S2P Require Import Prelude Hash CText Codec.

Import Fnv.

Definition BUCKET_SIZE : Z := 16.
Definition SPLIT_LIMIT : Z := 64.
Definition MAX_DEPTH : Z := 8.
Definition g_index : list Z :=
  [0; 1; 17; 273; 4369; 69905; 1118481; 17895697; 286331153; 4581298449].
Definition TREE_BUF_SIZE : Z := 512.
Definition DATA_HEAD_SIZE : Z := 20.
Definition DATA_BLOCK_SIZE : Z := 256.
Definition DATA_BLOCK_SIZE_SMALL : Z := 1024.
Definition MAX_KEY_LEN : Z := 250.
Definition KEY_BUF_LEN : Z := 256.

(** [struct t_item]: [ksz] is the length of [it_key], the stored key. *)
Record Item := { it_pos : Z; it_ver : Z; it_hash : Z; it_key : bytes }.

(** [struct t_data]: [count] is the length of [d_items]; the [next] pointers
    are the order of the chain [n_data] of a node. *)
Record Data := { d_size : Z; d_used : Z; d_items : list Item }.

(** [struct t_node]; [n_data = []] is the null pointer. *)
Record Node := {
  n_is_node : bool;
  n_valid : bool;
  n_depth : Z;
  n_hash : Z;
  n_count : Z;
  n_data : list Data
}.

(** [struct t_hash_tree], without the lock, the scratch buffer and the
    [updating_*] fields (see [ht_get_maybe_tmp]). *)
Record HTree (C : Type) := {
  t_depth : Z;
  t_pos : Z;
  t_height : Z;
  t_block_size : Z;
  t_root : gmap Z Node;
  t_dc : C
}.
Arguments t_depth {C}.
Arguments t_pos {C}.
Arguments t_height {C}.
Arguments t_block_size {C}.
Arguments t_root {C}.
Arguments t_dc {C}.

Definition ITEM_LENGTH (it : Item) : Z := blen (it_key it) + 11.
Definition HASH (it : Item) : Z := it_hash it * b2z (0 <? it_ver it).
(** [it->ksz == p->ksz && memcmp(it->key, p->key, it->ksz) == 0] *)
Definition same_key (it p : Item) : bool := bool_decide (it_key it = it_key p).

Definition init_data (size : Z) : Data := {| d_size := size; d_used := DATA_HEAD_SIZE; d_items := [] |}.

Definition node_zero (depth : Z) : Node :=
  {| n_is_node := false; n_valid := false; n_depth := depth; n_hash := 0; n_count := 0; n_data := [] |}.

(** The items of a leaf in chain order. *)
Definition node_items (n : Node) : list Item := flat_map d_items (n_data n).

Definition with_valid (n : Node) (v : bool) : Node :=
  {| n_is_node := n_is_node n; n_valid := v; n_depth := n_depth n; n_hash := n_hash n;
     n_count := n_count n; n_data := n_data n |}.

(** [clear(node)] *)
Definition clear (n : Node) : Node :=
  {| n_is_node := false; n_valid := true; n_depth := n_depth n; n_hash := 0; n_count := 0;
     n_data := [init_data 64] |}.

(** [free_data(node)] *)
Definition free_data (n : Node) : Node :=
  {| n_is_node := n_is_node n; n_valid := n_valid n; n_depth := n_depth n; n_hash := n_hash n;
     n_count := n_count n; n_data := [] |}.

(** ** Blocks of a leaf *)

(** Overwrite the first item with the key of [it]: the old item, the new chain. *)
Fixpoint items_replace (it : Item) (l : list Item) : option (Item * list Item) :=
  match l with
  | [] => None
  | p :: r => if same_key it p then Some (p, it :: r)
              else '(o, r') ← items_replace it r; Some (o, p :: r')
  end.
Fixpoint chain_replace (it : Item) (c : list Data) : option (Item * list Data) :=
  match c with
  | [] => None
  | d :: r =>
      match items_replace it (d_items d) with
      | Some (o, l) => Some (o, {| d_size := d_size d; d_used := d_used d; d_items := l |} :: r)
      | None => '(o, r') ← chain_replace it r; Some (o, d :: r')
      end
  end.

(** [safe_memcpy(p, data->size - data->used, it, it_len)] and the bookkeeping. *)
Definition data_append (d : Data) (it : Item) : outcome Data :=
  if d_size d - d_used d <? ITEM_LENGTH it then Exit 1
  else Ret {| d_size := d_size d; d_used := d_used d + ITEM_LENGTH it; d_items := d_items d ++ [it] |}.

(** The first block with room, else a new or an enlarged last block. *)
Fixpoint chain_append (block_size : Z) (it : Item) (c : list Data) : outcome (list Data) :=
  match c with
  | [] => Fault
  | d :: r =>
      if d_size d <? d_used d + ITEM_LENGTH it then
        match r with
        | [] =>
            if block_size <? d_used d + ITEM_LENGTH it then
              d' ← data_append (init_data (DATA_HEAD_SIZE + ITEM_LENGTH it)) it; Ret [d; d']
            else
              let size := Z.min (Z.max (d_used d + ITEM_LENGTH it) (d_size d)) block_size in
              d' ← data_append {| d_size := size; d_used := d_used d; d_items := d_items d |} it;
              Ret [d']
        | _ => r' ← chain_append block_size it r; Ret (d :: r')
        end
      else d' ← data_append d it; Ret (d' :: r)
  end.

(** Take the first item with the key of [it] out of a block. *)
Fixpoint items_remove (it : Item) (l : list Item) : option (Item * list Item) :=
  match l with
  | [] => None
  | p :: r => if same_key it p then Some (p, r)
              else '(o, r') ← items_remove it r; Some (o, p :: r')
  end.
(** A block that becomes empty is freed unless it is the first or the last. *)
Fixpoint chain_remove (first : bool) (it : Item) (c : list Data) : option (Item * list Data) :=
  match c with
  | [] => None
  | d :: r =>
      match items_remove it (d_items d) with
      | Some (o, l) =>
          let d' := {| d_size := d_size d; d_used := d_used d - ITEM_LENGTH o; d_items := l |} in
          match l with
          | _ :: _ => Some (o, d' :: r)
          | [] => if negb first && negb (bool_decide (r = [])) then Some (o, r) else Some (o, d' :: r)
          end
      | None => '(o, r') ← chain_remove false it r; Some (o, d :: r')
      end
  end.

(** ** The node array *)
Section Tree.
Context {C : Type} {KC : KeyCodec C}.
Implicit Types t : HTree C.

Definition with_root t (r : gmap Z Node) : HTree C :=
  {| t_depth := t_depth t; t_pos := t_pos t; t_height := t_height t;
     t_block_size := t_block_size t; t_root := r; t_dc := t_dc t |}.
Definition with_dc t (c : C) : HTree C :=
  {| t_depth := t_depth t; t_pos := t_pos t; t_height := t_height t;
     t_block_size := t_block_size t; t_root := t_root t; t_dc := c |}.

(** [tree->root[i]] *)
Definition node_at t (i : Z) : outcome Node :=
  match t_root t !! i with Some n => Ret n | None => Fault end.
Definition set_node t (i : Z) (n : Node) : HTree C := with_root t (<[i := n]> (t_root t)).

Definition get_pos (i : Z) (n : Node) : outcome Z :=
  g ← fetch g_index (n_depth n); Ret (u32 (i - g)).

Definition get_child (i : Z) (n : Node) (b : Z) : outcome Z :=
  g ← fetch g_index (n_depth n + 1); p ← get_pos i n; Ret (s32 (g + u32 (Z.shiftl p 4) + b)).

(** The macro [INDEX(it)]; a shift outside the width of the hash is undefined. *)
Definition INDEX t (n : Node) (keyhash : Z) : outcome Z :=
  let sh := (7 - n_depth n - t_depth t) * 4 in
  if (sh <? 0) || (31 <? sh) then Fault else Ret (Z.land 0x0f (Z.shiftr keyhash sh)).

Definition key_hash t (it : Item) : outcome Z :=
  k ← kc_decode (t_dc t) KEY_BUF_LEN (it_key it); Ret (fnv1a k).

(** [check_version]: its result is ignored by the caller; the key is decoded
    for the log. *)
Definition check_version t (oldit newit : Item) : outcome bool :=
  if Z.abs (it_ver oldit) <=? Z.abs (it_ver newit) then Ret true
  else _ ← kc_decode (t_dc t) KEY_BUF_LEN (it_key oldit); Ret false.

Definition create_item t (key : bytes) (pos hash ver : Z) : outcome (HTree C * Item) :=
  '(c, e) ← kc_encode (t_dc t) (TREE_BUF_SIZE - 11) key;
  Ret (with_dc t c,
       {| it_pos := pos; it_ver := ver; it_hash := hash;
          it_key := take (Z.to_nat (u8 (blen e))) e |}).

(** The nodes [i], [i+1], ... ([k] of them) set to [f] of what they hold. *)
Fixpoint fill_nodes (k : nat) (f : Z -> Node) (i : Z) (r : gmap Z Node) : gmap Z Node :=
  match k with O => r | S k' => fill_nodes k' f (i + 1) (<[i := f i]> r) end.

Definition enlarge_pool t : outcome (HTree C) :=
  old_size ← fetch g_index (t_height t);
  new_size ← fetch g_index (t_height t + 1);
  Ret {| t_depth := t_depth t; t_pos := t_pos t; t_height := t_height t + 1;
         t_block_size := t_block_size t;
         t_root := fill_nodes (Z.to_nat (new_size - old_size)) (fun _ => node_zero (t_height t))
                     old_size (t_root t);
         t_dc := t_dc t |}.

(** [for (i = 0; i < BUCKET_SIZE; ++i) clear(child + i);] *)
Fixpoint clear_children (k : nat) t (c : Z) : outcome (HTree C) :=
  match k with
  | O => Ret t
  | S k' => n ← node_at t c; clear_children k' (set_node t c (clear n)) (c + 1)
  end.

(** [while (node->is_node) { node->valid = 0; node = get_child(...); }]; without
    the write in [get_item_hash].  The depth grows, so the height is enough fuel. *)
Fixpoint descend (mark : bool) (fuel : nat) t (i keyhash : Z) : outcome (HTree C * Z) :=
  match fuel with
  | O => Fault
  | S f =>
      n ← node_at t i;
      if n_is_node n then
        b ← INDEX t n keyhash;
        c ← get_child i n b;
        descend mark f (if mark then set_node t i (with_valid n false) else t) c keyhash
      else Ret (t, i)
  end.

(** The loop of [split_node] over the items of the node, [add] being
    [add_item(tree, ..., false)]. *)
Fixpoint split_items (add : HTree C -> Z -> Item -> Z -> outcome (HTree C))
    t (n : Node) (c : Z) (l : list Item) : outcome (HTree C) :=
  match l with
  | [] => Ret t
  | it :: r =>
      h ← key_hash t it;
      let keyhash := s32 h in
      b ← INDEX t n keyhash;
      t' ← add t (c + b) it (u32 keyhash);
      split_items add t' n c r
  end.

Definition split_node (add : HTree C -> Z -> Item -> Z -> outcome (HTree C)) t (i : Z)
  : outcome (HTree C) :=
  n ← node_at t i;
  c ← get_child i n 0;
  t1 ← clear_children 16 t c;
  t2 ← split_items add t1 n c (node_items n);
  n2 ← node_at t2 i;
  Ret (set_node t2 i
         {| n_is_node := true; n_valid := false; n_depth := n_depth n2; n_hash := n_hash n2;
            n_count := n_count n2; n_data := [] |}).

(** The part of [add_item] after the descent, on the leaf [n]. *)
Definition leaf_add (block_size : Z) t (n : Node) (it : Item) (keyhash : Z) : outcome (Node * bool) :=
  match chain_replace it (n_data n) with
  | Some (p, c) =>
      _ ← check_version t p it;
      Ret ({| n_is_node := n_is_node n; n_valid := n_valid n; n_depth := n_depth n;
              n_hash := u16 (n_hash n + (HASH it - HASH p) * keyhash);
              n_count := u32 (u32 (n_count n + b2z (0 <? it_ver it)) - b2z (0 <? it_ver p));
              n_data := c |}, false)
  | None =>
      c ← chain_append block_size it (n_data n);
      Ret ({| n_is_node := n_is_node n; n_valid := n_valid n; n_depth := n_depth n;
              n_hash := u16 (n_hash n + keyhash * HASH it);
              n_count := u32 (n_count n + b2z (0 <? it_ver it));
              n_data := c |}, true)
  end.

(** [add_item]: each nested call is one level deeper, so [MAX_DEPTH + 2] is
    enough fuel. *)
Fixpoint add_item (fuel : nat) t (i : Z) (it : Item) (keyhash : Z) (enlarge : bool)
  : outcome (HTree C) :=
  match fuel with
  | O => Fault
  | S f =>
      '(t, i) ← descend true (Z.to_nat (t_height t)) t i keyhash;
      n ← node_at t i;
      '(n, added) ← leaf_add (t_block_size t) t n it keyhash;
      let t := set_node t i n in
      if added && (SPLIT_LIMIT <? n_count n) then
        let add t i it keyhash := add_item f t i it keyhash false in
        if n_depth n =? t_height t - 1 then
          if enlarge && (t_height t + t_depth t <? MAX_DEPTH) && (SPLIT_LIMIT * 4 <? n_count n) then
            t ← enlarge_pool t; split_node add t i
          else Ret t
        else split_node add t i
      else Ret t
  end.

Definition ADD_FUEL : nat := 10.

Definition remove_item t (i : Z) (it : Item) (keyhash : Z) : outcome (HTree C) :=
  '(t, i) ← descend true (Z.to_nat (t_height t)) t i keyhash;
  n ← node_at t i;
  match chain_remove true it (n_data n) with
  | Some (p, c) =>
      Ret (set_node t i
        {| n_is_node := n_is_node n; n_valid := n_valid n; n_depth := n_depth n;
           n_hash := u16 (n_hash n - keyhash * HASH p);
           n_count := u32 (n_count n - b2z (0 <? it_ver p));
           n_data := c |})
  | None => Ret t
  end.

(** The inner loops of [merge_node] over the items of one child. *)
Fixpoint merge_items t (i : Z) (l : list Item) : outcome (HTree C) :=
  match l with
  | [] => Ret t
  | it :: r =>
      if 0 <? it_ver it then
        h ← key_hash t it; t' ← add_item ADD_FUEL t i it h false; merge_items t' i r
      else merge_items t i r
  end.
Fixpoint merge_children (k : nat) t (i c : Z) : outcome (HTree C) :=
  match k with
  | O => Ret t
  | S k' =>
      n ← node_at t c;
      t ← merge_items t i (node_items n);
      n ← node_at t c;
      merge_children k' (set_node t c (free_data n)) i (c + 1)
  end.
Definition merge_node t (i : Z) : outcome (HTree C) :=
  n ← node_at t i;
  let t := set_node t i (clear n) in
  c ← get_child i (clear n) 0;
  merge_children 16 t i c.

(** [node->hash] recomputed from the hashes of the children. *)
Definition hash_step (count h ch : Z) : Z :=
  u16 ((if SPLIT_LIMIT * 4 <? count then u16 (h * 97) else h) + ch).

Fixpoint child_hashes (k : nat) t (c : Z) : outcome (list Z) :=
  match k with
  | O => Ret []
  | S k' => n ← node_at t c; l ← child_hashes k' t (c + 1); Ret (n_hash n :: l)
  end.

(** The first loop of [update_node]: update each child and add up the counts. *)
Fixpoint update_children (up : HTree C -> Z -> outcome (HTree C)) (k : nat) t (c count : Z)
  : outcome (HTree C * Z) :=
  match k with
  | O => Ret (t, count)
  | S k' =>
      t ← up t c;
      n ← node_at t c;
      update_children up k' t (c + 1) (u32 (count + n_count n))
  end.

Fixpoint update_node (fuel : nat) t (i : Z) : outcome (HTree C) :=
  match fuel with
  | O => Fault
  | S f =>
      n ← node_at t i;
      if n_valid n then Ret t
      else
        '(t, n) ←
          (if n_is_node n then
             c ← get_child i n 0;
             '(t, count) ← update_children (update_node f) 16 t c 0;
             hs ← child_hashes 16 t c;
             Ret (t, {| n_is_node := true; n_valid := true; n_depth := n_depth n;
                        n_hash := fold_left (hash_step count) hs 0; n_count := count;
                        n_data := n_data n |})
           else
             Ret (t, {| n_is_node := false; n_valid := true; n_depth := n_depth n; n_hash := 0;
                        n_count := n_count n; n_data := n_data n |}));
        let t := set_node t i n in
        if n_count n <=? SPLIT_LIMIT then merge_node t i else Ret t
  end.

(** [get_item_hash]: the first item with the key in the leaf. *)
Definition get_item_hash t (i : Z) (key : bytes) (keyhash : Z) : outcome (option Item) :=
  '(_, i) ← descend false (Z.to_nat (t_height t)) t i keyhash;
  n ← node_at t i;
  Ret (List.find (fun p => bool_decide (key = it_key p)) (node_items n)).

(** ** Node hashes and listings *)
(** [hex2int] *)
Definition hex2int (b : Z) : Z :=
  if ((48 <=? b) && (b <=? 57)) || ((97 <=? b) && (b <=? 102))
  then if 97 <=? b then b - 97 + 10 else b - 48 else -1.

(** [get_node_hash]: the tree, the hash and the count. *)
Fixpoint get_node_hash t (i : Z) (dir : bytes) : outcome (HTree C * Z * Z) :=
  n ← node_at t i;
  match dir with
  | d :: dir' =>
      if n_is_node n then
        let b := hex2int d in
        if 0 <=? b then c ← get_child i n b; get_node_hash t c dir' else Ret (t, 0, 0)
      else
        t ← update_node ADD_FUEL t i; n ← node_at t i; Ret (t, n_hash n, n_count n)
  | [] => t ← update_node ADD_FUEL t i; n ← node_at t i; Ret (t, n_hash n, n_count n)
  end.

(** [safe_snprintf(buf + n, bsize - n, ...)]: truncation ends the process. *)
Definition buf_print (bsize : Z) (buf line : bytes) : outcome bytes :=
  if bsize - blen buf <=? blen line then Exit 1 else Ret (buf ++ line).

(** [%08x] *)
Definition print_08x (x : Z) : bytes :=
  let s := print_x x in repeat 48 (8 - length s) ++ s.

(** The loop of [list_dir] over the items of a leaf. *)
Fixpoint list_items t (ndepth : Z) (dir : bytes) (prefix : option bytes) (l : list Item)
    (bsize : Z) (buf : bytes) : outcome bytes :=
  match l with
  | [] => Ret buf
  | it :: r =>
      skip ← (if 0 <? blen dir then
                h ← key_hash t it;
                let pbuf := print_08x h ++ [0] in
                Ret (negb (bool_decide
                  (take (length dir) (drop (Z.to_nat (t_depth t + ndepth)) pbuf) = dir)))
              else Ret false);
      if (skip : bool) then list_items t ndepth dir prefix r bsize buf
      else
        key ← kc_decode (t_dc t) KEY_BUF_LEN (it_key it);
        let hit := match prefix with
                   | None => true
                   | Some p => (blen p <=? blen key) && bool_decide (take (length p) key = p)
                   end in
        if hit then
          let bsize := if bsize - blen buf <? KEY_BUF_LEN + 32 then bsize * 2 else bsize in
          buf ← buf_print bsize buf
                  (cstr key ++ [32] ++ print_u (it_hash it) ++ [32] ++ print_d (it_ver it) ++ [10]);
          list_items t ndepth dir prefix r bsize buf
        else list_items t ndepth dir prefix r bsize buf
  end.

(** The lines [%x/ %u %u] for the children. *)
Fixpoint list_counts (k : nat) t (c i bsize : Z) (buf : bytes) : outcome bytes :=
  match k with
  | O => Ret buf
  | S k' =>
      n ← node_at t (c + i);
      buf ← buf_print bsize buf
              (print_x i ++ [47; 32] ++ print_u (n_hash n) ++ [32] ++ print_u (n_count n) ++ [10]);
      list_counts k' t c (i + 1) bsize buf
  end.

(** The concatenated listings of the children. *)
Fixpoint list_children (ls : HTree C -> Z -> outcome (HTree C * option bytes))
    (k : nat) t (c : Z) (bsize : Z) (buf : bytes) : outcome (HTree C * bytes) :=
  match k with
  | O => Ret (t, buf)
  | S k' =>
      '(t, r) ← ls t c;
      match r with
      | None => Fault
      | Some r =>
          let rl := blen r + 1 in
          let bsize := if bsize - blen buf <? rl then bsize + rl else bsize in
          buf ← buf_print bsize buf r;
          list_children ls k' t (c + 1) bsize buf
      end
  end.

(** The descent of [list_dir]: node index and the rest of [dir]. *)
Fixpoint list_descend t (i : Z) (dir : bytes) : outcome (option (Z * bytes)) :=
  n ← node_at t i;
  match dir with
  | d :: dir' =>
      if n_is_node n then
        let b := hex2int d in
        if (0 <=? b) && (b <? BUCKET_SIZE) then c ← get_child i n b; list_descend t c dir'
        else Ret None
      else Ret (Some (i, dir))
  | [] => Ret (Some (i, []))
  end.

Fixpoint list_dir (fuel : nat) t (i : Z) (dir : bytes) (prefix : option bytes)
  : outcome (HTree C * option bytes) :=
  match fuel with
  | O => Fault
  | S f =>
      r ← list_descend t i dir;
      match r with
      | None => Ret (t, None)
      | Some (i, dir) =>
          n ← node_at t i;
          if n_is_node n then
            t ← update_node ADD_FUEL t i;
            n ← node_at t i;
            c ← get_child i n 0;
            if (100000 <? n_count n) ||
               (bool_decide (prefix = None) && (SPLIT_LIMIT * 4 <? n_count n)) then
              b ← list_counts 16 t c 0 4096 []; Ret (t, Some b)
            else
              '(t, b) ← list_children (fun t c => list_dir f t c [] prefix) 16 t c 4096 [];
              Ret (t, Some b)
          else
            b ← list_items t (n_depth n) dir prefix (node_items n) 4096 [];
            Ret (t, Some b)
      end
  end.

(** ** Visiting *)
(** The items of a leaf with their keys decoded, given to the visitor. *)
Fixpoint visit_items {S} t (visitor : Item -> S -> outcome S) (l : list Item) (s : S) : outcome S :=
  match l with
  | [] => Ret s
  | p :: r =>
      k ← kc_decode (t_dc t) (TREE_BUF_SIZE - 11) (it_key p);
      let ks := cstr k in
      s ← visitor {| it_pos := it_pos p; it_ver := it_ver p; it_hash := it_hash p;
                     it_key := take (Z.to_nat (u8 (blen ks))) ks |} s;
      visit_items t visitor r s
  end.
Fixpoint visit_children {S} (vis : Z -> S -> outcome S) (k : nat) (c : Z) (s : S) : outcome S :=
  match k with O => Ret s | S k' => s ← vis c s; visit_children vis k' (c + 1) s end.
Fixpoint visit_node {S} (fuel : nat) t (i : Z) (visitor : Item -> S -> outcome S) (s : S) : outcome S :=
  match fuel with
  | O => Fault
  | S f =>
      n ← node_at t i;
      if n_is_node n then
        c ← get_child i n 0; visit_children (fun c s => visit_node f t c visitor s) 16 c s
      else visit_items t visitor (node_items n) s
  end.

(** ** API *)
Definition ht_new (depth pos : Z) (tmp : bool) : HTree C :=
  {| t_depth := depth; t_pos := pos; t_height := 1;
     t_block_size := if tmp then DATA_BLOCK_SIZE_SMALL else DATA_BLOCK_SIZE;
     t_root := {[ 0 := clear (node_zero 0) ]}; t_dc := kc_new |}.

Definition keyhash (key : bytes) : Z := fnv1a key.

(** [check_key]; [char] is signed. *)
Definition check_key (key : bytes) : bool :=
  if (blen key =? 0) || (MAX_KEY_LEN <? blen key) then false
  else match key with
       | [] => false
       | c :: _ => if s8 c <=? 32 then false
                   else forallb (fun c => negb (isspace c || iscntrl c)) key
       end.

(** [tree->depth > 0 && h >> ((8-tree->depth) * 4) != tree->pos] *)
Definition check_bucket t (key : bytes) : bool :=
  negb ((0 <? t_depth t) &&
        negb (Z.shiftr (keyhash key) ((8 - t_depth t) * 4) =? u32 (t_pos t))).

Definition ht_add2 t (key : bytes) (pos hash ver : Z) : outcome (HTree C) :=
  if negb (check_bucket t key) then Ret t else
  '(t, it) ← create_item t key pos hash ver;
  add_item ADD_FUEL t 0 it (keyhash key) true.

Definition ht_remove2 t (key : bytes) : outcome (HTree C) :=
  if negb (check_bucket t key) then Ret t else
  '(t, it) ← create_item t key 0 0 0;
  remove_item t 0 it (keyhash key).

(** [ht_get2]: the item found, with the key itself in place of its stored form. *)
Definition ht_get2 t (key : bytes) : outcome (HTree C * option Item) :=
  if negb (check_bucket t key) then Ret (t, None) else
  '(t, it) ← create_item t key 0 0 0;
  r ← get_item_hash t 0 (it_key it) (keyhash key);
  Ret (t, match r with
          | Some p => Some {| it_pos := it_pos p; it_ver := it_ver p; it_hash := it_hash p; it_key := key |}
          | None => None
          end).

Definition ht_get_hash t (key : bytes) : outcome (HTree C * Z * Z) :=
  match key with
  | 64 :: dir => t ← update_node ADD_FUEL t 0; get_node_hash t 0 dir
  | _ => Ret (t, 0, 0)
  end.

(** [ht_list(tree, dir, prefix)] *)
Definition ht_list t (dir : bytes) (prefix : option bytes) : outcome (HTree C * option bytes) :=
  if 8 <? blen dir then Ret (t, None)
  else list_dir ADD_FUEL t 0 dir (match prefix with Some [] => None | p => p end).

Definition ht_visit {S} t (visitor : Item -> S -> outcome S) (s : S) : outcome S :=
  visit_node ADD_FUEL t 0 visitor s.

(** [ht_get_withbuf]: the stored item, its key in stored form. *)
Definition ht_get_withbuf t (key : bytes) : outcome (HTree C * option Item) :=
  if negb (check_bucket t key) then Ret (t, None) else
  '(c, e) ← kc_encode (t_dc t) (TREE_BUF_SIZE - 11) key;
  let t := with_dc t c in
  r ← get_item_hash t 0 (take (Z.to_nat (u8 (blen e))) e) (keyhash key);
  Ret (t, r).
End Tree.

(** ** A tree whose bucket is being rewritten

    The fields [updating_bucket] (-1 when unset) and [updating_tree] of a tree. *)
Record Updating (C : Type) := { up_bucket : Z; up_tree : option (HTree C) }.
Arguments up_bucket {C}.
Arguments up_tree {C}.

Definition ht_set_updating_bucket {C} (bucket : Z) (ut : option (HTree C)) : Updating C :=
  {| up_bucket := u32 bucket; up_tree := ut |}.

(** [ht_get_maybe_tmp] with no writer in between: the second test of the bucket
    agrees with the first. *)
Definition ht_get_maybe_tmp {C} `{KeyCodec C} (t : HTree C) (u : Updating C) (key : bytes)
  : outcome (HTree C * Updating C * bool * option Item) :=
  '(t, r) ← ht_get_withbuf t key;
  match r with
  | None => Ret (t, u, false, None)
  | Some it =>
      if up_bucket u =? Z.land (it_pos it) 0xff then
        match up_tree u with
        | None => Fault
        | Some ut =>
            '(ut, r) ← ht_get_withbuf ut key;
            Ret (t, {| up_bucket := up_bucket u; up_tree := Some ut |}, true, r)
        end
      else Ret (t, u, false, Some it)
  end.
