(* ===== verification/HTreeLeaf.v ===== *)
(** * Blocks and leaves of the hash tree: facts

    What the block operations do to the list of items of a leaf, and the
    capacity invariant of blocks. *)
From Stdlib Require Import ZArith Lia List.
From stdpp Require Import base numbers list gmap strings.
From S2P Require Import Prelude Hash CText Codec CodecFacts HTree.

Lemma same_key_true it p : same_key it p = true <-> it_key it = it_key p.
Proof. apply bool_decide_eq_true. Qed.

(** The bytes of a block are those of its items and fit its allocation. *)
Definition items_len (l : list Item) : Z := fold_right (fun it s => ITEM_LENGTH it + s) 0 l.
Definition block_ok (d : Data) : Prop :=
  d_used d = DATA_HEAD_SIZE + items_len (d_items d) /\ d_used d <= d_size d.
Definition chain_ok (c : list Data) : Prop := c <> [] /\ Forall block_ok c.

(** Each listed block is fine by hypothesis. *)
Ltac chain_blocks := repeat first [apply Forall_nil_2 | apply Forall_cons_2; [done|]].

Lemma items_len_app a b : items_len (a ++ b) = items_len a + items_len b.
Proof. induction a; simpl; [done|]. rewrite IHa. lia. Qed.

Lemma ITEM_LENGTH_same it p : it_key it = it_key p -> ITEM_LENGTH it = ITEM_LENGTH p.
Proof. unfold ITEM_LENGTH. by intros ->. Qed.

Abbreviation chain_items := (flat_map d_items).

(** No item of the list has the key. *)
Definition lacks (k : bytes) (l : list Item) : Prop := Forall (fun p => it_key p <> k) l.

#[export] Instance lacks_perm k : Proper (Permutation ==> iff) (lacks k).
Proof. intros a b H. unfold lacks. by rewrite H. Qed.

Lemma lacks_app k a b : lacks k (a ++ b) <-> lacks k a /\ lacks k b.
Proof. apply Forall_app. Qed.

(** ** Overwriting an item *)
Lemma items_replace_some it l o l' :
  items_replace it l = Some (o, l') ->
  it_key o = it_key it /\ exists l1 l2, l = l1 ++ o :: l2 /\ l' = l1 ++ it :: l2 /\ lacks (it_key it) l1.
Proof.
  revert l'. induction l as [|p r IH]; intros l' H; simpl in H; [done|].
  destruct (same_key it p) eqn:E.
  - apply same_key_true in E. injection H as <- <-. split; [done|]. exists [], r. by repeat constructor.
  - destruct (items_replace it r) as [[o' r']|]; [|done]. injection H as <- <-.
    destruct (IH r' eq_refl) as (Hk & l1 & l2 & -> & -> & Hl). split; [done|].
    exists (p :: l1), l2. split; [done|]. split; [done|]. constructor; [|done].
    intros Hp. apply not_true_iff_false in E. apply E, same_key_true. by symmetry.
Qed.

Lemma items_replace_none it l : items_replace it l = None -> lacks (it_key it) l.
Proof.
  induction l as [|p r IH]; simpl; intros H; [constructor|].
  destruct (same_key it p) eqn:E; [done|]. destruct (items_replace it r) as [[]|]; [done|].
  constructor; [|by apply IH]. intros Hp. apply not_true_iff_false in E. apply E, same_key_true. by symmetry.
Qed.

Lemma chain_replace_some it c o c' :
  chain_replace it c = Some (o, c') -> chain_ok c ->
  it_key o = it_key it /\ chain_ok c' /\
  exists l1 l2, chain_items c = l1 ++ o :: l2 /\ chain_items c' = l1 ++ it :: l2 /\ lacks (it_key it) l1.
Proof.
  intros H [Hne Hc]. assert (Hf : Forall block_ok c' /\ c' <> [] /\ it_key o = it_key it /\
    exists l1 l2, chain_items c = l1 ++ o :: l2 /\ chain_items c' = l1 ++ it :: l2 /\ lacks (it_key it) l1).
  { clear Hne. revert c' H. induction Hc as [|d r Hd Hr IH]; intros c' H; simpl in H; [done|].
    destruct (items_replace it (d_items d)) as [[o1 l]|] eqn:E.
    - injection H as <- <-. destruct (items_replace_some _ _ _ _ E) as (Hk & l1 & l2 & E1 & -> & Hl).
      split; [|split; [done|]].
      + constructor; [|done]. destruct Hd as [Hu Hs]. split; simpl; [|done].
        rewrite Hu, E1, !items_len_app. simpl. by rewrite (ITEM_LENGTH_same _ _ Hk).
      + split; [done|]. exists l1, (l2 ++ chain_items r). simpl. rewrite E1, <- !app_assoc. done.
    - destruct (chain_replace it r) as [[o' r']|]; [|done]. injection H as <- <-.
      destruct (IH r' eq_refl) as (Hf & _ & Hk & l1 & l2 & E1 & E2 & Hl).
      split; [by constructor|]. split; [done|]. split; [done|].
      exists (d_items d ++ l1), l2. simpl. rewrite E1, E2, <- !app_assoc. split; [done|]. split; [done|].
      apply lacks_app. split; [by apply items_replace_none|done]. }
  destruct Hf as (? & ? & ? & ?). by repeat split.
Qed.

Lemma chain_replace_none it c : chain_replace it c = None -> lacks (it_key it) (chain_items c).
Proof.
  induction c as [|d r IH]; simpl; intros H; [constructor|].
  destruct (items_replace it (d_items d)) as [[]|] eqn:E; [done|].
  destruct (chain_replace it r) as [[]|]; [done|].
  apply lacks_app. split; [by apply items_replace_none|by apply IH].
Qed.

(** ** Adding an item: no write outside a block, whatever the sizes *)
Lemma data_append_spec d it :
  block_ok d -> ITEM_LENGTH it <= d_size d - d_used d ->
  exists d', data_append d it = Ret d' /\ block_ok d' /\ d_items d' = d_items d ++ [it].
Proof.
  intros [Hu Hs] Hl. unfold data_append. destruct (Z.ltb_spec (d_size d - d_used d) (ITEM_LENGTH it)); [lia|].
  eexists. split; [done|]. split; [|done]. split; simpl; [|lia].
  rewrite Hu, items_len_app. simpl. lia.
Qed.

Lemma item_length_pos it : 11 <= ITEM_LENGTH it.
Proof. unfold ITEM_LENGTH, blen. lia. Qed.

Lemma chain_append_spec bs it c :
  chain_ok c -> exists c', chain_append bs it c = Ret c' /\ chain_ok c' /\
    chain_items c' ≡ₚ it :: chain_items c.
Proof.
  pose proof (item_length_pos it) as Hlen.
  intros [Hne Hc]. revert Hne. induction Hc as [|d r Hd Hr IH]; intros Hne; [done|]. simpl.
  destruct (Z.ltb_spec (d_size d) (d_used d + ITEM_LENGTH it)) as [Hfull|Hroom].
  - destruct r as [|d2 r].
    + destruct (Z.ltb_spec bs (d_used d + ITEM_LENGTH it)) as [Hb|Hb].
      * destruct (data_append_spec (init_data (DATA_HEAD_SIZE + ITEM_LENGTH it)) it) as (d' & -> & Hd' & Hi).
        { split; simpl; unfold DATA_HEAD_SIZE; lia. }
        { simpl. lia. }
        simpl. eexists. split; [done|]. split; [split; [done|chain_blocks]|].
        simpl. rewrite Hi, !app_nil_r. simpl. by rewrite Permutation_app_comm.
      * destruct (data_append_spec {| d_size := Z.min (Z.max (d_used d + ITEM_LENGTH it) (d_size d)) bs;
          d_used := d_used d; d_items := d_items d |} it) as (d' & -> & Hd' & Hi).
        { destruct Hd. split; simpl; lia. }
        { simpl. lia. }
        simpl. eexists. split; [done|]. split; [split; [done|chain_blocks]|].
        simpl. rewrite Hi, !app_nil_r. simpl. by rewrite Permutation_app_comm.
    + destruct IH as (c' & -> & [Hne' Hok'] & Hp); [done|]. simpl mbind. cbn [mbind outcome_bind].
      eexists. split; [done|]. split; [split; [done|by constructor]|].
      simpl. simpl in Hp. rewrite Hp. by rewrite <- Permutation_middle.
  - destruct (data_append_spec d it Hd ltac:(lia)) as (d' & -> & Hd' & Hi). simpl.
    eexists. split; [done|]. split; [split; [done|by constructor]|].
    simpl. rewrite Hi, <- app_assoc. simpl. by rewrite Permutation_middle.
Qed.

(** ** Removing an item *)
Lemma items_remove_some it l o l' :
  items_remove it l = Some (o, l') -> it_key o = it_key it /\ l ≡ₚ o :: l'.
Proof.
  revert l'. induction l as [|p r IH]; intros l' H; simpl in H; [done|].
  destruct (same_key it p) eqn:E.
  - apply same_key_true in E. by injection H as <- <-.
  - destruct (items_remove it r) as [[o' r']|]; [|done]. injection H as <- <-.
    destruct (IH r' eq_refl) as (Hk & Hp). split; [done|]. rewrite Hp. apply perm_swap.
Qed.

Lemma items_remove_none it l : items_remove it l = None -> lacks (it_key it) l.
Proof.
  induction l as [|p r IH]; simpl; intros H; [constructor|].
  destruct (same_key it p) eqn:E; [done|]. destruct (items_remove it r) as [[]|]; [done|].
  constructor; [|by apply IH]. intros Hp. apply not_true_iff_false in E. apply E, same_key_true. by symmetry.
Qed.

Lemma items_len_perm a b : a ≡ₚ b -> items_len a = items_len b.
Proof. induction 1; simpl; lia. Qed.

Lemma chain_remove_some first it c o c' :
  chain_remove first it c = Some (o, c') -> Forall block_ok c ->
  it_key o = it_key it /\ Forall block_ok c' /\ c' <> [] /\ chain_items c ≡ₚ o :: chain_items c'.
Proof.
  intros H Hc. revert first c' H. induction Hc as [|d r Hd Hr IH]; intros first c' H; simpl in H; [done|].
  destruct (items_remove it (d_items d)) as [[o1 l]|] eqn:E.
  - destruct (items_remove_some _ _ _ _ E) as (Hk & Hp).
    set (d' := {| d_size := d_size d; d_used := d_used d - ITEM_LENGTH o1; d_items := l |}) in *.
    assert (Hd' : block_ok d').
    { destruct Hd as [Hu Hs]. pose proof (item_length_pos o1). split; simpl; [|lia].
      rewrite Hu, (items_len_perm _ _ Hp). simpl. lia. }
    assert (Hperm : chain_items (d :: r) ≡ₚ o1 :: chain_items (d' :: r)) by (simpl; by rewrite Hp).
    destruct l as [|x l'].
    + destruct (negb first && negb (bool_decide (r = []))) eqn:En; injection H as <- <-.
      * bool_to_prop. split; [done|]. split; [done|].
        split; [by apply bool_decide_eq_false in H0|]. done.
      * split; [done|]. split; [by constructor|]. done.
    + injection H as <- <-. split; [done|]. split; [by constructor|]. done.
  - destruct (chain_remove false it r) as [[o' r']|] eqn:E2; [|done]. injection H as <- <-.
    destruct (IH _ _ E2) as (Hk & Hf & _ & Hp). split; [done|]. split; [by constructor|]. split; [done|].
    simpl. rewrite Hp. by rewrite <- Permutation_middle.
Qed.

Lemma chain_remove_none first it c : chain_remove first it c = None -> lacks (it_key it) (chain_items c).
Proof.
  revert first. induction c as [|d r IH]; simpl; intros first H; [constructor|].
  destruct (items_remove it (d_items d)) as [[o l]|] eqn:E.
  { destruct l; [destruct (_ && _)|]; done. }
  destruct (chain_remove false it r) as [[]|] eqn:E2; [done|].
  apply lacks_app. split; [by apply items_remove_none|by eapply IH].
Qed.
