(* ===== verification/HTreeShape.v ===== *)
(** * The node array of the hash tree: shape and invariant

    Index arithmetic of the array, the subtree under a node, the well-formedness
    of a subtree and the items it holds, and that a subtree depends on its own
    nodes only. *)
From Stdlib Require Import ZArith Lia List.
From stdpp Require Import base numbers list list_numbers gmap strings.
From S2P Require Import Prelude Hash CText Codec CodecFacts HTree HTreeLeaf.

Import Fnv FnvFacts.

(** ** Index arithmetic *)
(** The number of nodes above depth [d], and the [p]-th node of depth [d]. *)
Definition gi (d : Z) : Z := (16 ^ d - 1) / 15.
Definition idx (d p : Z) : Z := gi d + p.

Lemma pow16_pos d : 0 <= d -> 0 < 16 ^ d.
Proof. intros. apply Z.pow_pos_nonneg; lia. Qed.

Lemma pow16_S d : 0 <= d -> 16 ^ (d + 1) = 16 * 16 ^ d.
Proof. intros. rewrite Z.pow_add_r by lia. lia. Qed.

Lemma gi_mul d : 0 <= d -> 15 * gi d = 16 ^ d - 1.
Proof.
  intros Hd. unfold gi. revert d Hd. apply natlike_ind; [done|].
  intros d Hd IH. unfold Z.succ. rewrite pow16_S by done.
  replace (16 * 16 ^ d - 1) with (16 ^ d - 1 + 16 ^ d * 15) by lia.
  rewrite Z.div_add by lia. lia.
Qed.

Lemma gi_S d : 0 <= d -> gi (d + 1) = gi d + 16 ^ d.
Proof. intros Hd. pose proof (gi_mul d Hd). pose proof (gi_mul (d + 1) ltac:(lia)). rewrite pow16_S in * by done. lia. Qed.

Lemma gi_mono d d' : 0 <= d -> d <= d' -> gi d <= gi d'.
Proof.
  intros Hd Hle. pose proof (gi_mul d Hd). pose proof (gi_mul d' ltac:(lia)).
  pose proof (Z.pow_le_mono_r 16 d d' ltac:(lia) Hle). lia.
Qed.

Lemma g_index_at d : 0 <= d <= 9 -> fetch g_index d = Ret (gi d).
Proof.
  intros Hd. assert (E : d = 0 \/ d = 1 \/ d = 2 \/ d = 3 \/ d = 4 \/ d = 5 \/ d = 6 \/ d = 7 \/ d = 8 \/ d = 9) by lia.
  repeat (destruct E as [-> | E]; [reflexivity|]). by subst.
Qed.

Lemma idx_lt d d' p p' : 0 <= d < d' -> p < 16 ^ d -> 0 <= p' -> idx d p < idx d' p'.
Proof. intros Hd Hp Hp'. unfold idx. pose proof (gi_S d ltac:(lia)). pose proof (gi_mono (d + 1) d' ltac:(lia) ltac:(lia)). lia. Qed.

Lemma idx_inj d d' p p' :
  0 <= d -> 0 <= d' -> 0 <= p < 16 ^ d -> 0 <= p' < 16 ^ d' -> idx d p = idx d' p' -> d = d' /\ p = p'.
Proof.
  intros Hd Hd' Hp Hp' E. destruct (Z.lt_trichotomy d d') as [Hlt|[->|Hlt]].
  - pose proof (idx_lt d d' p p' ltac:(lia) ltac:(lia) ltac:(lia)). lia.
  - split; [done|]. unfold idx in E. lia.
  - pose proof (idx_lt d' d p' p ltac:(lia) ltac:(lia) ltac:(lia)). lia.
Qed.

(** Every index of the array is a node of some depth. *)
Lemma all_indices h j : 0 <= h -> 0 <= j < gi h -> exists d p, 0 <= d < h /\ 0 <= p < 16 ^ d /\ j = idx d p.
Proof.
  intros Hh. revert h Hh j. apply (natlike_ind (fun h => forall j, 0 <= j < gi h -> _)).
  - intros j Hj. change (gi 0) with 0 in Hj. lia.
  - intros h Hh IH j Hj. unfold Z.succ in *. rewrite gi_S in Hj by done. destruct (Z.lt_ge_cases j (gi h)).
    + destruct (IH j ltac:(lia)) as (d & p & Hd & Hp & ->). exists d, p. split; [lia|done].
    + exists h, (j - gi h). split; [lia|]. split; [lia|]. unfold idx. lia.
Qed.

(** ** Where a hash leads *)
(** The position at depth [d] of a hash in a tree of depth [td], and its digit there. *)
Definition hp (td d kh : Z) : Z := (kh / 16 ^ (8 - td - d)) mod 16 ^ d.
Definition digit (td d kh : Z) : Z := (kh / 16 ^ (7 - td - d)) mod 16.

Lemma digit_range td d kh : 0 <= digit td d kh < 16.
Proof. apply Z.mod_pos_bound. lia. Qed.
Lemma hp_range td d kh : 0 <= d -> 0 <= hp td d kh < 16 ^ d.
Proof. intros. apply Z.mod_pos_bound. by apply pow16_pos. Qed.
Lemma hp_0 td kh : hp td 0 kh = 0.
Proof. unfold hp. apply Z.mod_1_r. Qed.

Lemma hp_S td d kh : 0 <= d -> 0 <= td -> td + d <= 7 -> hp td (d + 1) kh = 16 * hp td d kh + digit td d kh.
Proof.
  intros Hd Htd Hs. unfold hp, digit. replace (8 - td - (d + 1)) with (7 - td - d) by lia.
  pose proof (pow16_pos (7 - td - d) ltac:(lia)). pose proof (pow16_pos d Hd).
  rewrite pow16_S by done. rewrite Z.rem_mul_r by lia.
  rewrite Z.div_div by lia. replace (16 ^ (7 - td - d) * 16) with (16 ^ (8 - td - d)).
  - lia.
  - replace (8 - td - d) with (7 - td - d + 1) by lia. rewrite pow16_S by lia. lia.
Qed.

(** ** Subtrees *)
(** Node [(d', p')] is in the subtree of [(d, p)]. *)
Definition sub (d p d' p' : Z) : Prop := d <= d' /\ p' / 16 ^ (d' - d) = p.

Lemma sub_refl d p : sub d p d p.
Proof. split; [lia|]. rewrite Z.sub_diag. apply Z.div_1_r. Qed.

Lemma sub_child d p b : 0 <= b < 16 -> sub d p (d + 1) (16 * p + b).
Proof.
  intros Hb. split; [lia|]. replace (d + 1 - d) with 1 by lia. change (16 ^ 1) with 16.
  rewrite Z.mul_comm, Z.div_add_l by lia. rewrite Z.div_small by lia. lia.
Qed.

Lemma sub_trans d p d1 p1 d2 p2 : sub d p d1 p1 -> sub d1 p1 d2 p2 -> sub d p d2 p2.
Proof.
  intros [H1 <-] [H2 <-]. split; [lia|]. rewrite Z.div_div; [|apply Z.pow_nonzero; lia|apply pow16_pos; lia].
  rewrite <- Z.pow_add_r by lia. do 2 f_equal. lia.
Qed.

Lemma sub_inj d p q d' p' : sub d p d' p' -> sub d q d' p' -> p = q.
Proof. by intros [_ <-] [_ <-]. Qed.

(** A node below [(d, p)] is [(d, p)] itself or is below one of its children. *)
Lemma sub_split d p d' p' :
  sub d p d' p' -> (d' = d /\ p' = p) \/ exists b, 0 <= b < 16 /\ sub (d + 1) (16 * p + b) d' p'.
Proof.
  intros [Hd Hp]. destruct (Z.eq_dec d d') as [<-|Hne].
  - left. rewrite Z.sub_diag, Z.pow_0_r, Z.div_1_r in Hp. lia.
  - right. set (q := p' / 16 ^ (d' - (d + 1))).
    assert (Hq : q / 16 = p).
    { unfold q. rewrite Z.div_div; [|apply Z.pow_nonzero; lia|lia]. rewrite <- Hp. f_equal.
      replace (d' - d) with (d' - (d + 1) + 1) by lia. rewrite pow16_S by lia. lia. }
    exists (q mod 16). split; [apply Z.mod_pos_bound; lia|]. split; [lia|]. fold q.
    pose proof (Z.div_mod q 16 ltac:(lia)). lia.
Qed.

Lemma child_range d p b : 0 <= d -> 0 <= p < 16 ^ d -> 0 <= b < 16 -> 0 <= 16 * p + b < 16 ^ (d + 1).
Proof. intros. rewrite pow16_S by done. lia. Qed.

Definition zs16 : list Z := seqZ 0 16.
#[global] Arguments zs16 : simpl never.
Lemma elem_zs16 b : b ∈ zs16 <-> 0 <= b < 16.
Proof. unfold zs16. rewrite elem_of_seqZ. lia. Qed.

Lemma sub_not_self d p b : ~ sub (d + 1) (16 * p + b) d p.
Proof. intros [H _]. lia. Qed.
Lemma sub_sibling d p b b' d' p' :
  sub (d + 1) (16 * p + b) d' p' -> sub (d + 1) (16 * p + b') d' p' -> b = b'.
Proof. intros H H'. pose proof (sub_inj _ _ _ _ _ H H'). lia. Qed.
#[export] Hint Resolve sub_refl sub_child : word.

Section Shape.
Context {C : Type} {KC : KeyCodec C} {KL : KeyCodecLaws C}.
Implicit Types t : HTree C.

(** ** The invariant *)
(** The hash of the key that an item stores. *)
Definition ikh (c : C) (it : Item) : Z :=
  match kc_decode c KEY_BUF_LEN (it_key it) with Ret k => fnv1a k | _ => 0 end.

(** A key that may be in the tree, and an item that stores one, in the subtree
    of node [(d, p)]. *)
Definition key_in t (key : bytes) : Prop :=
  key_ok key /\ blen key <= MAX_KEY_LEN /\ check_bucket t key = true.
Definition item_at t (d p : Z) (it : Item) : Prop :=
  exists key, key_in t key /\ kc_rep (t_dc t) key (it_key it) /\ hp (t_depth t) d (fnv1a key) = p.

(** Live items, and the sum that a leaf keeps as its hash. *)
Definition alive (it : Item) : bool := 0 <? it_ver it.
Definition live (l : list Item) : Z := fold_right (fun it s => b2z (alive it) + s) 0 l.
Definition hsum (c : C) (l : list Item) : Z := fold_right (fun it s => ikh c it * HASH it + s) 0 l.

(** A list of items as the subtree of [(d, p)] may hold it. *)
Definition content_ok t (d p : Z) (l : list Item) : Prop :=
  NoDup (List.map it_key l) /\ Forall (item_at t d p) l.

Definition leaf_ok t (d p : Z) (n : Node) : Prop :=
  n_valid n = true /\ chain_ok (n_data n) /\ content_ok t d p (node_items n) /\
  n_count n = u32 (live (node_items n)) /\ n_hash n = u16 (hsum (t_dc t) (node_items n)).

(** The nodes below an inner node, and what it caches about them when valid. *)
Definition children t (d p : Z) (ns : list Node) : Prop :=
  length ns = 16%nat /\ forall b, 0 <= b < 16 -> t_root t !! idx (d + 1) (16 * p + b) = ns !! Z.to_nat b.
Definition cached t (d p : Z) (n : Node) : Prop :=
  exists ns, children t d p ns /\ Forall (fun m => n_valid m = true) ns /\
    n_count n = u32 (fold_right (fun m s => n_count m + s) 0 ns) /\ SPLIT_LIMIT < n_count n /\
    n_hash n = fold_left (hash_step (n_count n)) (List.map n_hash ns) 0.

Fixpoint wf (k : nat) t (d p : Z) : Prop :=
  match k with
  | O => False
  | S k' =>
      exists n, t_root t !! idx d p = Some n /\ n_depth n = d /\ d < t_height t /\
        if n_is_node n then
          (forall b, 0 <= b < 16 -> wf k' t (d + 1) (16 * p + b)) /\ (n_valid n = true -> cached t d p n)
        else leaf_ok t d p n
  end.

Fixpoint items_at (k : nat) t (d p : Z) : list Item :=
  match k with
  | O => []
  | S k' =>
      match t_root t !! idx d p with
      | None => []
      | Some n => if n_is_node n then flat_map (fun b => items_at k' t (d + 1) (16 * p + b)) zs16
                  else node_items n
      end
  end.

(** The array: every index below [g_index[height]] is a node that knows its
    depth, and there are no others. *)
Definition pool_ok t : Prop :=
  1 <= t_height t /\ 0 <= t_depth t /\ t_height t + t_depth t <= 8 /\ kc_ok (t_dc t) /\
  (forall i, is_Some (t_root t !! i) -> 0 <= i < gi (t_height t)) /\
  forall d p, 0 <= d < t_height t -> 0 <= p < 16 ^ d ->
    exists n, t_root t !! idx d p = Some n /\ n_depth n = d.

(** [t'] is [t] with other nodes, possibly more of them. *)
Record cfg_le t t' : Prop := {
  cfg_depth : t_depth t' = t_depth t;
  cfg_pos : t_pos t' = t_pos t;
  cfg_block : t_block_size t' = t_block_size t;
  cfg_dc : t_dc t' = t_dc t;
  cfg_height : t_height t <= t_height t'
}.
#[export] Instance cfg_le_refl : Reflexive cfg_le.
Proof. intros t. by constructor. Qed.
#[export] Instance cfg_le_trans : Transitive cfg_le.
Proof. intros a b c [] []. constructor; congruence || lia. Qed.

Definition agree_in t t' (d p : Z) : Prop :=
  forall d' p' n, 0 <= d' -> 0 <= p' < 16 ^ d' -> sub d p d' p' ->
    t_root t !! idx d' p' = Some n -> t_root t' !! idx d' p' = Some n.
Definition agree_out t t' (d p : Z) : Prop :=
  forall d' p' n, 0 <= d' -> 0 <= p' < 16 ^ d' -> ~ sub d p d' p' ->
    t_root t !! idx d' p' = Some n -> t_root t' !! idx d' p' = Some n.

Lemma agree_out_trans t1 t2 t3 d p : agree_out t1 t2 d p -> agree_out t2 t3 d p -> agree_out t1 t3 d p.
Proof. intros H H' d' p' n Hd Hp Hs Hn. apply H'; auto. Qed.
Lemma agree_out_refl t d p : agree_out t t d p.
Proof. by intros d' p' n. Qed.
Lemma agree_out_up t t' d p d1 p1 : sub d p d1 p1 -> agree_out t t' d1 p1 -> agree_out t t' d p.
Proof. intros Hs H d' p' n Hd Hp Hn. apply H; auto. intros Hs'. apply Hn. by eapply sub_trans. Qed.
Lemma agree_in_child t t' d p b : 0 <= b < 16 -> agree_in t t' d p -> agree_in t t' (d + 1) (16 * p + b).
Proof. intros Hb H d' p' n Hd Hp Hs. apply H; auto. eapply sub_trans; [by apply sub_child|done]. Qed.
(** Changes below one child leave the others alone. *)
Lemma agree_out_sibling t t' d p b b' :
  0 <= d -> b <> b' -> agree_out t t' (d + 1) (16 * p + b) -> agree_in t t' (d + 1) (16 * p + b').
Proof.
  intros Hd Hne H d' p' n Hd' Hp Hs. apply H; auto. intros Hs'. apply Hne. by eapply sub_sibling.
Qed.

Lemma item_at_cfg t t' d p it : cfg_le t t' -> item_at t d p it -> item_at t' d p it.
Proof.
  intros [H1 H2 _ H4 _] (key & Hk & Hr & Hh). exists key. unfold key_in, check_bucket in *.
  rewrite H1, H2, H4. done.
Qed.

Lemma leaf_ok_cfg t t' d p n : cfg_le t t' -> leaf_ok t d p n -> leaf_ok t' d p n.
Proof.
  intros Hc (H1 & H2 & [H3 H4] & H5 & H6). repeat split; auto; try apply H2.
  - eapply Forall_impl; [exact H4|]. intros it. by apply item_at_cfg.
  - by rewrite (cfg_dc _ _ Hc).
Qed.

Lemma cached_frame t t' d p n :
  0 <= d -> 0 <= p < 16 ^ d -> agree_in t t' d p -> cached t d p n -> cached t' d p n.
Proof.
  intros Hd Hp Ha (ns & [Hl Hn] & H2). exists ns. split; [|done]. split; [done|].
  intros b Hb. destruct (lookup_lt_is_Some_2 ns (Z.to_nat b)) as [m Hm]; [lia|].
  rewrite Hm. apply (Ha _ _ m); [lia|by apply child_range|by apply sub_child|]. by rewrite Hn.
Qed.

(** A subtree depends on its own nodes only. *)
Lemma wf_frame k t t' d p :
  0 <= d -> 0 <= p < 16 ^ d -> cfg_le t t' -> agree_in t t' d p -> wf k t d p ->
  wf k t' d p /\ items_at k t' d p = items_at k t d p.
Proof.
  revert d p. induction k as [|k IH]; intros d p Hd Hp Hc Ha Hw; [done|].
  destruct Hw as (n & Hn & Hdn & Hh & Hrest). pose proof (Ha d p n Hd Hp (sub_refl d p) Hn) as Hn'.
  cbn [wf items_at]. rewrite Hn, Hn'. destruct (n_is_node n) eqn:En.
  - destruct Hrest as [Hcs Hcache].
    assert (Hch : forall b, 0 <= b < 16 -> wf k t' (d + 1) (16 * p + b) /\
      items_at k t' (d + 1) (16 * p + b) = items_at k t (d + 1) (16 * p + b)).
    { intros b Hb. apply IH; auto; [lia|by apply child_range|by apply agree_in_child]. }
    split.
    + exists n. rewrite En. pose proof (cfg_height _ _ Hc). split; [done|]. split; [done|]. split; [lia|].
      split; [intros b Hb; by apply Hch|]. intros Hv. eapply cached_frame; eauto.
    + apply flat_map_ext_elem. intros b Hb. apply Hch. by apply elem_zs16.
  - split; [|done]. exists n. rewrite En. pose proof (cfg_height _ _ Hc).
    split; [done|]. split; [done|]. split; [lia|]. by eapply leaf_ok_cfg.
Qed.
End Shape.
