(* ===== verification/HTreeOps.v ===== *)
(** * The hash tree's operations preserve the invariant

    Descent, insertion with splitting and enlargement, removal: each returns
    normally on a well-formed tree, keeps it well formed, and changes the items
    of the tree as a map would. *)
From Stdlib Require Import ZArith Lia List.
From stdpp Require Import base numbers list list_numbers gmap strings.
From S2P Require Import Prelude Hash CText Codec CodecFacts HTree HTreeLeaf HTreeShape.

Import Fnv FnvFacts.

(** ** Lists of items *)
Lemma live_app a b : live (a ++ b) = live a + live b.
Proof. induction a; simpl; [done|]. rewrite IHa. lia. Qed.
Lemma live_perm a b : a ≡ₚ b -> live a = live b.
Proof. induction 1; simpl; lia. Qed.

(** A new item in place of the one with its key. *)
Definition without (k : bytes) (l : list Item) : list Item := filter (fun p => it_key p <> k) l.
Definition upsert (it : Item) (l : list Item) : list Item := it :: without (it_key it) l.

Lemma without_lacks k l : lacks k l -> without k l = l.
Proof.
  induction 1 as [|p l Hp _ IH]; [done|]. unfold without in *. rewrite filter_cons_True by done. by rewrite IH.
Qed.
Lemma without_app k a b : without k (a ++ b) = without k a ++ without k b.
Proof. apply filter_app. Qed.
#[export] Instance without_perm k : Proper (Permutation ==> Permutation) (without k).
Proof. intros a b H. unfold without. by rewrite H. Qed.
#[export] Instance upsert_perm it : Proper (Permutation ==> Permutation) (upsert it).
Proof. intros a b H. unfold upsert. by rewrite H. Qed.
Lemma lacks_without k l : lacks k (without k l).
Proof. apply Forall_forall. intros p Hp. by apply list_elem_of_filter in Hp as [? _]. Qed.

(** Keys without duplicates: what surrounds an item lacks its key. *)
Lemma nodup_around l1 l2 o :
  NoDup (List.map it_key (l1 ++ o :: l2)) -> lacks (it_key o) l1 /\ lacks (it_key o) l2.
Proof.
  rewrite map_app. simpl. intros H. apply NoDup_app in H as (_ & H1 & [H2 _]%NoDup_cons).
  split; apply Forall_forall; intros p Hp E.
  - apply (H1 (it_key p)); [by apply list_elem_of_fmap_2|]. rewrite E. apply list_elem_of_here.
  - apply H2. rewrite <- E. by apply list_elem_of_fmap_2.
Qed.

(** A hash at a lower depth is below its position at a higher one. *)
Lemma sub_hp td d d' kh : 0 <= d -> 0 <= td -> d <= d' -> td + d' <= 8 -> sub d (hp td d kh) d' (hp td d' kh).
Proof.
  intros Hd Htd Hle Hs. split; [done|]. unfold hp.
  set (a := 8 - td - d'). replace (8 - td - d) with (a + (d' - d)) by lia.
  assert (Ha : 0 < 16 ^ a) by (apply pow16_pos; lia). set (e := d' - d).
  assert (He : 0 < 16 ^ e) by (apply pow16_pos; lia).
  replace d' with (e + d) by lia. rewrite !Z.pow_add_r by lia. rewrite <- Z.div_div by lia.
  pose proof (pow16_pos d Hd) as Hpd.
  rewrite Z.rem_mul_r by lia. set (y := kh / 16 ^ a).
  rewrite Z.mul_comm, Z.div_add by lia. rewrite Z.div_small by (apply Z.mod_pos_bound; lia). lia.
Qed.

Section Ops.
Context {C : Type} {KC : KeyCodec C} {KL : KeyCodecLaws C}.
Implicit Types t : HTree C.

Lemma hsum_app (c : C) a b : hsum c (a ++ b) = hsum c a + hsum c b.
Proof. induction a; simpl; [done|]. rewrite IHa. lia. Qed.
Lemma hsum_perm (c : C) a b : a ≡ₚ b -> hsum c a = hsum c b.
Proof. induction 1; simpl; lia. Qed.

Lemma content_perm t d p a b : a ≡ₚ b -> content_ok t d p a -> content_ok t d p b.
Proof. intros H [H1 H2]. split; [by rewrite <- H|by rewrite <- H]. Qed.

(** ** Array access *)
Lemma root_set t i n j : t_root (set_node t i n) !! j = if decide (i = j) then Some n else t_root t !! j.
Proof. simpl. rewrite lookup_insert. done. Qed.

Lemma set_node_cfg t i n : cfg_le t (set_node t i n).
Proof. by constructor. Qed.

Lemma get_child_ok d p n b :
  0 <= d <= 6 -> 0 <= p < 16 ^ d -> n_depth n = d -> 0 <= b < 16 ->
  get_child (idx d p) n b = Ret (idx (d + 1) (16 * p + b)).
Proof.
  intros Hd Hp Hn Hb. unfold get_child, get_pos. rewrite Hn, !g_index_at by lia. simpl.
  pose proof (Z.pow_le_mono_r 16 d 6 ltac:(lia) ltac:(lia)) as Hpow.
  assert (16 ^ 6 = 16777216) as H6 by reflexivity.
  unfold idx. replace (gi d + p - gi d) with p by lia.
  rewrite (u32_id p) by (change (2 ^ 32) with 4294967296; lia).
  rewrite Z.shiftl_mul_pow2 by lia. change (2 ^ 4) with 16. rewrite u32_id by (change (2 ^ 32) with 4294967296; lia).
  pose proof (gi_mono (d + 1) 7 ltac:(lia) ltac:(lia)) as Hg. change (gi 7) with 17895697 in Hg.
  assert (0 <= gi (d + 1)) by (pose proof (gi_mono 0 (d + 1) ltac:(lia) ltac:(lia)); done).
  rewrite s32_id by (change (2 ^ 31) with 2147483648; lia). f_equal. lia.
Qed.

Lemma INDEX_ok t n d kh :
  n_depth n = d -> 0 <= d -> 0 <= t_depth t -> t_depth t + d <= 7 ->
  INDEX t n kh = Ret (digit (t_depth t) d kh).
Proof.
  intros Hn Hd Htd Hs. unfold INDEX, digit. rewrite Hn.
  destruct (Z.ltb_spec ((7 - d - t_depth t) * 4) 0); [lia|].
  destruct (Z.ltb_spec 31 ((7 - d - t_depth t) * 4)); [lia|]. simpl. f_equal.
  rewrite Z.land_comm. change 15 with (Z.ones 4). rewrite Z.land_ones by lia.
  rewrite Z.shiftr_div_pow2 by lia. change (2 ^ 4) with 16.
  replace (2 ^ ((7 - d - t_depth t) * 4)) with (16 ^ (7 - t_depth t - d)); [done|].
  change 16 with (2 ^ 4). rewrite <- Z.pow_mul_r by lia. f_equal. lia.
Qed.

Lemma pool_set t d p n n0 :
  pool_ok t -> t_root t !! idx d p = Some n0 -> n_depth n = n_depth n0 -> pool_ok (set_node t (idx d p) n).
Proof.
  intros (H1 & H2 & H3 & H4 & H0 & H5) Hn Hd. split; [done|]. split; [done|]. split; [done|]. split; [done|].
  split; [intros i; rewrite root_set; case_decide; [subst; intros _; apply H0; eauto|apply H0]|]. intros d' p' Hd' Hp'.
  rewrite root_set. destruct (decide (idx d p = idx d' p')) as [E|]; [|by apply H5].
  destruct (H5 d' p' Hd' Hp') as (m & Hm & Hdm). rewrite <- E, Hn in Hm. injection Hm as ->.
  exists n. split; [done|]. congruence.
Qed.

(** Changing a node is outside every subtree that does not contain it. *)
Lemma agree_set_in t d p n d1 p1 :
  0 <= d -> 0 <= p < 16 ^ d -> ~ sub d1 p1 d p -> agree_in t (set_node t (idx d p) n) d1 p1.
Proof.
  intros Hd Hp Hns d' p' m Hd' Hp' Hs Hm. rewrite root_set. destruct (decide (idx d p = idx d' p')) as [E|]; [|done].
  apply idx_inj in E as [-> ->]; auto. done.
Qed.
Lemma agree_set_out t d p n : 0 <= d -> 0 <= p < 16 ^ d -> agree_out t (set_node t (idx d p) n) d p.
Proof.
  intros Hd Hp d' p' m Hd' Hp' Hs Hm. rewrite root_set. destruct (decide (idx d p = idx d' p')) as [E|]; [|done].
  apply idx_inj in E as [-> ->]; auto. destruct Hs. apply sub_refl.
Qed.

(** ** The items of a subtree *)
Lemma item_at_hash t d p it :
  kc_ok (t_dc t) -> item_at t d p it -> hp (t_depth t) d (ikh (t_dc t) it) = p.
Proof.
  intros Hc (key & (Hk & Hl & _) & Hr & Hh). unfold ikh.
  rewrite (kc_rep_decode _ key) by (auto; unfold MAX_KEY_LEN, KEY_BUF_LEN in *; lia). done.
Qed.

Lemma item_at_up t d p b it :
  0 <= d -> 0 <= t_depth t -> t_depth t + d <= 7 -> 0 <= b < 16 ->
  item_at t (d + 1) (16 * p + b) it -> item_at t d p it.
Proof.
  intros Hd Htd Hs Hb (key & Hk & Hr & Hh). exists key. split; [done|]. split; [done|].
  rewrite hp_S in Hh by done. pose proof (digit_range (t_depth t) d (fnv1a key)). lia.
Qed.

Lemma nodup_flat_map (g : Z -> list Item) (l : list Z) :
  NoDup l -> (forall b, b ∈ l -> NoDup (List.map it_key (g b))) ->
  (forall b b' x y, b ∈ l -> b' ∈ l -> x ∈ g b -> y ∈ g b' -> it_key x = it_key y -> b = b') ->
  NoDup (List.map it_key (flat_map g l)).
Proof.
  induction 1 as [|b l Hb Hnd IH]; intros H1 H2; simpl; [constructor|]. rewrite map_app. apply NoDup_app.
  split; [apply H1, list_elem_of_here|]. split.
  - intros k (x & -> & Hx)%list_elem_of_fmap (y & Hk & Hy)%list_elem_of_fmap.
    apply elem_of_flat_map in Hy as (b' & Hb' & Hy). apply Hb.
    rewrite (H2 b b' x y); auto; [apply list_elem_of_here|by apply list_elem_of_further].
  - apply IH; [intros; by apply H1, list_elem_of_further|]. intros; eapply H2; eauto using list_elem_of_further.
Qed.

Lemma wf_content k t d p :
  pool_ok t -> 0 <= d -> 0 <= p < 16 ^ d -> wf k t d p -> content_ok t d p (items_at k t d p).
Proof.
  intros Hpool. pose proof Hpool as (_ & Htd & Hh & Hc & _). revert d p.
  induction k as [|k IH]; intros d p Hd Hp Hw; [done|].
  destruct Hw as (n & Hn & Hdn & Hlt & Hrest). cbn [items_at]. rewrite Hn.
  destruct (n_is_node n); [|by destruct Hrest as (_ & _ & ? & _)].
  destruct Hrest as [Hcs _].
  assert (Hch : forall b, b ∈ zs16 -> content_ok t (d + 1) (16 * p + b) (items_at k t (d + 1) (16 * p + b))).
  { intros b Hb%elem_zs16. apply IH; [lia|by apply child_range|by apply Hcs]. }
  split.
  - apply nodup_flat_map; [apply NoDup_seqZ|intros b Hb; by apply Hch|].
    intros b b' x y Hb Hb' Hx Hy E.
    pose proof (proj1 (Forall_forall _ _) (proj2 (Hch b Hb)) x Hx) as Hxa.
    pose proof (proj1 (Forall_forall _ _) (proj2 (Hch b' Hb')) y Hy) as Hya.
    apply item_at_hash in Hxa, Hya; auto. unfold ikh in *. rewrite E in Hxa. lia.
  - apply Forall_forall. intros x (b & Hb & Hx)%elem_of_flat_map.
    apply (item_at_up t d p b); auto; [lia|by apply elem_zs16|].
    by apply (proj1 (Forall_forall _ _) (proj2 (Hch b Hb))).
Qed.

(** ** Descent *)
(** The leaf that a hash leads to, found with or without marking the path
    invalid; what replaces the leaf's subtree then replaces its items in the
    whole, the others being elsewhere. *)
Record descent k t d p kh t1 d' p' k' n R : Prop := {
  ds_depth : d <= d';
  ds_fuel : (k' + Z.to_nat d' = k + Z.to_nat d)%nat;
  ds_pos : hp (t_depth t) d' kh = p';
  ds_cfg : cfg_le t t1;
  ds_height : t_height t1 = t_height t;
  ds_pool : pool_ok t1;
  ds_out : agree_out t t1 d p;
  ds_node : t_root t1 !! idx d' p' = Some n;
  ds_leaf : n_is_node n = false;
  ds_ndepth : n_depth n = d';
  ds_below : d' < t_height t;
  ds_ok : leaf_ok t1 d' p' n;
  ds_items : items_at k t d p ≡ₚ R ++ node_items n;
  ds_rest : Forall (fun x => hp (t_depth t) d' (ikh (t_dc t) x) <> p') R;
  ds_sub : sub d p d' p';
  ds_ctx : forall t2, cfg_le t1 t2 -> agree_out t1 t2 d' p' -> wf k' t2 d' p' ->
    wf k t2 d p /\ items_at k t2 d p ≡ₚ R ++ items_at k' t2 d' p'
}.

Lemma descent_leaf k t d p kh n :
  pool_ok t -> 0 <= d -> hp (t_depth t) d kh = p -> t_root t !! idx d p = Some n -> n_depth n = d ->
  d < t_height t -> n_is_node n = false -> leaf_ok t d p n ->
  descent (S k) t d p kh t d p (S k) n [].
Proof.
  intros Hpool Hd Hp Hn Hdn Hlt En Hok. constructor; auto; try done; try apply sub_refl.
  - apply agree_out_refl.
  - cbn [items_at]. rewrite Hn, En. done.
Qed.

(** The items of an inner node: those of the child the hash leads to, and
    others, which go elsewhere at every depth below. *)
Lemma inner_items k t d p kh d' :
  pool_ok t -> 0 <= d -> hp (t_depth t) d kh = p -> d + 1 <= d' < t_height t ->
  (forall b, 0 <= b < 16 -> wf k t (d + 1) (16 * p + b)) ->
  exists Os, NoDup (digit (t_depth t) d kh :: Os) /\ (zs16 ≡ₚ digit (t_depth t) d kh :: Os) /\ 
    Forall (fun x => hp (t_depth t) d' (ikh (t_dc t) x) <> hp (t_depth t) d' kh)
      (flat_map (fun b => items_at k t (d + 1) (16 * p + b)) Os).
Proof.
  intros Hpool Hd Hp Hd' Hcs. pose proof Hpool as (_ & Htd & Hh & Hc & _).
  pose proof (sub_hp (t_depth t) (d + 1) d' kh ltac:(lia) Htd ltac:(lia) ltac:(lia)) as Hsub.
  set (b0 := digit (t_depth t) d kh). assert (Hb0 : b0 ∈ zs16) by (apply elem_zs16, digit_range).
  apply elem_of_Permutation in Hb0 as [Os HO]. exists Os.
  assert (Hnd : NoDup (b0 :: Os)) by (rewrite <- HO; apply NoDup_seqZ). split; [done|]. split; [done|].
  apply Forall_forall. intros x (b & Hb & Hx)%elem_of_flat_map E.
  assert (Hb16 : 0 <= b < 16) by (apply elem_zs16; rewrite HO; by apply list_elem_of_further).
  pose proof (hp_range (t_depth t) d kh Hd) as Hpr. rewrite Hp in Hpr.
  assert (Hxa : item_at t (d + 1) (16 * p + b) x).
  { eapply (proj1 (Forall_forall _ _)), Hx. eapply wf_content; eauto; [lia|by apply child_range]. }
  apply item_at_hash in Hxa; auto. apply NoDup_cons in Hnd as [Hni _]. apply Hni.
  assert (Hsx : sub (d + 1) (16 * p + b) d' (hp (t_depth t) d' kh)).
  { rewrite <- E, <- Hxa. apply sub_hp; lia. }
  rewrite hp_S, Hp in Hsub by lia. fold b0 in Hsub.
  replace b0 with b; [done|]. by eapply sub_sibling.
Qed.

(** From the child to the node. *)
Lemma descent_inner k t d p kh n t1 d' p' k' m R :
  pool_ok t -> 0 <= d -> hp (t_depth t) d kh = p -> t_root t !! idx d p = Some n -> n_depth n = d ->
  d + 1 < t_height t -> n_is_node n = true -> (forall b, 0 <= b < 16 -> wf k t (d + 1) (16 * p + b)) ->
  let t0 := set_node t (idx d p) (with_valid n false) in
  descent k t0 (d + 1) (16 * p + digit (t_depth t) d kh) kh t1 d' p' k' m R ->
  exists R', descent (S k) t d p kh t1 d' p' k' m R'.
Proof.
  intros Hpool Hd Hp Hn Hdn Hlt En Hcs t0 D. destruct D as [D1 D2 D3 D4 D5 D6 D7 D8 D9 D10 D11 D12 D13 D14 D15 D16].
  pose proof (hp_range (t_depth t) d kh Hd) as Hpr. rewrite Hp in Hpr. subst p'.
  set (b0 := digit (t_depth t) d kh) in *. pose proof (digit_range (t_depth t) d kh) as Hb0. fold b0 in Hb0.
  assert (Hcfg0 : cfg_le t t0) by apply set_node_cfg.
  assert (Hfr : forall b, 0 <= b < 16 -> wf k t0 (d + 1) (16 * p + b) /\
    items_at k t0 (d + 1) (16 * p + b) = items_at k t (d + 1) (16 * p + b)).
  { intros b Hb. apply wf_frame; auto; [lia|by apply child_range|].
    apply agree_set_in; auto. apply sub_not_self. }
  destruct (inner_items k t d p kh d') as (Os & Hnd & HO & Hrest); auto. fold b0 in Hnd, HO.
  exists (flat_map (fun b => items_at k t (d + 1) (16 * p + b)) Os ++ R). constructor; auto.
  - lia.
  - lia.
  - by etransitivity.
  - eapply agree_out_trans; [by apply agree_set_out|].
    eapply agree_out_up; [by apply (sub_child d p b0)|done].
  - cbn [items_at]. rewrite Hn, En. rewrite HO. simpl. rewrite <- app_assoc, <- D13.
    rewrite (proj2 (Hfr b0 Hb0)). apply Permutation_app_comm.
  - by apply Forall_app.
  - eapply sub_trans; [by apply (sub_child d p b0)|done].
  - intros t2 Hc2 Ha2 Hw2. destruct (D16 t2 Hc2 Ha2 Hw2) as [Hwc Hic].
    assert (Ha02 : agree_out t0 t2 (d + 1) (16 * p + b0)).
    { eapply agree_out_trans; [exact D7|]. by eapply agree_out_up. }
    assert (Hn2 : t_root t2 !! idx d p = Some (with_valid n false)).
    { apply Ha02; auto; [apply sub_not_self|]. unfold t0. rewrite root_set. by rewrite decide_True. }
    assert (Hcfg02 : cfg_le t0 t2) by (etransitivity; [exact D4|exact Hc2]).
    assert (Hsib : forall b, 0 <= b < 16 -> b <> b0 -> wf k t2 (d + 1) (16 * p + b) /\
      items_at k t2 (d + 1) (16 * p + b) = items_at k t (d + 1) (16 * p + b)).
    { intros b Hb Hne. destruct (Hfr b Hb) as [Hw <-]. apply wf_frame; auto; [lia|by apply child_range|].
      by eapply agree_out_sibling. }
    split.
    + exists (with_valid n false). split; [done|]. split; [done|].
      pose proof (cfg_height _ _ Hcfg02). simpl in *. split; [lia|]. rewrite En. split; [|done].
      intros b Hb. destruct (Z.eq_dec b b0) as [->|Hne]; [done|by apply Hsib].
    + cbn [items_at]. rewrite Hn2. cbn [with_valid n_is_node]. rewrite En, HO. cbn [flat_map]. rewrite Hic.
      rewrite (flat_map_ext_elem (fun b => items_at k t2 (d + 1) (16 * p + b))
                 (fun b => items_at k t (d + 1) (16 * p + b)) Os).
      * rewrite (Permutation_app_comm _ (flat_map _ _)). by rewrite app_assoc.
      * intros b Hb. apply NoDup_cons in Hnd as [Hni _].
        apply Hsib; [apply elem_zs16; rewrite HO; by apply list_elem_of_further|]. by intros ->.
Qed.

Lemma descend_spec k t d p kh fuel :
  pool_ok t -> wf k t d p -> 0 <= d -> hp (t_depth t) d kh = p -> (Z.to_nat (t_height t - d) <= fuel)%nat ->
  exists t1 d' p' k' n R, descend true fuel t (idx d p) kh = Ret (t1, idx d' p') /\
    descent k t d p kh t1 d' p' k' n R.
Proof.
  revert t d p fuel. induction k as [|k IH]; intros t d p fuel Hpool Hw Hd Hp Hfuel; [done|].
  destruct Hw as (n & Hn & Hdn & Hlt & Hrest). pose proof (hp_range (t_depth t) d kh Hd) as Hpr. rewrite Hp in Hpr.
  destruct fuel as [|fuel]; [lia|]. cbn [descend]. unfold node_at. rewrite Hn. simpl.
  pose proof Hpool as (Hh1 & Htd & Hh & Hc & _).
  destruct (n_is_node n) eqn:En.
  2: { exists t, d, p, (S k), n, []. split; [done|]. by apply descent_leaf. }
  destruct Hrest as [Hcs _].
  assert (Hlt1 : d + 1 < t_height t).
  { destruct k; [destruct (Hcs 0 ltac:(lia))|]. destruct (Hcs 0 ltac:(lia)) as (m & _ & _ & ? & _). lia. }
  rewrite (INDEX_ok t n d) by (auto; lia). simpl.
  rewrite (get_child_ok d p n) by (try apply digit_range; auto; lia). simpl.
  set (b0 := digit (t_depth t) d kh). set (t0 := set_node t (idx d p) (with_valid n false)).
  destruct (IH t0 (d + 1) (16 * p + b0) fuel) as (t1 & d' & p' & k' & m & R & Hdes & D).
  - by eapply pool_set.
  - apply (wf_frame k t t0); auto; [lia|apply child_range; auto; apply digit_range|apply set_node_cfg| |].
    + apply agree_set_in; auto. apply sub_not_self.
    + apply Hcs. apply digit_range.
  - lia.
  - simpl. rewrite hp_S, Hp by lia. done.
  - simpl. lia.
  - destruct (descent_inner k t d p kh n t1 d' p' k' m R) as [R' D']; auto.
    exists t1, d', p', k', m, R'. done.
Qed.

(** The same leaf without marking. *)
Lemma descend_ro_spec k t d p kh fuel :
  pool_ok t -> wf k t d p -> 0 <= d -> hp (t_depth t) d kh = p -> (Z.to_nat (t_height t - d) <= fuel)%nat ->
  exists d' p' n R, descend false fuel t (idx d p) kh = Ret (t, idx d' p') /\
    t_root t !! idx d' p' = Some n /\ leaf_ok t d' p' n /\ hp (t_depth t) d' kh = p' /\ d <= d' < t_height t /\
    items_at k t d p ≡ₚ R ++ node_items n /\
    Forall (fun x => hp (t_depth t) d' (ikh (t_dc t) x) <> p') R.
Proof.
  revert d p fuel. induction k as [|k IH]; intros d p fuel Hpool Hw Hd Hp Hfuel; [done|].
  destruct Hw as (n & Hn & Hdn & Hlt & Hrest). pose proof (hp_range (t_depth t) d kh Hd) as Hpr. rewrite Hp in Hpr.
  destruct fuel as [|fuel]; [lia|]. cbn [descend items_at]. unfold node_at. rewrite Hn. cbn [mbind outcome_bind].
  pose proof Hpool as (Hh1 & Htd & Hh & Hc & _). destruct (n_is_node n) eqn:En.
  2: { exists d, p, n, []. split; [done|]. split; [done|]. split; [done|]. split; [done|]. split; [lia|done]. }
  destruct Hrest as [Hcs _].
  assert (Hlt1 : d + 1 < t_height t).
  { destruct k; [destruct (Hcs 0 ltac:(lia))|]. destruct (Hcs 0 ltac:(lia)) as (m & _ & _ & ? & _). lia. }
  rewrite (INDEX_ok t n d) by (auto; lia). cbn [mbind outcome_bind].
  rewrite (get_child_ok d p n) by (try apply digit_range; auto; lia). cbn [mbind outcome_bind].
  destruct (IH (d + 1) (16 * p + digit (t_depth t) d kh) fuel) as (d' & p' & m & R & Hdes & Hm & Hok & Hp' & Hd' & Hit & Hrest);
    auto; [apply Hcs, digit_range|lia|rewrite hp_S, Hp by lia; done|lia|].
  destruct (inner_items k t d p kh d') as (Os & Hnd & HO & Hother); auto.
  exists d', p', m, (flat_map (fun b => items_at k t (d + 1) (16 * p + b)) Os ++ R).
  split; [done|]. split; [done|]. split; [done|]. split; [done|]. split; [lia|]. split.
  - rewrite HO. cbn [flat_map]. rewrite <- app_assoc, <- Hit. apply Permutation_app_comm.
  - subst p'. by apply Forall_app.
Qed.

End Ops.
