(* ===== verification/HTreeAdd.v ===== *)
(** * Insertion into the hash tree

    [add_item] with its splits and the enlargement of the array: it returns
    normally on a well-formed tree, keeps it well formed, and puts the item in
    place of the one with its key. *)
From Stdlib Require Import ZArith Lia List.
From stdpp Require Import base numbers list list_numbers gmap strings.
From S2P Require Import Prelude Hash CText Codec CodecFacts HTree HTreeLeaf HTreeShape HTreeOps.

Import Fnv FnvFacts.

Lemma u16_add_l a b : u16 (u16 a + b) = u16 (a + b).
Proof. unfold u16. by rewrite Zplus_mod_idemp_l. Qed.
Lemma u32_add_l a b : u32 (u32 a + b) = u32 (a + b).
Proof. unfold u32. by rewrite Zplus_mod_idemp_l. Qed.
Lemma u32_sub_l a b : u32 (u32 a - b) = u32 (a - b).
Proof. unfold u32. by rewrite Zminus_mod_idemp_l. Qed.
Lemma u16_sub_l a b : u16 (u16 a - b) = u16 (a - b).
Proof. unfold u16. by rewrite Zminus_mod_idemp_l. Qed.

(** The digit of a hash does not depend on the sign of its representation. *)
Lemma digit_s32 td d h : 0 <= td -> 0 <= d -> td + d <= 7 -> 0 <= h < 2 ^ 32 -> digit td d (s32 h) = digit td d h.
Proof.
  intros Htd Hd Hs Hh. unfold digit, s32, swrap. rewrite (Z.mod_small h) by done. cbv zeta.
  destruct (h <? _); [done|]. set (e := 7 - td - d).
  replace (2 ^ 32) with (16 * 16 ^ (td + d) * 16 ^ e).
  2: { rewrite <- pow16_S, <- Z.pow_add_r by lia. unfold e. replace (td + d + 1 + (7 - td - d)) with 8 by lia. done. }
  rewrite <- Z.add_opp_r, <- Z.mul_opp_l, Z.div_add by (apply Z.pow_nonzero; lia).
  rewrite <- Z.mul_opp_r, Z.mul_comm, Z.mod_add; lia.
Qed.

Section Add.
Context {C : Type} {KC : KeyCodec C} {KL : KeyCodecLaws C}.
Implicit Types t : HTree C.

(** ** Items of a tree *)
Lemma item_at_decode t d p it :
  kc_ok (t_dc t) -> item_at t d p it -> exists key, kc_decode (t_dc t) KEY_BUF_LEN (it_key it) = Ret key /\
    ikh (t_dc t) it = fnv1a key.
Proof.
  intros Hc (key & (Hk & Hl & _) & Hr & _). exists key. unfold ikh.
  rewrite (kc_rep_decode _ key) by (auto; unfold MAX_KEY_LEN, KEY_BUF_LEN in *; lia). done.
Qed.

Lemma key_hash_ok t d p it :
  kc_ok (t_dc t) -> item_at t d p it -> key_hash t it = Ret (ikh (t_dc t) it).
Proof.
  intros Hc Hi. destruct (item_at_decode t d p it Hc Hi) as (key & E & ->). unfold key_hash. by rewrite E.
Qed.

Lemma ikh_range (c : C) it : 0 <= ikh c it < 2 ^ 32.
Proof. unfold ikh. destruct (kc_decode _ _ _); [apply fnv1a_range|done|done]. Qed.

Lemma ikh_key (c : C) a b : it_key a = it_key b -> ikh c a = ikh c b.
Proof. unfold ikh. by intros ->. Qed.

(** Items elsewhere have other keys. *)
Lemma elsewhere_lacks t d kh it R :
  ikh (t_dc t) it = kh -> Forall (fun x => hp (t_depth t) d (ikh (t_dc t) x) <> hp (t_depth t) d kh) R ->
  lacks (it_key it) R.
Proof.
  intros <- H. eapply Forall_impl; [exact H|]. intros x Hx E. apply Hx. by rewrite (ikh_key _ x it E).
Qed.

Lemma upsert_app it R l : lacks (it_key it) R -> upsert it (R ++ l) ≡ₚ R ++ upsert it l.
Proof.
  intros H. unfold upsert. rewrite without_app, (without_lacks _ R) by done. by rewrite Permutation_middle.
Qed.

(** ** The leaf *)
Lemma replaced_content t d p it o l1 l2 :
  content_ok t d p (l1 ++ o :: l2) -> item_at t d p it -> it_key o = it_key it ->
  content_ok t d p (l1 ++ it :: l2) /\ l1 ++ it :: l2 ≡ₚ upsert it (l1 ++ o :: l2).
Proof.
  intros [Hnd Hf] Hi Hk. destruct (nodup_around l1 l2 o Hnd) as [H1 H2]. rewrite Hk in H1, H2. split.
  - split; [|apply Forall_app in Hf as [Hf1 Hf2]; apply Forall_app; split; [done|];
      apply Forall_cons in Hf2 as [_ ?]; by apply Forall_cons].
    rewrite map_app in *. simpl in *. by rewrite Hk in Hnd.
  - unfold upsert. rewrite without_app. unfold without at 2. rewrite filter_cons_False by (simpl; auto).
    fold (without (it_key it) l2). rewrite !without_lacks by done. by rewrite Permutation_middle.
Qed.

Lemma leaf_add_spec bs t d p n it :
  kc_ok (t_dc t) -> leaf_ok t d p n -> item_at t d p it ->
  exists n' added, leaf_add bs t n it (ikh (t_dc t) it) = Ret (n', added) /\ leaf_ok t d p n' /\
    n_is_node n' = n_is_node n /\ n_depth n' = n_depth n /\ node_items n' ≡ₚ upsert it (node_items n).
Proof.
  intros Hc (Hv & Hch & Hcon & Hcnt & Hh) Hi. unfold leaf_add. unfold node_items in *.
  destruct (chain_replace it (n_data n)) as [[o c]|] eqn:E.
  - destruct (chain_replace_some _ _ _ _ E Hch) as (Hk & Hch' & l1 & l2 & E1 & E2 & _).
    assert (Ho : item_at t d p o).
    { eapply (proj1 (Forall_forall _ _)); [exact (proj2 Hcon)|]. rewrite E1. apply elem_of_app. right. apply list_elem_of_here. }
    assert (exists b, check_version t o it = Ret b) as [b ->].
    { unfold check_version. destruct (Z.abs _ <=? _); [eauto|].
      destruct (item_at_decode t d p o Hc Ho) as (key & -> & _). simpl. eauto. }
    rewrite E1 in Hcon, Hcnt, Hh. destruct (replaced_content t d p it o l1 l2 Hcon Hi Hk) as [Hcon' Hp].
    simpl. eexists _, _. split; [done|]. split; [|split; [done|]; split; [done|]; simpl; by rewrite E1, E2].
    split; [done|]. unfold node_items. simpl. rewrite E2. split; [done|]. split; [done|]. rewrite Hcnt, Hh. split.
    + rewrite u32_add_l, u32_sub_l. f_equal. rewrite !live_app. simpl. unfold alive. lia.
    + rewrite u16_add_l. f_equal. rewrite !hsum_app. simpl. rewrite (ikh_key _ o it Hk). lia.
  - pose proof (chain_replace_none _ _ E) as Hl. destruct (chain_append_spec bs it _ Hch) as (c & -> & Hch' & Hp).
    assert (Hu : flat_map d_items c ≡ₚ upsert it (flat_map d_items (n_data n))).
    { rewrite Hp. unfold upsert. by rewrite without_lacks. }
    simpl. eexists _, _. split; [done|]. split; [|done].
    split; [done|]. unfold node_items. simpl. split; [done|]. split; [|rewrite Hcnt, Hh; split].
    + eapply content_perm; [symmetry; exact Hp|]. destruct Hcon as [Hnd Hf]. split; [|by constructor].
      simpl. constructor; [|done]. intros (x & Hx & Hin)%list_elem_of_fmap.
      eapply (proj1 (Forall_forall _ _) Hl x Hin). done.
    + rewrite u32_add_l, (live_perm _ _ Hp). f_equal. simpl. unfold alive. lia.
    + rewrite u16_add_l, (hsum_perm _ _ _ Hp). f_equal. simpl. lia.
Qed.

(** ** The children of a node *)
Definition below k t d p : list Item := flat_map (fun b => items_at k t (d + 1) (16 * p + b)) zs16.

(** A change below one child, seen from the node. *)
Lemma below_update k t t' d p b0 X :
  0 <= d -> 0 <= p < 16 ^ d -> 0 <= b0 < 16 -> cfg_le t t' ->
  (forall b, 0 <= b < 16 -> wf k t (d + 1) (16 * p + b)) -> agree_out t t' (d + 1) (16 * p + b0) ->
  wf k t' (d + 1) (16 * p + b0) -> items_at k t' (d + 1) (16 * p + b0) ≡ₚ X ->
  (forall b, 0 <= b < 16 -> wf k t' (d + 1) (16 * p + b)) /\
  exists R, below k t d p ≡ₚ R ++ items_at k t (d + 1) (16 * p + b0) /\ below k t' d p ≡ₚ R ++ X /\
    forall x, x ∈ R -> exists b, 0 <= b < 16 /\ b <> b0 /\ x ∈ items_at k t (d + 1) (16 * p + b).
Proof.
  intros Hd Hp Hb0 Hcfg Hw Ha Hw0 HX.
  assert (Hsib : forall b, 0 <= b < 16 -> b <> b0 -> wf k t' (d + 1) (16 * p + b) /\
    items_at k t' (d + 1) (16 * p + b) = items_at k t (d + 1) (16 * p + b)).
  { intros b Hb Hne. apply wf_frame; auto; [lia|by apply child_range|]. by eapply agree_out_sibling. }
  split; [intros b Hb; destruct (Z.eq_dec b b0) as [->|]; [done|by apply Hsib]|].
  assert (HO : b0 ∈ zs16) by by apply elem_zs16. apply elem_of_Permutation in HO as [Os HO].
  assert (Hos : forall b, b ∈ Os -> 0 <= b < 16 /\ b <> b0).
  { intros b Hb. split; [apply elem_zs16; rewrite HO; by apply list_elem_of_further|]. intros ->.
    assert (Hnd : NoDup zs16) by apply NoDup_seqZ. rewrite HO in Hnd. by apply NoDup_cons in Hnd as [? _]. }
  exists (flat_map (fun b => items_at k t (d + 1) (16 * p + b)) Os). unfold below. rewrite HO. cbn [flat_map]. split.
  - apply Permutation_app_comm.
  - split; [|intros x (b & Hb & Hx)%elem_of_flat_map; destruct (Hos b Hb); eauto].
    rewrite HX, Permutation_app_comm. apply Permutation_app_tail.
    by rewrite (flat_map_ext_elem _ (fun b => items_at k t (d + 1) (16 * p + b)) Os)
      by (intros b Hb; by apply Hsib; apply Hos).
Qed.

(** ** Clearing the children *)
Lemma clear_children_spec k t c :
  (forall j, c <= j < c + Z.of_nat k -> is_Some (t_root t !! j)) ->
  exists t', clear_children k t c = Ret t' /\ cfg_le t t' /\ t_height t' = t_height t /\
    forall j, t_root t' !! j = if decide (c <= j < c + Z.of_nat k) then clear <$> t_root t !! j else t_root t !! j.
Proof.
  revert t c. induction k as [|k IH]; intros t c H; cbn [clear_children].
  - exists t. split; [done|]. split; [done|]. split; [done|]. intros j. by rewrite decide_False by lia.
  - destruct (H c ltac:(lia)) as [n Hn]. unfold node_at. rewrite Hn. cbn [mbind outcome_bind].
    destruct (IH (set_node t c (clear n)) (c + 1)) as (t' & -> & Hcfg & Hh & Hl).
    { intros j Hj. rewrite root_set. rewrite decide_False by lia. apply H. lia. }
    exists t'. split; [done|]. split; [etransitivity; [apply set_node_cfg|exact Hcfg]|]. split; [done|].
    intros j. rewrite Hl, root_set. destruct (decide (c = j)) as [<-|Hne].
    + rewrite decide_False by lia. rewrite decide_True by lia. by rewrite Hn.
    + destruct (decide (c + 1 <= j < _)); [by rewrite decide_True by lia|by rewrite decide_False by lia].
Qed.

Lemma cleared_leaf t d p n : leaf_ok t d p (clear n).
Proof.
  split; [done|]. split; [|split; [|done]].
  - split; [done|]. apply Forall_cons_2; [done|constructor].
  - split; constructor.
Qed.

(** The sixteen children made empty leaves. *)
Record cleared k t d p t' : Prop := {
  cl_cfg : cfg_le t t';
  cl_height : t_height t' = t_height t;
  cl_pool : pool_ok t';
  cl_out : agree_out t t' d p;
  cl_node : t_root t' !! idx d p = t_root t !! idx d p;
  cl_wf : forall b, 0 <= b < 16 -> wf (S k) t' (d + 1) (16 * p + b);
  cl_items : below (S k) t' d p = []
}.

Lemma clear_children_cleared k t d p :
  pool_ok t -> 0 <= d -> 0 <= p < 16 ^ d -> d + 1 < t_height t ->
  exists t', clear_children 16 t (idx (d + 1) (16 * p)) = Ret t' /\ cleared k t d p t'.
Proof.
  intros Hpool Hd Hp Hlt. pose proof Hpool as (H1 & Htd & Hh & Hc & Hmax & Hall).
  assert (Hchild : forall b, 0 <= b < 16 -> exists n, t_root t !! idx (d + 1) (16 * p + b) = Some n /\ n_depth n = d + 1).
  { intros b Hb. apply Hall; [lia|]. by apply child_range. }
  destruct (clear_children_spec 16 t (idx (d + 1) (16 * p))) as (t' & -> & Hcfg & Hht & Hl).
  { intros j Hj. destruct (Hchild (j - idx (d + 1) (16 * p)) ltac:(lia)) as (n & Hn & _). exists n.
    rewrite <- Hn. f_equal. unfold idx. lia. }
  assert (Hin : forall b, 0 <= b < 16 -> exists n, t_root t' !! idx (d + 1) (16 * p + b) = Some (clear n) /\ n_depth n = d + 1).
  { intros b Hb. destruct (Hchild b Hb) as (n & Hn & Hdn). exists n. split; [|done].
    rewrite Hl, decide_True, Hn by (unfold idx; lia). done. }
  assert (Hout : forall d' p', 0 <= d' -> 0 <= p' < 16 ^ d' -> ~ (exists b, 0 <= b < 16 /\ d' = d + 1 /\ p' = 16 * p + b) ->
    t_root t' !! idx d' p' = t_root t !! idx d' p').
  { intros d' p' Hd' Hp' Hno. rewrite Hl, decide_False; [done|]. intros Hj. apply Hno.
    exists (idx d' p' - idx (d + 1) (16 * p)). split; [lia|]. apply idx_inj; try lia; [apply child_range; lia|unfold idx; lia]. }
  exists t'. split; [done|]. constructor; auto.
  - unfold pool_ok. rewrite Hht, (cfg_dc _ _ Hcfg), (cfg_depth _ _ Hcfg). do 4 (split; [done|]). split.
    + intros j. rewrite Hl. case_decide; [|apply Hmax]. rewrite fmap_is_Some. apply Hmax.
    + intros d' p' Hd' Hp'. destruct (Hall d' p' Hd' Hp') as (n & Hn & Hdn). rewrite Hl, Hn.
      case_decide; [exists (clear n)|exists n]; done.
  - intros d' p' n Hd' Hp' Hs Hn. rewrite Hout; auto. intros (b & Hb & -> & ->). apply Hs. by apply sub_child.
  - apply Hout; auto. intros (b & Hb & ? & ?). lia.
  - intros b Hb. destruct (Hin b Hb) as (n & Hn & Hdn). exists (clear n). split; [done|]. split; [done|].
    split; [lia|]. apply cleared_leaf.
  - unfold below. transitivity (flat_map (fun _ : Z => @nil Item) zs16); [|done].
    apply flat_map_ext_elem. intros b Hb%elem_zs16. destruct (Hin b Hb) as (n & Hn & _). cbn [items_at]. by rewrite Hn.
Qed.

(** ** Splitting *)
(** What adding an item below [(d, p)] does. *)
Record added k t d p it t' : Prop := {
  ad_cfg : cfg_le t t';
  ad_height : t_height t' = t_height t;
  ad_pool : pool_ok t';
  ad_out : agree_out t t' d p;
  ad_wf : wf k t' d p;
  ad_items : items_at k t' d p ≡ₚ upsert it (items_at k t d p)
}.

(** [add] does it, in subtrees of at most [h] levels. *)
Definition add_ok (add : HTree C -> Z -> Item -> Z -> outcome (HTree C)) (h : Z) : Prop :=
  forall k t d p it, pool_ok t -> wf k t d p -> 0 <= d -> 0 <= p < 16 ^ d -> t_height t - d <= h ->
    t_height t - d <= Z.of_nat k -> item_at t d p it ->
    exists t', add t (idx d p) it (ikh (t_dc t) it) = Ret t' /\ added k t d p it t'.

(** A redistribution below [(d, p)] that makes [X] of the items there. *)
Record rebuilt k t d p X t' : Prop := {
  rb_cfg : cfg_le t t';
  rb_height : t_height t' = t_height t;
  rb_pool : pool_ok t';
  rb_out : agree_out t t' d p;
  rb_node : t_root t' !! idx d p = t_root t !! idx d p;
  rb_wf : forall b, 0 <= b < 16 -> wf k t' (d + 1) (16 * p + b);
  rb_items : below k t' d p ≡ₚ X
}.

Lemma item_at_down t d p it :
  pool_ok t -> 0 <= d -> t_depth t + d <= 7 -> item_at t d p it ->
  item_at t (d + 1) (16 * p + digit (t_depth t) d (ikh (t_dc t) it)) it.
Proof.
  intros (_ & Htd & _ & Hc & _) Hd Hs Hi. pose proof (item_at_hash _ _ _ _ Hc Hi) as Hh. revert Hh.
  destruct Hi as (key & Hk & Hr & Hp). exists key. split; [done|]. split; [done|].
  assert (ikh (t_dc t) it = fnv1a key) as ->.
  { unfold ikh. destruct Hk as (Hk & Hl & _).
    by rewrite (kc_rep_decode _ key) by (auto; unfold MAX_KEY_LEN, KEY_BUF_LEN in *; lia). }
  rewrite hp_S by done. by rewrite Hp.
Qed.

Lemma split_step add k t d p n it :
  pool_ok t -> 0 <= d -> 0 <= p < 16 ^ d -> d + 1 < t_height t -> t_height t - (d + 1) <= Z.of_nat k ->
  n_depth n = d -> add_ok add (t_height t - (d + 1)) ->
  (forall b, 0 <= b < 16 -> wf k t (d + 1) (16 * p + b)) ->
  item_at t d p it -> lacks (it_key it) (below k t d p) ->
  exists t', (h ← key_hash t it; b ← INDEX t n (s32 h); add t (idx (d + 1) (16 * p) + b) it (u32 (s32 h))) = Ret t' /\
    rebuilt k t d p (it :: below k t d p) t'.
Proof.
  intros Hpool Hd Hp Hlt Hk Hn Hadd Hw Hi Hl. pose proof Hpool as (_ & Htd & Hh & Hc & _).
  rewrite (key_hash_ok t d p it) by done. cbn [mbind outcome_bind]. set (h := ikh (t_dc t) it).
  pose proof (ikh_range (t_dc t) it) as Hr. fold h in Hr. rewrite u32_s32, u32_id by done.
  rewrite (INDEX_ok t n d) by (auto; lia). rewrite digit_s32 by (auto; lia). cbn [mbind outcome_bind].
  pose proof (digit_range (t_depth t) d h) as Hb. pose proof (item_at_down t d p it Hpool Hd ltac:(lia) Hi) as Hi'.
  fold h in Hi'. set (b := digit (t_depth t) d h) in *.
  replace (idx (d + 1) (16 * p) + b) with (idx (d + 1) (16 * p + b)) by (unfold idx; lia).
  destruct (Hadd k t (d + 1) (16 * p + b) it) as (t' & E & A); auto; [lia|by apply child_range|lia|].
  exists t'. split; [done|]. destruct A as [A1 A2 A3 A4 A5 A6].
  destruct (below_update k t t' d p b _ Hd Hp Hb A1 Hw A4 A5 A6) as (Hw' & R & E1 & E2 & _).
  rewrite E1 in Hl. apply lacks_app in Hl as [_ Hl].
  constructor; auto.
  - eapply agree_out_up; [by apply sub_child|done].
  - destruct (proj2 (proj2 (proj2 (proj2 (proj2 Hpool)))) d p ltac:(lia) Hp) as (m & Hm & _). rewrite Hm.
    apply A4; auto. apply sub_not_self.
  - rewrite E2, E1. unfold upsert. rewrite without_lacks by done. by rewrite Permutation_middle.
Qed.

Lemma split_items_spec add k d p n l t :
  pool_ok t -> 0 <= d -> 0 <= p < 16 ^ d -> d + 1 < t_height t -> t_height t - (d + 1) <= Z.of_nat k ->
  n_depth n = d -> add_ok add (t_height t - (d + 1)) ->
  (forall b, 0 <= b < 16 -> wf k t (d + 1) (16 * p + b)) ->
  Forall (item_at t d p) l -> NoDup (List.map it_key (l ++ below k t d p)) ->
  exists t', split_items add t n (idx (d + 1) (16 * p)) l = Ret t' /\ rebuilt k t d p (l ++ below k t d p) t'.
Proof.
  revert t. induction l as [|it l IH]; intros t Hpool Hd Hp Hlt Hk Hn Hadd Hw Hf Hnd; cbn [split_items].
  { exists t. split; [done|]. by constructor; try done; apply agree_out_refl. }
  apply Forall_cons in Hf as [Hi Hf].
  assert (Hl : lacks (it_key it) (below k t d p)).
  { apply (nodup_around [] _ it) in Hnd as [_ Hl]. by apply lacks_app in Hl as [_ ?]. }
  destruct (split_step add k t d p n it) as (t1 & E & [B1 B2 B3 B4 B5 B6 B7]); auto.
  apply bind_ret in E as (h & Eh & E). apply bind_ret in E as (b & Eb & E).
  rewrite Eh. cbn [mbind outcome_bind]. rewrite Eb. cbn [mbind outcome_bind]. rewrite E. cbn [mbind outcome_bind].
  destruct (IH t1) as (t2 & -> & [D1 D2 D3 D4 D5 D6 D7]); auto; try (by rewrite B2).
  - eapply Forall_impl; [exact Hf|]. intros x. by apply item_at_cfg.
  - rewrite B7. rewrite <- Permutation_middle. done.
  - exists t2. split; [done|]. constructor; auto; try congruence.
    + by etransitivity.
    + by eapply agree_out_trans.
    + rewrite D7, B7. by rewrite <- Permutation_middle.
Qed.

(** A leaf above the last level becomes a node with the same items below it. *)
Lemma split_node_spec add k t d p n :
  pool_ok t -> 0 <= d -> 0 <= p < 16 ^ d -> d + 1 < t_height t -> t_height t - (d + 1) <= Z.of_nat k ->
  add_ok add (t_height t - (d + 1)) ->
  t_root t !! idx d p = Some n -> n_depth n = d -> content_ok t d p (node_items n) ->
  exists t', split_node add t (idx d p) = Ret t' /\ cfg_le t t' /\ t_height t' = t_height t /\ pool_ok t' /\
    agree_out t t' d p /\ wf (S k) t' d p /\ items_at (S k) t' d p ≡ₚ node_items n.
Proof.
  intros Hpool Hd Hp Hlt Hk Hadd Hn Hdn [Hnd Hf]. pose proof Hpool as (_ & Htd & Hh & _).
  unfold split_node, node_at. rewrite Hn. cbn [mbind outcome_bind].
  rewrite (get_child_ok d p n) by (auto; lia). rewrite Z.add_0_r. cbn [mbind outcome_bind].
  destruct k as [|k]; [lia|].
  destruct (clear_children_cleared k t d p) as (t1 & -> & [B1 B2 B3 B4 B5 B6 B7]); auto. cbn [mbind outcome_bind].
  destruct (split_items_spec add (S k) d p n (node_items n) t1) as (t2 & -> & [D1 D2 D3 D4 D5 D6 D7]);
    auto; try (by rewrite B2).
  { eapply Forall_impl; [exact Hf|]. intros x. by apply item_at_cfg. }
  { by rewrite B7, app_nil_r. }
  cbn [mbind outcome_bind]. assert (Hn2 : t_root t2 !! idx d p = Some n) by congruence.
  rewrite Hn2. cbn [mbind outcome_bind]. set (m := {| n_is_node := true |}). set (t3 := set_node t2 (idx d p) m).
  assert (Hfr : forall b, 0 <= b < 16 -> wf (S k) t3 (d + 1) (16 * p + b) /\
    items_at (S k) t3 (d + 1) (16 * p + b) = items_at (S k) t2 (d + 1) (16 * p + b)).
  { intros b Hb. apply wf_frame; auto; [lia|by apply child_range|apply set_node_cfg|].
    apply agree_set_in; auto. apply sub_not_self. }
  assert (Hm : t_root t3 !! idx d p = Some m) by (unfold t3; rewrite root_set; by rewrite decide_True).
  exists t3. split; [done|]. split; [etransitivity; [exact B1|]; etransitivity; [exact D1|apply set_node_cfg]|].
  split; [unfold t3; simpl; congruence|]. split; [by eapply pool_set|].
  split; [eapply agree_out_trans; [exact B4|]; eapply agree_out_trans; [exact D4|by apply agree_set_out]|]. split.
  - exists m. split; [done|]. split; [done|]. split; [unfold t3; simpl; lia|]. cbn [m n_is_node]. split; [|done].
    intros b Hb. by apply Hfr.
  - cbn [items_at]. rewrite Hm. cbn [m n_is_node].
    transitivity (below (S k) t2 d p); [|rewrite D7, B7; by rewrite app_nil_r].
    unfold below. rewrite (flat_map_ext_elem _ (fun b => items_at (S k) t2 (d + 1) (16 * p + b))); [done|].
    intros b Hb%elem_zs16. by apply Hfr.
Qed.

(** ** Adding *)
(** The item put into its leaf, before any split: what a redistribution of that
    leaf then gives for the whole. *)
Record leaf_added k t d p it t2 d' p' k' n' : Prop := {
  la_cfg : cfg_le t t2;
  la_height : t_height t2 = t_height t;
  la_pool : pool_ok t2;
  la_out : agree_out t t2 d p;
  la_sub : sub d p d' p';
  la_pos : 0 <= p' < 16 ^ d';
  la_depth : d <= d' < t_height t;
  la_fuel : Z.of_nat k' + d' = Z.of_nat k + d;
  la_node : t_root t2 !! idx d' p' = Some n';
  la_ndepth : n_depth n' = d';
  la_ok : leaf_ok t2 d' p' n';
  la_leaf : n_is_node n' = false;
  la_ctx : forall t3, cfg_le t2 t3 -> agree_out t2 t3 d' p' -> wf k' t3 d' p' ->
    items_at k' t3 d' p' ≡ₚ node_items n' ->
    wf k t3 d p /\ items_at k t3 d p ≡ₚ upsert it (items_at k t d p)
}.

Lemma add_leaf_step k t d p it :
  pool_ok t -> wf k t d p -> 0 <= d -> item_at t d p it ->
  exists t1 d' p' k' n n' a,
    descend true (Z.to_nat (t_height t)) t (idx d p) (ikh (t_dc t) it) = Ret (t1, idx d' p') /\
    node_at t1 (idx d' p') = Ret n /\
    leaf_add (t_block_size t1) t1 n it (ikh (t_dc t) it) = Ret (n', a) /\
    leaf_added k t d p it (set_node t1 (idx d' p') n') d' p' k' n'.
Proof.
  intros Hpool Hw Hd Hi. pose proof Hpool as (_ & Htd & Hh & Hc & _).
  pose proof (item_at_hash _ _ _ _ Hc Hi) as Hp. set (kh := ikh (t_dc t) it) in *.
  destruct (descend_spec k t d p kh (Z.to_nat (t_height t))) as (t1 & d' & p' & k' & n & R & E & D); auto; [lia|].
  destruct D as [D1 D2 D3 D4 D5 D6 D7 D8 D9 D10 D11 D12 D13 D14 D15 D16].
  assert (Hkc : kc_ok (t_dc t1)) by apply D6.
  assert (Hkh : ikh (t_dc t1) it = kh) by (unfold kh; by rewrite (cfg_dc _ _ D4)).
  assert (Hi1 : item_at t1 d' p' it).
  { apply (item_at_cfg t); [done|]. destruct Hi as (key & Hk & Hr & Hp'). exists key. split; [done|]. split; [done|].
    rewrite <- D3. f_equal. unfold kh, ikh. destruct Hk as (Hk & Hl & _).
    by rewrite (kc_rep_decode _ key) by (auto; unfold MAX_KEY_LEN, KEY_BUF_LEN in *; lia). }
  destruct (leaf_add_spec (t_block_size t1) t1 d' p' n it Hkc D12 Hi1) as (n' & a & Ea & Hok & Hnn & Hnd & Hit).
  rewrite Hkh in Ea. exists t1, d', p', k', n, n', a. split; [done|]. unfold node_at. rewrite D8. split; [done|].
  split; [done|]. assert (Hp' : 0 <= p' < 16 ^ d') by (rewrite <- D3; apply hp_range; lia).
  constructor; auto; try done; try lia.
  - etransitivity; [exact D4|apply set_node_cfg].
  - by eapply pool_set.
  - eapply agree_out_trans; [exact D7|]. eapply agree_out_up; [exact D15|]. by apply agree_set_out; [lia|].
  - rewrite root_set. by rewrite decide_True.
  - congruence.
  - intros t3 Hc3 Ha3 Hw3 Hi3. destruct (D16 t3) as [Hw' Hit']; auto.
    { etransitivity; [apply set_node_cfg|exact Hc3]. }
    { eapply agree_out_trans; [|exact Ha3]. by apply agree_set_out; [lia|]. }
    split; [done|]. rewrite Hit', Hi3, Hit, D13. rewrite upsert_app; [done|].
    apply (elsewhere_lacks t d' kh); [done|]. by rewrite D3.
Qed.

(** No split: the leaf stays. *)
Lemma leaf_added_kept k t d p it t2 d' p' k' n' :
  leaf_added k t d p it t2 d' p' (S k') n' -> added k t d p it t2.
Proof.
  intros []. assert (wf (S k') t2 d' p' /\ items_at (S k') t2 d' p' ≡ₚ node_items n') as [Hw Hi].
  { cbn [items_at]. rewrite la_node0, la_leaf0. split; [|done]. exists n'. rewrite la_leaf0.
    split; [done|]. split; [done|]. split; [lia|done]. }
  destruct (la_ctx0 t2) as [? ?]; auto; [done|apply agree_out_refl|]. by constructor.
Qed.

(** A split. *)
Lemma leaf_added_split k t d p it t2 d' p' k' n' t3 :
  leaf_added k t d p it t2 d' p' k' n' ->
  cfg_le t2 t3 -> t_height t3 = t_height t2 -> pool_ok t3 -> agree_out t2 t3 d' p' -> wf k' t3 d' p' ->
  items_at k' t3 d' p' ≡ₚ node_items n' -> added k t d p it t3.
Proof.
  intros [] Hc Hh Hp Ho Hw Hi. destruct (la_ctx0 t3) as [? ?]; auto.
  constructor; auto; [by etransitivity|congruence|]. eapply agree_out_trans; [exact la_out0|].
  by eapply agree_out_up.
Qed.

Lemma add_item_spec f : add_ok (fun t i it kh => add_item f t i it kh false) (Z.of_nat f).
Proof.
  induction f as [|f IH]; intros k t d p it Hpool Hw Hd Hp Hf Hk Hi.
  { destruct k as [|k]; [done|]. destruct Hw as (n & _ & _ & ? & _). lia. }
  destruct (add_leaf_step k t d p it) as (t1 & d' & p' & k' & n & n' & a & E1 & E2 & E3 & L); auto.
  cbn [add_item]. rewrite E1. cbn [mbind outcome_bind]. rewrite E2. cbn [mbind outcome_bind]. rewrite E3.
  cbn [mbind outcome_bind]. set (t2 := set_node t1 (idx d' p') n') in *. pose proof L as [].
  destruct k' as [|k']; [lia|].
  destruct (a && (SPLIT_LIMIT <? n_count n')); [|exists t2; split; [done|by eapply leaf_added_kept]].
  cbn [andb]. destruct (Z.eqb_spec (n_depth n') (t_height t2 - 1)); [exists t2; split; [done|by eapply leaf_added_kept]|].
  destruct (split_node_spec (fun t i it kh => add_item f t i it kh false) k' t2 d' p' n')
    as (t3 & -> & H1 & H2 & H3 & H4 & H5 & H6); auto; try lia.
  - intros k2 t4 d4 p4 it4 ? ? ? ? ?. apply IH; auto. lia.
  - apply la_ok0.
  - exists t3. split; [done|]. by eapply leaf_added_split.
Qed.

(** ** Enlarging *)
Lemma fill_nodes_lookup k f i (r : gmap Z Node) j :
  fill_nodes k f i r !! j = if decide (i <= j < i + Z.of_nat k) then Some (f j) else r !! j.
Proof.
  revert i r. induction k as [|k IH]; intros i r; cbn [fill_nodes]; [by rewrite decide_False by lia|].
  rewrite IH, lookup_insert. destruct (decide (i = j)) as [<-|].
  - rewrite decide_False by lia. by rewrite decide_True by lia.
  - destruct (decide (i + 1 <= j < _)); [by rewrite decide_True by lia|by rewrite decide_False by lia].
Qed.

Lemma enlarge_pool_spec t :
  pool_ok t -> t_height t + t_depth t < 8 ->
  exists t', enlarge_pool t = Ret t' /\ pool_ok t' /\ cfg_le t t' /\ t_height t' = t_height t + 1 /\
    forall i n, t_root t !! i = Some n -> t_root t' !! i = Some n.
Proof.
  intros (H1 & Htd & Hh & Hc & Hmax & Hall) Hlt. unfold enlarge_pool.
  rewrite !g_index_at by lia. cbn [mbind outcome_bind]. set (h := t_height t) in *.
  set (r := fill_nodes _ _ _ _). eexists. split; [done|].
  pose proof (gi_S h ltac:(lia)) as Hg. pose proof (pow16_pos h ltac:(lia)) as Hpos.
  assert (Hr : forall j, r !! j = if decide (gi h <= j < gi (h + 1)) then Some (node_zero h) else t_root t !! j).
  { intros j. unfold r. rewrite fill_nodes_lookup. rewrite Z2Nat.id by lia.
    destruct (decide (gi h <= j < gi (h + 1))); [by rewrite decide_True by lia|by rewrite decide_False by lia]. }
  split; [|split; [constructor; simpl; done || lia|split; [done|]]].
  - unfold pool_ok; simpl. do 2 (split; [lia|]). split; [lia|]. split; [done|]. split.
    + intros j. rewrite Hr. pose proof (gi_mono 0 h ltac:(lia) ltac:(lia)) as Hg0. change (gi 0) with 0 in Hg0. case_decide; [lia|]. intros Hj%Hmax. lia.
    + intros d p Hd Hp. rewrite Hr. destruct (Z.eq_dec d h) as [->|Hne].
      * rewrite decide_True by (unfold idx; lia). by exists (node_zero h).
      * rewrite decide_False; [apply Hall; lia|]. unfold idx. pose proof (gi_S d ltac:(lia)).
        pose proof (gi_mono (d + 1) h ltac:(lia) ltac:(lia)). lia.
  - intros i n Hn. simpl. rewrite Hr, decide_False; [done|]. pose proof (Hmax i ltac:(eauto)). lia.
Qed.

(** Adding from the root, where the array may grow. *)
Definition inserted t it t' : Prop :=
  cfg_le t t' /\ pool_ok t' /\ wf 9 t' 0 0 /\ items_at 9 t' 0 0 ≡ₚ upsert it (items_at 9 t 0 0).

Lemma added_inserted t it t' : added 9 t 0 0 it t' -> inserted t it t'.
Proof. intros []. done. Qed.

Lemma add_root_spec t it enl :
  pool_ok t -> wf 9 t 0 0 -> item_at t 0 0 it ->
  exists t', add_item ADD_FUEL t 0 it (ikh (t_dc t) it) enl = Ret t' /\ inserted t it t'.
Proof.
  intros Hpool Hw Hi. pose proof Hpool as (_ & Htd & Hh & _).
  destruct (add_leaf_step 9 t 0 0 it) as (t1 & d' & p' & k' & n & n' & a & E1 & E2 & E3 & L); auto; [lia|].
  assert (exists f, ADD_FUEL = S f /\ f = 9%nat) as (f & -> & Hf9) by (by exists 9%nat).
  cbn [add_item]. change (idx 0 0) with 0 in E1. rewrite E1. cbn [mbind outcome_bind]. rewrite E2.
  cbn [mbind outcome_bind]. rewrite E3. cbn [mbind outcome_bind].
  set (t2 := set_node t1 (idx d' p') n') in *. pose proof L as []. destruct k' as [|k']; [lia|].
  assert (Hkeep : inserted t it t2) by (by eapply added_inserted, leaf_added_kept).
  destruct (a && (SPLIT_LIMIT <? n_count n')); [|by exists t2].
  set (add := fun t i it kh => add_item f t i it kh false).
  assert (Hadd : forall h, h <= 9 -> add_ok add h).
  { intros h Hle k2 t4 d4 p4 it4 ? ? ? ? ?. apply add_item_spec; auto. lia. }
  destruct (Z.eqb_spec (n_depth n') (t_height t2 - 1)).
  - destruct (enl && (t_height t2 + t_depth t2 <? MAX_DEPTH) && (SPLIT_LIMIT * 4 <? n_count n')) eqn:Eb; [|by exists t2].
    apply andb_prop in Eb as [[_ Eb]%andb_prop _]. apply Z.ltb_lt in Eb. unfold MAX_DEPTH in Eb.
    destruct (enlarge_pool_spec t2 la_pool0 Eb) as (t3 & -> & P3 & C3 & H3 & R3). cbn [mbind outcome_bind].
    destruct (split_node_spec add k' t3 d' p' n') as (t4 & -> & H4 & H5 & H6 & H7 & H8 & H9); auto; try lia.
    { apply Hadd. lia. }
    { apply (leaf_ok_cfg t2 t3) in la_ok0; [apply la_ok0|done]. }
    exists t4. split; [done|]. destruct (la_ctx0 t4) as [? ?]; auto.
    { by etransitivity. }
    { eapply agree_out_trans; [|exact H7]. intros d5 p5 m _ _ _. apply R3. }
    split; [|done]. etransitivity; [exact la_cfg0|]. by etransitivity.
  - destruct (split_node_spec add k' t2 d' p' n') as (t3 & -> & H1 & H2 & H3 & H4 & H5 & H6); auto; try lia.
    { apply Hadd. lia. }
    { apply la_ok0. }
    exists t3. split; [done|]. by eapply added_inserted, leaf_added_split.
Qed.
End Add.
