(* ===== verification/HTreeMap.v ===== *)
(** * The hash tree as a finite map

    The abstraction function of a tree and the proofs that insertion, removal
    and lookup act on it as on a finite map from keys to (position, version,
    hash). *)
From Stdlib Require Import ZArith Lia List.
From stdpp Require Import base numbers list list_numbers gmap strings fin_maps.
From S2P Require Import Prelude Hash CText Codec CodecFacts HTree HTreeLeaf HTreeShape HTreeOps HTreeAdd.

Import Fnv FnvFacts.

Abbreviation entry := (Z * Z * Z)%type.
Definition ival (it : Item) : entry := (it_pos it, it_ver it, it_hash it).

Section Map.
Context {C : Type} {KC : KeyCodec C} {KL : KeyCodecLaws C}.
Implicit Types t : HTree C.

(** ** Abstraction *)
Definition ikey (c : C) (it : Item) : bytes :=
  match kc_decode c KEY_BUF_LEN (it_key it) with Ret k => k | _ => [] end.
Definition entries (c : C) (l : list Item) : list (bytes * entry) := List.map (fun it => (ikey c it, ival it)) l.

Definition tree_ok t : Prop := pool_ok t /\ wf 9 t 0 0.
Definition tree_items t : list Item := items_at 9 t 0 0.
Definition abs t : gmap bytes entry := list_to_map (entries (t_dc t) (tree_items t)).

Lemma ikey_rep (c : C) key it :
  kc_ok c -> key_ok key -> blen key <= MAX_KEY_LEN -> kc_rep c key (it_key it) -> ikey c it = key.
Proof.
  intros Hc Hk Hl Hr. unfold ikey.
  by rewrite (kc_rep_decode _ key) by (auto; unfold MAX_KEY_LEN, KEY_BUF_LEN in *; lia).
Qed.

Lemma ikh_rep (c : C) key it :
  kc_ok c -> key_ok key -> blen key <= MAX_KEY_LEN -> kc_rep c key (it_key it) -> ikh c it = fnv1a key.
Proof.
  intros Hc Hk Hl Hr. unfold ikh.
  by rewrite (kc_rep_decode _ key) by (auto; unfold MAX_KEY_LEN, KEY_BUF_LEN in *; lia).
Qed.

(** Two stored keys are equal exactly when the keys are. *)
Lemma ikey_inj t d p d' p' a b :
  kc_ok (t_dc t) -> item_at t d p a -> item_at t d' p' b ->
  ikey (t_dc t) a = ikey (t_dc t) b <-> it_key a = it_key b.
Proof.
  intros Hc (k & (Hk & Hl & _) & Hr & _) (k' & (Hk' & Hl' & _) & Hr' & _).
  rewrite (ikey_rep _ k), (ikey_rep _ k') by done. split.
  - intros ->. by eapply kc_rep_fun.
  - intros E. rewrite E in Hr. by eapply kc_rep_inj.
Qed.

Lemma entries_nodup t d p l : kc_ok (t_dc t) -> content_ok t d p l -> NoDup (entries (t_dc t) l).*1.
Proof.
  intros Hc [Hnd Hf]. unfold entries. induction l as [|x l IH]; [constructor|].
  simpl in *. apply NoDup_cons in Hnd as [Hni Hnd]. apply Forall_cons in Hf as [Hx Hf].
  constructor; [|by apply IH]. intros Hin. apply Hni. apply list_elem_of_fmap in Hin as ([k e] & Ek & Hin).
  apply list_elem_of_fmap in Hin as (y & Ey & Hy). injection Ey as -> _. simpl in Ek.
  apply list_elem_of_fmap. exists y. split; [|done].
  eapply (ikey_inj t d p d p); eauto. eapply (proj1 (Forall_forall _ _) Hf); done.
Qed.

Lemma tree_content t : tree_ok t -> content_ok t 0 0 (tree_items t).
Proof. intros [Hp Hw]. apply wf_content; auto; simpl; lia. Qed.

(** The map of a tree depends on its items as a multiset only. *)
Lemma abs_perm t t' l :
  tree_ok t -> t_dc t' = t_dc t -> content_ok t 0 0 l -> tree_items t' ≡ₚ l ->
  abs t' = list_to_map (entries (t_dc t) l).
Proof.
  intros [Hp _] Hdc Hl E. unfold abs. rewrite Hdc. apply list_to_map_proper.
  - eapply entries_nodup; [apply Hp|]. eapply content_perm; [symmetry; exact E|done].
  - unfold entries. apply Permutation_map, E.
Qed.

(** Membership: an entry of the map is an item of the tree. *)
Lemma abs_lookup t key it :
  tree_ok t -> it ∈ tree_items t -> ikey (t_dc t) it = key -> abs t !! key = Some (ival it).
Proof.
  intros Ht Hin <-. unfold abs. apply elem_of_list_to_map_1.
  - eapply entries_nodup; [apply Ht|by apply tree_content].
  - apply list_elem_of_fmap. eauto.
Qed.
Lemma abs_lookup_none t key :
  (forall it, it ∈ tree_items t -> ikey (t_dc t) it <> key) -> abs t !! key = None.
Proof.
  intros H. unfold abs. apply not_elem_of_list_to_map_1. intros ([k e] & -> & Hin)%list_elem_of_fmap.
  apply list_elem_of_fmap in Hin as (y & Ey & Hy). injection Ey as -> _. by apply (H y).
Qed.

(** Dropping a key from the items deletes it from the map. *)
Lemma entries_without t k d p l it :
  kc_ok (t_dc t) -> content_ok t d p l -> item_at t d p it -> ikey (t_dc t) it = k ->
  list_to_map (M := gmap bytes entry) (entries (t_dc t) (without (it_key it) l)) =
  delete k (list_to_map (entries (t_dc t) l)).
Proof.
  intros Hc [_ Hf] Hi <-. induction l as [|x l IH]; [symmetry; apply delete_empty|].
  apply Forall_cons in Hf as [Hx Hf]. specialize (IH Hf).
  assert (Hiff := ikey_inj t d p d p x it Hc Hx Hi). unfold without, entries in *. simpl.
  destruct (decide (it_key x = it_key it)) as [E|E].
  - rewrite filter_cons_False by auto. rewrite IH. apply Hiff in E. rewrite E. by rewrite delete_insert_eq.
  - rewrite filter_cons_True by done. simpl. rewrite IH. rewrite delete_insert_ne; [done|].
    intros E'. apply E, Hiff. done.
Qed.

(** ** A larger codec *)
Lemma item_at_dc t c d p it :
  kc_ok (t_dc t) -> kc_ok c -> kc_le (t_dc t) c -> item_at t d p it ->
  item_at (with_dc t c) d p it /\ ikey c it = ikey (t_dc t) it /\ ikh c it = ikh (t_dc t) it.
Proof.
  intros Hc Hc' Hle (k & (Hk & Hl & Hb) & Hr & Hh).
  assert (Hr' : kc_rep c k (it_key it)) by (by apply (kc_rep_mono (t_dc t))).
  rewrite (ikey_rep c k), (ikey_rep (t_dc t) k), (ikh_rep c k), (ikh_rep (t_dc t) k) by done. split; [|done]. by exists k.
Qed.

Lemma hsum_dc t c d p l :
  kc_ok (t_dc t) -> kc_ok c -> kc_le (t_dc t) c -> Forall (item_at t d p) l -> hsum c l = hsum (t_dc t) l.
Proof.
  intros Hc Hc' Hle. induction 1 as [|x l Hx Hl IH]; [done|]. simpl. rewrite IH.
  by destruct (item_at_dc t c d p x) as (_ & _ & ->).
Qed.

Lemma wf_dc k t c d p :
  kc_ok (t_dc t) -> kc_ok c -> kc_le (t_dc t) c -> wf k t d p ->
  wf k (with_dc t c) d p /\ items_at k (with_dc t c) d p = items_at k t d p.
Proof.
  intros Hc Hc' Hle. revert d p. induction k as [|k IH]; intros d p Hw; [done|].
  destruct Hw as (n & Hn & Hdn & Hlt & Hrest). cbn [items_at]. simpl t_root. rewrite Hn.
  destruct (n_is_node n) eqn:En.
  - destruct Hrest as [Hcs Hca]. split; [|apply flat_map_ext_elem; intros b Hb%elem_zs16; by apply IH, Hcs].
    exists n. rewrite En. split; [done|]. split; [done|]. split; [done|]. split; [|done].
    intros b Hb. by apply IH, Hcs.
  - split; [|done]. exists n. rewrite En. split; [done|]. split; [done|]. split; [done|].
    destruct Hrest as (H1 & H2 & [H3 H4] & H5 & H6). split; [done|]. split; [done|]. split; [|split; [done|]].
    + split; [done|]. eapply Forall_impl; [exact H4|]. intros x Hx. by apply item_at_dc.
    + simpl. by rewrite (hsum_dc t c d p).
Qed.

Lemma tree_dc t c :
  tree_ok t -> kc_ok c -> kc_le (t_dc t) c ->
  tree_ok (with_dc t c) /\ tree_items (with_dc t c) = tree_items t /\ abs (with_dc t c) = abs t.
Proof.
  intros Ht Hc Hle. pose proof Ht as [Hp Hw]. assert (Hc0 : kc_ok (t_dc t)) by apply Hp.
  destruct (wf_dc 9 t c 0 0 Hc0 Hc Hle Hw) as [Hw' Hi]. split; [|split; [done|]].
  - split; [|done]. destruct Hp as (H1 & H2 & H3 & H4 & H5). by repeat (split; [done|]).
  - unfold abs, tree_items. rewrite Hi. f_equal. simpl t_dc. unfold entries. apply map_ext_in. intros x Hx.
    destruct (tree_content t Ht) as [_ Hf].
    destruct (item_at_dc t c 0 0 x) as (_ & -> & _); auto.
    eapply (proj1 (Forall_forall _ _) Hf). by apply list_elem_of_In.
Qed.

(** ** Removal from the tree *)
Lemma content_cons t d p o l : content_ok t d p (o :: l) -> content_ok t d p l /\ lacks (it_key o) l.
Proof.
  intros [Hnd Hf]. apply Forall_cons in Hf as [_ Hf]. split; [|by apply (nodup_around [] l o) in Hnd as [_ ?]].
  split; [|done]. simpl in Hnd. by apply NoDup_cons in Hnd as [_ ?].
Qed.

Lemma leaf_remove_spec t d p n it o c :
  leaf_ok t d p n -> chain_remove true it (n_data n) = Some (o, c) ->
  let n' := {| n_is_node := n_is_node n; n_valid := n_valid n; n_depth := n_depth n;
     n_hash := u16 (n_hash n - ikh (t_dc t) it * HASH o); n_count := u32 (n_count n - b2z (0 <? it_ver o));
     n_data := c |} in
  leaf_ok t d p n' /\ node_items n' ≡ₚ without (it_key it) (node_items n).
Proof.
  intros (Hv & [Hne Hch] & Hcon & Hcnt & Hh) E. destruct (chain_remove_some _ _ _ _ _ E Hch) as (Hk & Hch' & Hne' & Hp).
  unfold node_items in *. pose proof (content_perm _ _ _ _ _ Hp Hcon) as Hcon'.
  apply content_cons in Hcon' as [Hcon' Hl]. rewrite Hk in Hl. cbv zeta. simpl. split.
  - split; [done|]. split; [done|]. unfold node_items. simpl. split; [done|].
    rewrite Hcnt, Hh, (live_perm _ _ Hp), (hsum_perm _ _ _ Hp). simpl. split.
    + rewrite u32_sub_l. f_equal. unfold alive. lia.
    + rewrite u16_sub_l. f_equal. rewrite (ikh_key _ o it Hk). lia.
  - rewrite Hp. unfold without. rewrite filter_cons_False by auto. fold (without (it_key it) (flat_map d_items c)).
    by rewrite without_lacks.
Qed.

Definition removed t k t' : Prop :=
  cfg_le t t' /\ tree_ok t' /\ tree_items t' ≡ₚ without k (tree_items t).

Lemma remove_item_spec t it :
  tree_ok t -> item_at t 0 0 it ->
  exists t', remove_item t 0 it (ikh (t_dc t) it) = Ret t' /\ removed t (it_key it) t'.
Proof.
  intros [Hpool Hw] Hi. pose proof Hpool as (_ & Htd & Hh & Hc & _).
  pose proof (item_at_hash _ _ _ _ Hc Hi) as Hp. set (kh := ikh (t_dc t) it) in *.
  destruct (descend_spec 9 t 0 0 kh (Z.to_nat (t_height t))) as (t1 & d' & p' & k' & n & R & E & D); auto; [lia|lia|].
  destruct D as [D1 D2 D3 D4 D5 D6 D7 D8 D9 D10 D11 D12 D13 D14 D15 D16].
  unfold remove_item. change (idx 0 0) with 0 in E. rewrite E. cbn [mbind outcome_bind]. unfold node_at. rewrite D8.
  cbn [mbind outcome_bind]. assert (Hl : lacks (it_key it) R) by (apply (elsewhere_lacks t d' kh); [done|by rewrite D3]).
  assert (Hp' : 0 <= p' < 16 ^ d') by (rewrite <- D3; apply hp_range; lia).
  assert (Hdone : forall n', leaf_ok t1 d' p' n' -> n_is_node n' = false -> n_depth n' = d' ->
    node_items n' ≡ₚ without (it_key it) (node_items n) -> removed t (it_key it) (set_node t1 (idx d' p') n')).
  { intros n' Hok Hn' Hdn' Hit. assert (Hn : t_root (set_node t1 (idx d' p') n') !! idx d' p' = Some n')
      by (rewrite root_set; by rewrite decide_True).
    destruct k' as [|k']; [lia|].
    destruct (D16 (set_node t1 (idx d' p') n')) as [Hw' Hit'].
    - apply set_node_cfg.
    - by apply agree_set_out; [lia|].
    - exists n'. rewrite Hn'. split; [done|]. split; [done|]. split; [simpl; lia|]. done.
    - split; [etransitivity; [exact D4|apply set_node_cfg]|]. split; [split; [eapply pool_set; eauto; congruence|done]|].
      unfold tree_items. rewrite Hit', D13. cbn [items_at]. rewrite Hn, Hn', Hit.
      by rewrite without_app, (without_lacks _ R). }
  destruct (chain_remove true it (n_data n)) as [[o c]|] eqn:Ec.
  - eexists. split; [done|]. assert (Hkh : ikh (t_dc t1) it = kh) by (unfold kh; by rewrite (cfg_dc _ _ D4)).
    destruct (leaf_remove_spec t1 d' p' n it o c D12 Ec) as [Hok Hit]. rewrite Hkh in Hok. by apply Hdone.
  - exists t1. split; [done|].
    assert (Heq : set_node t1 (idx d' p') n = t1).
    { unfold set_node, with_root. rewrite insert_id by done. by destruct t1. }
    rewrite <- Heq. apply Hdone; auto. apply chain_remove_none in Ec. by rewrite without_lacks.
Qed.

(** ** Lookup in the tree *)
Lemma get_item_hash_spec t it :
  tree_ok t -> item_at t 0 0 it ->
  exists r, get_item_hash t 0 (it_key it) (ikh (t_dc t) it) = Ret r /\
    abs t !! ikey (t_dc t) it = ival <$> r.
Proof.
  intros [Hpool Hw] Hi. pose proof Hpool as (_ & Htd & Hh & Hc & _).
  pose proof (item_at_hash _ _ _ _ Hc Hi) as Hp. set (kh := ikh (t_dc t) it) in *.
  destruct (descend_ro_spec 9 t 0 0 kh (Z.to_nat (t_height t)))
    as (d' & p' & n & R & E & Hn & Hok & Hp' & Hd' & Hit & HR); auto; [lia|lia|].
  unfold get_item_hash. change (idx 0 0) with 0 in E. rewrite E. cbn [mbind outcome_bind]. unfold node_at. rewrite Hn.
  cbn [mbind outcome_bind]. eexists. split; [done|].
  destruct (tree_content t (conj Hpool Hw)) as [_ Hf].
  destruct (List.find _ _) as [x|] eqn:Ef; simpl.
  - apply List.find_some in Ef as [Hin Hk]. apply bool_decide_eq_true in Hk.
    assert (Hx : x ∈ tree_items t) by (unfold tree_items; rewrite Hit; apply elem_of_app; right; by apply list_elem_of_In).
    apply abs_lookup; [done|done|]. unfold ikey. by rewrite Hk.
  - apply abs_lookup_none. intros x Hx Ek. unfold tree_items in Hx.
    assert (Ex : it_key x = it_key it).
    { eapply (ikey_inj t 0 0 0 0); eauto. by eapply (proj1 (Forall_forall _ _) Hf). }
    rewrite Hit in Hx. apply elem_of_app in Hx as [Hx|Hx].
    + eapply (proj1 (Forall_forall _ _) (elsewhere_lacks t d' kh it R eq_refl ltac:(by rewrite Hp')) x Hx). done.
    + apply list_elem_of_In in Hx. apply (List.find_none _ _ Ef) in Hx. apply bool_decide_eq_false in Hx. congruence.
Qed.

(** ** The operations on keys *)
(** A key a client may use: non-empty text of at most [MAX_KEY_LEN] bytes. *)
Definition key_fits (key : bytes) : Prop := key_ok key /\ blen key <= MAX_KEY_LEN.

Lemma create_item_spec t key pos hash ver :
  tree_ok t -> key_fits key -> check_bucket t key = true ->
  exists t' it, create_item t key pos hash ver = Ret (t', it) /\
    tree_ok t' /\ tree_items t' = tree_items t /\ abs t' = abs t /\ t_depth t' = t_depth t /\ t_pos t' = t_pos t /\
    item_at t' 0 0 it /\ ikey (t_dc t') it = key /\ ikh (t_dc t') it = fnv1a key /\ ival it = (pos, ver, hash) /\
    kc_rep (t_dc t') key (it_key it).
Proof.
  intros Ht [Hk Hl] Hb. unfold create_item. assert (Hc : kc_ok (t_dc t)) by apply Ht.
  destruct (kc_encode_rep (t_dc t) (TREE_BUF_SIZE - 11) key Hc Hk) as (c & e & -> & Hc' & Hle & Hr);
    [unfold TREE_BUF_SIZE, MAX_KEY_LEN in *; lia|done|unfold FMT_SIZE, MAX_KEY_LEN in *; lia|].
  cbn [mbind outcome_bind]. eexists _, _. split; [done|].
  destruct (tree_dc t c Ht Hc' Hle) as (Ht' & Hi' & Ha').
  pose proof (kc_rep_length c key e Hk Hr) as Hlen.
  assert (Hu : take (Z.to_nat (u8 (blen e))) e = e).
  { apply firstn_all2. unfold u8, blen, MAX_KEY_LEN in *. rewrite Z.mod_small; [lia|].
    change (2 ^ 8) with 256. lia. }
  do 5 (split; [done|]). assert (Hkc : kc_rep c key (take (Z.to_nat (u8 (blen e))) e)) by by rewrite Hu.
  split; [|split; [by apply ikey_rep|split; [by apply ikh_rep|done]]].
  exists key. split; [done|]. split; [done|]. apply hp_0.
Qed.
End Map.
