(* ===== verification/HTreeUpdate.v ===== *)
(** * Recomputing the counts and hashes of the tree

    [update_node] and [merge_node]: they return normally, keep the tree well
    formed, lose no live item, and leave a node whose count is the number of
    live items below it. *)
From Stdlib Require Import ZArith Lia List.
From stdpp Require Import base numbers list list_numbers gmap strings.
From S2P Require Import Prelude Hash CText Codec CodecFacts HTree HTreeLeaf HTreeShape HTreeOps HTreeAdd.

Import Fnv FnvFacts.

(** ** Dropping dead items *)
Definition dead (l : list Item) : Prop := Forall (fun x => alive x = false) l.
Definition pruned (l l' : list Item) : Prop := exists D, l ≡ₚ l' ++ D /\ dead D.

Lemma dead_live D : dead D -> live D = 0.
Proof. induction 1 as [|x l Hx _ IH]; [done|]. simpl. rewrite Hx, IH. done. Qed.
Lemma pruned_refl l : pruned l l.
Proof. exists []. rewrite app_nil_r. split; [done|constructor]. Qed.
Lemma pruned_trans a b c : pruned a b -> pruned b c -> pruned a c.
Proof.
  intros (D & H1 & H2) (E & H3 & H4). exists (E ++ D). rewrite H1, H3, app_assoc. split; [done|by apply Forall_app].
Qed.
Lemma pruned_live a b : pruned a b -> live b = live a.
Proof. intros (D & H & HD). rewrite (live_perm _ _ H), live_app, (dead_live D HD). lia. Qed.
Lemma pruned_length a b : pruned a b -> (length b <= length a)%nat.
Proof. intros (D & H & _). rewrite H, length_app. lia. Qed.
Lemma pruned_app R a b : pruned a b -> pruned (R ++ a) (R ++ b).
Proof. intros (D & H & HD). exists D. by rewrite H, app_assoc. Qed.
#[export] Instance pruned_perm : Proper (Permutation ==> Permutation ==> iff) pruned.
Proof.
  intros a a' Ha b b' Hb. unfold pruned. split; intros (D & H & HD); exists D; (split; [|done]).
  - by rewrite <- Ha, <- Hb.
  - by rewrite Ha, Hb.
Qed.

Lemma live_nonneg l : 0 <= live l.
Proof. induction l; simpl; [lia|]. destruct (alive a); simpl; lia. Qed.
Lemma live_length l : live l <= Z.of_nat (length l).
Proof. induction l; simpl; [lia|]. destruct (alive a); simpl; lia. Qed.

Definition alives (l : list Item) : list Item := List.filter alive l.
Lemma pruned_alives l : pruned l (alives l).
Proof.
  induction l as [|x l (D & H & HD)]; [apply pruned_refl|]. simpl. destruct (alive x) eqn:E.
  - exists D. simpl. by rewrite H at 1.
  - exists (x :: D). rewrite H at 1. split; [by rewrite Permutation_middle|by constructor].
Qed.
Lemma alives_app a b : alives (a ++ b) = alives a ++ alives b.
Proof. apply List.filter_app. Qed.
Lemma alives_sublist l : alives l `sublist_of` l.
Proof. induction l as [|x l IH]; [done|]. simpl. destruct (alive x); by constructor. Qed.
Lemma nodup_sublist (l l' : list Item) :
  l `sublist_of` l' -> NoDup (List.map it_key l') -> NoDup (List.map it_key l).
Proof. intros H Hn. eapply sublist_NoDup; [exact Hn|]. by apply (fmap_sublist it_key). Qed.
Lemma elem_alives x l : x ∈ alives l -> x ∈ l.
Proof. rewrite !list_elem_of_In. unfold alives. rewrite List.filter_In. tauto. Qed.

Lemma flat_map_perm_list {A B} (f : A -> list B) a b : a ≡ₚ b -> flat_map f a ≡ₚ flat_map f b.
Proof. by intros ->. Qed.
Lemma flat_map_Forall2 {A B X} (f : A -> list X) (g : B -> list X) l l' :
  Forall2 (fun a b => f a = g b) l l' -> flat_map f l = flat_map g l'.
Proof. induction 1 as [|a b l l' H _ IH]; [done|]. simpl. by rewrite H, IH. Qed.

Section Update.
Context {C : Type} {KC : KeyCodec C} {KL : KeyCodecLaws C}.
Implicit Types t : HTree C.

(** ** Counts *)
Lemma children_Forall2 t d p ns :
  children t d p ns -> Forall2 (fun b m => t_root t !! idx (d + 1) (16 * p + b) = Some m) zs16 ns.
Proof.
  intros [Hl Hc]. apply Forall2_same_length_lookup_2; [done|]. intros i b m Hb Hm.
  apply lookup_seqZ in Hb as [-> Hi]. rewrite Hc by lia. rewrite <- Hm. f_equal. lia.
Qed.

Lemma counts_sum (g : Z -> list Item) bs (ns : list Node) :
  Forall2 (fun b m => n_count m = u32 (live (g b))) bs ns ->
  u32 (fold_right (fun m s => n_count m + s) 0 ns) = u32 (live (flat_map g bs)).
Proof.
  induction 1 as [|b m bs ns H _ IH]; [done|]. simpl. rewrite H, u32_add_l, live_app.
  unfold u32 in *. by rewrite Z.add_mod, IH, <- Z.add_mod.
Qed.

(** The count of a valid node. *)
Lemma valid_count k t d p n :
  wf k t d p -> t_root t !! idx d p = Some n -> n_valid n = true -> n_count n = u32 (live (items_at k t d p)).
Proof.
  revert d p n. induction k as [|k IH]; intros d p n Hw Hn Hv; [done|].
  destruct Hw as (n' & Hn' & _ & _ & Hrest). cbn [items_at]. rewrite Hn' in Hn |- *. injection Hn as ->.
  destruct (n_is_node n); [|by destruct Hrest as (_ & _ & _ & ? & _)].
  destruct Hrest as [Hcs Hca]. destruct (Hca Hv) as (ns & Hns & Hval & -> & _).
  apply counts_sum. apply children_Forall2 in Hns. clear -Hcs Hns Hval IH.
  assert (Hb : Forall (fun b => 0 <= b < 16) zs16) by (apply Forall_forall; intros b; by rewrite elem_zs16).
  induction Hns as [|b m bs ns H Hns IHn]; constructor.
  - apply Forall_cons in Hval as [Hv _], Hb as [Hb _]. apply IH; auto.
  - apply Forall_cons in Hval as [_ Hval], Hb as [_ Hb]. by apply IHn.
Qed.

(** ** Merging the children into the node *)
Lemma add_nosplit f t d p n it :
  kc_ok (t_dc t) -> t_root t !! idx d p = Some n -> n_is_node n = false -> leaf_ok t d p n -> item_at t d p it ->
  lacks (it_key it) (node_items n) -> live (it :: node_items n) <= SPLIT_LIMIT -> 1 <= t_height t ->
  exists n', add_item (S f) t (idx d p) it (ikh (t_dc t) it) false = Ret (set_node t (idx d p) n') /\
    leaf_ok t d p n' /\ n_is_node n' = false /\ n_depth n' = n_depth n /\ node_items n' ≡ₚ it :: node_items n.
Proof.
  intros Hc Hn Hl Hok Hi Hlk Hcnt Hh. cbn [add_item]. destruct (Z.to_nat (t_height t)) as [|h] eqn:Eh; [lia|].
  cbn [descend]. unfold node_at. rewrite Hn. cbn [mbind outcome_bind]. rewrite Hl. cbn [mbind outcome_bind].
  rewrite Hn. cbn [mbind outcome_bind].
  destruct (leaf_add_spec (t_block_size t) t d p n it Hc Hok Hi) as (n' & a & -> & Hok' & Hn' & Hd' & Hit).
  cbn [mbind outcome_bind]. unfold upsert in Hit. rewrite without_lacks in Hit by done.
  assert (Hcn : n_count n' = live (it :: node_items n)).
  { destruct Hok' as (_ & _ & _ & -> & _). rewrite (live_perm _ _ Hit). apply u32_id.
    pose proof (live_nonneg (it :: node_items n)). unfold SPLIT_LIMIT in *. change (2 ^ 32) with 4294967296. lia. }
  exists n'. split; [|by rewrite Hn'].
  replace (SPLIT_LIMIT <? n_count n') with false by (symmetry; apply Z.ltb_ge; lia). by rewrite andb_false_r.
Qed.

Lemma set_node_twice t i a b : set_node (set_node t i a) i b = set_node t i b.
Proof. unfold set_node, with_root. simpl. by rewrite insert_insert_eq. Qed.
Lemma set_node_id t i n : t_root t !! i = Some n -> set_node t i n = t.
Proof. intros H. unfold set_node, with_root. rewrite insert_id by done. by destruct t. Qed.

Lemma merge_items_spec d p l t n :
  kc_ok (t_dc t) -> t_root t !! idx d p = Some n -> n_is_node n = false -> leaf_ok t d p n ->
  Forall (item_at t d p) l -> NoDup (List.map it_key (l ++ node_items n)) ->
  live l + live (node_items n) <= SPLIT_LIMIT -> 1 <= t_height t ->
  exists n', merge_items t (idx d p) l = Ret (set_node t (idx d p) n') /\ leaf_ok t d p n' /\
    n_is_node n' = false /\ n_depth n' = n_depth n /\ node_items n' ≡ₚ alives l ++ node_items n.
Proof.
  intros Hc. revert t n Hc. induction l as [|it l IH]; intros t n Hc Hn Hl Hok Hf Hnd Hcnt Hh; cbn [merge_items].
  { exists n. by rewrite set_node_id. }
  apply Forall_cons in Hf as [Hi Hf]. simpl in Hnd, Hcnt. cbn [alives List.filter].
  pose proof (live_nonneg l) as Hll. fold (alive it). destruct (alive it) eqn:Ea; simpl in Hcnt.
  2: { apply IH; auto. by apply NoDup_cons in Hnd as [_ ?]. }
  rewrite (key_hash_ok t d p it) by done. cbn [mbind outcome_bind].
  assert (Hlk : lacks (it_key it) (node_items n)).
  { apply (nodup_around [] _ it) in Hnd as [_ Hlk]. by apply lacks_app in Hlk as [_ ?]. }
  destruct (add_nosplit 9 t d p n it) as (n1 & E & Hok1 & Hl1 & Hd1 & Hit1); auto; [simpl; rewrite Ea; simpl; lia|].
  unfold ADD_FUEL. rewrite E. cbn [mbind outcome_bind].
  destruct (IH (set_node t (idx d p) n1) n1) as (n2 & -> & Hok2 & Hl2 & Hd2 & Hit2); auto.
  - rewrite root_set. by rewrite decide_True.
  - rewrite Hit1. by rewrite <- Permutation_middle.
  - rewrite (live_perm _ _ Hit1). simpl. rewrite Ea. simpl. lia.
  - exists n2. rewrite set_node_twice. split; [done|]. split; [done|]. split; [done|]. split; [congruence|].
    rewrite Hit2, Hit1. by rewrite <- Permutation_middle.
Qed.

(** A node made a leaf with the items [X]. *)
Definition leaf_with t d p X : Prop :=
  exists n, t_root t !! idx d p = Some n /\ n_is_node n = false /\ n_depth n = d /\ leaf_ok t d p n /\ node_items n ≡ₚ X.

Record merged t d p X t' : Prop := {
  mg_cfg : cfg_le t t';
  mg_height : t_height t' = t_height t;
  mg_pool : pool_ok t';
  mg_out : agree_out t t' d p;
  mg_leaf : leaf_with t' d p X
}.

(** Children [b], [b+1], ... are the leaves [ns]. *)
Definition leaves_from t d p (b : Z) (ns : list Node) : Prop :=
  forall i m, ns !! i = Some m ->
    t_root t !! idx (d + 1) (16 * p + (b + Z.of_nat i)) = Some m /\ n_depth m = d + 1 /\
    Forall (item_at t d p) (node_items m).

Lemma leaves_from_cons t d p b n ns : leaves_from t d p b (n :: ns) ->
  t_root t !! idx (d + 1) (16 * p + b) = Some n /\ n_depth n = d + 1 /\ Forall (item_at t d p) (node_items n) /\
  leaves_from t d p (b + 1) ns.
Proof.
  intros H. destruct (H 0%nat n eq_refl) as (H1 & H2 & H3). rewrite Z.add_0_r in H1. split; [done|].
  split; [done|]. split; [done|]. intros i m Hm. destruct (H (S i) m Hm) as (H4 & H5 & H6).
  split; [|done]. rewrite <- H4. do 2 f_equal. lia.
Qed.

Lemma merge_children_spec d p ns b t n :
  pool_ok t -> 0 <= d -> 0 <= p < 16 ^ d -> 0 <= b -> b + Z.of_nat (length ns) = 16 ->
  t_root t !! idx d p = Some n -> n_is_node n = false -> n_depth n = d -> leaf_ok t d p n ->
  leaves_from t d p b ns ->
  NoDup (List.map it_key (flat_map node_items ns ++ node_items n)) ->
  live (flat_map node_items ns) + live (node_items n) <= SPLIT_LIMIT ->
  exists t', merge_children (length ns) t (idx d p) (idx (d + 1) (16 * p + b)) = Ret t' /\
    merged t d p (alives (flat_map node_items ns) ++ node_items n) t'.
Proof.
  revert b t n. induction ns as [|m ns IH]; intros b t n Hpool Hd Hp Hb Hlen Hn Hl Hdn Hok Hcs Hnd Hcnt;
    cbn [merge_children length].
  { exists t. split; [done|]. constructor; auto; [done|apply agree_out_refl|]. by exists n. }
  pose proof Hpool as (Hh & _ & _ & Hc & _). simpl in Hlen.
  apply leaves_from_cons in Hcs as (Hm & Hdm & Hfm & Hcs). unfold node_at. rewrite Hm. cbn [mbind outcome_bind].
  cbn [flat_map] in Hnd, Hcnt |- *. rewrite live_app in Hcnt. pose proof (live_nonneg (flat_map node_items ns)) as Hns.
  destruct (merge_items_spec d p (node_items m) t n) as (n1 & -> & Hok1 & Hl1 & Hd1 & Hit1); auto; [|lia|].
  { rewrite <- app_assoc, (Permutation_app_comm (flat_map _ _)), app_assoc, map_app in Hnd. by apply NoDup_app in Hnd as [? _]. }
  cbn [mbind outcome_bind]. set (t1 := set_node t (idx d p) n1). set (c := idx (d + 1) (16 * p + b)) in *.
  assert (Hbr : 0 <= b < 16) by lia.
  assert (Hne : idx d p <> c).
  { intros E. apply idx_inj in E as [E _]; auto; [lia|lia|]. by apply child_range. }
  assert (Hc1 : t_root t1 !! c = Some m) by (unfold t1; rewrite root_set; by rewrite decide_False).
  rewrite Hc1. cbn [mbind outcome_bind]. set (t2 := set_node t1 c (free_data m)).
  assert (Hp2 : pool_ok t2).
  { eapply pool_set; [eapply pool_set; [done|done|congruence]|exact Hc1|done]. }
  assert (Ho2 : agree_out t t2 d p).
  { eapply agree_out_trans; [by apply agree_set_out|]. eapply agree_out_up; [by apply (sub_child d p b)|].
    apply agree_set_out; [lia|by apply child_range]. }
  replace (c + 1) with (idx (d + 1) (16 * p + (b + 1))) by (unfold c, idx; lia).
  destruct (IH (b + 1) t2 n1) as (t3 & -> & [M1 M2 M3 M4 M5]); auto; try done; try lia.
  - unfold t2. rewrite root_set, decide_False by done. unfold t1. rewrite root_set. by rewrite decide_True.
  - intros i m' Hm'. destruct (Hcs i m' Hm') as (H1 & H2 & H3). split; [|done].
    apply lookup_lt_Some in Hm'.
    unfold t2, t1. rewrite !root_set. rewrite !decide_False; [done| |]; intros E; [|unfold c, idx in E; lia].
    apply idx_inj in E as [E _]; auto; [lia|lia|]. apply child_range; auto. lia.
  - rewrite Hit1. rewrite (Permutation_app_comm (node_items m)), <- app_assoc in Hnd.
    eapply nodup_sublist; [|exact Hnd]. apply sublist_app; [done|]. apply sublist_app; [apply alives_sublist|done].
  - rewrite (live_perm _ _ Hit1), live_app. rewrite (pruned_live _ _ (pruned_alives (node_items m))). lia.
  - exists t3. split; [done|]. constructor; auto.
    + etransitivity; [|exact M1]. by constructor.
    + by eapply agree_out_trans.
    + destruct M5 as (n3 & Hn3 & Hl3 & Hd3 & Hok3 & Hit3). exists n3. split; [done|]. split; [done|]. split; [done|].
      split; [done|]. rewrite Hit3, Hit1, alives_app, !app_assoc. by rewrite (Permutation_app_comm (alives (node_items m))).
Qed.

(** ** Updating the children *)
Definition good (n : Node) : Prop := n_valid n = true /\ (n_is_node n = true -> SPLIT_LIMIT < n_count n).

Record refreshed k t d p t' : Prop := {
  rf_cfg : cfg_le t t';
  rf_height : t_height t' = t_height t;
  rf_pool : pool_ok t';
  rf_out : agree_out t t' d p;
  rf_wf : wf k t' d p;
  rf_items : pruned (items_at k t d p) (items_at k t' d p);
  rf_node : exists n, t_root t' !! idx d p = Some n /\ good n
}.

(** [up] does this below the children of [(d, p)]. *)
Definition up_ok (up : HTree C -> Z -> outcome (HTree C)) k d p h : Prop :=
  forall t b, pool_ok t -> t_height t = h -> 0 <= b < 16 -> wf k t (d + 1) (16 * p + b) ->
    Z.of_nat (length (items_at k t (d + 1) (16 * p + b))) < 2 ^ 32 ->
    exists t', up t (idx (d + 1) (16 * p + b)) = Ret t' /\ refreshed k t (d + 1) (16 * p + b) t'.

(** All of them from [b] on, their nodes being [ns] in the end. *)
Record refreshed_from k t d p b t' (ns : list Node) : Prop := {
  rc_cfg : cfg_le t t';
  rc_height : t_height t' = t_height t;
  rc_pool : pool_ok t';
  rc_out : agree_out t t' d p;
  rc_node : t_root t' !! idx d p = t_root t !! idx d p;
  rc_wf : forall b', 0 <= b' < 16 -> wf k t' (d + 1) (16 * p + b');
  rc_items : pruned (below k t d p) (below k t' d p);
  rc_before : forall b', 0 <= b' < b -> t_root t' !! idx (d + 1) (16 * p + b') = t_root t !! idx (d + 1) (16 * p + b');
  rc_good : Forall good ns;
  rc_nodes : forall i, (i < length ns)%nat -> t_root t' !! idx (d + 1) (16 * p + (b + Z.of_nat i)) = ns !! i
}.

Lemma below_length k t d p b : 0 <= b < 16 ->
  (length (items_at k t (d + 1) (16 * p + b)) <= length (below k t d p))%nat.
Proof.
  intros Hb%elem_zs16. apply elem_of_Permutation in Hb as [Os HO]. unfold below. rewrite HO. cbn [flat_map].
  rewrite length_app. lia.
Qed.

Lemma update_children_spec up k d p j b t count :
  pool_ok t -> 0 <= d -> 0 <= p < 16 ^ d -> 0 <= b -> b + Z.of_nat j = 16 -> d + 1 < t_height t ->
  (forall b', 0 <= b' < 16 -> wf k t (d + 1) (16 * p + b')) ->
  Z.of_nat (length (below k t d p)) < 2 ^ 32 -> up_ok up k d p (t_height t) -> 0 <= count < 2 ^ 32 ->
  exists t' ns, update_children up j t (idx (d + 1) (16 * p + b)) count =
      Ret (t', u32 (count + fold_right (fun m s => n_count m + s) 0 ns)) /\
    length ns = j /\ refreshed_from k t d p b t' ns.
Proof.
  revert b t count. induction j as [|j IH]; intros b t count Hpool Hd Hp Hb Hj Hlt Hw Hlen Hup Hcount;
    cbn [update_children].
  { exists t, []. simpl. rewrite Z.add_0_r, u32_id by done. split; [done|]. split; [done|].
    constructor; auto; try done; try apply agree_out_refl; try apply pruned_refl. simpl. lia. }
  assert (Hbr : 0 <= b < 16) by lia.
  destruct (Hup t b Hpool eq_refl Hbr (Hw b Hbr)) as (t1 & -> & [R1 R2 R3 R4 R5 R6 (n & Hn & Hgood)]).
  { pose proof (below_length k t d p b Hbr). lia. }
  cbn [mbind outcome_bind]. unfold node_at. rewrite Hn. cbn [mbind outcome_bind].
  destruct (below_update k t t1 d p b _ Hd Hp Hbr R1 Hw R4 R5 (reflexivity _)) as (Hw1 & Rs & E1 & E2 & _).
  assert (Hpr : pruned (below k t d p) (below k t1 d p)) by (rewrite E1, E2; by apply pruned_app).
  replace (idx (d + 1) (16 * p + b) + 1) with (idx (d + 1) (16 * p + (b + 1))) by (unfold idx; lia).
  destruct (IH (b + 1) t1 (u32 (count + n_count n))) as (t2 & ns & -> & Hl & [Q1 Q2 Q3 Q4 Q5 Q6 Q7 Q8 Q9 Q10]); auto; try lia.
  - pose proof (pruned_length _ _ Hpr). lia.
  - by rewrite R2.
  - apply u32_range.
  - exists t2, (n :: ns). split; [|split; [simpl; lia|]].
    { f_equal. f_equal. rewrite u32_add_l. f_equal. simpl. lia. }
    constructor; auto.
    + by etransitivity.
    + congruence.
    + eapply agree_out_trans; [|exact Q4]. eapply agree_out_up; [by apply (sub_child d p b)|done].
    + rewrite Q5. destruct (proj2 (proj2 (proj2 (proj2 (proj2 Hpool)))) d p ltac:(lia) Hp) as (m & Hm & _).
      rewrite Hm. apply R4; auto. apply sub_not_self.
    + by eapply pruned_trans.
    + intros b' Hb'. rewrite Q8 by lia. pose proof (child_range d p b' Hd Hp ltac:(lia)) as Hr.
      destruct (proj2 (proj2 (proj2 (proj2 (proj2 Hpool)))) (d + 1) (16 * p + b') ltac:(lia) Hr) as (m & Hm & _).
      rewrite Hm. apply R4; auto; [lia|]. intros Hs. pose proof (sub_inj _ _ _ _ _ Hs (sub_refl _ _)). lia.
    + intros [|i] Hi; simpl in Hi.
      * rewrite Z.add_0_r. rewrite Q8 by lia. done.
      * simpl. rewrite <- Q10 by lia. do 2 f_equal. lia.
Qed.

Lemma child_hashes_spec t c ns :
  (forall i, (i < length ns)%nat -> t_root t !! (c + Z.of_nat i) = ns !! i) ->
  child_hashes (length ns) t c = Ret (List.map n_hash ns).
Proof.
  revert c. induction ns as [|n ns IH]; intros c H; cbn [child_hashes length List.map]; [done|].
  pose proof (H 0%nat ltac:(simpl; lia)) as H0. rewrite Z.add_0_r in H0. unfold node_at. rewrite H0. cbn [lookup mbind outcome_bind list_lookup].
  rewrite IH; [done|]. intros i Hi. pose proof (H (S i) ltac:(simpl; lia)) as Hs.
  cbn [lookup list_lookup] in Hs. etransitivity; [|exact Hs]. f_equal. lia.
Qed.

(** ** Updating a node *)
Lemma refreshed_children k t d p t1 ns :
  length ns = 16%nat -> refreshed_from k t d p 0 t1 ns -> children t1 d p ns.
Proof.
  intros Hl []. split; [done|]. intros b Hb. specialize (rc_nodes0 (Z.to_nat b) ltac:(lia)). rewrite Z.add_0_l, Z2Nat.id in rc_nodes0 by lia.
  done.
Qed.

(** The counts of refreshed children: each the live items of its subtree. *)
Lemma refreshed_counts k t d p t1 ns :
  length ns = 16%nat -> refreshed_from k t d p 0 t1 ns ->
  u32 (fold_right (fun m s => n_count m + s) 0 ns) = u32 (live (below k t1 d p)).
Proof.
  intros Hl Hr. pose proof (refreshed_children _ _ _ _ _ _ Hl Hr) as [_ Hc]. destruct Hr. apply counts_sum.
  apply Forall2_same_length_lookup_2; [done|]. intros i b m Hb Hm. apply lookup_seqZ in Hb as [-> Hi].
  rewrite Z.add_0_l. apply valid_count.
  - apply rc_wf0. lia.
  - rewrite Hc by lia. by rewrite Nat2Z.id.
  - by apply (proj1 (Forall_lookup _ _) rc_good0 i).
Qed.

(** More than [SPLIT_LIMIT] live items: the node stays, with its cache. *)
Lemma update_keep k t d p n t1 ns :
  0 <= d -> 0 <= p < 16 ^ d -> t_root t !! idx d p = Some n -> n_depth n = d -> d + 1 < t_height t ->
  length ns = 16%nat -> refreshed_from k t d p 0 t1 ns ->
  let count := u32 (fold_right (fun m s => n_count m + s) 0 ns) in
  let n' := {| n_is_node := true; n_valid := true; n_depth := n_depth n;
       n_hash := fold_left (hash_step count) (List.map n_hash ns) 0; n_count := count; n_data := n_data n |} in
  SPLIT_LIMIT < count -> items_at (S k) t d p = below k t d p -> refreshed (S k) t d p (set_node t1 (idx d p) n').
Proof.
  intros Hd Hp Hn Hdn Hlt Hl Hr count n' Hc Hi. pose proof (refreshed_children _ _ _ _ _ _ Hl Hr) as [_ Hch].
  destruct Hr. set (t2 := set_node t1 (idx d p) n').
  assert (Hm : t_root t2 !! idx d p = Some n') by (unfold t2; rewrite root_set; by rewrite decide_True).
  assert (Hfr : forall b, 0 <= b < 16 -> wf k t2 (d + 1) (16 * p + b) /\
    items_at k t2 (d + 1) (16 * p + b) = items_at k t1 (d + 1) (16 * p + b)).
  { intros b Hb. apply wf_frame; auto; [lia|by apply child_range|apply set_node_cfg|].
    apply agree_set_in; auto. apply sub_not_self. }
  constructor.
  - etransitivity; [exact rc_cfg0|apply set_node_cfg].
  - done.
  - eapply pool_set; [done|by rewrite rc_node0|done].
  - eapply agree_out_trans; [exact rc_out0|]. by apply agree_set_out.
  - exists n'. split; [done|]. split; [done|]. split; [unfold t2; simpl; lia|]. cbn [n' n_is_node]. split; [intros b Hb; by apply Hfr|].
    intros _. exists ns. split; [|split; [|done]].
    + split; [done|]. intros b Hb. rewrite <- Hch by done. unfold t2. rewrite root_set. rewrite decide_False; [done|].
      intros E. apply idx_inj in E as [E _]; auto; [lia|lia|]. by apply child_range.
    + eapply Forall_impl; [exact rc_good0|]. by intros m [? _].
  - rewrite Hi. cbn [items_at]. rewrite Hm. cbn [n' n_is_node].
    rewrite (flat_map_ext_elem _ (fun b => items_at k t1 (d + 1) (16 * p + b))); [done|].
    intros b Hb%elem_zs16. by apply Hfr.
  - exists n'. done.
Qed.

(** At most [SPLIT_LIMIT]: the refreshed children are leaves. *)
Lemma few_leaves k t d p t1 ns :
  length ns = 16%nat -> refreshed_from k t d p 0 t1 ns -> 0 <= d -> 0 <= p < 16 ^ d ->
  live (below k t1 d p) <= SPLIT_LIMIT ->
  Forall (fun m => n_is_node m = false) ns /\ flat_map node_items ns = below k t1 d p /\
  forall i m, ns !! i = Some m -> items_at k t1 (d + 1) (16 * p + Z.of_nat i) = node_items m /\ n_depth m = d + 1.
Proof.
  intros Hl Hr Hd Hp Hlive. pose proof (refreshed_children _ _ _ _ _ _ Hl Hr) as Hch. pose proof Hch as [_ Hch']. destruct Hr.
  assert (Hall : forall i m, ns !! i = Some m -> n_is_node m = false /\
    items_at k t1 (d + 1) (16 * p + Z.of_nat i) = node_items m /\ n_depth m = d + 1).
  { intros i m Hm. pose proof (lookup_lt_Some _ _ _ Hm) as Hi.
    assert (Hn : t_root t1 !! idx (d + 1) (16 * p + Z.of_nat i) = Some m) by (rewrite Hch' by lia; by rewrite Nat2Z.id).
    pose proof (proj1 (Forall_lookup _ _) rc_good0 i m Hm) as [Hv Hg].
    pose proof (rc_wf0 (Z.of_nat i) ltac:(lia)) as Hw. pose proof (valid_count _ _ _ _ _ Hw Hn Hv) as Hcnt.
    assert (Hle : live (items_at k t1 (d + 1) (16 * p + Z.of_nat i)) <= live (below k t1 d p)).
    { assert (Hb : Z.of_nat i ∈ zs16) by (apply elem_zs16; lia). apply elem_of_Permutation in Hb as [Os HO].
      unfold below. rewrite (live_perm _ _ (flat_map_perm_list _ _ _ HO)). cbn [flat_map]. rewrite live_app.
      pose proof (live_nonneg (flat_map (fun b => items_at k t1 (d + 1) (16 * p + b)) Os)). lia. }
    pose proof (live_nonneg (items_at k t1 (d + 1) (16 * p + Z.of_nat i))).
    rewrite u32_id in Hcnt by (unfold SPLIT_LIMIT in *; change (2 ^ 32) with 4294967296; lia).
    destruct (n_is_node m) eqn:Em; [specialize (Hg eq_refl); unfold SPLIT_LIMIT in *; lia|].
    split; [done|]. destruct k as [|k]; [done|]. destruct Hw as (m' & Hm' & Hd' & _). rewrite Hm' in Hn. injection Hn as ->.
    split; [|done]. cbn [items_at]. by rewrite Hm', Em. }
  split; [apply Forall_lookup; intros i m Hm; by apply (Hall i)|]. split; [|intros i m Hm; by apply (Hall i)].
  unfold below. apply children_Forall2 in Hch. apply flat_map_Forall2.
  apply Forall2_same_length_lookup_2; [by rewrite Hl|]. intros i m b Hm Hb. apply lookup_seqZ in Hb as [-> _].
  rewrite Z.add_0_l. symmetry. by apply Hall.
Qed.

Lemma update_merge k t d p n t1 ns :
  0 <= d -> 0 <= p < 16 ^ d -> t_root t !! idx d p = Some n -> n_depth n = d -> d + 1 < t_height t ->
  length ns = 16%nat -> refreshed_from k t d p 0 t1 ns ->
  live (below k t1 d p) <= SPLIT_LIMIT -> items_at (S k) t d p = below k t d p ->
  forall n', n_depth n' = d ->
  exists t', merge_node (set_node t1 (idx d p) n') (idx d p) = Ret t' /\ refreshed (S k) t d p t'.
Proof.
  intros Hd Hp Hn Hdn Hlt Hl Hr Hlive Hi n' Hdn'. pose proof (refreshed_children _ _ _ _ _ _ Hl Hr) as [_ Hch].
  destruct (few_leaves k t d p t1 ns) as (Hlf & Hfl & Hits); auto. destruct Hr.
  pose proof rc_pool0 as (Hh1 & Htd & Hh & Hc & _).
  unfold merge_node, node_at. rewrite root_set, decide_True by done. cbn [mbind outcome_bind].
  rewrite set_node_twice. set (t3 := set_node t1 (idx d p) (clear n')).
  rewrite (get_child_ok d p (clear n')) by (auto; lia). cbn [mbind outcome_bind].
  assert (Hp3 : pool_ok t3) by (eapply pool_set; [done|by rewrite rc_node0|simpl; congruence]).
  assert (Hcon : forall b, 0 <= b < 16 -> content_ok t1 (d + 1) (16 * p + b) (items_at k t1 (d + 1) (16 * p + b))).
  { intros b Hb. apply wf_content; auto; [lia|by apply child_range]. }
  assert (Hnd : NoDup (List.map it_key (below k t1 d p))).
  { apply nodup_flat_map; [apply NoDup_seqZ|intros b Hb%elem_zs16; by apply Hcon|].
    intros b b' x y Hb%elem_zs16 Hb'%elem_zs16 Hx Hy E.
    pose proof (proj1 (Forall_forall _ _) (proj2 (Hcon b Hb)) x Hx) as Hxa.
    pose proof (proj1 (Forall_forall _ _) (proj2 (Hcon b' Hb')) y Hy) as Hya.
    apply item_at_hash in Hxa, Hya; auto. rewrite (ikh_key _ x y E) in Hxa. lia. }
  rewrite <- Hl. destruct (merge_children_spec d p ns 0 t3 (clear n')) as (t4 & -> & [M1 M2 M3 M4 M5]); auto.
  - lia.
  - lia.
  - unfold t3. rewrite root_set. by rewrite decide_True.
  - apply cleared_leaf.
  - intros i m Hm. pose proof (lookup_lt_Some _ _ _ Hm) as Hlti. destruct (Hits i m Hm) as [Him Hdm]. rewrite Z.add_0_l. split; [|split; [done|]].
    + unfold t3. rewrite root_set, decide_False; [rewrite Hch by lia; by rewrite Nat2Z.id|].
      intros E. apply idx_inj in E as [E _]; auto; [lia|lia|]. apply child_range; auto. lia.
    + rewrite <- Him. eapply Forall_impl; [exact (proj2 (Hcon (Z.of_nat i) ltac:(lia)))|]. intros x Hx.
      apply (item_at_up t1 d p (Z.of_nat i)); auto; lia.
  - rewrite Hfl. simpl. by rewrite app_nil_r.
  - rewrite Hfl. simpl. lia.
  - exists t4. split; [done|]. rewrite Hfl in M5. simpl in M5. rewrite app_nil_r in M5.
    destruct M5 as (n4 & Hn4 & Hl4 & Hd4 & Hok4 & Hit4). constructor.
    + etransitivity; [exact rc_cfg0|]. etransitivity; [apply set_node_cfg|exact M1].
    + rewrite M2. done.
    + done.
    + eapply agree_out_trans; [exact rc_out0|]. eapply agree_out_trans; [by apply agree_set_out|exact M4].
    + exists n4. rewrite Hl4. split; [done|]. split; [done|]. split; [|done]. rewrite M2. simpl. lia.
    + cbn [items_at]. rewrite Hn4, Hl4, Hit4. cbn [items_at] in Hi. rewrite Hi. eapply pruned_trans; [exact rc_items0|apply pruned_alives].
    + exists n4. split; [done|]. split; [apply Hok4|]. by rewrite Hl4.
Qed.

Lemma update_node_spec f : forall k t d p, pool_ok t -> wf k t d p -> 0 <= d -> 0 <= p < 16 ^ d ->
  t_height t - d <= Z.of_nat f -> Z.of_nat (length (items_at k t d p)) < 2 ^ 32 ->
  exists t', update_node f t (idx d p) = Ret t' /\ refreshed k t d p t'.
Proof.
  induction f as [|f IH]; intros k t d p Hpool Hw Hd Hp Hf Hlen.
  { destruct k as [|k]; [done|]. destruct Hw as (n & _ & _ & ? & _). lia. }
  destruct k as [|k]; [done|]. pose proof Hw as (n & Hn & Hdn & Hlt & Hrest).
  pose proof Hpool as (Hh1 & Htd & Hh & Hc & _).
  cbn [update_node]. unfold node_at. rewrite Hn. cbn [mbind outcome_bind].
  destruct (n_valid n) eqn:Ev.
  { exists t. split; [done|]. constructor; auto; try done; [apply agree_out_refl|apply pruned_refl|].
    exists n. split; [done|]. split; [done|]. intros En. rewrite En in Hrest.
    by destruct (proj2 Hrest eq_refl) as (_ & _ & _ & _ & ? & _). }
  destruct (n_is_node n) eqn:En; [|by destruct Hrest as [Hv _]; congruence]. destruct Hrest as [Hcs _].
  assert (Hit : items_at (S k) t d p = below k t d p) by (cbn [items_at]; by rewrite Hn, En).
  assert (Hlt1 : d + 1 < t_height t).
  { destruct k; [destruct (Hcs 0 ltac:(lia))|]. destruct (Hcs 0 ltac:(lia)) as (m & _ & _ & ? & _). lia. }
  rewrite (get_child_ok d p n) by (auto; lia). cbn [mbind outcome_bind]. rewrite Hit in Hlen.
  destruct (update_children_spec (update_node f) k d p 16 0 t 0) as (t1 & ns & -> & Hl & Hr); auto; try lia.
  { intros t2 b Hp2 Hh2 Hb Hw2 Hl2. apply IH; auto; [lia|by apply child_range|lia]. }
  rewrite Z.add_0_l. cbn [mbind outcome_bind]. pose proof (refreshed_children _ _ _ _ _ _ Hl Hr) as [_ Hch].
  rewrite <- Hl. rewrite child_hashes_spec.
  2: { intros i Hi. rewrite Hl in Hi. specialize (Hch (Z.of_nat i) ltac:(lia)). rewrite Nat2Z.id in Hch. rewrite <- Hch.
       f_equal. unfold idx. lia. }
  cbn [mbind outcome_bind n_count]. set (n' := {| n_is_node := true |}).
  destruct (Z.leb_spec (u32 (fold_right (fun m s => n_count m + s) 0 ns)) SPLIT_LIMIT) as [Hle|Hgt].
  - rewrite (refreshed_counts k t d p t1 ns) in Hle by done.
    pose proof (pruned_length _ _ (rc_items _ _ _ _ _ _ _ Hr)). pose proof (live_length (below k t1 d p)). pose proof (live_nonneg (below k t1 d p)).
    rewrite u32_id in Hle by lia. by eapply update_merge.
  - eexists. split; [done|]. by apply update_keep.
Qed.
End Update.
