(* ===== verification/HTreeSpec.v ===== *)
(** * The hash tree implements a finite map: statements

    The contract of the index: every history of operations on a new tree
    behaves as the same history on a finite map, up to deleted entries being
    forgotten when hashes are recomputed; and the hash reported for up to 256
    live entries is a function of the entries alone. *)
From Stdlib Require Import ZArith Lia List.
From stdpp Require Import base numbers list list_numbers gmap strings fin_maps.
From S2P Require Import Prelude Hash CText Codec CodecFacts HTree HTreeLeaf HTreeShape HTreeOps HTreeAdd HTreeMap HTreeUpdate.

Import Fnv FnvFacts.

(** ** The abstract contract *)
Definition zsum {A} (f : A -> Z) (l : list A) : Z := fold_right (fun x s => f x + s) 0 l.
Definition e_live (e : bytes * entry) : Z := match e with (_, (_, ver, _)) => b2z (0 <? ver) end.
Definition e_hash (e : bytes * entry) : Z := match e with (k, (_, ver, hash)) => fnv1a k * (hash * b2z (0 <? ver)) end.
(** The number of live entries of a map and the sum of their hashes. *)
Definition mlive (m : gmap bytes entry) : Z := zsum e_live (map_to_list m).
Definition mhash (m : gmap bytes entry) : Z := zsum e_hash (map_to_list m).

(** [m'] is [m] without some entries whose version is not positive. *)
Definition forgets (m m' : gmap bytes entry) : Prop :=
  m' ⊆ m /\ forall k e, m !! k = Some e -> 0 < e.1.2 -> m' !! k = Some e.

Inductive op :=
| OpAdd (key : bytes) (pos hash ver : Z)
| OpRemove (key : bytes)
| OpGet (key : bytes)
| OpHash.
Inductive res :=
| RDone
| RGet (r : option entry)
| RHash (hash count : Z).

(** One operation on the map; [own] tells the keys of the bucket. *)
Inductive mstep (own : bytes -> bool) (m : gmap bytes entry) : op -> res -> gmap bytes entry -> Prop :=
| ms_add key pos hash ver : own key = true -> mstep own m (OpAdd key pos hash ver) RDone (<[key := (pos, ver, hash)]> m)
| ms_add_other key pos hash ver : own key = false -> mstep own m (OpAdd key pos hash ver) RDone m
| ms_remove key : mstep own m (OpRemove key) RDone (delete key m)
| ms_get key : mstep own m (OpGet key) (RGet (m !! key)) m
| ms_hash h m' : forgets m m' -> (mlive m <= 256 -> h = u16 (mhash m)) -> mstep own m OpHash (RHash h (mlive m)) m'.

Inductive msteps (own : bytes -> bool) : gmap bytes entry -> list op -> list res -> gmap bytes entry -> Prop :=
| mss_nil m : msteps own m [] [] m
| mss_cons m o r m1 os rs m2 : mstep own m o r m1 -> msteps own m1 os rs m2 -> msteps own m (o :: os) (r :: rs) m2.

Lemma zsum_perm {A} (f : A -> Z) a b : a ≡ₚ b -> zsum f a = zsum f b.
Proof. induction 1; simpl; lia. Qed.

(** What replicas have in common: the value hashes of the live keys. *)
Definition live_part (m : gmap bytes entry) : gmap bytes Z :=
  omap (fun e : entry => if 0 <? e.1.2 then Some e.2 else None) m.

Lemma live_part_sums m :
  mlive m = Z.of_nat (size (live_part m)) /\
  mhash m = zsum (fun kh => fnv1a kh.1 * kh.2) (map_to_list (live_part m)).
Proof.
  unfold mlive, mhash, live_part. induction m as [|k [[p v] h] m Hm [IH1 IH2]] using map_ind.
  - rewrite omap_empty, !map_to_list_empty. done.
  - rewrite !(zsum_perm _ _ _ (map_to_list_insert m k _ Hm)). simpl. rewrite IH1, IH2. destruct (0 <? v) eqn:Ev.
    + rewrite (omap_insert_Some _ m k _ h) by (simpl; by rewrite Ev).
      assert (Hn : omap (fun e : entry => if 0 <? e.1.2 then Some e.2 else None) m !! k = None)
        by (rewrite lookup_omap, Hm; done).
      rewrite map_size_insert_None, (zsum_perm _ _ _ (map_to_list_insert _ k _ Hn)) by done. simpl. lia.
    + rewrite omap_insert_None by (simpl; by rewrite Ev). rewrite delete_id by (by rewrite lookup_omap, Hm). simpl. lia.
Qed.

(** Sums of hashes modulo 2^16. *)
Lemma fold_hash_step count l h :
  count <= SPLIT_LIMIT * 4 -> 0 <= h < 2 ^ 16 -> fold_left (hash_step count) l h = u16 (h + zsum (fun x => x) l).
Proof.
  intros Hc. revert h. induction l as [|x l IH]; intros h Hh; simpl.
  - unfold u16. by rewrite Z.add_0_r, Z.mod_small.
  - unfold hash_step at 2. rewrite (proj2 (Z.ltb_ge _ _) Hc). rewrite IH by apply u16_range. rewrite u16_add_l. f_equal. lia.
Qed.

Section Spec.
Context {C : Type} {KC : KeyCodec C} {KL : KeyCodecLaws C}.
Implicit Types t : HTree C.

(** The same operation on a tree. *)
Definition ht_step t (o : op) : outcome (HTree C * res) :=
  match o with
  | OpAdd key pos hash ver => t ← ht_add2 t key pos hash ver; Ret (t, RDone)
  | OpRemove key => t ← ht_remove2 t key; Ret (t, RDone)
  | OpGet key => '(t, r) ← ht_get2 t key; Ret (t, RGet (ival <$> r))
  | OpHash => '(t, h, c) ← ht_get_hash t [64]; Ret (t, RHash h c)
  end.
Fixpoint ht_run t (os : list op) : outcome (HTree C * list res) :=
  match os with
  | [] => Ret (t, [])
  | o :: os => '(t, r) ← ht_step t o; '(t, rs) ← ht_run t os; Ret (t, r :: rs)
  end.
Definition op_ok (o : op) : Prop :=
  match o with OpAdd key _ _ _ | OpRemove key | OpGet key => key_fits key | OpHash => True end.

(** ** Node hashes *)
Lemma hashes_sum (c : C) (g : Z -> list Item) bs (ns : list Node) :
  Forall2 (fun b m => n_hash m = u16 (hsum c (g b))) bs ns ->
  u16 (zsum (fun x => x) (List.map n_hash ns)) = u16 (hsum c (flat_map g bs)).
Proof.
  induction 1 as [|b m bs ns H _ IH]; [done|]. simpl. rewrite H, u16_add_l, hsum_app.
  unfold u16 in *. by rewrite Z.add_mod, IH, <- Z.add_mod.
Qed.

Lemma valid_hash k t d p n :
  wf k t d p -> t_root t !! idx d p = Some n -> n_valid n = true ->
  live (items_at k t d p) <= SPLIT_LIMIT * 4 -> n_hash n = u16 (hsum (t_dc t) (items_at k t d p)).
Proof.
  revert d p n. induction k as [|k IH]; intros d p n Hw Hn Hv Hlive; [done|].
  pose proof (valid_count _ _ _ _ _ Hw Hn Hv) as Hcnt.
  pose proof (live_nonneg (items_at (S k) t d p)). rewrite u32_id in Hcnt by (unfold SPLIT_LIMIT in *; change (2 ^ 32) with 4294967296; lia).
  destruct Hw as (n' & Hn' & _ & _ & Hrest). cbn [items_at] in *. rewrite Hn' in *. injection Hn as ->.
  destruct (n_is_node n); [|by destruct Hrest as (_ & _ & _ & _ & ?)].
  destruct Hrest as [Hcs Hca]. destruct (Hca Hv) as (ns & Hns & Hval & _ & _ & ->).
  rewrite fold_hash_step by (first [by rewrite Hcnt | done]). rewrite Z.add_0_l. apply hashes_sum.
  apply children_Forall2 in Hns. clear -Hcs Hns Hval IH Hlive.
  assert (Hb : Forall (fun b => 0 <= b < 16) zs16) by (apply Forall_forall; intros b; by rewrite elem_zs16).
  induction Hns as [|b m bs ns H Hns IHn]; constructor; simpl in Hlive; rewrite live_app in Hlive;
    pose proof (live_nonneg (items_at k t (d + 1) (16 * p + b)));
    pose proof (live_nonneg (flat_map (fun b => items_at k t (d + 1) (16 * p + b)) bs)).
  - apply Forall_cons in Hval as [Hv _], Hb as [Hb _]. apply IH; auto. lia.
  - apply Forall_cons in Hval as [_ Hval], Hb as [_ Hb]. apply IHn; auto. lia.
Qed.

(** ** Items and map *)
Lemma tree_entries t : tree_ok t -> map_to_list (abs t) ≡ₚ entries (t_dc t) (tree_items t).
Proof.
  intros Ht. unfold abs. apply map_to_list_to_map. eapply entries_nodup; [apply Ht|by apply tree_content].
Qed.

Lemma mlive_tree t : tree_ok t -> mlive (abs t) = live (tree_items t).
Proof.
  intros Ht. unfold mlive. rewrite (zsum_perm _ _ _ (tree_entries t Ht)).
  induction (tree_items t) as [|x l IH]; [done|]. simpl. rewrite IH. done.
Qed.

Lemma mhash_tree t : tree_ok t -> mhash (abs t) = hsum (t_dc t) (tree_items t).
Proof.
  intros Ht. unfold mhash. rewrite (zsum_perm _ _ _ (tree_entries t Ht)).
  destruct (tree_content t Ht) as [_ Hf]. assert (Hc : kc_ok (t_dc t)) by apply Ht.
  induction Hf as [|x l Hx _ IH]; [done|]. simpl. rewrite IH. f_equal. unfold HASH. f_equal.
  destruct Hx as (k & (Hk & Hl & _) & Hr & _). by rewrite (ikey_rep _ k), (ikh_rep _ k).
Qed.

Lemma tree_size t : tree_ok t -> size (abs t) = length (tree_items t).
Proof.
  intros Ht. rewrite <- length_map_to_list, (Permutation_length (tree_entries t Ht)). apply length_map.
Qed.

(** Keys outside the bucket are not in the tree. *)
Lemma abs_own t key : tree_ok t -> check_bucket t key = false -> abs t !! key = None.
Proof.
  intros Ht Hb. apply abs_lookup_none. intros it Hin E. destruct (tree_content t Ht) as [_ Hf].
  destruct (proj1 (Forall_forall _ _) Hf it Hin) as (k & (Hk & Hl & Hb') & Hr & _).
  rewrite (ikey_rep _ k) in E by (auto; apply Ht). congruence.
Qed.

Lemma check_bucket_cfg t t' key : t_depth t' = t_depth t -> t_pos t' = t_pos t -> check_bucket t' key = check_bucket t key.
Proof. unfold check_bucket. by intros -> ->. Qed.

(** ** Each operation *)
Lemma ht_add2_spec t key pos hash ver :
  tree_ok t -> key_fits key ->
  exists t', ht_add2 t key pos hash ver = Ret t' /\ tree_ok t' /\ t_depth t' = t_depth t /\ t_pos t' = t_pos t /\
    abs t' = if check_bucket t key then <[key := (pos, ver, hash)]> (abs t) else abs t.
Proof.
  intros Ht Hk. unfold ht_add2. destruct (check_bucket t key) eqn:Eb; cbn [negb]; [|by exists t].
  destruct (create_item_spec t key pos hash ver Ht Hk Eb)
    as (t1 & it & -> & Ht1 & Hit1 & Ha1 & Hd1 & Hp1 & Hi & Hik & Hkh & Hv & _). cbn [mbind outcome_bind]. unfold keyhash. rewrite <- Hkh.
  destruct (add_root_spec t1 it true) as (t2 & -> & Hc2 & Hp2 & Hw2 & Hit2); [apply Ht1|apply Ht1|done|].
  exists t2. assert (Ht2 : tree_ok t2) by done. split; [done|]. split; [done|]. destruct Hc2. split; [congruence|]. split; [congruence|].
  assert (Hcon : content_ok t1 0 0 (upsert it (tree_items t1))).
  { eapply content_perm; [exact Hit2|]. destruct (tree_content t2 Ht2) as [H1 H2]. split; [done|].
    eapply Forall_impl; [exact H2|]. intros x (k & Hk' & Hr & Hh). exists k.
    unfold key_in, check_bucket in *. by rewrite cfg_depth, cfg_pos, cfg_dc in *. }
  rewrite (abs_perm t1 t2 _ Ht1 cfg_dc Hcon Hit2). cbn [upsert]. unfold upsert, entries. cbn [List.map list_to_map foldr].
  fold (entries (t_dc t1) (without (it_key it) (tree_items t1))).
  change (foldr _ ∅ _) with (list_to_map (M := gmap bytes entry) (entries (t_dc t1) (without (it_key it) (tree_items t1)))).
  rewrite (entries_without t1 key 0 0) by (auto; apply Ht1 || by apply tree_content).
  fold (abs t1). simpl. rewrite Hik, Hv, insert_delete_eq. by rewrite Ha1.
Qed.

Lemma ht_remove2_spec t key :
  tree_ok t -> key_fits key ->
  exists t', ht_remove2 t key = Ret t' /\ tree_ok t' /\ t_depth t' = t_depth t /\ t_pos t' = t_pos t /\
    abs t' = delete key (abs t).
Proof.
  intros Ht Hk. unfold ht_remove2. destruct (check_bucket t key) eqn:Eb; cbn [negb].
  2: { exists t. do 4 (split; [done|]). by rewrite delete_id by (by apply abs_own). }
  destruct (create_item_spec t key 0 0 0 Ht Hk Eb)
    as (t1 & it & -> & Ht1 & Hit1 & Ha1 & Hd1 & Hp1 & Hi & Hik & Hkh & _). cbn [mbind outcome_bind]. unfold keyhash. rewrite <- Hkh.
  destruct (remove_item_spec t1 it Ht1 Hi) as (t2 & -> & Hc2 & Ht2 & Hit2). exists t2.
  split; [done|]. split; [done|]. destruct Hc2. split; [congruence|]. split; [congruence|].
  assert (Hcon : content_ok t1 0 0 (without (it_key it) (tree_items t1))).
  { destruct (tree_content t1 Ht1) as [H1 H2]. split; [eapply nodup_sublist; [apply sublist_filter|done]|apply Forall_forall; intros x Hx; apply list_elem_of_filter in Hx as [_ Hx]; by apply (proj1 (Forall_forall _ _) H2)]. }
  rewrite (abs_perm t1 t2 _ Ht1 cfg_dc Hcon Hit2).
  rewrite (entries_without t1 key 0 0) by (auto; apply Ht1 || by apply tree_content). by rewrite <- Ha1.
Qed.

Lemma ht_get2_spec t key :
  tree_ok t -> key_fits key ->
  exists t' r, ht_get2 t key = Ret (t', r) /\ tree_ok t' /\ t_depth t' = t_depth t /\ t_pos t' = t_pos t /\
    abs t' = abs t /\ ival <$> r = abs t !! key /\ forall it, r = Some it -> it_key it = key.
Proof.
  intros Ht Hk. unfold ht_get2. destruct (check_bucket t key) eqn:Eb; cbn [negb].
  2: { exists t, None. do 5 (split; [done|]). by rewrite abs_own. }
  destruct (create_item_spec t key 0 0 0 Ht Hk Eb)
    as (t1 & it & -> & Ht1 & Hit1 & Ha1 & Hd1 & Hp1 & Hi & Hik & Hkh & _). cbn [mbind outcome_bind]. unfold keyhash. rewrite <- Hkh.
  destruct (get_item_hash_spec t1 it Ht1 Hi) as (r & -> & Hr). cbn [mbind outcome_bind].
  eexists _, _. split; [done|]. do 4 (split; [done|]). rewrite Hik, Ha1 in Hr. rewrite Hr. destruct r as [x|]; [|done].
  split; [done|]. by intros ? [= <-].
Qed.

Lemma pruned_forgets t t' :
  tree_ok t -> tree_ok t' -> t_dc t' = t_dc t -> pruned (tree_items t) (tree_items t') -> forgets (abs t) (abs t').
Proof.
  intros Ht Ht' Hdc (D & HD & Hdead). split.
  - apply map_subseteq_spec. intros k e He. apply elem_of_map_to_list in He. rewrite tree_entries in He by done.
    apply list_elem_of_fmap in He as (x & E & Hx). injection E as -> ->. rewrite Hdc.
    apply abs_lookup; [done| |done]. rewrite HD. apply elem_of_app. by left.
  - intros k e He Hv. apply elem_of_map_to_list in He. rewrite tree_entries in He by done.
    apply list_elem_of_fmap in He as (x & E & Hx). injection E as -> ->.
    rewrite HD in Hx. apply elem_of_app in Hx as [Hx|Hx].
    + apply abs_lookup; [done|done|]. by rewrite Hdc.
    + pose proof (proj1 (Forall_forall _ _) Hdead x Hx) as Ha. unfold alive in Ha. simpl in Hv. apply Z.ltb_ge in Ha. lia.
Qed.

Lemma ht_get_hash_spec t :
  tree_ok t -> Z.of_nat (size (abs t)) < 2 ^ 32 ->
  exists t' h, ht_get_hash t [64] = Ret (t', h, mlive (abs t)) /\ tree_ok t' /\ t_depth t' = t_depth t /\ t_pos t' = t_pos t /\
    forgets (abs t) (abs t') /\ (mlive (abs t) <= 256 -> h = u16 (mhash (abs t))).
Proof.
  intros Ht Hsz. pose proof Ht as [Hpool Hw]. pose proof Hpool as (_ & Htd & Hh & _). rewrite tree_size in Hsz by done.
  destruct (update_node_spec ADD_FUEL 9 t 0 0) as (t1 & E & [R1 R2 R3 R4 R5 R6 (n & Hn & Hv & _)]);
    [done|done|done|done|change (Z.of_nat ADD_FUEL) with 10; lia|done|].
  change (idx 0 0) with 0 in *. assert (Ht1 : tree_ok t1) by done.
  assert (E2 : update_node ADD_FUEL t1 0 = Ret t1).
  { unfold ADD_FUEL. cbn [update_node]. unfold node_at. rewrite Hn. cbn [mbind outcome_bind]. by rewrite Hv. }
  exists t1, (n_hash n). cbn [ht_get_hash]. rewrite E. cbn [mbind outcome_bind get_node_hash].
  rewrite E2. unfold node_at. rewrite Hn. cbn [mbind outcome_bind].
  assert (Hl1 : live (tree_items t1) = live (tree_items t)) by by apply pruned_live.
  pose proof (live_length (tree_items t)). pose proof (live_nonneg (tree_items t)).
  pose proof (valid_count 9 t1 0 0 n R5 Hn Hv) as Hcnt. fold (tree_items t1) in Hcnt. rewrite Hl1, u32_id in Hcnt by lia.
  rewrite mlive_tree by done. rewrite Hn. cbn [mbind outcome_bind]. rewrite Hcnt. split; [done|]. split; [done|]. destruct R1. split; [done|]. split; [done|].
  split; [by apply pruned_forgets|]. intros Hle.
  rewrite (valid_hash 9 t1 0 0 n R5 Hn Hv) by (fold (tree_items t1); unfold SPLIT_LIMIT; lia).
  rewrite mhash_tree by done. f_equal. fold (tree_items t1). rewrite cfg_dc.
  destruct R6 as (D & HD & Hdead). unfold tree_items. rewrite (hsum_perm _ _ _ HD), hsum_app.
  assert (hsum (t_dc t) D = 0) as ->; [|lia]. clear -Hdead. induction Hdead as [|x l Hx _ IH]; [done|]. simpl. rewrite IH.
  unfold HASH, alive in *. rewrite Hx. simpl. lia.
Qed.

Lemma tree_new_ok depth pos tmp : 0 <= depth <= 7 -> tree_ok (ht_new (C := C) depth pos tmp) /\ abs (ht_new (C := C) depth pos tmp) = ∅.
Proof.
  intros Hd. assert (Hn : t_root (ht_new (C := C) depth pos tmp) !! 0 = Some (clear (node_zero 0))).
  { unfold ht_new. cbn [t_root]. apply lookup_insert_eq. }
  split; [split|].
  - unfold pool_ok. cbn [t_height t_depth t_dc ht_new]. split; [lia|]. split; [lia|]. split; [lia|]. split; [apply kc_new_ok|]. split.
    + intros i. unfold ht_new. cbn [t_root]. rewrite lookup_singleton_is_Some. intros <-. done.
    + intros d p Hd' Hp. assert (d = 0) as -> by lia. assert (p = 0) as -> by (change (16 ^ 0) with 1 in Hp; lia).
      change (idx 0 0) with 0. rewrite Hn. by eexists.
  - cbn [wf]. change (idx 0 0) with 0. rewrite Hn. eexists. split; [done|]. split; [done|]. split; [done|]. apply cleared_leaf.
  - unfold abs, tree_items. cbn [items_at]. change (idx 0 0) with 0. rewrite Hn. done.
Qed.

(** ** Histories *)
Lemma forgets_size m m' : forgets m m' -> (size m' <= size m)%nat.
Proof. intros [H _]. by apply map_subseteq_size. Qed.

Lemma ht_step_spec t o :
  tree_ok t -> op_ok o -> Z.of_nat (size (abs t)) < 2 ^ 32 ->
  exists t' r, ht_step t o = Ret (t', r) /\ tree_ok t' /\ t_depth t' = t_depth t /\ t_pos t' = t_pos t /\
    mstep (check_bucket t) (abs t) o r (abs t') /\ (size (abs t') <= S (size (abs t)))%nat.
Proof.
  intros Ht Ho Hsz. destruct o as [key pos hash ver|key|key|]; cbn [ht_step op_ok] in *.
  - destruct (ht_add2_spec t key pos hash ver Ht Ho) as (t1 & -> & Ht1 & Hd & Hp & Ha). exists t1, RDone.
    do 4 (split; [done|]). rewrite Ha. destruct (check_bucket t key) eqn:Eb; [|split; [by constructor|lia]].
    split; [by constructor|]. rewrite map_size_insert. destruct (abs t !! key); simpl; lia.
  - destruct (ht_remove2_spec t key Ht Ho) as (t1 & -> & Ht1 & Hd & Hp & Ha). exists t1, RDone.
    do 4 (split; [done|]). rewrite Ha. split; [constructor|]. pose proof (map_subseteq_size _ _ (delete_subseteq (abs t) key)). lia.
  - destruct (ht_get2_spec t key Ht Ho) as (t1 & r & -> & Ht1 & Hd & Hp & Ha & Hr & _). eexists t1, _.
    split; [done|]. do 3 (split; [done|]). rewrite Ha, Hr. split; [constructor|lia].
  - destruct (ht_get_hash_spec t Ht Hsz) as (t1 & h & -> & Ht1 & Hd & Hp & Hf & Hh). eexists t1, _.
    split; [done|]. do 3 (split; [done|]). split; [by constructor|]. apply forgets_size in Hf. lia.
Qed.

Lemma ht_run_spec t os :
  tree_ok t -> Forall op_ok os -> Z.of_nat (size (abs t) + length os) < 2 ^ 32 ->
  exists t' rs, ht_run t os = Ret (t', rs) /\ tree_ok t' /\ msteps (check_bucket t) (abs t) os rs (abs t').
Proof.
  revert t. induction os as [|o os IH]; intros t Ht Hos Hsz; cbn [ht_run]; simpl in Hsz.
  { exists t, []. split; [done|]. split; [done|constructor]. }
  apply Forall_cons in Hos as [Ho Hos].
  destruct (ht_step_spec t o) as (t1 & r & -> & Ht1 & Hd & Hp & Hm & Hs); auto; [lia|]. cbn [mbind outcome_bind].
  destruct (IH t1) as (t2 & rs & -> & Ht2 & Hms); auto; [lia|]. cbn [mbind outcome_bind].
  exists t2, (r :: rs). split; [done|]. split; [done|]. econstructor; [exact Hm|].
  assert (E : forall m os rs m', msteps (check_bucket t1) m os rs m' -> msteps (check_bucket t) m os rs m').
  { induction 1 as [|m o' r' m1 os' rs' m2 Hst _ IHm]; econstructor; [|exact IHm].
    destruct Hst; constructor; auto; by rewrite <- (check_bucket_cfg t t1). }
  by apply E.
Qed.

(** C4. The index is a finite map.  Any history of [ht_add2], [ht_remove2],
    [ht_get2] and [ht_get_hash] of the root on a new tree, with keys of at most
    250 bytes of text, returns normally (no fault in the block arithmetic, no
    exit, termination of every descent, split, enlargement and merge) and gives
    the answers of the same history on a finite map from keys to (position,
    version, hash): keys outside the tree's bucket are ignored, and recomputing
    hashes may forget deleted entries but no live one. *)
Theorem ht_history_refines_map depth pos tmp os :
  0 <= depth <= 7 -> Forall op_ok os -> Z.of_nat (length os) < 2 ^ 32 ->
  exists t rs m, ht_run (ht_new (C := C) depth pos tmp) os = Ret (t, rs) /\
    msteps (check_bucket (ht_new (C := C) depth pos tmp)) ∅ os rs m /\ abs t = m /\ tree_ok t.
Proof.
  intros Hd Hos Hlen. destruct (tree_new_ok depth pos tmp Hd) as [Ht Ha].
  destruct (ht_run_spec (ht_new depth pos tmp) os Ht Hos) as (t & rs & E & Ht' & Hm).
  - rewrite Ha, map_size_empty. done.
  - exists t, rs, (abs t). rewrite Ha in Hm. done.
Qed.

(** C27. Replicas agree.  Two trees with the same live keys and value hashes, at
    most 256 of them, report the same hash and count for the root, whatever the
    histories, the positions, the versions, the shapes of the trees and the
    deleted entries that made them. *)
Theorem ht_hash_canonical t1 t2 :
  tree_ok t1 -> tree_ok t2 ->
  Z.of_nat (size (abs t1)) < 2 ^ 32 -> Z.of_nat (size (abs t2)) < 2 ^ 32 ->
  live_part (abs t1) = live_part (abs t2) -> (size (live_part (abs t1)) <= 256)%nat ->
  exists t1' t2' h c, ht_get_hash t1 [64] = Ret (t1', h, c) /\ ht_get_hash t2 [64] = Ret (t2', h, c) /\
    c = Z.of_nat (size (live_part (abs t1))).
Proof.
  intros Ht1 Ht2 Hs1 Hs2 E Hle.
  destruct (live_part_sums (abs t1)) as [L1 M1]. destruct (live_part_sums (abs t2)) as [L2 M2].
  destruct (ht_get_hash_spec t1 Ht1 Hs1) as (t1' & h1 & E1 & _ & _ & _ & _ & H1).
  destruct (ht_get_hash_spec t2 Ht2 Hs2) as (t2' & h2 & E2 & _ & _ & _ & _ & H2).
  rewrite H1 in E1 by lia. rewrite H2 in E2 by (rewrite L2, <- E; lia).
  exists t1', t2', (u16 (mhash (abs t1))), (mlive (abs t1)). split; [done|]. split; [|done].
  rewrite E2. do 2 f_equal; [f_equal; f_equal|]; by rewrite ?M1, ?M2, ?L1, ?L2, E.
Qed.
End Spec.

(** ** Concrete histories *)
(** The tree that a history makes. *)
Definition tree_of (os : list op) : HTree Codec :=
  match ht_run (ht_new 0 0 false) os with Ret (t, _) => t | _ => ht_new 0 0 false end.

Lemma tree_of_ok os : Forall op_ok os -> Z.of_nat (length os) < 2 ^ 32 -> tree_ok (tree_of os).
Proof.
  intros Hos Hlen. destruct (tree_new_ok (C := Codec) 0 0 false ltac:(lia)) as [Ht Ha].
  destruct (ht_run_spec (ht_new (C := Codec) 0 0 false) os Ht Hos) as (t & rs & E & Ht' & _).
  - rewrite Ha, map_size_empty. done.
  - unfold tree_of. by rewrite E.
Qed.

#[export] Instance key_fits_dec key : Decision (key_fits key).
Proof. unfold key_fits. apply and_dec; [apply key_ok_decision|apply Z.le_dec]. Defined.
#[export] Instance op_ok_dec o : Decision (op_ok o).
Proof. destruct o; simpl; try apply key_fits_dec. apply True_dec. Defined.

Definition k1 : bytes := [107; 49].
Definition k2 : bytes := [107; 50].
Definition history1 : list op := [OpAdd k1 256 77 1; OpAdd k2 512 88 1; OpGet k1; OpHash].
Definition history2 : list op := [OpAdd k2 768 88 4; OpAdd [120] 0 5 1; OpRemove [120]; OpAdd k1 0 77 2].

Lemma ht_history_refines_map_witness :
  exists t rs m, ht_run (ht_new (C := Codec) 0 0 false) history1 = Ret (t, rs) /\
    msteps (check_bucket (ht_new (C := Codec) 0 0 false)) ∅ history1 rs m /\ abs t = m /\ tree_ok t.
Proof.
  apply (ht_history_refines_map 0 0 false history1); [lia| |done].
  by_compute.
Defined.

Lemma ht_hash_canonical_witness :
  exists t1' t2' h c, ht_get_hash (tree_of history1) [64] = Ret (t1', h, c) /\
    ht_get_hash (tree_of history2) [64] = Ret (t2', h, c) /\ c = Z.of_nat (size (live_part (abs (tree_of history1)))).
Proof.
  apply (ht_hash_canonical (tree_of history1) (tree_of history2)).
  - apply tree_of_ok; [|done]. by_compute.
  - apply tree_of_ok; [|done]. by_compute.
  - vm_compute. reflexivity.
  - vm_compute. reflexivity.
  - vm_compute. reflexivity.
  - apply Nat.leb_le. vm_compute. reflexivity.
Defined.

(** ** A listing that loses its items *)
(** 257 keys, then all but 47 of them removed. *)
Definition shrinking : list op :=
  List.map (fun i => OpAdd (107 :: print_d i) 0 7 1) (seqZ 0 257) ++
  List.map (fun i => OpRemove (107 :: print_d i)) (seqZ 0 210).

(** The lines of the listing of a bucket, and of the same listing repeated. *)
Definition lines (r : option bytes) : nat := length (List.filter (Z.eqb 10) (default [] r)).
Definition list_twice (t : HTree Codec) : outcome (nat * nat) :=
  '(t, r1) ← ht_list t [] None; '(_, r2) ← ht_list t [] None; Ret (lines r1, lines r2).

(** [list_dir] does not look again at whether the node is a leaf after
    [update_node], which may have merged its children into it.  The first
    [ht_list] of a bucket that shrank to 47 live entries is then the listing of
    the freed children, with no line; the same call repeated lists the 47. *)
Theorem ht_list_after_merge :
  mlive (abs (tree_of shrinking)) = 47 /\ list_twice (tree_of shrinking) = Ret (0%nat, 47%nat).
Proof. split; vm_compute; reflexivity. Qed.
