(* ===== verification/HTreeVisit.v ===== *)
(** * Visiting the hash tree

    [ht_visit] gives every entry to the visitor once, with its key decoded. *)
From Stdlib Require Import ZArith Lia List.
From stdpp Require Import base numbers list list_numbers gmap strings fin_maps.
From S2P Require Import Prelude Hash CText Codec CodecFacts HTree HTreeLeaf HTreeShape HTreeOps HTreeAdd HTreeMap HTreeUpdate HTreeSpec.

Import Fnv FnvFacts.

Section Visit.
Context {C : Type} {KC : KeyCodec C} {KL : KeyCodecLaws C}.
Implicit Types t : HTree C.

(** An item as the visitor sees it. *)
Definition visible (c : C) (it : Item) : Item :=
  {| it_pos := it_pos it; it_ver := it_ver it; it_hash := it_hash it; it_key := ikey c it |}.

(** The visitor applied to a list, one item after the other. *)
Fixpoint visit_list {S} (v : Item -> S -> outcome S) (l : list Item) (s : S) : outcome S :=
  match l with [] => Ret s | x :: r => s ← v x s; visit_list v r s end.

Lemma visit_list_app {S} (v : Item -> S -> outcome S) a b s :
  visit_list v (a ++ b) s = (s ← visit_list v a s; visit_list v b s).
Proof. revert s. induction a as [|x a IH]; intros s; simpl; [done|]. destruct (v x s); simpl; auto. Qed.

Lemma visit_items_spec {S} t d p (v : Item -> S -> outcome S) l s :
  kc_ok (t_dc t) -> Forall (item_at t d p) l ->
  visit_items t v l s = visit_list v (List.map (visible (t_dc t)) l) s.
Proof.
  intros Hc Hf. revert s. induction Hf as [|x l Hx _ IH]; intros s; [done|]. cbn [visit_items List.map visit_list].
  destruct Hx as (key & (Hk & Hl & _) & Hr & _). pose proof (ikey_rep _ key x Hc Hk Hl Hr) as Hik.
  rewrite (kc_rep_decode _ key) by (auto; unfold MAX_KEY_LEN, TREE_BUF_SIZE in *; lia). cbn [mbind outcome_bind].
  assert (Hz : cstr key = key) by (apply cstr_id; apply Hk). rewrite Hz.
  assert (Hu : take (Z.to_nat (u8 (blen key))) key = key).
  { apply firstn_all2. unfold u8, blen, MAX_KEY_LEN in *. rewrite Z.mod_small; [lia|]. change (2 ^ 8) with 256. lia. }
  rewrite Hu.
  replace (visible (t_dc t) x) with {| it_pos := it_pos x; it_ver := it_ver x; it_hash := it_hash x; it_key := key |}
    by (unfold visible; by rewrite Hik).
  destruct (v _ s); [|done|done]. cbn [mbind outcome_bind]. apply IH.
Qed.

Lemma visit_children_spec {S} t k d p (vis : Z -> S -> outcome S) v j b s :
  b + Z.of_nat j = 16 -> 0 <= b ->
  (forall b' s, 0 <= b' < 16 -> vis (idx (d + 1) (16 * p + b')) s =
     visit_list v (List.map (visible (t_dc t)) (items_at k t (d + 1) (16 * p + b'))) s) ->
  visit_children vis j (idx (d + 1) (16 * p + b)) s =
  visit_list v (List.map (visible (t_dc t)) (flat_map (fun b' => items_at k t (d + 1) (16 * p + b')) (seqZ b (Z.of_nat j)))) s.
Proof.
  intros Hj Hb Hvis. revert b s Hj Hb. induction j as [|j IH]; intros b s Hj Hb; cbn [visit_children]; [done|].
  rewrite seqZ_cons by lia. cbn [flat_map]. rewrite map_app, visit_list_app, Hvis by lia.
  destruct (visit_list v _ s) as [s'| |]; [|done|done]. cbn [mbind outcome_bind].
  replace (idx (d + 1) (16 * p + b) + 1) with (idx (d + 1) (16 * p + (b + 1))) by (unfold idx; lia).
  rewrite IH by lia. repeat f_equal. lia.
Qed.

Lemma visit_node_spec {S} f k t d p (v : Item -> S -> outcome S) s :
  pool_ok t -> wf k t d p -> 0 <= d -> 0 <= p < 16 ^ d -> t_height t - d <= Z.of_nat f ->
  visit_node f t (idx d p) v s = visit_list v (List.map (visible (t_dc t)) (items_at k t d p)) s.
Proof.
  intros Hpool. revert k d p s. induction f as [|f IH]; intros k d p s Hw Hd Hp Hf.
  { destruct k as [|k]; [done|]. destruct Hw as (n & _ & _ & ? & _). lia. }
  destruct k as [|k]; [done|]. destruct Hw as (n & Hn & Hdn & Hlt & Hrest).
  pose proof Hpool as (_ & Htd & Hh & Hc & _). cbn [visit_node items_at]. unfold node_at. rewrite Hn.
  cbn [mbind outcome_bind]. destruct (n_is_node n).
  2: { destruct Hrest as (_ & _ & [_ Hc2] & _). by apply (visit_items_spec t d p). }
  destruct Hrest as [Hcs _].
  assert (Hlt1 : d + 1 < t_height t).
  { destruct k; [destruct (Hcs 0 ltac:(lia))|]. destruct (Hcs 0 ltac:(lia)) as (m & _ & _ & ? & _). lia. }
  rewrite (get_child_ok d p n) by (auto; lia). cbn [mbind outcome_bind].
  rewrite (visit_children_spec t k d p _ v) by (try lia; intros b s' Hb; apply IH; auto; try lia; by apply child_range).
  done.
Qed.

(** The list that is visited. *)
Lemma ht_visit_list t :
  tree_ok t ->
  exists l, (forall S (v : Item -> S -> outcome S) s, ht_visit t v s = visit_list v l s) /\ NoDup (List.map it_key l) /\
    list_to_map (List.map (fun it => (it_key it, ival it)) l) = abs t /\
    Forall (fun it => key_fits (it_key it) /\ check_bucket t (it_key it) = true) l.
Proof.
  intros Ht. pose proof Ht as [Hpool Hw]. pose proof Hpool as (_ & Htd & Hh & Hc & _).
  exists (List.map (visible (t_dc t)) (tree_items t)). split; [|split; [|split]].
  - intros S v s. unfold ht_visit. change 0 with (idx 0 0) at 1. apply visit_node_spec; auto; [lia| |].
    + change (16 ^ 0) with 1. lia.
    + change (Z.of_nat ADD_FUEL) with 10. lia.
  - assert (Hnd : NoDup (List.map fst (entries (t_dc t) (tree_items t))))
      by exact (entries_nodup t 0 0 _ Hc (tree_content t Ht)).
    unfold entries in Hnd. rewrite map_map in *. exact Hnd.
  - unfold abs, entries. by rewrite map_map.
  - apply List.Forall_map. destruct (tree_content t Ht) as [_ Hf]. eapply Forall_impl; [exact Hf|].
    intros x (k & (Hk & Hl & Hb) & Hr & _). simpl. by rewrite (ikey_rep _ k).
Qed.

(** C37. [ht_visit] visits the map: the visitor is applied once to each entry, with
    the key as the client gave it, and to nothing else. *)
Theorem ht_visit_entries {S} t (v : Item -> S -> outcome S) s :
  tree_ok t ->
  exists l, ht_visit t v s = visit_list v l s /\ NoDup (List.map it_key l) /\
    list_to_map (List.map (fun it => (it_key it, ival it)) l) = abs t.
Proof. intros Ht. destruct (ht_visit_list t Ht) as (l & Hv & Hn & Hm & _). exists l. auto. Qed.
End Visit.

Lemma ht_visit_entries_witness :
  exists l, ht_visit (tree_of history1) (fun it s => Ret (s ++ [it_key it])) [] =
      visit_list (fun it s => Ret (s ++ [it_key it])) l [] /\ NoDup (List.map it_key l) /\
    list_to_map (List.map (fun it => (it_key it, ival it)) l) = abs (tree_of history1).
Proof.
  apply (ht_visit_entries (tree_of history1)). apply tree_of_ok; [|done].
  by_compute.
Defined.
