(* ===== verification/HTreeFile.v ===== *)
(** * The hash tree on disk (ht_save2 and ht_open of htree.c)

    The layout: the version string, the file size, the height, the node array as
    it is in memory, then for each node its items (all blocks of the chain as
    one), then the dictionary of the codec.  The node array holds the [data]
    pointers of the writing process; the reader overwrites them. *)
From Stdlib Require Import ZArith Lia List.
From stdpp Require Import base numbers list gmap strings.
From S2P Require Import Prelude Hash CText Codec HTree.

(** The string with its zero byte, [sizeof] being 9. *)
Definition HTREE_VERSION : bytes := lit "HTREE001" ++ [0].

(** An item as it lies in a block. *)
Definition item_bytes (it : Item) : bytes :=
  le_bytes 4 (it_pos it) ++ le_bytes 4 (u32 (it_ver it)) ++ le_bytes 2 (it_hash it) ++
  [blen (it_key it)] ++ it_key it.

(** A node as it lies in memory, [addr] being the value of its pointer: bit
    fields from the low end, [flag] always 0. *)
Definition node_bytes (addr : Z) (n : Node) : bytes :=
  le_bytes 2 (b2z (n_is_node n) + 2 * b2z (n_valid n) + 4 * n_depth n) ++
  le_bytes 2 (n_hash n) ++ le_bytes 4 (n_count n) ++ le_bytes 8 addr.

(** The payload of a block: [data->used - DATA_HEAD_SIZE] bytes after the head. *)
Definition payload_bytes (d : Data) : outcome bytes :=
  let b := flat_map item_bytes (d_items d) in
  if blen b <? d_used d - DATA_HEAD_SIZE then Fault
  else Ret (take (Z.to_nat (d_used d - DATA_HEAD_SIZE)) b).

Fixpoint chain_bytes (c : list Data) : outcome bytes :=
  match c with
  | [] => Ret []
  | d :: r =>
      match d_items d with
      | [] => chain_bytes r
      | _ :: _ => b ← payload_bytes d; b' ← chain_bytes r; Ret (b ++ b')
      end
  end.

(** One node's entry in the data section of the file. *)
Definition save_data (n : Node) : outcome bytes :=
  match n_data n with
  | [] => Ret (le_bytes 4 0)
  | c =>
      let count := fold_left (fun s d => s + Z.of_nat (length (d_items d))) c 0 in
      let used := fold_left (fun s d => s + (d_used d - DATA_HEAD_SIZE)) c DATA_HEAD_SIZE - 8 in
      b ← chain_bytes c;
      Ret (le_bytes 4 (u32 used) ++
           (le_bytes 4 0 ++ le_bytes 4 (u32 used) ++ le_bytes 4 (u32 count)) ++ b)
  end.

(** A reader of the file: [fread(ptr, n, 1, f) == 1] needs [n > 0]. *)
Definition fread (n : Z) (f : bytes) : option (bytes * bytes) :=
  if (n <=? 0) || (blen f <? n) then None
  else Some (take (Z.to_nat n) f, drop (Z.to_nat n) f).

Definition read_item (b : bytes) : outcome (Item * bytes) :=
  if blen b <? 11 then Fault else
  match drop 10 b with
  | [] => Fault
  | ksz :: r =>
      if blen r <? ksz then Fault
      else Ret ({| it_pos := le_val (take 4 b); it_ver := s32 (le_val (take 4 (drop 4 b)));
                   it_hash := le_val (take 2 (drop 8 b)); it_key := take (Z.to_nat ksz) r |},
                drop (Z.to_nat ksz) r)
  end.
Fixpoint read_items (k : nat) (b : bytes) : outcome (list Item) :=
  match k with
  | O => Ret []
  | S k' => '(it, r) ← read_item b; l ← read_items k' r; Ret (it :: l)
  end.

(** A node read back; its pointer is not used. *)
Definition read_node (b : bytes) (data : list Data) : Node :=
  let bits := le_val (take 2 b) in
  {| n_is_node := Z.testbit bits 0; n_valid := Z.testbit bits 1;
     n_depth := Z.land (Z.shiftr bits 2) 15;
     n_hash := le_val (take 2 (drop 2 b)); n_count := le_val (take 4 (drop 4 b)); n_data := data |}.

(** The entry of one node: [None] is the failure exit. *)
Definition read_data (f : bytes) : outcome (option (list Data * bytes)) :=
  match fread 4 f with
  | None => Ret None
  | Some (s, f) =>
      let size := s32 (le_val s) in
      if 0 <? size then
        match fread size f with
        | None => Ret None
        | Some (b, f) =>
            if blen b <? 12 then Fault
            else if negb (s32 (le_val (take 4 (drop 4 b))) =? size) then Ret None
            else
              l ← read_items (Z.to_nat (s32 (le_val (take 4 (drop 8 b))))) (drop 12 b);
              Ret (Some ([{| d_size := size + 8; d_used := size + 8; d_items := l |}], f))
        end
      else if size =? 0 then Ret (Some ([], f))
      else Ret None
  end.

Fixpoint read_pool (k : nat) (i : Z) (nodes : bytes) (f : bytes) (r : gmap Z Node)
  : outcome (option (gmap Z Node * bytes)) :=
  match k with
  | O => Ret (Some (r, f))
  | S k' =>
      d ← read_data f;
      match d with
      | None => Ret None
      | Some (d, f) =>
          if blen nodes <? 16 then Fault
          else read_pool k' (i + 1) (drop 16 nodes) f (<[i := read_node (take 16 nodes) d]> r)
      end
  end.

Section File.
Context {C : Type} {KC : KeyCodec C}.

(** The bytes of the node array and of the data section, nodes [i], [i+1], ... *)
Fixpoint save_nodes (k : nat) (addr : Z -> Z) (t : HTree C) (i : Z) : outcome bytes :=
  match k with
  | O => Ret []
  | S k' => n ← node_at t i; b ← save_nodes k' addr t (i + 1); Ret (node_bytes (addr i) n ++ b)
  end.
Fixpoint save_datas (k : nat) (t : HTree C) (i : Z) : outcome bytes :=
  match k with
  | O => Ret []
  | S k' => n ← node_at t i; d ← save_data n; b ← save_datas k' t (i + 1); Ret (d ++ b)
  end.

(** [ht_save2]: the contents of the file, [None] when it returns -1. *)
Definition ht_save2 (addr : Z -> Z) (t : HTree C) : outcome (option bytes) :=
  pool_size ← fetch g_index (t_height t);
  nodes ← save_nodes (Z.to_nat pool_size) addr t 0;
  datas ← save_datas (Z.to_nat pool_size) t 0;
  s ← kc_size (t_dc t);
  d ← kc_dump (t_dc t) s;
  match d with
  | None => Ret None
  | Some d =>
      if negb (blen d =? s) then Ret None
      else
        let body := le_bytes 4 (u32 (t_height t)) ++ nodes ++ datas ++ le_bytes 4 (u32 s) ++ d in
        Ret (Some (HTREE_VERSION ++ le_bytes 8 (u64 (9 + 8 + blen body)) ++ body))
  end.

(** The part of [ht_open] after the node array. *)
Definition open_codec (f : bytes) : outcome (option C) :=
  match fread 4 f with
  | None => Ret None
  | Some (s, f) =>
      let size := s32 (le_val s) in
      if (size <? 0) || (10 * 2 ^ 20 <? size) then Ret None
      else
        match fread size f with
        | None => Ret None
        | Some (b, _) => kc_load kc_new b size
        end
  end.

(** [ht_open(depth, pos, path)] on the contents of the file. *)
Definition ht_open (depth pos : Z) (file : bytes) : outcome (option (HTree C)) :=
  match fread 9 file with
  | None => Ret None
  | Some (v, f) =>
      if negb (bool_decide (v = HTREE_VERSION)) then Ret None else
      match fread 8 f with
      | None => Ret None
      | Some (fs, f) =>
          if negb (s64 (le_val fs) =? blen file) then Ret None else
          match fread 4 f with
          | None => Ret None
          | Some (h, f) =>
              let height := s32 (le_val h) in
              if (height + depth <? 0) || (9 <? height + depth) then Ret None else
              pool_size ← fetch g_index height;
              match fread (s32 (16 * pool_size)) f with
              | None => Ret None
              | Some (nodes, f) =>
                  p ← read_pool (Z.to_nat pool_size) 0 nodes f ∅;
                  match p with
                  | None => Ret None
                  | Some (r, f) =>
                      c ← open_codec f;
                      match c with
                      | None => Ret None
                      | Some c =>
                          Ret (Some {| t_depth := depth; t_pos := pos; t_height := height;
                                       t_block_size := DATA_BLOCK_SIZE; t_root := r; t_dc := c |})
                      end
                  end
              end
          end
      end
  end.
End File.
