(* ===== verification/HTreeFileFacts.v ===== *)
(** * The saved tree is the tree

    [ht_open] of what [ht_save2] wrote: the same node array up to the shape of
    the chains, the same map. *)
From Stdlib Require Import ZArith Lia List.
From stdpp Require Import base numbers list list_numbers gmap strings fin_maps.
From S2P Require Import Prelude Hash CText Codec CodecFacts HTree HTreeLeaf HTreeShape HTreeOps HTreeAdd HTreeMap HTreeUpdate HTreeSpec HTreeFile.

Import Fnv FnvFacts.

(** ** Bytes *)

Lemma fread_app n a b : blen a = n -> 0 < n -> fread n (a ++ b) = Some (a, b).
Proof.
  intros Ha Hn. unfold fread. rewrite blen_app. pose proof (blen_nonneg b). unfold blen in *.
  destruct (Z.leb_spec n 0); [lia|]. destruct (Z.ltb_spec (Z.of_nat (length a) + Z.of_nat (length b)) n); [lia|].
  cbn [orb]. by rewrite take_app_n, drop_app_n by lia.
Qed.

(** ** Items *)
(** The fields of an item have the widths of [struct t_item]. *)
Definition item_fits (it : Item) : Prop :=
  0 <= it_pos it < 2 ^ 32 /\ - 2 ^ 31 <= it_ver it < 2 ^ 31 /\ 0 <= it_hash it < 2 ^ 16 /\ blen (it_key it) < 256.
#[export] Instance item_fits_dec it : Decision (item_fits it).
Proof. unfold item_fits. apply _. Defined.

Lemma blen_item it : blen (item_bytes it) = ITEM_LENGTH it.
Proof. unfold item_bytes, ITEM_LENGTH. rewrite !blen_app, !blen_le. unfold blen. simpl. lia. Qed.

Lemma blen_items l : blen (flat_map item_bytes l) = items_len l.
Proof. induction l as [|x l IH]; [done|]. cbn [flat_map items_len fold_right]. rewrite blen_app, blen_item, IH. done. Qed.

Lemma read_item_bytes it rest : item_fits it -> read_item (item_bytes it ++ rest) = Ret (it, rest).
Proof.
  intros (Hp & Hv & Hh & Hk). unfold read_item, item_bytes. rewrite <- !app_assoc.
  rewrite !blen_app, !blen_le. pose proof (blen_nonneg (it_key it)). pose proof (blen_nonneg rest).
  change (blen [blen (it_key it)]) with 1. destruct (Z.ltb_spec (Z.of_nat 4 + (Z.of_nat 4 + (Z.of_nat 2 + (1 + (blen (it_key it) + blen rest))))) 11); [lia|].
  change (drop 10 (le_bytes 4 (it_pos it) ++ le_bytes 4 (u32 (it_ver it)) ++ le_bytes 2 (it_hash it) ++ [blen (it_key it)] ++ it_key it ++ rest))
    with (blen (it_key it) :: it_key it ++ rest).
  cbv beta iota. rewrite blen_app. destruct (Z.ltb_spec (blen (it_key it) + blen rest) (blen (it_key it))); [lia|].
  change (take 4 (le_bytes 4 (it_pos it) ++ _)) with (le_bytes 4 (it_pos it)).
  change (take 4 (drop 4 (le_bytes 4 (it_pos it) ++ le_bytes 4 (u32 (it_ver it)) ++ _))) with (le_bytes 4 (u32 (it_ver it))).
  change (take 2 (drop 8 (le_bytes 4 (it_pos it) ++ le_bytes 4 (u32 (it_ver it)) ++ le_bytes 2 (it_hash it) ++ _))) with (le_bytes 2 (it_hash it)).
  rewrite !le_val_le_bytes_id by (done || apply u32_range). rewrite s32_u32, s32_id by done.
  unfold blen. rewrite Nat2Z.id, take_app_n, drop_app_n by done. by destruct it.
Qed.

Lemma read_items_bytes l rest : Forall item_fits l -> read_items (length l) (flat_map item_bytes l ++ rest) = Ret l.
Proof.
  intros H. revert rest. induction H as [|x l Hx _ IH]; intros rest; [done|]. cbn [flat_map length read_items].
  rewrite <- app_assoc, read_item_bytes by done. cbn [mbind outcome_bind]. by rewrite IH.
Qed.

(** ** Nodes *)
(** A node as [struct t_node] can hold it, with a chain whose total fits an [int]. *)
Definition node_fits (n : Node) : Prop :=
  0 <= n_depth n < 16 /\ 0 <= n_hash n < 2 ^ 16 /\ 0 <= n_count n < 2 ^ 32 /\
  Forall block_ok (n_data n) /\ Forall item_fits (node_items n) /\ items_len (node_items n) < 2 ^ 31 - 12.
#[export] Instance block_ok_dec d : Decision (block_ok d).
Proof. unfold block_ok. apply _. Defined.
#[export] Instance node_fits_dec n : Decision (node_fits n).
Proof. unfold node_fits. apply _. Defined.

(** What [ht_open] makes of it: the chain in one block. *)
Definition reloaded (n : Node) : Node :=
  {| n_is_node := n_is_node n; n_valid := n_valid n; n_depth := n_depth n; n_hash := n_hash n; n_count := n_count n;
     n_data := match n_data n with
               | [] => []
               | _ => let s := DATA_HEAD_SIZE + items_len (node_items n) in
                      [{| d_size := s; d_used := s; d_items := node_items n |}]
               end |}.

Lemma reloaded_items n : node_items (reloaded n) = node_items n.
Proof. unfold reloaded, node_items. simpl. destruct (n_data n); simpl; [done|]. by rewrite app_nil_r. Qed.

Lemma blen_node a n : blen (node_bytes a n) = 16.
Proof. unfold node_bytes. by rewrite !blen_app, !blen_le. Qed.

Lemma bits_of_node (i v : bool) d : 0 <= d < 16 ->
  let bits := b2z i + 2 * b2z v + 4 * d in
  0 <= bits < 2 ^ 16 /\ Z.testbit bits 0 = i /\ Z.testbit bits 1 = v /\ Z.land (Z.shiftr bits 2) 15 = d.
Proof.
  intros Hd bits. assert (Hr : 0 <= bits < 2 ^ 16) by (unfold bits; change (2 ^ 16) with 65536; destruct i, v; simpl; lia).
  split; [done|]. change 15 with (Z.ones 4). rewrite Z.land_ones, Z.shiftr_div_pow2 by lia.
  rewrite Z.testbit_odd, Z.shiftr_0_r. rewrite Z.testbit_odd, Z.shiftr_div_pow2 by lia. change (2 ^ 2) with 4. change (2 ^ 1) with 2. change (2 ^ 4) with 16.
  replace (bits / 4) with d by (unfold bits; destruct i, v; simpl b2z; Z.div_mod_to_equations; lia).
  replace (bits / 2) with (b2z v + 2 * d) by (unfold bits; destruct i, v; simpl b2z; Z.div_mod_to_equations; lia).
  rewrite Z.mod_small by lia.
  replace bits with (b2z i + 2 * (b2z v + 2 * d)) by (unfold bits; lia). rewrite !Z.odd_add_mul_2.
  by destruct i, v.
Qed.

Lemma read_node_bytes a n data :
  node_fits n -> read_node (node_bytes a n) data =
    {| n_is_node := n_is_node n; n_valid := n_valid n; n_depth := n_depth n; n_hash := n_hash n; n_count := n_count n; n_data := data |}.
Proof.
  intros (Hd & Hh & Hc & _). unfold read_node, node_bytes.
  destruct (bits_of_node (n_is_node n) (n_valid n) (n_depth n) Hd) as (Hr & H0 & H1 & H2).
  set (bits := _ + 4 * n_depth n) in *.
  change (take 2 (le_bytes 2 bits ++ _)) with (le_bytes 2 bits).
  change (take 2 (drop 2 (le_bytes 2 bits ++ le_bytes 2 (n_hash n) ++ _))) with (le_bytes 2 (n_hash n)).
  change (take 4 (drop 4 (le_bytes 2 bits ++ le_bytes 2 (n_hash n) ++ le_bytes 4 (n_count n) ++ _))) with (le_bytes 4 (n_count n)).
  rewrite !le_val_le_bytes_id by done. by rewrite H0, H1, H2.
Qed.

(** ** One node's data *)
Lemma chain_bytes_spec c : Forall block_ok c -> chain_bytes c = Ret (flat_map item_bytes (flat_map d_items c)).
Proof.
  induction 1 as [|d c [Hu _] _ IH]; [done|]. cbn [chain_bytes flat_map].
  rewrite flat_map_app. destruct (d_items d) as [|x l] eqn:E; [exact IH|]. rewrite <- E in *.
  unfold payload_bytes. rewrite blen_items, Hu. replace (DATA_HEAD_SIZE + items_len (d_items d) - DATA_HEAD_SIZE) with (items_len (d_items d)) by lia.
  rewrite Z.ltb_irrefl. cbn [mbind outcome_bind]. rewrite IH. cbn [mbind outcome_bind]. f_equal. f_equal.
  apply firstn_all2. pose proof (blen_items (d_items d)). unfold blen in *. lia.
Qed.

Lemma chain_totals c u s :
  Forall block_ok c ->
  fold_left (fun s d => s + (d_used d - DATA_HEAD_SIZE)) c u = u + items_len (flat_map d_items c) /\
  fold_left (fun s d => s + Z.of_nat (length (d_items d))) c s = s + Z.of_nat (length (flat_map d_items c)).
Proof.
  intros H. revert u s. induction H as [|d c [Hu _] _ IH]; intros u s; [simpl; lia|]. cbn [fold_left flat_map].
  destruct (IH (u + (d_used d - DATA_HEAD_SIZE)) (s + Z.of_nat (length (d_items d)))) as [-> ->].
  rewrite items_len_app, length_app, Hu. lia.
Qed.

Lemma items_len_ge l : Z.of_nat (length l) <= items_len l.
Proof. induction l as [|x l IH]; [done|]. cbn [items_len fold_right length]. fold (items_len l). pose proof (item_length_pos x). lia. Qed.

Lemma save_read_data n rest :
  node_fits n -> exists b, save_data n = Ret b /\ blen b <= 2 ^ 32 /\ read_data (b ++ rest) = Ret (Some (n_data (reloaded n), rest)).
Proof.
  intros (_ & _ & _ & Hb & Hi & Hl). unfold save_data, reloaded, node_items in *. cbn [n_data].
  destruct (n_data n) as [|d0 c0]; [eexists; split; [done|]; split; [done|]; unfold read_data; rewrite fread_app; done|]. cbv beta iota. set (c := d0 :: c0) in *.
  destruct (chain_totals c DATA_HEAD_SIZE 0 Hb) as [-> ->]. rewrite chain_bytes_spec by done. cbn [mbind outcome_bind].
  set (l := flat_map d_items c) in *. rewrite Z.add_0_l. unfold DATA_HEAD_SIZE.
  replace (20 + items_len l - 8) with (12 + items_len l) by lia. pose proof (items_len_ge l) as Hge.
  change (2 ^ 31) with 2147483648 in *. rewrite (u32_id (12 + items_len l)) by (change (2 ^ 32) with 4294967296; lia).
  rewrite (u32_id (Z.of_nat (length l))) by (change (2 ^ 32) with 4294967296; lia).
  set (U := 12 + items_len l). eexists. split; [done|]. split; [rewrite !blen_app, !blen_le, blen_items; change (2 ^ 32) with 4294967296; lia|]. unfold read_data. rewrite <- app_assoc.
  assert (HU : s32 U = U) by (apply s32_id; change (2 ^ 31) with 2147483648; unfold U; lia).
  assert (HUv : le_val (le_bytes 4 U) = U) by (apply le_val_le_bytes_id; change (256 ^ Z.of_nat 4) with 4294967296; unfold U; lia).
  rewrite fread_app by (done || lia). rewrite HUv, HU. rewrite (proj2 (Z.ltb_lt 0 U)) by (unfold U; lia).
  set (B := flat_map item_bytes l). set (hd := le_bytes 4 0 ++ le_bytes 4 U ++ le_bytes 4 (Z.of_nat (length l))).
  assert (HB : blen (hd ++ B) = U) by (unfold hd; rewrite !blen_app, !blen_le; unfold B; rewrite blen_items; unfold U; lia).
  rewrite fread_app by (done || unfold U; lia). rewrite HB. rewrite (proj2 (Z.ltb_ge U 12)) by (unfold U; lia).
  change (take 4 (drop 4 (hd ++ B))) with (le_bytes 4 U). rewrite HUv, HU, Z.eqb_refl. cbn [negb].
  change (take 4 (drop 8 (hd ++ B))) with (le_bytes 4 (Z.of_nat (length l))). change (drop 12 (hd ++ B)) with B.
  rewrite le_val_le_bytes_id by (change (256 ^ Z.of_nat 4) with 4294967296; lia).
  rewrite s32_id by (change (2 ^ 31) with 2147483648; lia). rewrite Nat2Z.id. rewrite <- (app_nil_r B). unfold B.
  rewrite read_items_bytes by done. cbn [mbind outcome_bind]. unfold U.
  replace (12 + items_len l + 8) with (20 + items_len l) by lia. done.
Qed.

Section File.
Context {C : Type} {KC : KeyCodec C} {KL : KeyCodecLaws C}.
Implicit Types t : HTree C.

Lemma save_read_pool k addr t i :
  (forall j, i <= j < i + Z.of_nat k -> exists n, t_root t !! j = Some n /\ node_fits n) ->
  exists nb db, save_nodes k addr t i = Ret nb /\ save_datas k t i = Ret db /\ blen nb = 16 * Z.of_nat k /\ blen db <= 2 ^ 32 * Z.of_nat k /\
    forall f r, exists r', read_pool k i nb (db ++ f) r = Ret (Some (r', f)) /\
      forall j, r' !! j = if decide (i <= j < i + Z.of_nat k) then reloaded <$> t_root t !! j else r !! j.
Proof.
  revert i. induction k as [|k IH]; intros i Hall; cbn [save_nodes save_datas read_pool].
  { exists [], []. do 4 (split; [done|]). intros f r. exists r. split; [done|]. intros j. by rewrite decide_False by lia. }
  destruct (Hall i ltac:(lia)) as (n & Hn & Hfit). destruct (IH (i + 1)) as (nb & db & E1 & E2 & Hl & Hld & Hread).
  { intros j Hj. apply Hall. lia. }
  unfold node_at. rewrite Hn. cbn [mbind outcome_bind]. rewrite E1, E2. cbn [mbind outcome_bind].
  destruct (save_read_data n [] Hfit) as (b & Hb & Hbl & _). rewrite Hb. cbn [mbind outcome_bind].
  eexists _, _. split; [done|]. split; [done|]. split; [rewrite blen_app, blen_node; lia|]. split; [rewrite blen_app; lia|]. intros f r.
  rewrite <- app_assoc. destruct (save_read_data n (db ++ f) Hfit) as (b' & Hb' & _ & Hrd). rewrite Hb in Hb'. injection Hb' as <-. rewrite Hrd.
  cbn [mbind outcome_bind]. rewrite blen_app, blen_node. rewrite (proj2 (Z.ltb_ge _ 16)) by (unfold blen; lia).
  pose proof (blen_node (addr i) n) as Hln. rewrite take_app_n, drop_app_n by (unfold blen in Hln; lia).
  rewrite read_node_bytes by done. destruct (Hread f (<[i := reloaded n]> r)) as (r' & Hr' & Hlk).
  exists r'. split; [exact Hr'|]. intros j. rewrite Hlk, lookup_insert. destruct (decide (i = j)) as [<-|].
  - rewrite decide_False by lia. rewrite decide_True by lia. by rewrite Hn.
  - destruct (decide (i + 1 <= j < _)); [by rewrite decide_True by lia|by rewrite decide_False by lia].
Qed.

(** ** The reloaded tree *)
Record reloads t t' : Prop := {
  rl_depth : t_depth t' = t_depth t;
  rl_pos : t_pos t' = t_pos t;
  rl_height : t_height t' = t_height t;
  rl_root : forall i, t_root t' !! i = reloaded <$> t_root t !! i;
  rl_ok : kc_ok (t_dc t');
  rl_rep : forall k e, kc_rep (t_dc t) k e -> kc_rep (t_dc t') k e
}.

Section Reload.
Context t t' (Hrl : reloads t t') (Hc : kc_ok (t_dc t)).

Lemma reload_item d p it : item_at t d p it ->
  item_at t' d p it /\ ikey (t_dc t') it = ikey (t_dc t) it /\ ikh (t_dc t') it = ikh (t_dc t) it.
Proof.
  destruct Hrl. intros (k & (Hk & Hl & Hb) & Hr & Hh).
  rewrite !(ikey_rep _ k), !(ikh_rep _ k) by auto. split; [|done]. exists k. unfold key_in, check_bucket in *.
  rewrite rl_depth0, rl_pos0. auto.
Qed.

Lemma reload_hsum d p l : Forall (item_at t d p) l -> hsum (t_dc t') l = hsum (t_dc t) l.
Proof. induction 1 as [|x l Hx _ IH]; [done|]. simpl. rewrite IH. by destruct (reload_item d p x) as (_ & _ & ->). Qed.

Lemma reload_leaf d p n : leaf_ok t d p n -> leaf_ok t' d p (reloaded n).
Proof.
  intros (H1 & [H2 H3] & [H4 H5] & H6 & H7). split; [done|]. rewrite reloaded_items. split; [|split; [|split; [done|]]].
  - unfold reloaded. simpl. destruct (n_data n); [done|]. split; [done|]. apply Forall_cons_2; [|constructor].
    split; simpl; lia.
  - split; [done|]. eapply Forall_impl; [exact H5|]. intros x Hx. by apply reload_item.
  - by rewrite (reload_hsum d p).
Qed.

Lemma reload_cached d p n : cached t d p n -> cached t' d p (reloaded n).
Proof.
  intros (ns & [Hl Hns] & Hv & Hcnt & Hlt & Hh). exists (List.map reloaded ns). split; [|split; [|split; [|split]]].
  - split; [by rewrite length_map|]. intros b Hb. rewrite (rl_root _ _ Hrl), Hns by done.
    symmetry. exact (list_lookup_fmap reloaded ns (Z.to_nat b)).
  - apply List.Forall_map. exact Hv.
  - cbn [reloaded n_count]. rewrite Hcnt. f_equal. clear. induction ns as [|m ns IH]; [done|]. simpl. by rewrite IH.
  - done.
  - cbn [reloaded n_count n_hash]. rewrite Hh, map_map. done.
Qed.

Lemma reload_wf k d p : wf k t d p -> wf k t' d p /\ items_at k t' d p = items_at k t d p.
Proof.
  revert d p. induction k as [|k IH]; intros d p Hw; [done|]. destruct Hw as (n & Hn & Hdn & Hlt & Hrest).
  pose proof (rl_root _ _ Hrl (idx d p)) as Hn'. rewrite Hn in Hn'. simpl in Hn'. cbn [wf items_at]. rewrite Hn, Hn'.
  destruct (n_is_node n) eqn:En.
  - destruct Hrest as [Hcs Hca]. split.
    + exists (reloaded n). cbn [reloaded n_is_node]. rewrite En. split; [done|]. split; [done|].
      split; [by rewrite (rl_height _ _ Hrl)|]. split; [intros b Hb; by apply IH, Hcs|]. intros Hv. by apply reload_cached, Hca.
    + cbn [reloaded n_is_node]. rewrite En. apply flat_map_ext_elem. intros b Hb%elem_zs16. by apply IH, Hcs.
  - split; [|cbn [reloaded n_is_node]; rewrite En; apply reloaded_items].
    exists (reloaded n). cbn [reloaded n_is_node]. rewrite En. split; [done|]. split; [done|].
    split; [by rewrite (rl_height _ _ Hrl)|]. by apply reload_leaf.
Qed.

Lemma reload_tree : tree_ok t -> tree_ok t' /\ abs t' = abs t.
Proof.
  intros Ht. pose proof Ht as [Hp Hw]. destruct (reload_wf 9 0 0 Hw) as [Hw' Hi]. split; [split; [|done]|].
  - destruct Hp as (H1 & H2 & H3 & _ & H5 & H6). destruct Hrl. unfold pool_ok. rewrite rl_depth0, rl_height0.
    do 3 (split; [done|]). split; [done|]. split.
    + intros i. rewrite rl_root0, fmap_is_Some. apply H5.
    + intros d p Hd Hp. destruct (H6 d p Hd Hp) as (n & Hn & Hdn). exists (reloaded n). by rewrite rl_root0, Hn.
  - unfold abs, tree_items. rewrite Hi. f_equal. apply map_ext_in. intros x Hx%list_elem_of_In.
    destruct (tree_content t Ht) as [_ Hf].
    by destruct (reload_item 0 0 x) as (_ & -> & _); [by apply (proj1 (Forall_forall _ _) Hf)|].
Qed.
End Reload.

Lemma save_open addr t :
  tree_ok t -> t_height t <= 7 -> (forall i n, t_root t !! i = Some n -> node_fits n) ->
  exists f t', ht_save2 addr t = Ret (Some f) /\ ht_open (t_depth t) (t_pos t) f = Ret (Some t') /\ reloads t t'.
Proof.
  intros Ht Hh7 Hfit. pose proof Ht as [Hpool _]. pose proof Hpool as (Hh1 & Htd & Hh & Hc & Hmax & Hall).
  pose proof (gi_mono (t_height t) 7 ltac:(lia) Hh7) as Hg7. change (gi 7) with 17895697 in Hg7.
  pose proof (gi_mono 1 (t_height t) ltac:(lia) Hh1) as Hg1. change (gi 1) with 1 in Hg1. set (g := gi (t_height t)) in *.
  assert (Hnodes : forall j, 0 <= j < 0 + Z.of_nat (Z.to_nat g) -> exists n, t_root t !! j = Some n /\ node_fits n).
  { intros j Hj. destruct (all_indices (t_height t) j) as (d & p & Hd & Hp & ->); [lia|unfold g in *; lia|].
    destruct (Hall d p Hd Hp) as (n & Hn & _). eauto. }
  destruct (save_read_pool (Z.to_nat g) addr t 0 Hnodes) as (nb & db & E1 & E2 & Hlnb & Hldb & Hread).
  destruct (kc_size_bound (t_dc t) Hc) as (s & Hs & Hsr).
  destruct (kc_dump_load (t_dc t) [] Hc) as (s' & b & c' & Hs' & Hd & Hlb & Hload & Hc' & Hrep). rewrite Hs in Hs'. injection Hs' as <-.
  assert (E : exists body, ht_save2 addr t = Ret (Some (HTREE_VERSION ++ le_bytes 8 (u64 (9 + 8 + blen body)) ++ body)) /\
    body = le_bytes 4 (u32 (t_height t)) ++ nb ++ db ++ le_bytes 4 (u32 s) ++ b).
  { eexists. split; [|reflexivity]. unfold ht_save2. rewrite g_index_at by lia. fold g. cbn [mbind outcome_bind]. rewrite E1. cbn [mbind outcome_bind].
    rewrite E2. cbn [mbind outcome_bind]. rewrite Hs. cbn [mbind outcome_bind]. rewrite Hd. cbn [mbind outcome_bind].
    by rewrite Hlb, Z.eqb_refl. }
  destruct E as (body & E & Hbody). set (f := HTREE_VERSION ++ _) in *.
  assert (Hf : blen f = 17 + blen body) by (unfold f; rewrite !blen_app, blen_le; change (blen HTREE_VERSION) with 9; lia).
  assert (Hlen : blen f < 2 ^ 63) by (rewrite Hf, Hbody, !blen_app, !blen_le; change (2 ^ 63) with 9223372036854775808; change (2 ^ 32) with 4294967296 in Hldb; change (10 * 2 ^ 20) with 10485760 in Hsr; lia).
  exists f. destruct (Hread (le_bytes 4 (u32 s) ++ b) ∅) as (r & Hr & Hlk).
  eexists. split; [done|].
  split.
  - unfold ht_open. unfold f at 1. rewrite fread_app by done. rewrite bool_decide_true by done. cbn [negb].
    rewrite fread_app by (rewrite ?blen_le; done || lia). rewrite le_val_le_bytes_id by mod_lia.
    rewrite s64_u64_id by (pose proof (blen_nonneg body); lia). rewrite Hf.
    rewrite (proj2 (Z.eqb_eq (9 + 8 + blen body) _)) by lia. cbn [negb]. rewrite Hbody.
    rewrite fread_app by (rewrite ?blen_le; done || lia). rewrite le_val_le_bytes_id by apply u32_range.
    rewrite s32_u32, (s32_id (t_height t)) by (change (2 ^ 31) with 2147483648; lia).
    rewrite (proj2 (Z.ltb_ge _ 0)), (proj2 (Z.ltb_ge 9 _)) by lia. cbn [orb].
    rewrite g_index_at by lia. fold g. cbn [mbind outcome_bind]. rewrite s32_id by (change (2 ^ 31) with 2147483648; lia).
    rewrite fread_app by lia. rewrite Hr. cbn [mbind outcome_bind]. unfold open_codec.
    rewrite fread_app by (rewrite ?blen_le; done || lia). rewrite le_val_le_bytes_id by apply u32_range.
    change (10 * 2 ^ 20) with 10485760 in *. rewrite s32_u32, (s32_id s) by (change (2 ^ 31) with 2147483648; lia).
    rewrite (proj2 (Z.ltb_ge s 0)), (proj2 (Z.ltb_ge 10485760 s)) by lia. cbn [orb].
    rewrite <- (app_nil_r b) at 1. rewrite fread_app by lia. rewrite app_nil_r in Hload. rewrite Hload. cbn [mbind outcome_bind]. reflexivity.
  - constructor; cbn; auto. intros i. rewrite Hlk, lookup_empty. case_decide; [done|].
    destruct (t_root t !! i) as [n|] eqn:En; [|done]. pose proof (Hmax i ltac:(eauto)).
    lia.
Qed.

(** C26. A tree written by [ht_save2] and read by [ht_open] is the same map and
    again well formed.  The array must hold what [struct t_node] and
    [struct t_item] can hold, and the height be at most 7: at height 8 the size
    of the array overflows the [int] that [ht_open] keeps it in. *)
Theorem ht_save_open addr t :
  tree_ok t -> t_height t <= 7 -> (forall i n, t_root t !! i = Some n -> node_fits n) ->
  exists f t', ht_save2 addr t = Ret (Some f) /\ ht_open (t_depth t) (t_pos t) f = Ret (Some t') /\
    tree_ok t' /\ abs t' = abs t.
Proof.
  intros Ht Hh Hfit. destruct (save_open addr t Ht Hh Hfit) as (f & t' & E1 & E2 & Hr). exists f, t'. do 2 (split; [done|]). apply reload_tree; [done|apply Ht|done].
Qed.
End File.

Lemma ht_save_open_witness :
  exists f t', ht_save2 (fun _ => 0) (tree_of history1) = Ret (Some f) /\
    ht_open (t_depth (tree_of history1)) (t_pos (tree_of history1)) f = Ret (Some t') /\
    tree_ok t' /\ abs t' = abs (tree_of history1).
Proof.
  apply (ht_save_open (fun _ => 0) (tree_of history1)).
  - apply tree_of_ok; [|done]. by_compute.
  - vm_compute. discriminate.
  - assert (H : map_Forall (fun _ n => node_fits n) (t_root (tree_of history1))).
    { by_compute. }
    intros i n. apply H.
Defined.
