(* ===== verification/HTreeFine.v ===== *)
(** * What the node array can hold

    Every node of the array, also one that is not part of the tree at the moment,
    stays within the widths of [struct t_node] and [struct t_item] and holds every
    key once, whatever is added and removed.  So a tree that was built by additions
    and removals can be saved and opened again. *)
From Stdlib Require Import ZArith Lia List.
From stdpp Require Import base numbers list list_numbers gmap strings fin_maps.
From S2P Require Import Prelude Hash CText Codec CodecFacts HTree HTreeLeaf HTreeShape HTreeOps HTreeAdd HTreeMap HTreeUpdate HTreeSpec HTreeFile HTreeFileFacts.

(** [U] are the stored forms of the keys that were ever given to the tree. *)
Record nice (U : list bytes) (n : Node) : Prop := {
  ni_hash : 0 <= n_hash n < 2 ^ 16;
  ni_count : 0 <= n_count n < 2 ^ 32;
  ni_blocks : Forall block_ok (n_data n);
  ni_items : Forall (fun it => item_fits it /\ it_key it ∈ U) (node_items n);
  ni_keys : NoDup (List.map it_key (node_items n))
}.

Section Fine.
Context {C : Type} {KC : KeyCodec C}.
Implicit Types t : HTree C.

Definition fine (U : list bytes) t : Prop := map_Forall (fun _ => nice U) (t_root t).

Lemma nice_more U V n : (forall k, k ∈ U -> k ∈ V) -> nice U n -> nice V n.
Proof. intros H []. constructor; auto. eapply Forall_impl; [done|]. intros it [? ?]. auto. Qed.
Lemma fine_more U V t : (forall k, k ∈ U -> k ∈ V) -> fine U t -> fine V t.
Proof. intros H Ht i n Hi. eapply nice_more; [done|]. by apply (Ht i). Qed.

Lemma fine_set U t i n : fine U t -> nice U n -> fine U (set_node t i n).
Proof. intros Ht Hn. by apply map_Forall_insert_2. Qed.
Lemma fine_at U t i n : fine U t -> node_at t i = Ret n -> nice U n.
Proof. intros Ht. unfold node_at. destruct (t_root t !! i) eqn:E; [|done]. intros [= <-]. by apply (Ht i). Qed.

Lemma nice_empty U n : 0 <= n_hash n < 2 ^ 16 -> 0 <= n_count n < 2 ^ 32 -> Forall block_ok (n_data n) -> node_items n = [] -> nice U n.
Proof. intros H1 H2 H3 H4. constructor; auto; rewrite H4; constructor. Qed.
Lemma nice_clear U n : nice U (clear n).
Proof. apply nice_empty; cbn; [lia|lia| |done]. repeat constructor; cbn; unfold DATA_HEAD_SIZE; lia. Qed.
Lemma nice_zero U d : nice U (node_zero d).
Proof. apply nice_empty; cbn; [lia|lia|constructor|done]. Qed.
Lemma nice_valid U n v : nice U n -> nice U (with_valid n v).
Proof. intros []. by constructor. Qed.

(** ** Leaves *)
Lemma u16_range' x : 0 <= u16 x < 2 ^ 16.
Proof. apply Z.mod_pos_bound. lia. Qed.

Lemma leaf_add_nice U bs t n it kh n' b :
  nice U n -> item_fits it -> it_key it ∈ U -> leaf_add bs t n it kh = Ret (n', b) -> nice U n'.
Proof.
  intros Hn Hf Hu. pose proof Hn as []. unfold leaf_add. destruct (chain_replace it (n_data n)) as [[p c]|] eqn:E.
  - intros H. apply bind_ret in H as (x & _ & [= <- <-]). destruct (n_data n) as [|d r] eqn:Ed; [done|]. rewrite <- Ed in E.
    destruct (chain_replace_some it (n_data n) p c E) as (Hk & [_ Hc] & l1 & l2 & E1 & E2 & _); [split; [by rewrite Ed|by rewrite Ed]|].
    unfold node_items in *. rewrite <- Ed, E1 in *. constructor; cbn [n_hash n_count n_data]; auto using u16_range', u32_range; unfold node_items; cbn [n_data]; rewrite E2.
    + apply Forall_app in ni_items0 as [H1 H2]. apply Forall_app. split; [done|]. apply Forall_cons in H2 as [_ H2]. by constructor.
    + rewrite List.map_app in *. cbn [List.map] in *. by rewrite <- Hk.
  - intros H. apply bind_ret in H as (c & Ec & [= <- <-]). destruct (n_data n) as [|d r] eqn:Ed; [done|].
    destruct (chain_append_spec bs it (d :: r)) as (c' & Ec' & [_ Hc] & Hp); [by split|]. rewrite Ec in Ec'. injection Ec' as <-.
    unfold node_items in *. rewrite Ed in *. constructor; cbn [n_hash n_count n_data]; auto using u16_range', u32_range; unfold node_items; cbn [n_data].
    + rewrite Hp. by constructor.
    + rewrite Hp. cbn [List.map]. constructor; [|done]. intros Hin%list_elem_of_In%in_map_iff. destruct Hin as (x & Ex & Hx).
      apply chain_replace_none in E. apply list_elem_of_In in Hx. by apply (proj1 (Forall_forall _ _) E x Hx).
Qed.

(** ** The tree *)
Lemma descend_fine U mark fuel : forall t i kh t' j, fine U t -> descend mark fuel t i kh = Ret (t', j) -> fine U t'.
Proof.
  induction fuel as [|f IH]; intros t i kh t' j Ht H; [done|]. cbn [descend] in H. apply bind_ret in H as (n & En & H). destruct (n_is_node n); [|by injection H as <- <-].
  apply bind_ret in H as (b & _ & H). apply bind_ret in H as (c & _ & H). eapply IH; [|exact H]. destruct mark; [|done]. apply fine_set; [done|]. by eapply nice_valid, fine_at.
Qed.

Lemma clear_fine U k : forall t c t', fine U t -> clear_children k t c = Ret t' -> fine U t'.
Proof.
  induction k as [|k IH]; intros t c t' Ht H; cbn [clear_children] in H; [by injection H as <-|]. apply bind_ret in H as (n & En & H).
  eapply IH; [|exact H]. apply fine_set; [done|apply nice_clear].
Qed.

Lemma fill_fine U k d : forall i r, map_Forall (fun _ => nice U) r -> map_Forall (fun _ => nice U) (fill_nodes k (fun _ => node_zero d) i r).
Proof. induction k as [|k IH]; intros i r Hr; [done|]. cbn [fill_nodes]. apply IH, map_Forall_insert_2; [apply nice_zero|done]. Qed.
Lemma enlarge_fine U t t' : fine U t -> enlarge_pool t = Ret t' -> fine U t'.
Proof. intros Ht H. unfold enlarge_pool in H. apply bind_ret in H as (o & _ & H). apply bind_ret in H as (s & _ & [= <-]). by apply fill_fine. Qed.

Lemma split_fine U (add : HTree C -> Z -> Item -> Z -> outcome (HTree C)) t i t' :
  (forall t i it kh t', fine U t -> item_fits it -> it_key it ∈ U -> add t i it kh = Ret t' -> fine U t') ->
  fine U t -> split_node add t i = Ret t' -> fine U t'.
Proof.
  intros Hadd Ht H. unfold split_node in H. apply bind_ret in H as (n & En & H). apply bind_ret in H as (c & _ & H). apply bind_ret in H as (t1 & E1 & H).
  apply bind_ret in H as (t2 & E2 & H). apply bind_ret in H as (n2 & En2 & [= <-]). pose proof (fine_at U _ _ _ Ht En) as Hn. apply clear_fine with (U := U) in E1; [|done].
  assert (H2 : fine U t2).
  { pose proof (ni_items _ _ Hn) as Hits. clear En En2 Hn Ht. revert t1 E1 E2. induction Hits as [|it l [Hf Hu] _ IH]; intros t1 E1 E2; cbn [split_items] in E2; [by injection E2 as <-|].
    apply bind_ret in E2 as (h & _ & E2). apply bind_ret in E2 as (b & _ & E2). apply bind_ret in E2 as (t3 & E3 & E2). eapply IH; [|exact E2]. eapply Hadd; [| | |exact E3]; done. }
  apply fine_set; [done|]. destruct (fine_at U _ _ _ H2 En2). by apply nice_empty.
Qed.

Lemma add_fine U fuel : forall t i it kh en t', fine U t -> item_fits it -> it_key it ∈ U -> add_item fuel t i it kh en = Ret t' -> fine U t'.
Proof.
  induction fuel as [|f IH]; intros t i it kh en t' Ht Hf Hu H; [done|]. cbn [add_item] in H. apply bind_ret in H as ([t1 j] & E1 & H). apply descend_fine with (U := U) in E1; [|done].
  apply bind_ret in H as (n & En & H). apply bind_ret in H as ([n' b] & El & H). apply (leaf_add_nice U) in El; [|by eapply fine_at|done|done].
  pose proof (fine_set U t1 j n' E1 El) as Hs. assert (Hadd : forall t i it kh t', fine U t -> item_fits it -> it_key it ∈ U -> add_item f t i it kh false = Ret t' -> fine U t') by (intros; by eapply IH).
  destruct (b && _); [|by injection H as <-]. destruct (_ =? _); [|by eapply split_fine in H].
  destruct (_ && _ && _); [|by injection H as <-]. apply bind_ret in H as (t2 & E2 & H). eapply split_fine; [exact Hadd| |exact H]. by eapply enlarge_fine.
Qed.

Lemma remove_fine U t i it kh t' : fine U t -> remove_item t i it kh = Ret t' -> fine U t'.
Proof.
  intros Ht H. unfold remove_item in H. apply bind_ret in H as ([t1 j] & E1 & H). apply descend_fine with (U := U) in E1; [|done]. apply bind_ret in H as (n & En & H).
  pose proof (fine_at U _ _ _ E1 En) as Hn. destruct (chain_remove true it (n_data n)) as [[p c]|] eqn:E; [|by injection H as <-]. injection H as <-. apply fine_set; [done|]. pose proof Hn as [].
  destruct (chain_remove_some true it (n_data n) p c E ni_blocks0) as (_ & Hc & _ & Hp). fold (node_items n) in Hp.
  constructor; cbn [n_hash n_count n_data]; auto using u16_range', u32_range; unfold node_items; cbn [n_data].
  - rewrite Hp in ni_items0. by inversion ni_items0.
  - rewrite Hp in ni_keys0. by inversion ni_keys0.
Qed.

(** ** Trees built from at most [n] additions *)
Definition built (n : Z) t : Prop := exists U, Z.of_nat (length U) <= n /\ fine U t.

Lemma built_le n n' t : n <= n' -> built n t -> built n' t.
Proof. intros H (U & HU & Ht). exists U. split; [lia|done]. Qed.
Lemma built_root n t t' : t_root t' = t_root t -> built n t -> built n t'.
Proof. intros E (U & HU & Ht). exists U. split; [done|]. unfold fine. by rewrite E. Qed.
Lemma built_new depth pos tmp : built 0 (ht_new depth pos tmp).
Proof. exists []. split; [done|]. apply map_Forall_singleton, nice_clear. Qed.

Lemma create_spec t key pos hash ver t1 it :
  create_item t key pos hash ver = Ret (t1, it) ->
  t_root t1 = t_root t /\ it_pos it = pos /\ it_hash it = hash /\ it_ver it = ver /\ blen (it_key it) < 256.
Proof.
  unfold create_item. intros H. apply bind_ret in H as ([c e] & _ & E). cbn beta iota in E. injection E as <- <-. do 4 (split; [done|]). cbn [it_key]. unfold blen. rewrite length_take.
  assert (0 <= u8 (Z.of_nat (length e)) < 256) by (apply Z.mod_pos_bound; lia). unfold blen in *. lia.
Qed.

Lemma built_add n t key pos hash ver t' :
  built n t -> 0 <= n -> 0 <= pos < 2 ^ 32 -> 0 <= hash < 2 ^ 16 -> - 2 ^ 31 <= ver < 2 ^ 31 -> ht_add2 t key pos hash ver = Ret t' -> built (n + 1) t'.
Proof.
  intros Hb Hn Hp Hh Hv. unfold ht_add2. destruct (negb _); [intros [= <-]; eapply built_le; [|done]; lia|]. intros H. apply bind_ret in H as ([t1 it] & E & H).
  destruct (create_spec _ _ _ _ _ _ _ E) as (Er & E1 & E2 & E3 & El). destruct (built_root _ _ _ Er Hb) as (U & HU & Ht). exists (it_key it :: U). split; [cbn [length]; lia|].
  eapply add_fine; [|..|exact H]; [|by rewrite <- E1, <- E2, <- E3 in *|apply list_elem_of_here]. eapply fine_more; [|done]. intros k. by apply list_elem_of_further.
Qed.
Lemma built_remove n t key t' : built n t -> ht_remove2 t key = Ret t' -> built n t'.
Proof.
  intros Hb. unfold ht_remove2. destruct (negb _); [by intros [= <-]|]. intros H. apply bind_ret in H as ([t1 it] & E & H).
  destruct (create_spec _ _ _ _ _ _ _ E) as (Er & _). destruct (built_root _ _ _ Er Hb) as (U & HU & Ht). exists U. split; [done|]. by eapply remove_fine.
Qed.

(** [k] more additions. *)
Definition grows (k : nat) t t' : Prop := forall n, 0 <= n -> built n t -> built (n + Z.of_nat k) t'.
Lemma grows_refl t : grows 0 t t.
Proof. intros n Hn. by rewrite Z.add_0_r. Qed.
Lemma grows_trans j k t t1 t2 : grows j t t1 -> grows k t1 t2 -> grows (j + k) t t2.
Proof. intros H1 H2 n Hn Ht. rewrite Nat2Z.inj_add, Z.add_assoc. apply H2; [lia|]. by apply H1. Qed.
Lemma grows_le j k t t' : (j <= k)%nat -> grows j t t' -> grows k t t'.
Proof. intros H H1 n Hn Ht. apply (built_le (n + Z.of_nat j)); [lia|]. by apply H1. Qed.
Lemma add_grows t key pos hash ver t' :
  ht_add2 t key pos hash ver = Ret t' -> 0 <= pos < 2 ^ 32 -> 0 <= hash < 2 ^ 16 -> - 2 ^ 31 <= ver < 2 ^ 31 -> grows 1 t t'.
Proof. intros E Hp Hh Hv n Hn Ht. by eapply built_add. Qed.
Lemma remove_grows t key t' : ht_remove2 t key = Ret t' -> grows 1 t t'.
Proof. intros E n Hn Ht. eapply built_le; [|by eapply built_remove]. lia. Qed.

(** ** Saving and opening *)
Context {KL : KeyCodecLaws C}.
Lemma nice_len U n : nice U n -> items_len (node_items n) <= 266 * Z.of_nat (length U).
Proof.
  intros []. assert (Hl : (length (node_items n) <= length U)%nat).
  { rewrite <- (length_map it_key). apply NoDup_incl_length; [by apply NoDup_ListNoDup|]. intros k Hk. apply in_map_iff in Hk as (it & <- & Hin).
    apply list_elem_of_In, (proj1 (Forall_forall _ _) ni_items0 it). by apply list_elem_of_In. }
  assert (H : items_len (node_items n) <= 266 * Z.of_nat (length (node_items n))); [|lia]. clear Hl ni_keys0.
  induction ni_items0 as [|it l [(_ & _ & _ & Hk) _] _ IH]; [done|]. cbn [items_len fold_right length]. fold (items_len l). unfold ITEM_LENGTH. lia.
Qed.

Lemma built_fits n t : built n t -> n <= 8000000 -> tree_ok t -> t_height t <= 8 -> forall i m, t_root t !! i = Some m -> node_fits m.
Proof.
  intros (U & HU & Ht) Hn [Hp _] Hh i m Hm. pose proof (Ht i m Hm) as Hnice. pose proof (nice_len U m Hnice). destruct Hnice. destruct Hp as (H1 & _ & _ & _ & H5 & H6).
  destruct (all_indices (t_height t) i) as (d & p & Hd & Hpr & ->); [lia|by apply H5; eauto|]. destruct (H6 d p Hd Hpr) as (m' & Em & Hdm). rewrite Hm in Em. injection Em as <-.
  split; [lia|]. do 3 (split; [done|]). split; [|change (2 ^ 31) with 2147483648; lia]. eapply Forall_impl; [exact ni_items0|]. by intros it [? _].
Qed.

Lemma reloaded_nice U n : nice U n -> nice U (reloaded n).
Proof.
  intros []. constructor; rewrite ?reloaded_items; auto. unfold reloaded. cbn [n_data]. destruct (n_data n); [constructor|]. constructor; [|constructor]. split; [reflexivity|apply Z.le_refl].
Qed.
End Fine.

(** A tree of at most eight million additions, and of a depth of at least 1, can be
    saved; what is opened is the same map, and again such a tree. *)
Lemma built_save {C} {KC : KeyCodec C} {KL : KeyCodecLaws C} addr n (t : HTree C) :
  built n t -> n <= 8000000 -> tree_ok t -> t_height t <= 7 ->
  exists f t', ht_save2 addr t = Ret (Some f) /\ ht_open (t_depth t) (t_pos t) f = Ret (Some t') /\
    tree_ok t' /\ abs t' = abs t /\ t_depth t' = t_depth t /\ t_pos t' = t_pos t /\ built n t'.
Proof.
  intros Hb Hn Ht Hh. destruct (save_open addr t Ht Hh) as (f & t' & E1 & E2 & Hr); [eapply built_fits; [done|done|done|lia]|]. exists f, t'. do 2 (split; [done|]).
  destruct (reload_tree t t' Hr) as [Ht' Ha]; [apply Ht|done|]. do 2 (split; [done|]). pose proof (rl_root _ _ Hr) as Hroot. split; [apply Hr|]. split; [apply Hr|]. destruct Hb as (U & HU & Hf). exists U. split; [done|].
  intros i m. rewrite Hroot. destruct (t_root t !! i) eqn:E; [|done]. intros [= <-]. by eapply reloaded_nice, Hf.
Qed.
