(* ===== verification/QuickLZ.v ===== *)
(** * QuickLZ 1.4.1 (quicklz.c), as configured: level 3, no streaming buffer,
      X86X64 code paths

    Values and hint files are compressed with it.  The compressor works on the
    source as an array (reads out of range are faults) and appends to its
    output: [done] is what precedes the open control word, [pend] what follows
    its four bytes.  The decompressor writes into an array of the announced
    size, four bytes at a time as the X86 code does; every read and write is
    bounds checked.  The facts are in QuickLZFacts.v. *)
From Stdlib Require Import ZArith Lia List.
From stdpp Require Import base numbers list gmap.
From S2P Require Import Prelude.

Definition MINOFFSET : Z := 2.
Definition UNCONDITIONAL_MATCHLEN : Z := 6.
Definition UNCOMPRESSED_END : Z := 4.
Definition CWORD_LEN : Z := 4.
Definition QLZ_POINTERS : Z := 16.
Definition QLZ_HASH_VALUES : Z := 4096.
Definition QLZ_COMPRESSION_LEVEL : Z := 3.

Definition hash_func (i : Z) : Z := Z.land (Z.lxor (Z.shiftr i 12) i) (QLZ_HASH_VALUES - 1).

(** [*(ui32* )src] *)
Definition read32 (s : bytes) (i : Z) : outcome Z :=
  if (i <? 0) || (blen s <? i + 4) then Fault else Ret (le_val (take 4 (drop (Z.to_nat i) s))).

(** [fast_read] of 1 to 4 bytes: always four bytes on X86. *)
Definition fast_read (s : bytes) (i : Z) : outcome Z := read32 s i.

(** ** The compressor *)
Record Scratch := { offsets : gmap (Z * Z) Z; hash_counter : gmap Z Z }.
Definition counter (w : Scratch) (h : Z) : Z := default 0 (hash_counter w !! h).

(** [hashtable[hash].offset[c & (QLZ_POINTERS - 1)] = src; hash_counter[hash] = c + 1;] *)
Definition remember (w : Scratch) (hash src : Z) : Scratch :=
  let c := counter w hash in
  {| offsets := <[(hash, Z.land c (QLZ_POINTERS - 1)) := src]> (offsets w);
     hash_counter := <[hash := u8 (c + 1)]> (hash_counter w) |}.

(** [while(s[o + m] == s[src + m] && m < remaining) m++;] *)
Fixpoint match_ext (fuel : nat) (s : bytes) (o src m remaining : Z) : outcome Z :=
  match fuel with
  | O => Fault
  | S f =>
      a ← fetch s (o + m); b ← fetch s (src + m);
      if (a =? b) && (m <? remaining) then match_ext f s o src (m + 1) remaining else Ret m
  end.

(** The low 24 bits agree. *)
Definition same3 (a b : Z) : bool := Z.land (Z.lxor a b) 0xffffff =? 0.

(** The candidate in slot 0: [offset2] (if the slot is in use) and [matchlen]. *)
Definition first_candidate (s : bytes) (w : Scratch) (hash fetch_ src remaining : Z)
  : outcome (option Z * Z) :=
  let o := offsets w !! (hash, 0) in
  match o with
  | Some offset2 =>
      if (offset2 <? src - MINOFFSET) && (0 <? counter w hash) then
        f ← fast_read s offset2;
        if same3 f fetch_ then
          a ← fetch s (offset2 + 3); b ← fetch s (src + 3);
          if a =? b then m ← match_ext 256 s offset2 src 4 remaining; Ret (o, m)
          else Ret (o, 3)
        else Ret (o, 0)
      else Ret (o, 0)
  | None => if 0 <? counter w hash then Fault else Ret (None, 0)
  end.

(** The loop over slots 1, 2, ...: a longer match, or an equally long nearer one. *)
Fixpoint candidates (n : nat) (s : bytes) (w : Scratch) (hash fetch_ src remaining k : Z)
    (best : option Z * Z) : outcome (option Z * Z) :=
  match n with
  | O => Ret best
  | S n' =>
      if k <? counter w hash then
        match offsets w !! (hash, k) with
        | None => Fault
        | Some o =>
            f ← fast_read s o;
            best' ←
              (if same3 f fetch_ && (o <? src - MINOFFSET) then
                 m ← match_ext 256 s o src 3 remaining;
                 let '(offset2, matchlen) := best in
                 Ret (if (matchlen <? m) ||
                         ((m =? matchlen) && match offset2 with Some p => p <? o | None => false end)
                      then (Some o, m) else best)
               else Ret best);
            candidates n' s w hash fetch_ src remaining (k + 1) best'
        end
      else Ret best
  end.

(** [for(u = 1; u < matchlen; u++)]: enter the skipped positions in the table. *)
Fixpoint remember_run (n : nat) (s : bytes) (w : Scratch) (pos : Z) : outcome Scratch :=
  match n with
  | O => Ret w
  | S n' => f ← fast_read s pos; remember_run n' s (remember w (hash_func f) pos) (pos + 1)
  end.

(** The five encodings of a match. *)
Definition match_bytes (matchlen offset : Z) : bytes :=
  if (matchlen =? 3) && (offset <=? 63) then [u8 (Z.shiftl offset 2)]
  else if (matchlen =? 3) && (offset <=? 16383) then
    le_bytes 2 (u32 (Z.lor (Z.shiftl offset 2) 1))
  else if (matchlen <=? 18) && (offset <=? 1023) then
    le_bytes 2 (u32 (Z.lor (Z.lor (Z.shiftl (matchlen - 3) 2) (Z.shiftl offset 6)) 2))
  else if matchlen <=? 33 then
    le_bytes 3 (u32 (Z.lor (Z.lor (Z.shiftl (matchlen - 2) 2) (Z.shiftl offset 7)) 3))
  else le_bytes 4 (u32 (Z.lor (Z.lor (Z.shiftl (matchlen - 3) 7) (Z.shiftl offset 15)) 3)).

Record Out := { done : bytes; cword_val : Z; pend : bytes }.
Definition out_init : Out := {| done := []; cword_val := Z.shiftl 1 31; pend := [] |}.
(** [dst - destination] *)
Definition out_len (o : Out) : Z := blen (done o) + CWORD_LEN + blen (pend o).
Definition full (o : Out) : bool := Z.land (cword_val o) 1 =? 1.
Definition cword_bytes (c : Z) : bytes := le_bytes 4 (Z.lor (Z.shiftr c 1) (Z.shiftl 1 31)).
(** Write the control word and open the next one. *)
Definition flush (o : Out) : Out :=
  {| done := done o ++ cword_bytes (cword_val o) ++ pend o; cword_val := Z.shiftl 1 31; pend := [] |}.
Definition put_match (o : Out) (b : bytes) : Out :=
  {| done := done o; cword_val := Z.lor (Z.shiftr (cword_val o) 1) (Z.shiftl 1 31); pend := pend o ++ b |}.
Definition put_literal (o : Out) (b : Z) : Out :=
  {| done := done o; cword_val := Z.shiftr (cword_val o) 1; pend := pend o ++ [b] |}.

(** [last_matchstart], as an index. *)
Definition last_matchstart (size : Z) : Z := size - 1 - UNCONDITIONAL_MATCHLEN - UNCOMPRESSED_END.

(** One round of the main loop after the control word is dealt with. *)
Definition compress_step (s : bytes) (w : Scratch) (o : Out) (src : Z)
  : outcome (Scratch * Out * Z) :=
  let size := blen s in
  let remaining := Z.min 255 (size - 1 - UNCOMPRESSED_END - src + 1) in
  f ← fast_read s src;
  let hash := hash_func f in
  b0 ← first_candidate s w hash f src remaining;
  '(offset2, matchlen) ← candidates 15 s w hash f src remaining 1 b0;
  let w := remember w hash src in
  match offset2 with
  | Some p =>
      if (2 <? matchlen) && (src - p <? 131071) then
        w ← remember_run (Z.to_nat (matchlen - 1)) s w (src + 1);
        Ret (w, put_match o (match_bytes matchlen (src - p)), src + matchlen)
      else
        c ← fetch s src; Ret (w, put_literal o c, src + 1)
  | None => c ← fetch s src; Ret (w, put_literal o c, src + 1)
  end.

(** The main loop; [None] is [return 0], "compression ratio is too low". *)
Fixpoint compress_loop (fuel : nat) (s : bytes) (w : Scratch) (o : Out) (src : Z)
  : outcome (option (Out * Z)) :=
  match fuel with
  | O => Fault
  | S f =>
      if src <=? last_matchstart (blen s) then
        if full o && (3 * Z.shiftr (blen s) 2 <? src) && (src - Z.shiftr src 5 <? out_len o)
        then Ret None
        else
          let o := if full o then flush o else o in
          '(w, o, src) ← compress_step s w o src;
          compress_loop f s w o src
      else Ret (Some (o, src))
  end.

(** The literals at the end. *)
Fixpoint tail_loop (fuel : nat) (s : bytes) (o : Out) (src : Z) : outcome Out :=
  match fuel with
  | O => Fault
  | S f =>
      if src <=? blen s - 1 then
        let o := if full o then flush o else o in
        c ← fetch s src; tail_loop f s (put_literal o c) (src + 1)
      else Ret o
  end.

(** [while((cword_val & 1) != 1) cword_val >>= 1;] *)
Fixpoint align_cword (fuel : nat) (c : Z) : outcome Z :=
  match fuel with
  | O => Fault
  | S f => if Z.land c 1 =? 1 then Ret c else align_cword f (Z.shiftr c 1)
  end.

(** [qlz_compress_core]: the bytes written, [None] for a return value of 0.
    [junk] is what the destination held before: the return value is at least 9
    even when fewer bytes were written. *)
Definition qlz_compress_core (junk s : bytes) : outcome (option bytes) :=
  r ← compress_loop (S (length s)) s {| offsets := ∅; hash_counter := ∅ |} out_init 0;
  match r with
  | None => Ret None
  | Some (o, src) =>
      o ← tail_loop (S (length s)) s o src;
      c ← align_cword 32 (cword_val o);
      let b := done o ++ cword_bytes c ++ pend o in
      Ret (Some (b ++ take (9 - length b) junk))
  end.

(** [qlz_compress(source, destination, size, scratch)]: what the destination
    holds up to the return value; the empty list for a return value of 0. *)
Definition qlz_compress (junk s : bytes) : outcome bytes :=
  let size := blen s in
  if (size =? 0) || (0xffffffff - 400 <? size) then Ret []
  else
    c ← qlz_compress_core junk s;
    let '(body, compressed) := match c with None => (s, 0) | Some b => (b, 1) end in
    let tag x := Z.lor (Z.lor x (Z.shiftl QLZ_COMPRESSION_LEVEL 2)) (Z.shiftl 1 6) in
    if size <? 216 then
      Ret ([tag compressed; u8 (3 + blen body); u8 size] ++ body)
    else
      Ret ([tag (Z.lor 2 compressed)] ++ le_bytes 4 (u32 (9 + blen body)) ++ le_bytes 4 (u32 size) ++ body).

(** ** The decompressor *)
(** [n] of the size functions. *)
Definition size_width (c : Z) : Z := if Z.land c 2 =? 2 then 4 else 1.
Definition read_size (s : bytes) (i n : Z) : outcome Z :=
  r ← fast_read s i; Ret (Z.land r (Z.shiftr 0xffffffff ((4 - n) * 8))).
Definition qlz_size_decompressed (s : bytes) : outcome Z :=
  c ← fetch s 0; read_size s (1 + size_width c) (size_width c).
Definition qlz_size_compressed (s : bytes) : outcome Z :=
  c ← fetch s 0; read_size s 1 (size_width c).

(** [*(ui32* )(dst + i) = x], the destination being an array. *)
Definition write32 (d : bytes) (i x : Z) : outcome bytes :=
  if (i <? 0) || (blen d <? i + 4) then Fault
  else Ret (take (Z.to_nat i) d ++ le_bytes 4 x ++ drop (Z.to_nat i + 4) d).

(** [memcpy_up(dst, src, n)] on X86, both inside the destination array: four
    bytes per round, advancing three. *)
Fixpoint memcpy_up (fuel : nat) (d : bytes) (dst src f n : Z) : outcome bytes :=
  match fuel with
  | O => Fault
  | S k =>
      x ← read32 d (src + f);
      d ← write32 d (dst + f) x;
      if f + (MINOFFSET + 1) <? n then memcpy_up k d dst src (f + (MINOFFSET + 1)) n else Ret d
  end.

Definition bitlut : list Z := [4; 0; 1; 0; 2; 0; 1; 0; 3; 0; 1; 0; 2; 0; 1; 0].

(** Offset, match length and size of a match token. *)
Definition match_token (fetch_ : Z) : Z * Z * Z :=
  if Z.land fetch_ 3 =? 0 then (Z.shiftr (Z.land fetch_ 0xff) 2, 3, 1)
  else if Z.land fetch_ 2 =? 0 then (Z.shiftr (Z.land fetch_ 0xffff) 2, 3, 2)
  else if Z.land fetch_ 1 =? 0 then
    (Z.shiftr (Z.land fetch_ 0xffff) 6, Z.land (Z.shiftr fetch_ 2) 15 + 3, 2)
  else if negb (Z.land fetch_ 127 =? 3) then
    (Z.land (Z.shiftr fetch_ 7) 0x1ffff, Z.land (Z.shiftr fetch_ 2) 0x1f + 2, 3)
  else (Z.shiftr fetch_ 15, Z.land (Z.shiftr fetch_ 7) 255 + 3, 4).

(** The last loop: literals up to the end of the destination. *)
Fixpoint literal_loop (fuel : nat) (s d : bytes) (cw src dst : Z) : outcome bytes :=
  match fuel with
  | O => Fault
  | S k =>
      if dst <=? blen d - 1 then
        let '(src, cw) := if cw =? 1 then (src + CWORD_LEN, Z.shiftl 1 31) else (src, cw) in
        c ← fetch s src;
        _ ← fetch d dst;
        literal_loop k s (<[Z.to_nat dst := c]> d) (Z.shiftr cw 1) (src + 1) (dst + 1)
      else Ret d
  end.

(** The main loop; the destination advances in every round, so its size is
    enough fuel. *)
Fixpoint decompress_loop (fuel : nat) (s d : bytes) (cw src dst : Z) : outcome bytes :=
  match fuel with
  | O => Fault
  | S k =>
      '(cw, src) ← (if cw =? 1 then c ← fast_read s src; Ret (c, src + CWORD_LEN) else Ret (cw, src));
      f ← fast_read s src;
      if Z.land cw 1 =? 1 then
        let '(offset, matchlen, n) := match_token f in
        d ← memcpy_up 256 d dst (dst - offset) 0 matchlen;
        decompress_loop k s d (Z.shiftr cw 1) (src + n) (dst + matchlen)
      else if dst <? last_matchstart (blen d) then
        x ← read32 s src;
        d ← write32 d dst x;
        n ← fetch bitlut (Z.land cw 0xf);
        decompress_loop k s d (Z.shiftr cw n) (src + n) (dst + n)
      else literal_loop (S (length d)) s d cw src dst
  end.

(** [qlz_decompress(source, destination, scratch)], the destination being an
    array of [qlz_size_decompressed] bytes with contents [d]: its contents
    afterwards. *)
Definition qlz_decompress (s d : bytes) : outcome bytes :=
  c ← fetch s 0;
  let headerlen := 2 * size_width c + 1 in
  dsiz ← qlz_size_decompressed s;
  if Z.land c 1 =? 1 then
    decompress_loop (S (length d)) (drop (Z.to_nat headerlen) s) d 1 0 0
  else
    if (blen s <? headerlen + dsiz) || (blen d <? dsiz) then Fault
    else Ret (take (Z.to_nat dsiz) (drop (Z.to_nat headerlen) s) ++ drop (Z.to_nat dsiz) d).
