(* ===== verification/QuickLZFormat.v ===== *)
(** * QuickLZ: the format of the compressed stream

    Tokens (a literal byte, or a copy of earlier output), their encoding, groups
    of at most 31 tokens behind a control word, and what it means for tokens to
    describe a text.  The compressor is shown to produce such a stream and the
    decompressor to follow it. *)
From Stdlib Require Import ZArith Lia List.
From stdpp Require Import base numbers list gmap.
From S2P Require Import Prelude QuickLZ.

Inductive token :=
| Lit (b : Z)
| Copy (len off : Z).

Definition tok_bytes (x : token) : bytes :=
  match x with Lit b => [b] | Copy len off => match_bytes len off end.
Definition tok_flag (x : token) : Z := match x with Lit _ => 0 | Copy _ _ => 1 end.
Definition tok_len (x : token) : Z := match x with Lit _ => 1 | Copy len _ => len end.

(** The token describes [s] at [pos]; a copy ends before the last four bytes and
    starts where the main loop of the compressor still runs. *)
Definition tok_ok (s : bytes) (pos : Z) (x : token) : Prop :=
  match x with
  | Lit b => s !! Z.to_nat pos = Some b
  | Copy len off =>
      3 <= len <= 255 /\ 3 <= off < 131071 /\ off <= pos /\ pos <= last_matchstart (blen s) /\
      pos + len <= blen s - UNCOMPRESSED_END /\
      forall i, pos <= i < pos + len -> s !! Z.to_nat i = s !! Z.to_nat (i - off)
  end.

(** The tokens describe [s] from [pos] to its end. *)
Fixpoint toks_ok (s : bytes) (pos : Z) (T : list token) : Prop :=
  match T with
  | [] => pos = blen s
  | x :: r => 0 <= pos < blen s /\ tok_ok s pos x /\ toks_ok s (pos + tok_len x) r
  end.

(** ** Groups *)
Fixpoint flags (G : list token) : Z :=
  match G with [] => 0 | x :: r => tok_flag x + 2 * flags r end.
Abbreviation toks_bytes := (flat_map tok_bytes).
Definition group (G : list token) : bytes := le_bytes 4 (flags G + 2 ^ 31) ++ toks_bytes G.

Lemma tok_flag_range x : 0 <= tok_flag x <= 1.
Proof. destruct x; simpl; lia. Qed.

Lemma flags_range G : 0 <= flags G < 2 ^ Z.of_nat (length G).
Proof.
  induction G as [|x G IH]; cbn [flags length]; [done|]. rewrite Nat2Z.inj_succ, Z.pow_succ_r by lia.
  pose proof (tok_flag_range x). lia.
Qed.

Lemma flags_snoc G x : flags (G ++ [x]) = flags G + tok_flag x * 2 ^ Z.of_nat (length G).
Proof.
  induction G as [|y G IH]; cbn [flags length app]; [simpl; lia|].
  rewrite IH, Nat2Z.inj_succ, Z.pow_succ_r by lia. lia.
Qed.

(** ** Sizes *)
Lemma match_bytes_ok len off : bytes_ok (match_bytes len off).
Proof.
  unfold match_bytes. repeat case_match; try apply le_bytes_ok. constructor; [|constructor].
  unfold byte_ok, u8. apply Z.mod_pos_bound. done.
Qed.

Lemma tok_bytes_pos x : 1 <= blen (tok_bytes x).
Proof. destruct x; simpl; [done|]. unfold match_bytes, blen. repeat case_match; rewrite ?length_le_bytes; simpl; lia. Qed.

(** The last four bytes of the text are literals. *)
Lemma toks_bytes_len s pos T : toks_ok s pos T -> Z.min 4 (blen s - pos) <= blen (toks_bytes T).
Proof.
  revert pos. induction T as [|x T IH]; intros pos; cbn [toks_ok flat_map]; [intros ->; unfold blen; simpl; lia|].
  intros (Hp & Hx & HT). rewrite blen_app. specialize (IH _ HT). pose proof (tok_bytes_pos x).
  destruct x as [b|len off]; simpl in *; [lia|]. unfold UNCOMPRESSED_END in Hx. lia.
Qed.

Lemma toks_ok_pos s pos T : toks_ok s pos T -> 0 <= pos -> pos <= blen s.
Proof. destruct T as [|x T]; simpl; lia. Qed.

Lemma tok_len_pos s pos x : tok_ok s pos x -> 1 <= tok_len x.
Proof. destruct x; simpl; lia. Qed.

(** After the last match start there are literals only. *)
Definition is_lit (x : token) : Prop := tok_flag x = 0.
Lemma toks_lits s pos T : last_matchstart (blen s) < pos -> toks_ok s pos T -> Forall is_lit T.
Proof.
  revert pos. induction T as [|x T IH]; intros pos Hp HT; [constructor|]. destruct HT as (_ & Hx & HT).
  pose proof (tok_len_pos _ _ _ Hx). constructor; [|eapply IH; [|exact HT]; lia].
  destruct x; simpl in *; [done|]. lia.
Qed.
Lemma toks_lits_from s pos b T :
  last_matchstart (blen s) <= pos -> toks_ok s pos (Lit b :: T) -> Forall is_lit (Lit b :: T).
Proof. intros Hp (_ & _ & HT). constructor; [done|]. eapply toks_lits, HT. simpl. lia. Qed.

(** ** Match encodings *)
Lemma le_val_app a b : le_val (a ++ b) = le_val a + 256 ^ blen a * le_val b.
Proof.
  induction a as [|x a IH]; cbn [le_val app]; [change (blen []) with 0; lia|].
  rewrite IH. unfold blen. cbn [length]. rewrite Nat2Z.inj_succ, Z.pow_succ_r by lia. lia.
Qed.
Lemma le_val_nonneg l : bytes_ok l -> 0 <= le_val l.
Proof. intros H. apply (le_val_range l H). Qed.

(** The four bytes at a position, cut after the first [n]. *)
Lemma le_val_take4 a rest :
  bytes_ok rest -> blen a <= 4 -> exists r, 0 <= r /\ (blen a = 4 -> r = 0) /\
    le_val (take 4 (a ++ rest)) = le_val a + 256 ^ blen a * r.
Proof.
  intros Hr Ha. unfold blen in Ha. exists (le_val (take (4 - length a) rest)). split.
  - apply le_val_nonneg. by apply Forall_take.
  - split; [|rewrite take_app, take_ge by lia; apply le_val_app].
    unfold blen. intros E. by replace (4 - length a)%nat with 0%nat by lia.
Qed.

Lemma land_mod x n m : m = 2 ^ n - 1 -> 0 <= n -> Z.land x m = x mod 2 ^ n.
Proof. intros -> Hn. rewrite <- Z.land_ones by done. by rewrite Z.ones_equiv, Z.sub_1_r. Qed.
Lemma land_2 x : Z.land x 2 = Z.land (x mod 4) 2.
Proof. change (x mod 4) with (x mod 2 ^ 2). rewrite <- (land_mod x 2 3) by lia. by rewrite <- Z.land_assoc. Qed.
Lemma land_1 x : Z.land x 1 = Z.land (x mod 4) 1.
Proof. change (x mod 4) with (x mod 2 ^ 2). rewrite <- (land_mod x 2 3) by lia. by rewrite <- Z.land_assoc. Qed.

(** [match_token] in arithmetic. *)
Lemma match_token_arith f :
  match_token f =
  (if f mod 4 =? 0 then (f mod 256 / 4, 3, 1)
   else if f mod 4 =? 1 then (f mod 65536 / 4, 3, 2)
   else if f mod 4 =? 2 then (f mod 65536 / 64, (f / 4) mod 16 + 3, 2)
   else if negb (f mod 128 =? 3) then ((f / 128) mod 131072, (f / 4) mod 32 + 2, 3)
   else (f / 32768, (f / 128) mod 256 + 3, 4)).
Proof.
  unfold match_token. rewrite land_2, land_1.
  rewrite (land_mod f 2 3), (land_mod f 8 0xff), (land_mod f 16 0xffff), (land_mod f 7 127) by lia.
  rewrite !Z.shiftr_div_pow2 by lia.
  rewrite (land_mod _ 4 15), (land_mod _ 17 0x1ffff), (land_mod _ 5 0x1f), (land_mod _ 8 255) by lia.
  change (2 ^ 2) with 4. change (2 ^ 8) with 256. change (2 ^ 16) with 65536. change (2 ^ 7) with 128. change (2 ^ 4) with 16.
  change (2 ^ 17) with 131072. change (2 ^ 5) with 32. change (2 ^ 15) with 32768. change (2 ^ 6) with 64.
  assert (H : f mod 4 = 0 \/ f mod 4 = 1 \/ f mod 4 = 2 \/ f mod 4 = 3) by (Z.div_mod_to_equations; lia).
  destruct H as [-> | [-> | [-> | ->]]]; reflexivity.
Qed.

Lemma lor_one x : Z.lor (Z.shiftl x 2) 1 = 4 * x + 1.
Proof. rewrite Z.lor_comm, lor_shiftl_add by lia. lia. Qed.
Lemma lor_fields x y a w c :
  0 <= a -> 0 <= w -> 0 <= c < 2 ^ a -> 0 <= x -> c + x * 2 ^ a < 2 ^ w ->
  Z.lor (Z.lor (Z.shiftl x a) (Z.shiftl y w)) c = c + x * 2 ^ a + y * 2 ^ w.
Proof.
  intros Ha Hw Hc Hx Hlt. rewrite Z.lor_comm, Z.lor_assoc, (lor_shiftl_add a c x) by done.
  rewrite lor_shiftl_add; [done|done|]. split; [|done]. apply Z.add_nonneg_nonneg; [lia|]. apply Z.mul_nonneg_nonneg; [done|].
  apply Z.pow_nonneg. lia.
Qed.

Ltac pick_case := repeat match goal with |- context [?a =? ?b] =>
   first [replace (a =? b) with true by (symmetry; apply Z.eqb_eq; Z.div_mod_to_equations; lia)
         |replace (a =? b) with false by (symmetry; apply Z.eqb_neq; Z.div_mod_to_equations; lia)] end.
Ltac token_eq := apply f_equal2; [apply f_equal2|]; first [reflexivity | Z.div_mod_to_equations; lia].

(** Decoding the token that [match_bytes] wrote, whatever follows. *)
Lemma match_token_bytes len off rest :
  3 <= len <= 255 -> 3 <= off < 131071 -> bytes_ok rest ->
  match_token (le_val (take 4 (match_bytes len off ++ rest))) = (off, len, blen (match_bytes len off)).
Proof.
  intros Hl Ho Hr.
  assert (H4 : blen (match_bytes len off) <= 4).
  { unfold match_bytes, blen. repeat case_match; rewrite ?length_le_bytes; simpl; lia. }
  destruct (le_val_take4 (match_bytes len off) rest Hr H4) as (r & Hr0 & Hr4 & ->). rewrite match_token_arith. clear H4. revert Hr4.
  unfold match_bytes. destruct ((len =? 3) && (off <=? 63)) eqn:E1; [|destruct ((len =? 3) && (off <=? 16383)) eqn:E2;
    [|destruct ((len <=? 18) && (off <=? 1023)) eqn:E3; [|destruct (Z.leb_spec len 33)]]].
  - intros _. apply andb_prop in E1 as [->%Z.eqb_eq E1%Z.leb_le]. cbn [le_val]. rewrite Z.shiftl_mul_pow2 by lia. change (2 ^ 2) with 4.
    change (blen [u8 (off * 4)]) with 1. change (256 ^ 1) with 256. unfold u8. change (2 ^ 8) with 256. rewrite (Z.mod_small (off * 4)) by lia.
    pick_case. token_eq.
  - intros _. apply andb_prop in E2 as [->%Z.eqb_eq E2%Z.leb_le]. rewrite lor_one, le_val_le_bytes, u32_id by (change (2 ^ 32) with 4294967296; lia).
    unfold blen. rewrite length_le_bytes. change (256 ^ Z.of_nat 2) with 65536. rewrite (Z.mod_small (4 * off + 1)) by lia.
    pick_case. token_eq.
  - intros _. apply andb_prop in E3 as [E3%Z.leb_le E4%Z.leb_le]. rewrite (lor_fields (len - 3) off 2 6 2) by (change (2 ^ 2) with 4; change (2 ^ 6) with 64; lia).
    change (2 ^ 2) with 4. change (2 ^ 6) with 64. rewrite le_val_le_bytes, u32_id by (change (2 ^ 32) with 4294967296; lia).
    unfold blen. rewrite length_le_bytes. change (256 ^ Z.of_nat 2) with 65536. rewrite (Z.mod_small (2 + (len - 3) * 4 + off * 64)) by lia.
    pick_case. token_eq.
  - intros _. rewrite (lor_fields (len - 2) off 2 7 3) by (change (2 ^ 2) with 4; change (2 ^ 7) with 128; lia).
    change (2 ^ 2) with 4. change (2 ^ 7) with 128. rewrite le_val_le_bytes, u32_id by (change (2 ^ 32) with 4294967296; lia).
    unfold blen. rewrite length_le_bytes. change (256 ^ Z.of_nat 3) with 16777216. rewrite (Z.mod_small (3 + (len - 2) * 4 + off * 128)) by lia.
    pick_case. cbn [negb]. token_eq.
  - unfold blen at 1. rewrite length_le_bytes. intros Hr4. rewrite (Hr4 eq_refl).
    rewrite (lor_fields (len - 3) off 7 15 3) by (change (2 ^ 7) with 128; change (2 ^ 15) with 32768; lia).
    change (2 ^ 15) with 32768. change (2 ^ 7) with 128. rewrite le_val_le_bytes, u32_id by (change (2 ^ 32) with 4294967296; lia).
    unfold blen. rewrite length_le_bytes. change (256 ^ Z.of_nat 4) with 4294967296. rewrite (Z.mod_small (3 + (len - 3) * 128 + off * 32768)) by lia.
    pick_case. cbn [negb]. token_eq.
Qed.
