(* ===== verification/QuickLZDecomp.v ===== *)
(** * QuickLZ: the decompressor follows the stream

    [memcpy_up] copies overlapping text correctly although it moves four bytes
    at a time, and the main loop rebuilds any text that a well-formed stream
    describes, reading and writing inside the buffers only. *)
From Stdlib Require Import ZArith Lia List.
From stdpp Require Import base numbers list gmap.
From S2P Require Import Prelude QuickLZ QuickLZFormat.

(** ** Arrays *)
(** [d] agrees with [s] up to [n]. *)
Definition pre (n : Z) (d s : bytes) : Prop := forall i : nat, Z.of_nat i < n -> d !! i = s !! i.

Lemma pre_full d s : length d = length s -> pre (blen s) d s -> d = s.
Proof.
  intros Hl H. apply list_eq. intros i. destruct (decide (i < length s)%nat) as [Hi|Hi].
  - apply H. unfold blen. lia.
  - by rewrite !lookup_ge_None_2 by lia.
Qed.
Lemma pre_mono n n' d s : n' <= n -> pre n d s -> pre n' d s.
Proof. intros Hle H i Hi. apply H. lia. Qed.

Lemma read32_at s i X :
  0 <= i -> drop (Z.to_nat i) s = X -> 4 <= blen X -> read32 s i = Ret (le_val (take 4 X)).
Proof.
  intros Hi HX Hl. unfold read32. rewrite <- HX in *. unfold blen in *. rewrite length_drop in Hl.
  destruct (Z.ltb_spec i 0); [lia|]. destruct (Z.ltb_spec (Z.of_nat (length s)) (i + 4)); [lia|]. done.
Qed.

Lemma fetch_at (s : bytes) i b X : 0 <= i -> drop (Z.to_nat i) s = b :: X -> fetch s i = Ret b.
Proof.
  intros Hi HX. apply fetch_ret. split; [done|]. rewrite <- (Nat.add_0_r (Z.to_nat i)), <- lookup_drop. by rewrite HX.
Qed.

Lemma drop_at {A} (s : list A) i a X : 0 <= i -> drop (Z.to_nat i) s = a ++ X -> drop (Z.to_nat (i + Z.of_nat (length a))) s = X.
Proof.
  intros Hi HX. replace (Z.to_nat (i + Z.of_nat (length a))) with (Z.to_nat i + length a)%nat by lia.
  rewrite <- drop_drop, HX. apply drop_app_length.
Qed.

(** Writing four bytes [b]. *)
Lemma write32_bytes d i b :
  bytes_ok d -> bytes_ok b -> length b = 4%nat -> 0 <= i -> i + 4 <= blen d ->
  exists d', write32 d i (le_val b) = Ret d' /\ length d' = length d /\ bytes_ok d' /\
    forall j, d' !! j = if decide (Z.to_nat i <= j < Z.to_nat i + 4)%nat then b !! (j - Z.to_nat i)%nat else d !! j.
Proof.
  intros Hd Hb Hl Hi Hlen. unfold write32. destruct (Z.ltb_spec i 0); [lia|]. destruct (Z.ltb_spec (blen d) (i + 4)); [lia|]. cbn [orb].
  assert (le_bytes 4 (le_val b) = b) as -> by (rewrite <- Hl; by apply le_bytes_le_val). eexists. split; [done|]. unfold blen in *. split; [|split].
  - rewrite !length_app, length_take, length_drop. lia.
  - apply Forall_app. split; [by apply Forall_take|]. apply Forall_app. split; [done|by apply Forall_drop].
  - intros j. destruct (decide (j < Z.to_nat i)%nat) as [Hj|Hj].
    + rewrite lookup_app_l by (rewrite length_take; lia). rewrite lookup_take_lt by lia. by rewrite decide_False by lia.
    + rewrite lookup_app_r by (rewrite length_take; lia). rewrite length_take, Nat.min_l by lia.
      destruct (decide (Z.to_nat i <= j < Z.to_nat i + 4)%nat).
      * by rewrite lookup_app_l by lia.
      * rewrite lookup_app_r by lia. rewrite lookup_drop. f_equal. lia.
Qed.

(** One round of [memcpy_up]. *)
Lemma copy4 d dst src :
  bytes_ok d -> 0 <= src -> 0 <= dst -> src + 4 <= blen d -> dst + 4 <= blen d ->
  exists d', (x ← read32 d src; write32 d dst x) = Ret d' /\ length d' = length d /\ bytes_ok d' /\
    forall j, d' !! j = if decide (Z.to_nat dst <= j < Z.to_nat dst + 4)%nat then d !! (Z.to_nat src + (j - Z.to_nat dst))%nat else d !! j.
Proof.
  intros Hd Hs Hdst Hls Hld. unfold blen in *.
  assert (Hl : length (take 4 (drop (Z.to_nat src) d)) = 4%nat) by (rewrite length_take, length_drop; lia).
  rewrite (read32_at d src _ Hs eq_refl) by (unfold blen; rewrite length_drop; lia). cbn [mbind outcome_bind].
  destruct (write32_bytes d dst (take 4 (drop (Z.to_nat src) d))) as (d' & -> & H1 & H2 & H3); auto.
  { apply Forall_take. by apply Forall_drop. }
  exists d'. split; [done|]. split; [done|]. split; [done|]. intros j. rewrite H3. case_decide; [|done].
  rewrite lookup_take_lt by lia. by rewrite lookup_drop.
Qed.

Lemma memcpy_up_spec s fuel d dst off f n :
  bytes_ok d -> length d = length s -> 3 <= off <= dst -> 0 <= f < n -> n - f <= Z.of_nat fuel ->
  dst + n + 4 <= blen s -> pre (dst + f) d s ->
  (forall i, dst <= i < dst + n -> s !! Z.to_nat i = s !! Z.to_nat (i - off)) ->
  exists d', memcpy_up fuel d dst (dst - off) f n = Ret d' /\ length d' = length s /\ bytes_ok d' /\ pre (dst + n) d' s.
Proof.
  revert d f. induction fuel as [|fuel IH]; intros d f Hd Hl Hoff Hf Hfuel Hlen Hpre Hs; [lia|].
  cbn [memcpy_up]. unfold blen in *.
  destruct (copy4 d (dst + f) (dst - off + f)) as (d1 & E & Hl1 & Hd1 & Hlk); auto; try (unfold blen; lia).
  apply bind_ret in E as (x & -> & E). cbn [mbind outcome_bind]. rewrite E. cbn [mbind outcome_bind].
  assert (Hpre1 : pre (dst + Z.min n (f + 3)) d1 s).
  { intros j Hj. rewrite Hlk. case_decide as Hc; [|apply Hpre; lia].
    assert (Hsj := Hs (Z.of_nat j) ltac:(lia)). rewrite Nat2Z.id in Hsj. rewrite Hsj.
    replace (Z.to_nat (dst - off + f) + (j - Z.to_nat (dst + f)))%nat with (Z.to_nat (Z.of_nat j - off)) by lia.
    apply Hpre. lia. }
  unfold MINOFFSET. change (2 + 1) with 3. destruct (Z.ltb_spec (f + 3) n).
  - apply IH; auto; try lia. by replace (f + 3) with (Z.min n (f + 3)) by lia.
  - exists d1. split; [done|]. split; [lia|]. split; [done|]. by replace n with (Z.min n (f + 3)) by lia.
Qed.

Lemma pow2_pred m : 1 <= m -> 2 ^ m = 2 * 2 ^ (m - 1).
Proof. intros Hm. rewrite <- Z.pow_succ_r by lia. f_equal. lia. Qed.

(** ** The state between two tokens *)
(** Groups: all full but the last. *)
Fixpoint groups_ok (GS : list (list token)) : Prop :=
  match GS with
  | [] => True
  | G :: r => (1 <= length G <= 31)%nat /\ (r <> [] -> length G = 31%nat) /\ groups_ok r
  end.

(** [R] is what is left of the open group, [GS] the groups after it, [cw] the
    control word shifted by the tokens that were read. *)
Record dstate (s comp junk : bytes) R GS m src dst (d : bytes) cw : Prop := {
  ds_src : 0 <= src;
  ds_dst : 0 <= dst <= blen s;
  ds_stream : drop (Z.to_nat src) comp = toks_bytes R ++ flat_map group GS ++ junk;
  ds_cw : cw = flags R + 2 ^ m;
  ds_m : Z.of_nat (length R) <= m <= 31;
  ds_open : GS <> [] -> Z.of_nat (length R) = m;
  ds_groups : groups_ok GS;
  ds_toks : toks_ok s dst (R ++ concat GS);
  ds_len : length d = length s;
  ds_bytes : bytes_ok d;
  ds_pre : pre dst d s
}.

Lemma dstate_done s comp junk R GS m src d cw : dstate s comp junk R GS m src (blen s) d cw -> d = s.
Proof. intros []. by apply pre_full. Qed.

(** The control word of the next group is read when the open one is used up. *)
Lemma dstate_next s comp junk R GS m src dst d cw :
  dstate s comp junk R GS m src dst d cw -> dst < blen s ->
  (cw = 1 /\ R = [] /\ exists G GS', GS = G :: GS' /\ dstate s comp junk G GS' 31 (src + 4) dst d (flags G + 2 ^ 31) /\ G <> [] /\
     drop (Z.to_nat src) comp = le_bytes 4 (flags G + 2 ^ 31) ++ toks_bytes G ++ flat_map group GS' ++ junk) \/
  (cw <> 1 /\ R <> []).
Proof.
  intros [] Hlt. pose proof (flags_range R) as Hf. destruct (Z.eq_dec m 0) as [->|Hm].
  - left. destruct R as [|x R]; [|simpl in ds_m0; lia]. split; [by rewrite ds_cw0|]. split; [done|].
    destruct GS as [|G GS]; [simpl in ds_toks0; lia|]. destruct ds_groups0 as (Hg1 & Hg2 & Hg3).
    cbn [flat_map app concat] in *. unfold group at 1 in ds_stream0. rewrite <- !app_assoc in ds_stream0.
    exists G, GS. split; [done|]. split; [|split; [by destruct G; simpl in *; [lia|]|done]].
    constructor; auto; try lia.
    + change 4 with (Z.of_nat (length (le_bytes 4 (flags G + 2 ^ 31)))). eapply drop_at; [done|]. exact ds_stream0.
    + intros H. rewrite Hg2 by done. done.
  - right. assert (2 ^ 1 <= 2 ^ m) by (apply Z.pow_le_mono_r; lia). split; [lia|]. intros ->.
    destruct GS as [|G GS]; [simpl in ds_toks0; lia|]. specialize (ds_open0 ltac:(done)). simpl in ds_open0. lia.
Qed.

(** At least four bytes of stream remain wherever the loop reads. *)
Lemma dstate_bytes s comp junk R GS m src dst d cw :
  dstate s comp junk R GS m src dst d cw -> 4 <= Z.min 4 (blen s - dst) + blen junk ->
  4 <= blen (toks_bytes R ++ flat_map group GS ++ junk).
Proof.
  intros [] Hsl. pose proof (toks_bytes_len s dst _ ds_toks0) as Hl. rewrite flat_map_app, blen_app in Hl.
  assert (blen (toks_bytes (concat GS)) <= blen (flat_map group GS)).
  { clear. induction GS as [|G GS IH]; [done|]. cbn [concat flat_map]. rewrite flat_map_app, !blen_app. unfold group at 1.
    rewrite blen_app. pose proof (blen_nonneg (le_bytes 4 (flags G + 2 ^ 31))). lia. }
  rewrite !blen_app. lia.
Qed.

(** Runs of literals. *)
Lemma lit_run s L T pos :
  Forall is_lit L -> 0 <= pos -> toks_ok s pos (L ++ T) ->
  toks_ok s (pos + Z.of_nat (length L)) T /\ length (toks_bytes L) = length L /\
  forall i, (i < length L)%nat -> s !! (Z.to_nat pos + i)%nat = toks_bytes L !! i.
Proof.
  intros HL. revert pos. induction HL as [|x L Hx _ IH]; intros pos Hp HT; cbn [app] in *.
  { rewrite Z.add_0_r. split; [done|]. split; [done|]. simpl. lia. }
  destruct HT as (Hpos & Htok & HT). destruct x as [b|]; [|done]. simpl in *.
  destruct (IH (pos + 1) ltac:(lia) HT) as (H1 & H2 & H3). split; [|split; [by rewrite H2|]].
  - replace (pos + Z.of_nat (S (length L))) with (pos + 1 + Z.of_nat (length L)) by lia. done.
  - intros [|i] Hi; [rewrite Nat.add_0_r; done|]. simpl. rewrite <- H3 by lia. f_equal. lia.
Qed.

(** The control word says so. *)
Lemma flags_lits R m n :
  Z.of_nat (length R) <= m -> (n <= length R)%nat -> (flags R + 2 ^ m) mod 2 ^ Z.of_nat n = 0 ->
  Forall is_lit (take n R) /\ Z.shiftr (flags R + 2 ^ m) (Z.of_nat n) = flags (drop n R) + 2 ^ (m - Z.of_nat n).
Proof.
  revert R m. induction n as [|n IH]; intros R m Hm Hn Hz.
  { rewrite Z.shiftr_0_r, Z.sub_0_r. split; [constructor|done]. }
  destruct R as [|x R]; [simpl in Hn; lia|]. cbn [flags length take drop] in *.
  replace m with (m - 1 + 1) in * by lia. rewrite Z.pow_add_r in * by lia. change (2 ^ 1) with 2 in *.
  set (y := flags R + 2 ^ (m - 1)). replace (tok_flag x + 2 * flags R + 2 ^ (m - 1) * 2) with (tok_flag x + y * 2) in * by (unfold y; lia).
  pose proof (tok_flag_range x) as Hx. rewrite Nat2Z.inj_succ, Z.pow_succ_r in Hz by lia.
  assert (0 < 2 ^ Z.of_nat n) by (apply Z.pow_pos_nonneg; lia).
  rewrite Z.rem_mul_r in Hz by lia. rewrite Z.div_add, Z.mod_add, (Z.mod_small (tok_flag x)), Z.div_small in Hz by lia.
  pose proof (Z.mod_pos_bound (0 + y) (2 ^ Z.of_nat n) ltac:(done)).
  assert (Hx0 : tok_flag x = 0) by lia. rewrite Hx0 in *. rewrite Z.add_0_l in *.
  rewrite ?Z.add_0_l in Hz.  destruct (IH R (m - 1)) as [H1 H2]; [lia|lia|unfold y in *; lia|]. split; [by constructor|].
  rewrite Nat2Z.inj_succ. rewrite !Z.shiftr_div_pow2 in * by lia. rewrite Z.pow_succ_r by lia.
  rewrite <- Z.div_div by lia. rewrite Z.div_mul by lia. unfold y. rewrite H2. f_equal. f_equal. lia.
Qed.

(** ** The literals at the end *)
Lemma flags_lits_0 R : Forall is_lit R -> flags R = 0.
Proof. induction 1 as [|x R Hx _ IH]; [done|]. cbn [flags]. rewrite IH, Hx. done. Qed.

(** One literal moved from the stream to the output. *)
Lemma dstate_literal s comp junk b R GS m src dst d cw :
  dstate s comp junk (Lit b :: R) GS m src dst d cw -> byte_ok b ->
  fetch comp src = Ret b /\ fetch d dst = Ret (d !!! Z.to_nat dst) /\
  dstate s comp junk R GS (m - 1) (src + 1) (dst + 1) (<[Z.to_nat dst := b]> d) (Z.shiftr cw 1).
Proof.
  intros [] Hb. cbn [flat_map tok_bytes app toks_ok length flags tok_flag] in *. destruct ds_toks0 as (Hp & Hx & HT). cbn [tok_ok tok_len] in *.
  assert (Hlt : (Z.to_nat dst < length d)%nat) by (unfold blen in *; lia).
  split; [by eapply fetch_at|]. split.
  { apply fetch_ret. split; [lia|]. by apply list_lookup_lookup_total_lt. }
  constructor; auto; try lia.
  - replace (src + 1) with (src + Z.of_nat (length [b])) by done. by eapply drop_at.
  - subst cw. rewrite Z.shiftr_div_pow2 by lia. change (2 ^ 1) with 2. rewrite Z.add_0_l.
    rewrite (pow2_pred m) by lia.
    rewrite <- Z.mul_add_distr_l, Z.mul_comm. apply Z.div_mul. lia.
  - intros H. specialize (ds_open0 H). lia.
  - by rewrite length_insert.
  - apply Forall_insert; auto.
  - intros i Hi. destruct (decide (i = Z.to_nat dst)) as [->|Hne].
    + rewrite list_lookup_insert_eq by done. done.
    + rewrite list_lookup_insert_ne by done. apply ds_pre0. lia.
Qed.

Lemma literal_loop_spec s comp junk fuel R GS m src dst d cw :
  bytes_ok s -> dstate s comp junk R GS m src dst d cw -> Forall is_lit (R ++ concat GS) -> blen s - dst < Z.of_nat fuel ->
  literal_loop fuel comp d cw src dst = Ret s.
Proof.
  intros Hs. revert R GS m src dst d cw. induction fuel as [|fuel IH]; intros R GS m src dst d cw D HL Hf; [pose proof (ds_dst _ _ _ _ _ _ _ _ _ _ D); lia|].
  cbn [literal_loop]. pose proof (ds_dst _ _ _ _ _ _ _ _ _ _ D) as Hd. pose proof (ds_len _ _ _ _ _ _ _ _ _ _ D) as Hl.
  replace (blen d) with (blen s) by (unfold blen; lia).
  destruct (Z.leb_spec dst (blen s - 1)).
  2: { assert (dst = blen s) as -> by lia. f_equal. by eapply dstate_done. }
  assert (Hstep : forall b R GS m src cw, dstate s comp junk (Lit b :: R) GS m src dst d cw -> Forall is_lit (R ++ concat GS) ->
    (c ← fetch comp src; _ ← fetch d dst; literal_loop fuel comp (<[Z.to_nat dst := c]> d) (Z.shiftr cw 1) (src + 1) (dst + 1)) = Ret s).
  { clear -IH Hs Hf. intros b R GS m src cw D HL. assert (Hb : byte_ok b).
    { destruct (ds_toks _ _ _ _ _ _ _ _ _ _ D) as (_ & Hx & _). by eapply (proj1 (Forall_lookup _ _) Hs). }
    destruct (dstate_literal _ _ _ _ _ _ _ _ _ _ _ D Hb) as (-> & -> & D'). cbn [mbind outcome_bind].
    eapply IH; [exact D'|done|lia]. }
  destruct (dstate_next _ _ _ _ _ _ _ _ _ _ D ltac:(lia)) as [(-> & -> & G & GS' & -> & D' & HG & HX)|[Hne HR]].
  - rewrite Z.eqb_refl. cbn [app concat] in HL. rename HL into HL'.
    destruct G as [|x G]; [done|]. cbn [app] in HL'. apply Forall_cons in HL' as [Hx HL'].
    destruct x as [b|]; [|done]. change (Z.shiftl 1 31) with (0 + 2 ^ 31).
    apply Forall_app in HL' as [HG1 HG2].
    assert (Hfl : flags (Lit b :: G) = 0) by (apply flags_lits_0; by constructor). rewrite Hfl in D'.
    eapply Hstep; [exact D'|by apply Forall_app].
  - destruct (Z.eqb_spec cw 1); [done|]. destruct R as [|x R]; [done|]. cbn [app] in HL. apply Forall_cons in HL as [Hx HL].
    destruct x as [b|]; [|done]. by eapply Hstep.
Qed.

(** ** The main loop *)
Lemma bitlut_spec x :
  0 <= x -> x mod 2 = 0 -> exists n : nat, fetch bitlut (Z.land x 0xf) = Ret (Z.of_nat n) /\ (1 <= n <= 4)%nat /\ x mod 2 ^ Z.of_nat n = 0.
Proof.
  intros Hx H2. rewrite (land_mod x 4 0xf) by lia. change (2 ^ 4) with 16.
  assert (Hm : x mod 2 = (x mod 16) mod 2 /\ x mod 4 = (x mod 16) mod 4 /\ x mod 8 = (x mod 16) mod 8) by (Z.div_mod_to_equations; lia).
  destruct Hm as (E2 & E4 & E8). rewrite H2 in E2. pose proof (Z.mod_pos_bound x 16 ltac:(lia)) as Hr.
  assert (Hc : x mod 16 = 0 \/ x mod 16 = 2 \/ x mod 16 = 4 \/ x mod 16 = 6 \/ x mod 16 = 8 \/ x mod 16 = 10 \/ x mod 16 = 12 \/ x mod 16 = 14).
  { clear -E2 Hr. symmetry in E2. Z.div_mod_to_equations. lia. }
  repeat match type of Hc with _ \/ _ => destruct Hc as [Hc|Hc] end; rewrite Hc in *;
    [exists 4%nat|exists 1%nat|exists 2%nat|exists 1%nat|exists 3%nat|exists 1%nat|exists 2%nat|exists 1%nat]; (split; [done|split; [lia|]]).
  - exact Hc.
  - exact H2.
  - exact E4.
  - exact H2.
  - exact E8.
  - exact H2.
  - exact E4.
  - exact H2.
Qed.

(** A copy. *)
Lemma dstate_copy s comp junk len off R GS m src dst d cw :
  dstate s comp junk (Copy len off :: R) GS m src dst d cw ->
  exists d', memcpy_up 256 d dst (dst - off) 0 len = Ret d' /\
    dstate s comp junk R GS (m - 1) (src + blen (match_bytes len off)) (dst + len) d' (Z.shiftr cw 1) /\ dst + len <= blen s - 4.
Proof.
  intros []. cbn [flat_map tok_bytes app toks_ok length flags tok_flag] in *. destruct ds_toks0 as (Hp & Hx & HT). cbn [tok_ok tok_len] in *.
  unfold UNCOMPRESSED_END in Hx. destruct Hx as (Hl & Ho & Hop & _ & Hend & Hs).
  destruct (memcpy_up_spec s 256 d dst off 0 len) as (d' & E & Hl' & Hb' & Hpre'); auto; try lia.
  { by rewrite Z.add_0_r. }
  exists d'. split; [done|]. split; [|done]. constructor; auto; try lia.
  - pose proof (blen_nonneg (match_bytes len off)). lia.
  - rewrite <- app_assoc in ds_stream0. by eapply drop_at.
  - subst cw. rewrite Z.shiftr_div_pow2 by lia. change (2 ^ 1) with 2.
    rewrite (pow2_pred m) by lia.
    replace (1 + 2 * flags R + 2 * 2 ^ (m - 1)) with (1 + (flags R + 2 ^ (m - 1)) * 2) by lia. rewrite Z.div_add by lia. done.
  - intros H. specialize (ds_open0 H). lia.
Qed.

(** Up to four literals at once. *)
Lemma dstate_run s comp junk b R GS m src dst d cw :
  bytes_ok comp -> dstate s comp junk (Lit b :: R) GS m src dst d cw -> dst < last_matchstart (blen s) ->
  exists (n : nat) x d', read32 comp src = Ret x /\ write32 d dst x = Ret d' /\ fetch bitlut (Z.land cw 0xf) = Ret (Z.of_nat n) /\ (1 <= n <= 4)%nat /\
    dstate s comp junk (drop n (Lit b :: R)) GS (m - Z.of_nat n) (src + Z.of_nat n) (dst + Z.of_nat n) d' (Z.shiftr cw (Z.of_nat n)).
Proof.
  intros Hc D Hlt. pose proof (dstate_bytes _ _ _ _ _ _ _ _ _ _ D) as H4. unfold last_matchstart, UNCONDITIONAL_MATCHLEN, UNCOMPRESSED_END in Hlt.
  pose proof (blen_nonneg junk). specialize (H4 ltac:(lia)). destruct D. set (T := Lit b :: R) in *.
  assert (HT1 : (1 <= length T)%nat) by (unfold T; simpl; lia).
  assert (Hcw : 0 <= cw /\ cw mod 2 = 0).
  { pose proof (flags_range T). assert (0 < 2 ^ m) by (apply Z.pow_pos_nonneg; lia). split; [lia|]. subst cw. unfold T. cbn [flags tok_flag length] in *.
    rewrite (pow2_pred m) by lia.
    replace (0 + 2 * flags R + 2 * 2 ^ (m - 1)) with ((flags R + 2 ^ (m - 1)) * 2) by lia. apply Z.mod_mul. lia. }
  destruct (bitlut_spec cw (proj1 Hcw) (proj2 Hcw)) as (n & Hn & Hn4 & Hmod).
  set (X := toks_bytes T ++ flat_map group GS ++ junk) in *.
  assert (HX : bytes_ok X) by (rewrite <- ds_stream0; by apply Forall_drop).
  destruct (write32_bytes d dst (take 4 X)) as (d' & Hw & Hl' & Hb' & Hlk); auto; try (unfold blen in *; lia).
  { by apply Forall_take. } { rewrite length_take. unfold blen in H4. lia. }
  exists n, (le_val (take 4 X)), d'. split; [by apply read32_at|]. split; [done|]. split; [done|]. split; [done|].
  assert (HnT : (n <= length T)%nat).
  { destruct (decide (n <= length T)%nat) as [|Hgt]; [done|exfalso].
    assert (Hmod' : cw mod 2 ^ Z.of_nat (length T) = 0).
    { replace (Z.of_nat n) with (Z.of_nat (length T) + (Z.of_nat n - Z.of_nat (length T))) in Hmod by lia.
      rewrite Z.pow_add_r in Hmod by lia. pose proof (Z.mod_divide cw (2 ^ Z.of_nat (length T) * 2 ^ (Z.of_nat n - Z.of_nat (length T)))) as Hdv.
      apply Z.mod_divide; [apply Z.pow_nonzero; lia|]. apply Hdv in Hmod; [|apply Z.neq_mul_0; split; apply Z.pow_nonzero; lia].
      etransitivity; [|exact Hmod]. apply Z.divide_factor_l. }
    subst cw. destruct (flags_lits T m (length T)) as [HL _]; [lia|done|done|]. rewrite take_ge in HL by done.
    destruct GS as [|G GS'].
    - cbn [concat] in ds_toks0. rewrite <- (app_nil_r T) in ds_toks0 at 1. rewrite app_nil_r in ds_toks0.
      destruct (lit_run s T [] dst) as (H1 & _); auto; [lia|]. cbn [toks_ok] in H1. lia.
    - specialize (ds_open0 ltac:(done)). rewrite (flags_lits_0 T HL) in Hmod. rewrite Z.add_0_l in Hmod.
      rewrite Z.mod_small in Hmod; [|split; [apply Z.pow_nonneg; lia|apply Z.pow_lt_mono_r; lia]].
      pose proof (Z.pow_pos_nonneg 2 m ltac:(lia) ltac:(lia)). lia. }
  subst cw. destruct (flags_lits T m n) as [HL Hsh]; [lia|done|done|].
  rewrite <- (take_drop n T), <- app_assoc in ds_toks0.
  destruct (lit_run s (take n T) (drop n T ++ concat GS) dst HL) as (H1 & H2 & H3); [lia|done|].
  rewrite length_take, Nat.min_l in H1, H2, H3 by done.
  constructor; auto; try lia.
  - replace (src + Z.of_nat n) with (src + Z.of_nat (length (toks_bytes (take n T)))) by lia. eapply drop_at; [done|].
    rewrite ds_stream0. unfold X. rewrite (app_assoc (toks_bytes (take n T))), <- flat_map_app. by rewrite take_drop.
  - rewrite length_drop. lia.
  - intros H'. specialize (ds_open0 H'). rewrite length_drop. lia.
  - intros i Hi. rewrite Hlk. case_decide as Hdec; [|apply ds_pre0; lia].
    rewrite lookup_take_lt by lia. unfold X. replace (toks_bytes T) with (toks_bytes (take n T) ++ toks_bytes (drop n T))
      by (rewrite <- flat_map_app; by rewrite take_drop). rewrite <- app_assoc, lookup_app_l by lia. rewrite <- H3 by lia. f_equal. lia.
Qed.

Lemma dstate_odd s comp junk x R GS m src dst d cw :
  dstate s comp junk (x :: R) GS m src dst d cw -> Z.land cw 1 = tok_flag x.
Proof.
  intros []. cbn [flags length] in *. rewrite (land_mod cw 1 1) by lia. change (2 ^ 1) with 2. subst cw.
  rewrite (pow2_pred m) by lia. replace (tok_flag x + 2 * flags R + 2 * 2 ^ (m - 1)) with (tok_flag x + (flags R + 2 ^ (m - 1)) * 2) by lia.
  pose proof (tok_flag_range x). rewrite Z.mod_add by lia. apply Z.mod_small. lia.
Qed.

Lemma decompress_loop_spec s comp junk fuel R GS m src dst d cw :
  bytes_ok s -> bytes_ok comp -> dstate s comp junk R GS m src dst d cw -> dst < blen s ->
  4 <= Z.min 4 (blen s - dst) + blen junk -> blen s - dst < Z.of_nat fuel ->
  decompress_loop fuel comp d cw src dst = Ret s.
Proof.
  intros Hs Hc. revert R GS m src dst d cw. induction fuel as [|fuel IH]; intros R GS m src dst d cw D Hlt Hsl Hf; [lia|].
  cbn [decompress_loop]. pose proof (ds_len _ _ _ _ _ _ _ _ _ _ D) as Hld. pose proof (blen_nonneg junk) as Hj.
  assert (Hbody : forall x R GS m src cw, dstate s comp junk (x :: R) GS m src dst d cw ->
    (f ← fast_read comp src;
     if Z.land cw 1 =? 1 then
        let '(offset, matchlen, n) := match_token f in
        d ← memcpy_up 256 d dst (dst - offset) 0 matchlen;
        decompress_loop fuel comp d (Z.shiftr cw 1) (src + n) (dst + matchlen)
      else if dst <? last_matchstart (blen d) then
        x ← read32 comp src;
        d ← write32 d dst x;
        n ← fetch bitlut (Z.land cw 0xf);
        decompress_loop fuel comp d (Z.shiftr cw n) (src + n) (dst + n)
      else literal_loop (S (length d)) comp d cw src dst) = Ret s).
  { clear D R GS m src cw. intros x R GS m src cw D. pose proof (dstate_bytes _ _ _ _ _ _ _ _ _ _ D Hsl) as H4. pose proof (dstate_odd _ _ _ _ _ _ _ _ _ _ _ D) as Hodd.
    pose proof (ds_stream _ _ _ _ _ _ _ _ _ _ D) as HX. pose proof (ds_src _ _ _ _ _ _ _ _ _ _ D) as Hsrc.
    unfold fast_read. rewrite (read32_at comp src _ Hsrc HX H4). cbn [mbind outcome_bind]. rewrite Hodd.
    replace (blen d) with (blen s) by (unfold blen; lia). destruct x as [b|len off]; cbn [tok_flag Z.eqb Pos.eqb].
    - destruct (Z.ltb_spec dst (last_matchstart (blen s))) as [Hlm|Hlm].
      + destruct (dstate_run _ _ _ _ _ _ _ _ _ _ _ Hc D Hlm) as (n & y & d' & Hy & Hw & Hn & Hn4 & D').
        rewrite (read32_at comp src _ Hsrc HX H4) in Hy. set (v := le_val _) in Hy |- *. injection Hy as <-. cbn [mbind outcome_bind].
        rewrite Hw. cbn [mbind outcome_bind]. rewrite Hn. cbn [mbind outcome_bind].
        unfold last_matchstart, UNCONDITIONAL_MATCHLEN, UNCOMPRESSED_END in Hlm. eapply IH; [exact D'|lia..].
      + pose proof (ds_toks _ _ _ _ _ _ _ _ _ _ D) as HT. cbn [app] in HT. apply toks_lits_from in HT; [|done].
        eapply literal_loop_spec; [done|exact D|done|]. pose proof (ds_dst _ _ _ _ _ _ _ _ _ _ D). unfold blen in *. lia.
    - cbn [flat_map tok_bytes]. rewrite <- app_assoc, match_token_bytes.
      + destruct (dstate_copy _ _ _ _ _ _ _ _ _ _ _ _ D) as (d' & -> & D' & Hend). cbn [mbind outcome_bind].
        pose proof (ds_toks _ _ _ _ _ _ _ _ _ _ D) as (_ & (Hlen & _) & _). eapply IH; [exact D'|lia..].
      + by destruct (ds_toks _ _ _ _ _ _ _ _ _ _ D) as (_ & (? & _) & _).
      + by destruct (ds_toks _ _ _ _ _ _ _ _ _ _ D) as (_ & (_ & ? & _) & _).
      + assert (Hbx : bytes_ok (drop (Z.to_nat src) comp)) by by apply Forall_drop. rewrite HX in Hbx.
        cbn [flat_map tok_bytes] in Hbx. rewrite <- app_assoc in Hbx. by apply Forall_app in Hbx as [_ ?]. }
  destruct (dstate_next _ _ _ _ _ _ _ _ _ _ D Hlt) as [(-> & -> & G & GS' & -> & D' & HG & HX)|[Hne HR]].
  - rewrite Z.eqb_refl. change (fast_read comp src) with (read32 comp src). rewrite (read32_at comp src _ (ds_src _ _ _ _ _ _ _ _ _ _ D) HX).
    2: { rewrite !blen_app. unfold blen at 1. rewrite length_le_bytes. pose proof (blen_nonneg (toks_bytes G)). pose proof (blen_nonneg (flat_map group GS')). lia. }
    cbn [mbind outcome_bind]. change (take 4 (le_bytes 4 (flags G + 2 ^ 31) ++ _)) with (le_bytes 4 (flags G + 2 ^ 31)).
    pose proof (flags_range G) as Hfl. pose proof (ds_m _ _ _ _ _ _ _ _ _ _ D') as Hm.
    assert (2 ^ Z.of_nat (length G) <= 2 ^ 31) by (apply Z.pow_le_mono_r; lia).
    rewrite le_val_le_bytes_id by (change (256 ^ Z.of_nat 4) with 4294967296; change (2 ^ 31) with 2147483648 in *; lia).
    unfold CWORD_LEN. destruct G as [|x G]; [done|]. eapply Hbody, D'.
  - destruct (Z.eqb_spec cw 1); [done|]. cbn [mbind outcome_bind]. destruct R as [|x R]; [done|]. eapply Hbody, D.
Qed.
