(* ===== verification/QuickLZComp.v ===== *)
(** * QuickLZ: the compressor writes a well-formed stream

    Whatever the hash table suggests, the tokens written describe the source; the
    reads of the search stay inside it, and the loops end. *)
From Stdlib Require Import ZArith Lia List.
From stdpp Require Import base numbers list gmap.
From S2P Require Import Prelude QuickLZ QuickLZFormat QuickLZDecomp.

(** ** The output *)
Definition put (o : Out) (x : token) : Out :=
  match x with Lit b => put_literal o b | Copy len off => put_match o (match_bytes len off) end.

(** [o] holds the full groups [GS] and the open group [P]. *)
Record rep (o : Out) (GS : list (list token)) (P : list token) : Prop := {
  rep_done : done o = flat_map group GS;
  rep_groups : Forall (fun G => length G = 31%nat) GS;
  rep_pend : pend o = toks_bytes P;
  rep_len : (length P <= 31)%nat;
  rep_cw : cword_val o = 2 ^ (31 - Z.of_nat (length P)) * (1 + 2 * flags P)
}.

Lemma rep_init : rep out_init [] [].
Proof. constructor; try done; simpl; lia. Qed.

Lemma put_rep o GS P x : rep o GS P -> (length P < 31)%nat -> rep (put o x) GS (P ++ [x]).
Proof.
  intros [H1 H2 H3 H4 H5] Hlt. pose proof (flags_range P) as Hf.
  assert (Hsh : Z.shiftr (cword_val o) 1 = 2 ^ (31 - Z.of_nat (S (length P))) * (1 + 2 * flags P)).
  { rewrite H5, (pow2_pred (31 - Z.of_nat (length P))) by lia. rewrite Z.shiftr_div_pow2 by lia. change (2 ^ 1) with 2.
    rewrite <- Z.mul_assoc, Z.mul_comm, Z.div_mul by lia. do 2 f_equal. lia. }
  assert (Hlt31 : 2 ^ (31 - Z.of_nat (S (length P))) * (1 + 2 * flags P) < 2 ^ 31).
  { replace (2 ^ 31) with (2 ^ (31 - Z.of_nat (S (length P))) * (2 * 2 ^ Z.of_nat (length P))).
    - apply Z.mul_lt_mono_pos_l; [apply Z.pow_pos_nonneg; lia|lia].
    - rewrite <- Z.pow_succ_r, <- Z.pow_add_r by lia. f_equal. lia. }
  destruct x as [b|len off]; constructor; cbn [put put_literal put_match done pend cword_val]; auto;
    try (rewrite H3, flat_map_app; cbn [flat_map tok_bytes]; by rewrite app_nil_r); try (rewrite length_app; simpl; lia);
    rewrite length_app, flags_snoc, Nat.add_comm; cbn [length Nat.add tok_flag].
  - rewrite Hsh. f_equal. lia.
  - rewrite Hsh. rewrite lor_shiftl_add.
    + replace (1 * 2 ^ 31) with (2 ^ (31 - Z.of_nat (S (length P))) * (2 * 2 ^ Z.of_nat (length P))); [lia|].
      rewrite Z.mul_1_l, <- Z.pow_succ_r, <- Z.pow_add_r by lia. f_equal. lia.
    + lia.
    + split; [|done]. apply Z.mul_nonneg_nonneg; [apply Z.pow_nonneg; lia|lia].
Qed.

Lemma full_rep o GS P : rep o GS P -> full o = bool_decide (length P = 31%nat).
Proof.
  intros [_ _ _ H4 H5]. unfold full. rewrite (land_mod _ 1 1) by lia. change (2 ^ 1) with 2. rewrite H5.
  destruct (decide (length P = 31%nat)) as [E|E].
  - rewrite E. rewrite bool_decide_true by done. change (2 ^ (31 - Z.of_nat 31)) with 1.
    replace (1 * (1 + 2 * flags P)) with (1 + flags P * 2) by lia. by rewrite Z.mod_add by lia.
  - rewrite bool_decide_false by done. rewrite (pow2_pred (31 - Z.of_nat (length P))) by lia.
    replace (2 * 2 ^ (31 - Z.of_nat (length P) - 1) * (1 + 2 * flags P)) with (2 ^ (31 - Z.of_nat (length P) - 1) * (1 + 2 * flags P) * 2) by lia.
    by rewrite Z.mod_mul by lia.
Qed.

(** The control word of a group. *)
Lemma cword_group P : (length P <= 31)%nat -> cword_bytes (1 + 2 * flags P) = le_bytes 4 (flags P + 2 ^ 31).
Proof.
  intros Hl. pose proof (flags_range P). unfold cword_bytes. rewrite Z.shiftr_div_pow2 by lia. change (2 ^ 1) with 2.
  replace ((1 + 2 * flags P) / 2) with (flags P) by (Z.div_mod_to_equations; lia).
  assert (2 ^ Z.of_nat (length P) <= 2 ^ 31) by (apply Z.pow_le_mono_r; lia).
  rewrite lor_shiftl_add by lia. by rewrite Z.mul_1_l.
Qed.

Lemma flush_rep o GS P : rep o GS P -> length P = 31%nat -> rep (flush o) (GS ++ [P]) [].
Proof.
  intros [H1 H2 H3 H4 H5] E. constructor; cbn [flush done pend cword_val]; try done; try (simpl; lia).
  - rewrite flat_map_app, H1, H3, H5, E. cbn [flat_map]. rewrite app_nil_r. unfold group.
    change (2 ^ (31 - Z.of_nat 31)) with 1. rewrite Z.mul_1_l, cword_group by lia. done.
  - apply Forall_app. split; [done|]. by apply Forall_cons_2; [|constructor].
Qed.

(** A token added, a new group being opened when the last one is full. *)
Lemma step_rep o GS P x :
  rep o GS P -> exists GS' P', rep (put (if full o then flush o else o) x) GS' P' /\
    concat GS' ++ P' = (concat GS ++ P) ++ [x] /\ P' <> [].
Proof.
  intros H. rewrite (full_rep o GS P H). destruct (decide (length P = 31%nat)) as [E|E].
  - rewrite bool_decide_true by done. exists (GS ++ [P]), ([] ++ [x]). split; [apply put_rep; [by apply flush_rep|simpl; lia]|].
    split; [|done]. rewrite concat_app. simpl. by rewrite app_nil_r, <- app_assoc.
  - rewrite bool_decide_false by done. exists GS, (P ++ [x]). split; [apply put_rep; [done|]|].
    + pose proof (rep_len _ _ _ H). lia.
    + split; [by rewrite app_assoc|]. by destruct P.
Qed.

Lemma align_rep o GS P : rep o GS P -> align_cword 32 (cword_val o) = Ret (1 + 2 * flags P).
Proof.
  intros [_ _ _ H4 H5]. rewrite H5. assert (Hg : forall k fuel x, (k < fuel)%nat -> align_cword fuel (2 ^ Z.of_nat k * (1 + 2 * x)) = Ret (1 + 2 * x)).
  { induction k as [|k IH]; intros fuel x Hk; (destruct fuel as [|fuel]; [lia|]); cbn [align_cword]; rewrite (land_mod _ 1 1) by lia; change (2 ^ 1) with 2.
    - change (2 ^ Z.of_nat 0) with 1. rewrite Z.mul_1_l. replace (1 + 2 * x) with (1 + x * 2) at 1 by lia. by rewrite Z.mod_add by lia.
    - rewrite (pow2_pred (Z.of_nat (S k))) by lia. replace (Z.of_nat (S k) - 1) with (Z.of_nat k) by lia.
      replace (2 * 2 ^ Z.of_nat k * (1 + 2 * x)) with (2 ^ Z.of_nat k * (1 + 2 * x) * 2) by lia. rewrite Z.mod_mul by lia. cbn [Z.eqb].
      rewrite Z.shiftr_div_pow2 by lia. change (2 ^ 1) with 2. rewrite Z.div_mul by lia. apply IH. lia. }
  replace (31 - Z.of_nat (length P)) with (Z.of_nat (31 - length P)) by lia. apply Hg. lia.
Qed.

(** ** The search for a match *)
(** The text at [o] and at [src] agrees for [m] bytes. *)
Definition same_text (s : bytes) (o src m : Z) : Prop :=
  forall j, 0 <= j < m -> s !! Z.to_nat (o + j) = s !! Z.to_nat (src + j).

Lemma fetch_in (s : bytes) i : 0 <= i < blen s -> exists b, fetch s i = Ret b /\ s !! Z.to_nat i = Some b.
Proof.
  intros Hi. destruct (lookup_lt_is_Some_2 s (Z.to_nat i)) as [b Hb]; [unfold blen in Hi; lia|].
  exists b. split; [|done]. apply fetch_ret. split; [lia|done].
Qed.

Lemma match_ext_spec s fuel o src m rem :
  0 <= o <= src -> 0 <= m <= rem -> src + rem < blen s -> rem - m < Z.of_nat fuel -> same_text s o src m ->
  exists m', match_ext fuel s o src m rem = Ret m' /\ m <= m' <= rem /\ same_text s o src m'.
Proof.
  revert m. induction fuel as [|fuel IH]; intros m Ho Hm Hs Hf Ht; [lia|]. cbn [match_ext].
  destruct (fetch_in s (o + m)) as (a & -> & Ha); [lia|]. destruct (fetch_in s (src + m)) as (b & -> & Hb); [lia|]. cbn [mbind outcome_bind].
  destruct (Z.eqb_spec a b) as [->|]; [|exists m; cbn [andb]; split; [done|split; [lia|done]]].
  destruct (Z.ltb_spec m rem); cbn [andb]; [|exists m; split; [done|split; [lia|done]]].
  destruct (IH (m + 1)) as (m' & -> & Hm' & Ht'); try lia.
  - intros j Hj. destruct (Z.eq_dec j m) as [->|]; [congruence|apply Ht; lia].
  - exists m'. split; [done|]. split; [lia|done].
Qed.

Lemma le_val_3 b0 b1 b2 b3 : byte_ok b0 -> byte_ok b1 -> byte_ok b2 -> byte_ok b3 ->
  le_val [b0; b1; b2; b3] mod 2 ^ 24 = b0 + 256 * b1 + 65536 * b2.
Proof. unfold byte_ok. intros. cbn [le_val]. change (2 ^ 24) with 16777216. Z.div_mod_to_equations. lia. Qed.

Lemma four_at (s : bytes) i : bytes_ok s -> 0 <= i -> i + 4 <= blen s ->
  exists b0 b1 b2 b3, read32 s i = Ret (le_val [b0; b1; b2; b3]) /\ byte_ok b0 /\ byte_ok b1 /\ byte_ok b2 /\ byte_ok b3 /\
    s !! Z.to_nat i = Some b0 /\ s !! Z.to_nat (i + 1) = Some b1 /\ s !! Z.to_nat (i + 2) = Some b2.
Proof.
  intros Hs Hi Hl. destruct (fetch_in s i) as (b0 & _ & H0); [lia|]. destruct (fetch_in s (i + 1)) as (b1 & _ & H1); [lia|].
  destruct (fetch_in s (i + 2)) as (b2 & _ & H2); [lia|]. destruct (fetch_in s (i + 3)) as (b3 & _ & H3); [lia|].
  exists b0, b1, b2, b3. pose proof (proj1 (Forall_lookup _ _) Hs) as Hb. split; [|do 4 (split; [by eapply Hb|]); done].
  erewrite (read32_at s i _ Hi eq_refl) by (unfold blen in *; rewrite length_drop; lia). do 2 f_equal.
  apply list_eq. intros j. destruct (decide (j < 4)%nat) as [Hj|Hj]; [|by rewrite !lookup_ge_None_2 by (rewrite ?length_take; cbn [length]; lia)].
  rewrite lookup_take_lt by lia. rewrite lookup_drop. destruct j as [|[|[|[|j]]]]; [..|lia].
  - by rewrite Nat.add_0_r.
  - etransitivity; [|exact H1]. f_equal. lia.
  - etransitivity; [|exact H2]. f_equal. lia.
  - etransitivity; [|exact H3]. f_equal. lia.
Qed.

(** Equal low 24 bits are three equal bytes. *)
Lemma same3_text s o src f g :
  bytes_ok s -> 0 <= o -> 0 <= src -> o + 4 <= blen s -> src + 4 <= blen s ->
  read32 s o = Ret f -> read32 s src = Ret g -> same3 f g = true -> same_text s o src 3.
Proof.
  intros Hs Ho Hsrc Hlo Hls Hf Hg E. destruct (four_at s o Hs Ho Hlo) as (a0 & a1 & a2 & a3 & Ra & A0 & A1 & A2 & A3 & L0 & L1 & L2).
  destruct (four_at s src Hs Hsrc Hls) as (b0 & b1 & b2 & b3 & Rb & B0 & B1 & B2 & B3 & M0 & M1 & M2).
  rewrite Ra in Hf. rewrite Rb in Hg. apply Z.eqb_eq in E.
  assert (Ef : f = le_val [a0; a1; a2; a3]) by congruence. assert (Eg : g = le_val [b0; b1; b2; b3]) by congruence.
  change 0xffffff with (Z.ones 24) in E.
  assert (Em : f mod 2 ^ 24 = g mod 2 ^ 24).
  { apply Z.bits_inj'. intros i Hi. destruct (Z.lt_ge_cases i 24).
    - rewrite !Z.mod_pow2_bits_low by lia. apply (f_equal (fun x => Z.testbit x i)) in E.
      rewrite Z.land_spec, Z.lxor_spec, Z.ones_spec_low, andb_true_r, Z.bits_0 in E by lia. by apply xorb_eq in E.
    - by rewrite !Z.mod_pow2_bits_high by lia. }
  rewrite Ef, Eg, !le_val_3 in Em by done. unfold byte_ok in *.
  intros j Hj. assert (j = 0 \/ j = 1 \/ j = 2) as [-> | [-> | ->]] by lia; rewrite ?Z.add_0_r.
  - rewrite L0, M0. f_equal. lia.
  - rewrite L1, M1. f_equal. lia.
  - rewrite L2, M2. f_equal. lia.
Qed.

(** The hash table holds earlier positions, and every slot below the counter is
    in use. *)
Record tab_ok (w : Scratch) (src : Z) : Prop := {
  tab_range : forall h k o, offsets w !! (h, k) = Some o -> 0 <= o < src;
  tab_used : forall h k, 0 <= k < 16 -> k < counter w h -> is_Some (offsets w !! (h, k));
  tab_count : forall h, 0 <= counter w h < 256
}.

Lemma tab_mono w a b : a <= b -> tab_ok w a -> tab_ok w b.
Proof. intros Hab [H1 H2 H3]. constructor; auto. intros h k o Ho. specialize (H1 h k o Ho). lia. Qed.

Lemma land_15 c : Z.land c 15 = c mod 16.
Proof. apply (land_mod c 4 15); lia. Qed.

Lemma remember_ok w h src : 0 <= src -> tab_ok w src -> tab_ok (remember w h src) (src + 1).
Proof.
  intros Hs [H1 H2 H3]. unfold remember, QLZ_POINTERS. rewrite land_15.
  assert (Hc : forall h', counter {| offsets := <[(h, counter w h mod 16) := src]> (offsets w);
     hash_counter := <[h := u8 (counter w h + 1)]> (hash_counter w) |} h' = if decide (h = h') then u8 (counter w h + 1) else counter w h').
  { intros h'. unfold counter at 1. cbn [hash_counter]. rewrite lookup_insert. by case_decide. }
  constructor.
  - intros h' k o. cbn [offsets]. rewrite lookup_insert. case_decide; [intros [= <-]; lia|]. intros Ho. specialize (H1 _ _ _ Ho). lia.
  - intros h' k Hk. rewrite Hc. cbn [offsets]. rewrite lookup_insert. intros Hlt. destruct (decide ((h, _) = _)) as [E|E]; [by eexists|].
    destruct (decide (h = h')) as [<-|]; [|by apply H2]. pose proof (H3 h). apply H2; [done|].
    assert (u8 (counter w h + 1) <= counter w h + 1) by (unfold u8; apply Z.mod_le; lia).
    destruct (Z.eq_dec k (counter w h)); [|lia]. destruct E. subst k. by rewrite Z.mod_small.
  - intros h'. rewrite Hc. case_decide; [|apply H3]. unfold u8. apply Z.mod_pos_bound. lia.
Qed.

Lemma remember_run_ok s n w pos :
  bytes_ok s -> 0 <= pos -> pos + Z.of_nat n + 3 <= blen s -> tab_ok w pos ->
  exists w', remember_run n s w pos = Ret w' /\ tab_ok w' (pos + Z.of_nat n).
Proof.
  intros Hs. revert w pos. induction n as [|n IH]; intros w pos Hp Hl Hw; cbn [remember_run]; [exists w; by rewrite Z.add_0_r|].
  destruct (four_at s pos Hs Hp ltac:(lia)) as (a & b & c & e & R & _). unfold fast_read. rewrite R. cbn [mbind outcome_bind].
  destruct (IH (remember w (hash_func (le_val [a; b; c; e])) pos) (pos + 1)) as (w' & -> & Hw'); try lia; [by apply remember_ok|].
  exists w'. split; [done|]. by replace (pos + Z.of_nat (S n)) with (pos + 1 + Z.of_nat n) by lia.
Qed.

(** A candidate: nothing, or an earlier occurrence of at least three bytes. *)
Definition cand_ok (s : bytes) (src rem : Z) (best : option Z * Z) : Prop :=
  best.2 = 0 \/ exists p, best.1 = Some p /\ 0 <= p < src - MINOFFSET /\ 3 <= best.2 <= rem /\ same_text s p src best.2.

Section Search.
Context (s : bytes) (w : Scratch) (src rem f : Z) (Hs : bytes_ok s) (Hw : tab_ok w src) (Hsrc : 0 <= src)
  (Hrem : 4 <= rem <= 255) (Hend : src + rem < blen s) (Hf : read32 s src = Ret f).

Lemma first_candidate_ok h : exists b, first_candidate s w h f src rem = Ret b /\ cand_ok s src rem b.
Proof.
  unfold first_candidate. destruct (offsets w !! (h, 0)) as [o|] eqn:Eo.
  2: { destruct (Z.ltb_spec 0 (counter w h)) as [Hc|]; [|eexists; split; [done|by left]].
       destruct (tab_used _ _ Hw h 0 ltac:(lia) Hc). congruence. }
  pose proof (tab_range _ _ Hw _ _ _ Eo) as Ho. unfold MINOFFSET in *.
  destruct (Z.ltb_spec o (src - 2)); cbn [andb]; [|eexists; split; [done|by left]].
  destruct (0 <? counter w h); [|eexists; split; [done|by left]].
  destruct (four_at s o Hs ltac:(lia) ltac:(lia)) as (a & b & c & e & R & _). unfold fast_read. rewrite R. cbn [mbind outcome_bind].
  destruct (same3 _ f) eqn:E3; [|eexists; split; [done|by left]].
  pose proof (same3_text s o src _ f Hs ltac:(lia) Hsrc ltac:(lia) ltac:(lia) R Hf E3) as H3.
  destruct (fetch_in s (o + 3)) as (x & -> & Hx); [lia|]. destruct (fetch_in s (src + 3)) as (y & -> & Hy); [lia|]. cbn [mbind outcome_bind].
  destruct (Z.eqb_spec x y) as [->|].
  - destruct (match_ext_spec s 256 o src 4 rem) as (m & -> & Hm & Ht); try lia.
    { intros j Hj. destruct (Z.eq_dec j 3) as [->|]; [congruence|apply H3; lia]. }
    cbn [mbind outcome_bind]. eexists. split; [done|]. right. exists o. cbn. unfold MINOFFSET. split; [done|]. split; [lia|]. split; [lia|done].
  - eexists. split; [done|]. right. exists o. cbn. unfold MINOFFSET. split; [done|]. split; [lia|]. split; [lia|done].
Qed.

Lemma candidates_ok n h k best :
  1 <= k -> k + Z.of_nat n <= 16 -> cand_ok s src rem best ->
  exists b, candidates n s w h f src rem k best = Ret b /\ cand_ok s src rem b.
Proof.
  revert k best. induction n as [|n IH]; intros k best Hk Hkn Hb; cbn [candidates]; [by exists best|].
  destruct (Z.ltb_spec k (counter w h)) as [Hc|]; [|by exists best].
  destruct (tab_used _ _ Hw h k ltac:(lia) Hc) as [o Eo]. rewrite Eo. pose proof (tab_range _ _ Hw _ _ _ Eo) as Ho.
  destruct (four_at s o Hs ltac:(lia) ltac:(lia)) as (a & b & c & e & R & _). unfold fast_read. rewrite R. cbn [mbind outcome_bind].
  destruct (same3 _ f && (o <? src - MINOFFSET)) eqn:E3; cbn [mbind outcome_bind]; [|apply IH; auto; lia].
  apply andb_prop in E3 as [E3 Hlt%Z.ltb_lt].
  pose proof (same3_text s o src _ f Hs ltac:(lia) Hsrc ltac:(lia) ltac:(lia) R Hf E3) as H3.
  destruct (match_ext_spec s 256 o src 3 rem) as (m & -> & Hm & Ht); try lia; [done|]. cbn [mbind outcome_bind].
  destruct best as [p ml]. cbn [mbind outcome_bind]. apply IH; [lia|lia|]. destruct (_ || _); [|done].
  right. exists o. cbn. split; [done|]. split; [lia|]. split; [lia|done].
Qed.
End Search.

(** ** One round *)
Lemma compress_step_ok s w o src :
  bytes_ok s -> tab_ok w src -> 0 <= src <= last_matchstart (blen s) ->
  exists w' x, compress_step s w o src = Ret (w', put o x, src + tok_len x) /\
    tok_ok s src x /\ tab_ok w' (src + tok_len x) /\ src + tok_len x <= blen s - UNCOMPRESSED_END.
Proof.
  intros Hs Hw Hsrc. unfold compress_step. unfold last_matchstart, UNCONDITIONAL_MATCHLEN, UNCOMPRESSED_END in *.
  set (rem := Z.min 255 (blen s - 1 - 4 - src + 1)). assert (Hrem : 4 <= rem <= 255) by (unfold rem; lia).
  assert (Hend : src + rem < blen s) by (unfold rem; lia).
  destruct (four_at s src Hs ltac:(lia) ltac:(lia)) as (a & b & c & e & R & _ & _ & _ & _ & Hlk & _). set (f := le_val _) in R.
  unfold fast_read. rewrite R. cbn [mbind outcome_bind].
  destruct (first_candidate_ok s w src rem f Hs Hw ltac:(lia) Hrem Hend R (hash_func f)) as (b0 & -> & Hb0). cbn [mbind outcome_bind].
  destruct (candidates_ok s w src rem f Hs Hw ltac:(lia) Hrem Hend R 15 (hash_func f) 1 b0) as ([p ml] & -> & Hb); [lia|lia|done|].
  cbn [mbind outcome_bind]. pose proof (remember_ok w (hash_func f) src ltac:(lia) Hw) as Hw1. set (w1 := remember w (hash_func f) src) in *.
  assert (Hlit : exists w' x, (c ← fetch s src; Ret (w1, put_literal o c, src + 1)) = Ret (w', put o x, src + tok_len x) /\
    tok_ok s src x /\ tab_ok w' (src + tok_len x) /\ src + tok_len x <= blen s - 4).
  { destruct (fetch_in s src) as (v & -> & Hv); [lia|]. exists w1, (Lit v). cbn. split; [done|]. split; [done|]. split; [done|lia]. }
  destruct p as [p|]; [|exact Hlit]. destruct (Z.ltb_spec 2 ml) as [Hml|]; [|exact Hlit].
  destruct (Z.ltb_spec (src - p) 131071) as [Hoff|]; [|exact Hlit]. cbn [andb]. clear Hlit.
  destruct Hb as [Hb|(q & [= <-] & Hp & Hm & Ht)]; cbn in *; [lia|]. unfold MINOFFSET in Hp.
  destruct (remember_run_ok s (Z.to_nat (ml - 1)) w1 (src + 1)) as (w2 & -> & Hw2); [done|lia|lia|done|]. cbn [mbind outcome_bind].
  exists w2, (Copy ml (src - p)). cbn [put tok_len]. split; [done|]. split; [|split; [|unfold rem in Hm; lia]].
  - cbn [tok_ok]. split; [lia|]. split; [lia|]. split; [lia|]. split; [unfold last_matchstart, UNCONDITIONAL_MATCHLEN, UNCOMPRESSED_END; lia|].
    split; [unfold UNCOMPRESSED_END; unfold rem in Hm; lia|]. intros i Hi. symmetry. specialize (Ht (i - src) ltac:(lia)).
    replace (p + (i - src)) with (i - (src - p)) in Ht by lia. by replace (src + (i - src)) with i in Ht by lia.
  - by replace (src + ml) with (src + 1 + Z.of_nat (Z.to_nat (ml - 1))) by lia.
Qed.

(** ** The loops *)
(** Tokens from [a] to [b]. *)
Fixpoint span (s : bytes) (a : Z) (T : list token) (b : Z) : Prop :=
  match T with
  | [] => a = b
  | x :: r => 0 <= a < blen s /\ tok_ok s a x /\ span s (a + tok_len x) r b
  end.

Lemma span_snoc s a T b x :
  span s a T b -> 0 <= b < blen s -> tok_ok s b x -> span s a (T ++ [x]) (b + tok_len x).
Proof.
  revert a. induction T as [|y T IH]; intros a; cbn [span app]; [intros -> Hb Hx; done|].
  intros (H1 & H2 & H3) Hb Hx. auto.
Qed.
Lemma span_toks s a T : span s a T (blen s) <-> toks_ok s a T.
Proof. revert a. induction T as [|x T IH]; intros a; cbn [span toks_ok]; [done|]. by rewrite IH. Qed.

(** What the compressor has written when it is at [src]. *)
Definition written (s : bytes) (o : Out) (src : Z) : Prop :=
  exists GS P, rep o GS P /\ span s 0 (concat GS ++ P) src /\ (GS <> [] -> P <> []).

Lemma written_put s o src x :
  written s o src -> 0 <= src < blen s -> tok_ok s src x -> written s (put (if full o then flush o else o) x) (src + tok_len x).
Proof.
  intros (GS & P & Hr & Hsp & _) Hsrc Hx. destruct (step_rep o GS P x Hr) as (GS' & P' & Hr' & E & Hne).
  exists GS', P'. split; [done|]. split; [|done]. rewrite E. by apply span_snoc.
Qed.

Lemma compress_loop_ok s fuel w o src :
  bytes_ok s -> tab_ok w src -> 0 <= src <= blen s -> blen s - src < Z.of_nat fuel -> written s o src ->
  (compress_loop fuel s w o src = Ret None /\ 11 <= blen s) \/
  exists o' src', compress_loop fuel s w o src = Ret (Some (o', src')) /\ 0 <= src' <= blen s /\ written s o' src'.
Proof.
  intros Hs. revert w o src. induction fuel as [|fuel IH]; intros w o src Hw Hsrc Hf Hwr; [lia|]. cbn [compress_loop].
  destruct (Z.leb_spec src (last_matchstart (blen s))) as [Hlm|]; [|right; by exists o, src].
  destruct (full o && _ && _); [left; split; [done|unfold last_matchstart, UNCONDITIONAL_MATCHLEN, UNCOMPRESSED_END in Hlm; lia]|].
  destruct (compress_step_ok s w (if full o then flush o else o) src Hs Hw ltac:(lia)) as (w' & x & -> & Hx & Hw' & He).
  cbn [mbind outcome_bind]. pose proof (tok_len_pos _ _ _ Hx) as Hl. unfold last_matchstart, UNCONDITIONAL_MATCHLEN, UNCOMPRESSED_END in *.
  apply IH; auto; [lia|lia|]. apply written_put; auto. lia.
Qed.

Lemma tail_loop_ok s fuel o src :
  0 <= src <= blen s -> blen s - src < Z.of_nat fuel -> written s o src ->
  exists o', tail_loop fuel s o src = Ret o' /\ written s o' (blen s).
Proof.
  revert o src. induction fuel as [|fuel IH]; intros o src Hsrc Hf Hwr; [lia|]. cbn [tail_loop].
  destruct (Z.leb_spec src (blen s - 1)).
  - destruct (fetch_in s src) as (b & -> & Hb); [lia|]. cbn [mbind outcome_bind]. apply IH; [lia|lia|].
    apply (written_put s o src (Lit b)); auto. lia.
  - exists o. split; [done|]. by replace (blen s) with src by lia.
Qed.
