(* ===== verification/QuickLZFacts.v ===== *)
(** * QuickLZ: decompression inverts compression *)
From Stdlib Require Import ZArith Lia List.
From stdpp Require Import base numbers list gmap.
From S2P Require Import Prelude QuickLZ QuickLZFormat QuickLZDecomp QuickLZComp.

(** ** The compressed body *)
Lemma groups_snoc GS P :
  Forall (fun G => length G = 31%nat) GS -> (1 <= length P <= 31)%nat -> groups_ok (GS ++ [P]).
Proof.
  intros H HP. induction H as [|G GS HG _ IH]; cbn [app groups_ok]; [done|]. split; [lia|]. done.
Qed.

Lemma lits_length s pos T : Forall is_lit T -> 0 <= pos -> toks_ok s pos T -> Z.of_nat (length T) = blen s - pos /\ length (toks_bytes T) = length T.
Proof.
  intros HL Hp HT. rewrite <- (app_nil_r T) in HT. destruct (lit_run s T [] pos HL Hp HT) as (H1 & H2 & _).
  cbn [toks_ok] in H1. split; [lia|done].
Qed.

(** ** The size of a stream *)
Lemma tok_bytes_short s pos x : tok_ok s pos x -> blen (tok_bytes x) <= tok_len x.
Proof.
  destruct x as [b|len off]; cbn [tok_ok tok_bytes tok_len]; [done|]. intros (Hl & _). unfold match_bytes, blen.
  destruct (Z.eqb_spec len 3) as [->|]; [cbn [Z.leb Z.compare]; repeat case_match; rewrite ?length_le_bytes; simpl; lia|].
  repeat case_match; rewrite ?length_le_bytes; simpl; lia.
Qed.

Lemma toks_size s pos T : toks_ok s pos T -> blen (toks_bytes T) <= blen s - pos /\ Z.of_nat (length T) <= blen s - pos.
Proof.
  revert pos. induction T as [|x T IH]; intros pos; cbn [toks_ok flat_map length]; [intros ->; unfold blen; simpl; lia|].
  intros (_ & Hx & HT). destruct (IH _ HT). rewrite blen_app. pose proof (tok_bytes_short _ _ _ Hx). pose proof (tok_len_pos _ _ _ Hx). lia.
Qed.

Lemma groups_size GS :
  groups_ok GS -> blen (flat_map group GS) = 4 * Z.of_nat (length GS) + blen (toks_bytes (concat GS)) /\
  (GS <> [] -> 31 * (Z.of_nat (length GS) - 1) < Z.of_nat (length (concat GS))).
Proof.
  induction GS as [|G GS IH]; [done|]. intros (H1 & H2 & H3). destruct (IH H3) as [E HL]. cbn [flat_map concat length].
  rewrite flat_map_app, !blen_app, E, length_app. unfold group. rewrite blen_app. unfold blen at 1. rewrite length_le_bytes. split; [lia|].
  intros _. destruct GS as [|G' GS]; [cbn [length concat] in *; lia|]. rewrite H2 by done. specialize (HL ltac:(done)). cbn [length] in *. lia.
Qed.

Lemma stream_size s GS : groups_ok GS -> toks_ok s 0 (concat GS) -> blen (flat_map group GS) <= blen s + 4 * (blen s / 31 + 1).
Proof.
  intros HG HT. destruct (groups_size GS HG) as [-> HL]. destruct (toks_size s 0 _ HT) as [H1 H2].
  assert (Z.of_nat (length GS) <= blen s / 31 + 1); [|lia]. pose proof (blen_nonneg s).
  destruct GS as [|G GS]; [simpl; Z.div_mod_to_equations; lia|]. specialize (HL ltac:(done)). Z.div_mod_to_equations; lia.
Qed.

(** The body is a stream for [s], padded to nine bytes. *)
Lemma compress_core_ok junk s :
  bytes_ok s -> bytes_ok junk -> (9 <= length junk)%nat -> 1 <= blen s ->
  (qlz_compress_core junk s = Ret None /\ 11 <= blen s) \/
  exists b GS junk', qlz_compress_core junk s = Ret (Some b) /\ b = flat_map group GS ++ junk' /\ groups_ok GS /\
    toks_ok s 0 (concat GS) /\ bytes_ok b /\ 9 <= blen b /\ 4 <= Z.min 4 (blen s) + blen junk' /\
    blen b <= Z.max 9 (blen s + 4 * (blen s / 31 + 1)).
Proof.
  intros Hs Hj Hlj Hn. unfold qlz_compress_core.
  assert (Htab : tab_ok {| offsets := ∅; hash_counter := ∅ |} 0).
  { constructor; unfold counter; cbn; intros; rewrite ?lookup_empty in *; cbn in *; try done; lia. }
  assert (Hw0 : written s out_init 0) by (exists [], []; split; [apply rep_init|done]).
  destruct (compress_loop_ok s (S (length s)) _ out_init 0 Hs Htab) as [[-> Hle]|(o & src & -> & Hsrc & Hwr)];
    [unfold blen; lia|unfold blen; lia|done|left; done|]. right. cbn [mbind outcome_bind].
  destruct (tail_loop_ok s (S (length s)) o src Hsrc) as (o' & -> & GS & P & Hr & Hsp & Hne); [unfold blen; lia|done|]. cbn [mbind outcome_bind].
  rewrite (align_rep o' GS P Hr). cbn [mbind outcome_bind]. apply span_toks in Hsp. pose proof Hr as [H1 H2 H3 H4 _].
  rewrite cword_group by done. rewrite H1, H3. set (b := flat_map group GS ++ le_bytes 4 (flags P + 2 ^ 31) ++ toks_bytes P).
  assert (Eb : b = flat_map group (GS ++ [P])) by (unfold b; rewrite flat_map_app; cbn [flat_map]; by rewrite app_nil_r).
  set (j := take (9 - length b) junk). assert (Hljk : length j = (9 - length b)%nat) by (unfold j; rewrite length_take; lia).
  assert (Hconcat : concat (GS ++ [P]) = concat GS ++ P) by (rewrite concat_app; simpl; by rewrite app_nil_r).
  exists (b ++ j), (GS ++ [P]), j. split; [done|]. split; [by rewrite Eb|].
  assert (HP : (1 <= length P)%nat).
  { destruct P as [|x P]; [|simpl; lia]. destruct GS as [|G GS]; [simpl in Hsp; lia|]. by destruct (Hne ltac:(done)). }
  assert (HGS : groups_ok (GS ++ [P])) by by apply groups_snoc.
  split; [done|]. split; [by rewrite Hconcat|]. split; [|split; [|split]].
  - apply Forall_app. split; [|by apply Forall_take]. rewrite Eb. clear -Hsp Hs Hconcat. rewrite <- Hconcat in Hsp. revert Hsp.
    generalize (GS ++ [P]) 0. intros L pos. revert pos. induction L as [|G L IH]; intros pos HT; cbn [flat_map concat] in *; [constructor|].
    assert (HG : bytes_ok (toks_bytes G) /\ exists pos', toks_ok s pos' (concat L)).
    { revert pos HT. induction G as [|x G IHG]; intros pos HT; cbn [app flat_map toks_ok] in *; [split; [constructor|eauto]|].
      destruct HT as (_ & Hx & HT). destruct (IHG _ HT) as [HG HL]. split; [|done]. apply Forall_app. split; [|done].
      destruct x; simpl; [|apply match_bytes_ok]. constructor; [|constructor]. by eapply (proj1 (Forall_lookup _ _) Hs). }
    destruct HG as [HG [pos' HL]]. apply Forall_app. split; [|by eapply IH]. unfold group. apply Forall_app. split; [apply le_bytes_ok|done].
  - rewrite blen_app. unfold blen. lia.
  - destruct (Z.le_gt_cases 4 (blen s)) as [|Hlt]; [pose proof (blen_nonneg j); lia|].
    assert (HL : Forall is_lit (concat GS ++ P)).
    { eapply toks_lits, Hsp. unfold last_matchstart, UNCONDITIONAL_MATCHLEN, UNCOMPRESSED_END. lia. }
    destruct (lits_length s 0 _ HL ltac:(lia) Hsp) as [Hl _]. rewrite length_app in Hl.
    destruct GS as [|G GS]; [|apply Forall_cons in H2 as [HG _]; cbn [concat] in Hl; rewrite length_app in Hl; lia].
    cbn [concat app] in *. destruct (lits_length s 0 P HL ltac:(lia) Hsp) as [_ Hb].
    assert (length b = 4 + length P)%nat by (unfold b; cbn [flat_map app]; rewrite length_app, length_le_bytes, Hb; done).
    unfold blen in *. simpl in Hl. lia.
  - rewrite <- Hconcat in Hsp. pose proof (stream_size s _ HGS Hsp) as Hsz. rewrite <- Eb in Hsz. rewrite blen_app. unfold blen in *. lia.
Qed.

Lemma decompress_body s d b GS junk' :
  bytes_ok s -> bytes_ok d -> length d = length s -> 1 <= blen s ->
  b = flat_map group GS ++ junk' -> groups_ok GS -> toks_ok s 0 (concat GS) -> bytes_ok b -> 4 <= Z.min 4 (blen s) + blen junk' ->
  decompress_loop (S (length d)) b d 1 0 0 = Ret s.
Proof.
  intros Hs Hd Hl Hn Hb HG HT Hbb Hsl. eapply (decompress_loop_spec s b junk' _ [] GS 0); auto; [|lia|rewrite Z.sub_0_r; lia|unfold blen; lia].
  constructor; auto; try (simpl; lia); try done.
  intros i Hi. lia.
Qed.

(** ** Headers *)
Lemma small_header tag x y body :
  Z.land tag 2 = 0 -> byte_ok y -> bytes_ok body -> 3 <= blen body ->
  qlz_size_decompressed ([tag; x; y] ++ body) = Ret y.
Proof.
  intros Ht Hy Hb Hl. unfold qlz_size_decompressed. cbn [fetch]. change (fetch ([tag; x; y] ++ body) 0) with (Ret tag). cbn [mbind outcome_bind].
  unfold size_width, read_size, fast_read. rewrite Ht. cbn [Z.eqb].
  change (1 + 1) with 2. rewrite (read32_at _ 2 (y :: body)); [|lia|done|unfold blen in *; cbn [length]; lia]. cbn [mbind outcome_bind].
  f_equal. cbn [take le_val]. change (Z.shiftr 4294967295 ((4 - 1) * 8)) with 255. rewrite (land_mod _ 8 255) by lia. change (2 ^ 8) with 256.
  rewrite Z.mul_comm, Z.mod_add by lia. apply Z.mod_small. done.
Qed.

Lemma large_header tag x n body :
  Z.land tag 2 = 2 -> 0 <= n < 2 ^ 32 ->
  qlz_size_decompressed ([tag] ++ le_bytes 4 x ++ le_bytes 4 n ++ body) = Ret n.
Proof.
  intros Ht Hn. unfold qlz_size_decompressed. change (fetch ([tag] ++ _) 0) with (Ret tag). cbn [mbind outcome_bind].
  unfold size_width, read_size, fast_read. rewrite Ht. rewrite Z.eqb_refl. change (1 + 4) with 5.
  rewrite (read32_at _ 5 (le_bytes 4 n ++ body)); [|lia|done|rewrite blen_app; unfold blen; rewrite length_le_bytes; lia]. cbn [mbind outcome_bind].
  change (take 4 (le_bytes 4 n ++ body)) with (le_bytes 4 n). rewrite le_val_le_bytes_id by done. f_equal.
  change (Z.shiftr 4294967295 ((4 - 4) * 8)) with 4294967295. rewrite (land_mod _ 32 4294967295) by lia. by apply Z.mod_small.
Qed.

Lemma small_header_c tag x y body :
  Z.land tag 2 = 0 -> byte_ok x -> 3 <= blen body -> qlz_size_compressed ([tag; x; y] ++ body) = Ret x.
Proof.
  intros Ht Hx Hl. unfold qlz_size_compressed. change (fetch ([tag; x; y] ++ body) 0) with (Ret tag). cbn [mbind outcome_bind].
  unfold size_width, read_size, fast_read. rewrite Ht. cbn [Z.eqb].
  rewrite (read32_at _ 1 (x :: y :: body)); [|lia|done|unfold blen in *; cbn [length]; lia]. cbn [mbind outcome_bind].
  f_equal. cbn [take le_val]. change (Z.shiftr 4294967295 ((4 - 1) * 8)) with 255. rewrite (land_mod _ 8 255) by lia. change (2 ^ 8) with 256.
  rewrite Z.mul_comm, Z.mod_add by lia. apply Z.mod_small. done.
Qed.

Lemma large_header_c tag n y body :
  Z.land tag 2 = 2 -> 0 <= n < 2 ^ 32 -> qlz_size_compressed ([tag] ++ le_bytes 4 n ++ y ++ body) = Ret n.
Proof.
  intros Ht Hn. unfold qlz_size_compressed. change (fetch ([tag] ++ _) 0) with (Ret tag). cbn [mbind outcome_bind].
  unfold size_width, read_size, fast_read. rewrite Ht. rewrite Z.eqb_refl.
  rewrite (read32_at _ 1 (le_bytes 4 n ++ y ++ body)); [|lia|done|rewrite blen_app; unfold blen at 1; rewrite length_le_bytes; pose proof (blen_nonneg (y ++ body)); lia]. cbn [mbind outcome_bind].
  change (take 4 (le_bytes 4 n ++ y ++ body)) with (le_bytes 4 n). rewrite le_val_le_bytes_id by done. f_equal.
  change (Z.shiftr 4294967295 ((4 - 4) * 8)) with 4294967295. rewrite (land_mod _ 32 4294967295) by lia. by apply Z.mod_small.
Qed.

(** A body: the text itself, or a stream for it. *)
Definition body_ok (s d body : bytes) (k : Z) : Prop :=
  (k = 0 /\ body = s) \/ (k = 1 /\ decompress_loop (S (length d)) body d 1 0 0 = Ret s).
Definition body_size (s body : bytes) : Prop := 3 <= blen body <= Z.max 9 (blen s + 4 * (blen s / 31 + 1)).

Lemma decompress_wrapped s d body k tag h :
  length d = length s -> body_ok s d body k -> Z.land tag 1 = k -> 2 * size_width tag + 1 = blen (tag :: h) ->
  qlz_size_decompressed ((tag :: h) ++ body) = Ret (blen s) -> qlz_decompress ((tag :: h) ++ body) d = Ret s.
Proof.
  intros Hl Hb Ht Hh Hsz. unfold qlz_decompress. rewrite Hsz. change (fetch ((tag :: h) ++ body) 0) with (Ret tag). cbn [mbind outcome_bind].
  assert (Hd : drop (Z.to_nat (blen (tag :: h))) ((tag :: h) ++ body) = body) by (unfold blen; rewrite Nat2Z.id; apply drop_app_length).
  rewrite Ht, Hh, Hd. destruct Hb as [[-> ->]|[-> E]]; cbn [Z.eqb Pos.eqb]; [|done].
  rewrite blen_app, (proj2 (Z.ltb_ge (blen (tag :: h) + blen s) _)), (proj2 (Z.ltb_ge (blen d) _)) by (unfold blen; lia).
  cbn [orb]. f_equal. unfold blen. rewrite !Nat2Z.id, <- Hl, drop_all, app_nil_r, Hl. by apply take_ge.
Qed.

(** The two headers. *)
Lemma small_wrapped s d body k :
  length d = length s -> blen s < 216 -> body_size s body -> bytes_ok body -> body_ok s d body k ->
  let c := [Z.lor (Z.lor k (Z.shiftl QLZ_COMPRESSION_LEVEL 2)) (Z.shiftl 1 6); u8 (3 + blen body); u8 (blen s)] ++ body in
  qlz_size_decompressed c = Ret (blen s) /\ qlz_decompress c d = Ret s /\ qlz_size_compressed c = Ret (blen c) /\ bytes_ok c.
Proof.
  intros Hl Hsm [H3 Hmax] Hbb Hb c. assert (Hk : k = 0 \/ k = 1) by (destruct Hb as [[? _]|[? _]]; auto).
  assert (Hu : u8 (blen s) = blen s) by (unfold u8; pose proof (blen_nonneg s); apply Z.mod_small; change (2 ^ 8) with 256; lia).
  assert (Hsz : qlz_size_decompressed c = Ret (blen s)).
  { unfold c. rewrite Hu. apply small_header; auto; [by destruct Hk as [-> | ->]|unfold byte_ok; pose proof (blen_nonneg s); lia]. }
  split; [done|]. split; [eapply decompress_wrapped; [done|done| | |done]; by destruct Hk as [-> | ->]|].
  assert (Hc : u8 (3 + blen body) = blen c).
  { unfold c. rewrite blen_app. change (blen [_; _; _]) with 3. unfold u8. apply Z.mod_small. change (2 ^ 8) with 256.
    clear -Hsm H3 Hmax. pose proof (blen_nonneg s). Z.div_mod_to_equations; lia. }
  assert (Hu8 : forall x, byte_ok (u8 x)) by (intros; unfold byte_ok, u8; by apply Z.mod_pos_bound). split.
  - rewrite <- Hc. unfold c. by apply small_header_c; [destruct Hk as [-> | ->]| |].
  - apply Forall_app. split; [|done]. do 3 (apply Forall_cons_2; [done || by destruct Hk as [-> | ->]|]). constructor.
Qed.

Lemma large_wrapped s d body k :
  length d = length s -> blen s < 2 ^ 32 -> body_size s body -> bytes_ok body -> body_ok s d body k ->
  let c := [Z.lor (Z.lor (Z.lor 2 k) (Z.shiftl QLZ_COMPRESSION_LEVEL 2)) (Z.shiftl 1 6)] ++
           le_bytes 4 (u32 (9 + blen body)) ++ le_bytes 4 (u32 (blen s)) ++ body in
  qlz_size_decompressed c = Ret (blen s) /\ qlz_decompress c d = Ret s /\ (blen s <= 2 ^ 31 -> qlz_size_compressed c = Ret (blen c)) /\ bytes_ok c.
Proof.
  intros Hl Hlt [H3 Hmax] Hbb Hb c. assert (Hk : k = 0 \/ k = 1) by (destruct Hb as [[? _]|[? _]]; auto).
  assert (Hu : u32 (blen s) = blen s) by (apply u32_id; pose proof (blen_nonneg s); lia).
  assert (Hsz : qlz_size_decompressed c = Ret (blen s)).
  { unfold c. rewrite Hu. apply large_header; [by destruct Hk as [-> | ->]|pose proof (blen_nonneg s); lia]. }
  split; [done|]. split.
  2: { split; [|repeat (apply Forall_app; split); auto using le_bytes_ok; apply Forall_cons_2; [by destruct Hk as [-> | ->]|constructor]].
       intros H31. assert (Hc : u32 (9 + blen body) = blen c).
       { unfold c. rewrite !blen_app, !blen_le. change (blen [_]) with 1. rewrite u32_id; [lia|].
         clear -H31 H3 Hmax. pose proof (blen_nonneg s). change (2 ^ 31) with 2147483648 in *. change (2 ^ 32) with 4294967296. Z.div_mod_to_equations; lia. }
       rewrite <- Hc. unfold c. apply large_header_c; [by destruct Hk as [-> | ->]|apply u32_range]. }
  unfold c in *. rewrite (app_assoc (le_bytes 4 _) (le_bytes 4 _)), app_assoc in *.
  eapply (decompress_wrapped s d body k _ (le_bytes 4 (u32 (9 + blen body)) ++ le_bytes 4 (u32 (blen s)))); [done|done| | |done]; by destruct Hk as [-> | ->].
Qed.

(** Compression of a text and its inverse. *)
Lemma qlz_codec junk s d :
  bytes_ok s -> bytes_ok junk -> (9 <= length junk)%nat -> 1 <= blen s <= 0xffffffff - 400 ->
  bytes_ok d -> length d = length s ->
  exists c, qlz_compress junk s = Ret c /\ c <> [] /\ qlz_size_decompressed c = Ret (blen s) /\ qlz_decompress c d = Ret s /\
    (blen s <= 2 ^ 31 -> qlz_size_compressed c = Ret (blen c)) /\ bytes_ok c.
Proof.
  intros Hs Hj Hlj Hn Hd Hl. unfold qlz_compress. rewrite (proj2 (Z.eqb_neq (blen s) 0)), (proj2 (Z.ltb_ge (0xffffffff - 400) (blen s))) by lia. cbn [orb].
  assert (Hcore : exists (body : bytes) k, qlz_compress_core junk s = Ret (if k =? 0 then None else Some body) /\
    body_size s body /\ bytes_ok body /\ body_ok s d body k).
  { destruct (compress_core_ok junk s Hs Hj Hlj ltac:(lia)) as [[E Hle]|(b & GS & j & E & Eb & HG & HT & Hb & H9 & Hsl & Hmax)].
    - exists s, 0. split; [done|]. split; [|split; [done|by left]]. split; [lia|]. clear -Hle. Z.div_mod_to_equations; lia.
    - exists b, 1. split; [done|]. split; [split; lia|]. split; [done|]. right. split; [done|]. eapply decompress_body; eauto. lia. }
  destruct Hcore as (body & k & -> & Hl3 & Hbb & Hb). cbn [mbind outcome_bind].
  assert (E : match (if k =? 0 then None else Some body) with Some b => (b, 1) | None => (s, 0) end = (body, k)).
  { by destruct Hb as [[-> ->]|[-> _]]. }
  rewrite E. destruct (Z.ltb_spec (blen s) 216) as [Hsm|Hsm].
  - destruct (small_wrapped s d body k) as (H1 & H2 & H3 & H4); auto. eexists. split; [done|]. split; [done|].
    split; [exact H1|]. split; [exact H2|]. split; [by intros _|exact H4].
  - destruct (large_wrapped s d body k) as (H1 & H2 & H3 & H4); auto; [change (2 ^ 32) with 4294967296; lia|].
    eexists. split; [done|]. split; [done|]. split; [exact H1|]. split; [exact H2|]. split; [exact H3|exact H4].
Qed.

(** C20. [qlz_decompress] inverts [qlz_compress].  For every source of 1 to
    2^32 - 401 bytes and whatever the destinations held before, the compressor
    returns, and the decompressor run on its output returns the source; neither
    reads or writes outside its buffers, although both move four bytes at a time.
    The size that the header announces is the size of the output. *)
Theorem qlz_roundtrip junk s d :
  bytes_ok s -> bytes_ok junk -> (9 <= length junk)%nat -> 1 <= blen s <= 0xffffffff - 400 ->
  bytes_ok d -> length d = length s ->
  exists c, qlz_compress junk s = Ret c /\ c <> [] /\ qlz_size_decompressed c = Ret (blen s) /\ qlz_decompress c d = Ret s /\
    (blen s <= 2 ^ 31 -> qlz_size_compressed c = Ret (blen c)).
Proof.
  intros. destruct (qlz_codec junk s d) as (c & H5 & H6 & H7 & H8 & H9 & _); auto. by exists c.
Qed.

Definition demo_text : bytes := flat_map (fun i => [97; 98; 99; 100; i mod 7]) (map Z.of_nat (seq 0 12)).
Lemma qlz_roundtrip_witness :
  exists c, qlz_compress (repeat 0 9) demo_text = Ret c /\ c <> [] /\ qlz_size_decompressed c = Ret (blen demo_text) /\
    qlz_decompress c (repeat 255 60) = Ret demo_text /\ (blen demo_text <= 2 ^ 31 -> qlz_size_compressed c = Ret (blen c)).
Proof.
  apply (qlz_roundtrip (repeat 0 9) demo_text (repeat 255 60)).
  - unfold byte_ok. by_compute.
  - unfold byte_ok. by_compute.
  - simpl. lia.
  - vm_compute. split; discriminate.
  - unfold byte_ok. by_compute.
  - reflexivity.
Defined.
