(* ===== verification/Disk.v ===== *)
(** * Files and the disk manager (diskmgr.c, diskmgr.h)

    A store may span several disks: disk 0 holds every file of a store, either
    as a regular file or as a symbolic link to a file of the same base name on
    another disk.  The file system is a map from paths to regular files and
    links; directories exist and system calls do not fail for lack of space or
    rights.  What the kernel decides (free space, [rand]) is an argument. *)
From Stdlib Require Import ZArith Lia List.
From stdpp Require Import base numbers list gmap strings.
From S2P Require Import Prelude CText.

Definition MAX_PATH_LEN : Z := 255.

Inductive inode :=
| Reg (data : bytes) (mtime : Z)
| Link (target : bytes).

Abbreviation fs := (gmap bytes inode).

(** ** System calls *)
(** The path a chain of links leads to; [None] is ELOOP. *)
Fixpoint real_path (fuel : nat) (f : fs) (p : bytes) : option bytes :=
  match f !! p with
  | Some (Link t) => match fuel with O => None | S k => real_path k f t end
  | _ => Some p
  end.
Definition MAXSYMLINKS : nat := 40.

(** [stat] and [open(O_RDONLY)]: the regular file behind the path. *)
Definition stat_reg (f : fs) (p : bytes) : option (bytes * Z) :=
  match real_path MAXSYMLINKS f p with
  | Some q => match f !! q with Some (Reg d m) => Some (d, m) | _ => None end
  | None => None
  end.
Definition fs_read (f : fs) (p : bytes) : option bytes := fst <$> stat_reg f p.
Definition file_exists (f : fs) (p : bytes) : bool := bool_decide (is_Some (stat_reg f p)).

(** [fopen(p, "wb")] then the data. *)
Definition fs_write (f : fs) (p d : bytes) (now : Z) : fs :=
  match real_path MAXSYMLINKS f p with
  | Some q => <[q := Reg d now]> f
  | None => f
  end.
(** [fopen(p, "ab")] then the data. *)
Definition fs_append (f : fs) (p d : bytes) (now : Z) : fs :=
  match real_path MAXSYMLINKS f p with
  | Some q => <[q := Reg (default [] (fs_read f p) ++ d) now]> f
  | None => f
  end.
Definition fs_unlink (f : fs) (p : bytes) : fs := delete p f.
(** [symlink(target, p)] fails if [p] exists. *)
Definition fs_symlink (f : fs) (target p : bytes) : option fs :=
  match f !! p with Some _ => None | None => Some (<[p := Link target]> f) end.
(** [rename(o, n)] fails if [o] does not exist. *)
Definition fs_rename (f : fs) (o n : bytes) : option fs :=
  match f !! o with Some i => Some (<[n := i]> (delete o f)) | None => None end.

(** ** Paths *)
(** [simple_basename]: what follows the last slash, all of it if there is none. *)
Definition simple_basename (p : bytes) : bytes :=
  (fix go (l acc : bytes) : bytes :=
     match l with [] => acc | c :: r => if c =? 47 then go r [] else go r (acc ++ [c]) end) p [].

(** [dirname] of a path with a slash and no trailing slash: what precedes the
    last slash ("/" for the root). *)
Fixpoint split_dir (l : bytes) : option (bytes * bytes) :=
  match l with
  | [] => None
  | c :: r =>
      match split_dir r with
      | Some (d, b) => Some (c :: d, b)
      | None => if c =? 47 then Some ([], r) else None
      end
  end.
Definition dirname (p : bytes) : bytes :=
  match split_dir p with Some ([], _) => [47] | Some (d, _) => d | None => [46] end.

Definition join (dir name : bytes) : bytes := dir ++ [47] ++ name.

(** [safe_snprintf] into a path buffer of size [n]. *)
Definition print_path (n : Z) (p : bytes) : outcome bytes := if n <=? blen p then Exit 1 else Ret p.

(** ** The manager *)
Record Mgr := { disks : list bytes }.

Definition mgr_base (m : Mgr) : outcome bytes := fetch (disks m) 0.

(** [mgr_create]: relative names are made absolute; [None] when a directory neither
    exists nor can be made ([dir_ok]). *)
Definition absolute (cwd dir : bytes) : bytes := match dir with 47 :: _ => dir | _ => join cwd dir end.
Definition mgr_create (cwd : bytes) (dir_ok : bytes -> bool) (dirs : list bytes) : option Mgr :=
  if forallb dir_ok dirs then Some {| disks := List.map (absolute cwd) dirs |} else None.

(** [mgr_readlink(path, buf, MAX_PATH_LEN)]: the target, [None] for a negative
    result.  [readlink] cuts the target off at the size of the buffer.  (When it
    fills the buffer, the terminating zero goes one byte past it; the targets that
    [mgr_alloc] and [mgr_rename] link to are shorter.) *)
Definition mgr_readlink (f : fs) (p : bytes) : option bytes :=
  match f !! p with
  | Some (Link t) =>
      let buf := take (Z.to_nat MAX_PATH_LEN) t in
      if bool_decide (simple_basename p = simple_basename buf) then Some buf else None
  | _ => None
  end.

(** [mgr_getrealpath]: it asks [stat], which follows links, whether the path is
    a link. *)
Definition mgr_getrealpath (f : fs) (p : bytes) : option bytes :=
  match stat_reg f p with None => None | Some _ => Some p end.

Definition mgr_unlink (f : fs) (p : bytes) : fs :=
  match f !! p with
  | None => f
  | Some (Link _) =>
      let f := match mgr_readlink f p with Some t => if 0 <? blen t then fs_unlink f t else f | None => f end in
      fs_unlink f p
  | Some (Reg _ _) => fs_unlink f p
  end.

(** [mgr_rename]: "caller guarantee newpath not exist"; failures end the process. *)
Definition mgr_rename (f : fs) (oldpath newpath : bytes) : outcome fs :=
  match f !! oldpath with
  | Some (Link _) =>
      match mgr_readlink f oldpath with
      | Some ropath =>
          if 0 <? blen ropath then
            rnpath ← print_path MAX_PATH_LEN (join (dirname ropath) (simple_basename newpath));
            match fs_symlink f rnpath newpath with
            | None => Exit (-1)
            | Some f =>
                match fs_rename f ropath rnpath with
                | None => Exit (-1)
                | Some f => Ret (fs_unlink f oldpath)
                end
            end
          else Ret f
      | None => Ret f
      end
  | _ => match fs_rename f oldpath newpath with None => Exit (-1) | Some f => Ret f end
  end.

(** What the kernel answers: [get_disk_avail] per disk, and [rand() & 1] for the
    i-th disk asked. *)
Record DiskEnv := { avail : bytes -> Z; coin : Z -> bool }.

(** The loop of [mgr_alloc]: a disk that has the file already ([inl]), or the
    number of the roomiest one. *)
Fixpoint alloc_loop (env : DiskEnv) (f : fs) (name : bytes) (ds : list bytes) (i maxa maxi : Z)
  : outcome (bytes + Z) :=
  match ds with
  | [] => Ret (inr maxi)
  | d :: r =>
      path ← print_path MAX_PATH_LEN (join d name);
      match f !! path with
      | Some (Reg _ _) => Ret (inl d)
      | _ =>
          let a := avail env d in
          if (maxa <? a) || ((a =? maxa) && coin env i)
          then alloc_loop env f name r (i + 1) a i
          else alloc_loop env f name r (i + 1) maxa maxi
      end
  end.

Definition mgr_alloc (env : DiskEnv) (m : Mgr) (f : fs) (name : bytes) : outcome (fs * bytes) :=
  match disks m with
  | [d] => Ret (f, d)
  | ds =>
      r ← alloc_loop env f name ds 0 0 0;
      match r with
      | inl d => Ret (f, d)
      | inr maxi =>
          d ← fetch ds maxi;
          if maxi =? 0 then Ret (f, d)
          else
            d0 ← fetch ds 0;
            target ← print_path MAX_PATH_LEN (join d name);
            path ← print_path MAX_PATH_LEN (join d0 name);
            let f := match f !! path with Some _ => fs_unlink f path | None => f end in
            match fs_symlink f target path with
            | None => Exit 1
            | Some f => Ret (f, d)
            end
      end
  end.
