(* ===== verification/DiskFacts.v ===== *)
(** * The disk manager: moving and removing files across disks

    First the file system calls on a store of one disk, where no path is a link;
    then [mgr_rename] and [mgr_unlink] on a file that is on disk 0 or behind a
    link to another disk. *)
From Stdlib Require Import ZArith Lia List.
From stdpp Require Import base numbers list gmap strings.
From S2P Require Import Prelude CText Disk.

Implicit Types (f : fs) (p q : bytes).

(** ** File systems without links *)
Definition plain f : Prop := forall p t, f !! p <> Some (Link t).

(** [f'] is [f] but for the paths [ps]. *)
Definition same_but (ps : list bytes) f f' : Prop := forall q, q ∉ ps -> f' !! q = f !! q.

Lemma same_but_trans ps ps' f f1 f2 :
  same_but ps f f1 -> same_but ps' f1 f2 -> same_but (ps ++ ps') f f2.
Proof.
  intros H1 H2 q Hq. rewrite elem_of_app in Hq. rewrite H2 by tauto. apply H1. tauto.
Qed.

Lemma plain_insert f p d m : plain f -> plain (<[p := Reg d m]> f).
Proof.
  intros H q t. destruct (decide (p = q)) as [->|]; [by rewrite lookup_insert_eq|].
  rewrite lookup_insert_ne by done. apply H.
Qed.
Lemma plain_delete f p : plain f -> plain (delete p f).
Proof.
  intros H q t. destruct (decide (p = q)) as [->|]; [by rewrite lookup_delete_eq|].
  rewrite lookup_delete_ne by done. apply H.
Qed.

Lemma real_direct n f p : (forall t, f !! p <> Some (Link t)) -> real_path n f p = Some p.
Proof.
  intros H. destruct n; simpl; destruct (f !! p) as [[|t]|] eqn:E; try done; by destruct (H t).
Qed.

Lemma stat_plain f p :
  plain f -> stat_reg f p = match f !! p with Some (Reg d m) => Some (d, m) | _ => None end.
Proof. intros H. unfold stat_reg. rewrite real_direct by apply H. done. Qed.

Lemma fs_read_plain f p :
  plain f -> fs_read f p = match f !! p with Some (Reg d _) => Some d | _ => None end.
Proof. intros H. unfold fs_read. rewrite stat_plain by done. by destruct (f !! p) as [[]|]. Qed.

Lemma fs_read_same f f' p : plain f -> plain f' -> f' !! p = f !! p -> fs_read f' p = fs_read f p.
Proof. intros H H' E. by rewrite !fs_read_plain, E. Qed.

Lemma file_exists_plain f p : plain f -> file_exists f p = bool_decide (is_Some (f !! p)).
Proof.
  intros H. unfold file_exists. rewrite stat_plain by done. apply bool_decide_ext.
  destruct (f !! p) as [[d m|t]|] eqn:E; [|by destruct (H p t)|done]. split; intros _; by eexists.
Qed.

Lemma fs_write_plain f p d m : plain f -> fs_write f p d m = <[p := Reg d m]> f.
Proof. intros H. unfold fs_write. by rewrite real_direct by apply H. Qed.

Lemma fs_append_plain f p d m :
  plain f -> fs_append f p d m = <[p := Reg (default [] (fs_read f p) ++ d) m]> f.
Proof. intros H. unfold fs_append. by rewrite real_direct by apply H. Qed.

Lemma mgr_unlink_plain f p : plain f -> mgr_unlink f p = delete p f.
Proof.
  intros H. unfold mgr_unlink, fs_unlink. destruct (f !! p) as [[d m|t]|] eqn:E; [done|by destruct (H p t)|].
  by rewrite delete_id.
Qed.

Lemma mgr_rename_plain f o n i : plain f -> f !! o = Some i -> mgr_rename f o n = Ret (<[n := i]> (delete o f)).
Proof.
  intros H E. unfold mgr_rename, fs_rename. rewrite E. destruct i as [|t]; [done|by destruct (H o t)].
Qed.

(** ** Paths *)
Lemma split_dir_join d n : Forall (fun c => c <> 47) n -> split_dir (join d n) = Some (d, n).
Proof.
  intros Hn. unfold join. induction d as [|c d IH]; cbn [app split_dir].
  - assert (split_dir n = None) as ->; [|done]. induction Hn as [|c r Hc _ IH]; [done|]. simpl. rewrite IH.
    by rewrite (proj2 (Z.eqb_neq c 47)).
  - cbn [app] in IH. by rewrite IH.
Qed.

Lemma basename_snoc d acc :
  (fix go (l acc : bytes) : bytes :=
     match l with [] => acc | c :: r => if c =? 47 then go r [] else go r (acc ++ [c]) end) d acc =
  match split_dir d with Some (_, b) => b | None => acc ++ d end.
Proof.
  revert acc. induction d as [|c d IH]; intros acc; cbn [split_dir]; [by rewrite app_nil_r|].
  destruct (Z.eqb_spec c 47) as [->|Hc]; rewrite IH; destruct (split_dir d) as [[a b]|]; try done.
  by rewrite <- app_assoc.
Qed.

Lemma basename_split p : simple_basename p = match split_dir p with Some (_, b) => b | None => p end.
Proof. unfold simple_basename. by rewrite basename_snoc. Qed.

Lemma basename_noslash p : Forall (fun c => c <> 47) (simple_basename p).
Proof.
  rewrite basename_split. induction p as [|c p IH]; cbn [split_dir]; [constructor|].
  destruct (split_dir p) as [[a b]|]; [done|]. destruct (Z.eqb_spec c 47); [done|]. by constructor.
Qed.

Lemma basename_join d n : Forall (fun c => c <> 47) n -> simple_basename (join d n) = n.
Proof. intros. by rewrite basename_split, split_dir_join. Qed.

(** ** Files behind links *)
(** The regular file [d] is at [p], or on another disk behind a link at [p] that
    keeps its base name and fits a path buffer. *)
Definition stored f p (d : bytes) (m : Z) : Prop :=
  f !! p = Some (Reg d m) \/
  exists t, f !! p = Some (Link t) /\ simple_basename p = simple_basename t /\ t <> [] /\ blen t < MAX_PATH_LEN /\ f !! t = Some (Reg d m).

(** Where the data is, and where [mgr_rename] to [n] puts it. *)
Definition target f p : bytes := match f !! p with Some (Link t) => t | _ => p end.
Definition home f p (n : bytes) : bytes :=
  match f !! p with Some (Link t) => join (dirname t) (simple_basename n) | _ => n end.

Lemma stored_read f p d m : stored f p d m -> fs_read f p = Some d.
Proof.
  unfold fs_read, stat_reg, MAXSYMLINKS. intros [E|(t & E & _ & _ & _ & Et)]; cbn [real_path]; rewrite E.
  - by rewrite E.
  - rewrite Et. by rewrite Et.
Qed.

Lemma readlink_stored f p t :
  f !! p = Some (Link t) -> simple_basename p = simple_basename t -> blen t < MAX_PATH_LEN -> mgr_readlink f p = Some t.
Proof. intros E Hb Hl. unfold mgr_readlink. rewrite E, take_ge by (unfold blen in Hl; lia). by rewrite bool_decide_true. Qed.

Lemma nonempty_blen (t : bytes) : t <> [] -> (0 <? blen t) = true.
Proof. destruct t; [done|]. intros _. apply Z.ltb_lt. unfold blen. simpl. lia. Qed.

Lemma rename_link f old new t d m :
  f !! old = Some (Link t) -> simple_basename old = simple_basename t -> t <> [] -> blen t < MAX_PATH_LEN -> f !! t = Some (Reg d m) ->
  f !! new = None -> blen (home f old new) < MAX_PATH_LEN ->
  mgr_rename f old new = Ret (delete old (<[home f old new := Reg d m]> (delete t (<[new := Link (home f old new)]> f)))).
Proof.
  intros Eo Hb Ht Htl Et En Hl. unfold mgr_rename. rewrite Eo, (readlink_stored f old t), nonempty_blen by done.
  unfold home in *. rewrite Eo in *. unfold print_path. destruct (Z.leb_spec MAX_PATH_LEN (blen (join (dirname t) (simple_basename new)))); [lia|].
  cbn [mbind outcome_bind]. unfold fs_symlink. rewrite En. unfold fs_rename.
  rewrite lookup_insert_ne by congruence. by rewrite Et.
Qed.

(** C36. Renaming moves a file together with its link.  If a file is on disk 0 or
    behind a link to another disk, and the new name is free on both disks,
    [mgr_rename] returns; the new name leads to the same data, on the disk where
    it was and under the base name that later [mgr_readlink] calls insist on; the
    old name is gone; and no other path changes. *)
Theorem mgr_rename_moves f old new d m :
  stored f old d m -> f !! new = None -> f !! home f old new = None ->
  (forall t, f !! old = Some (Link t) -> home f old new <> new) -> blen (home f old new) < MAX_PATH_LEN ->
  exists f', mgr_rename f old new = Ret f' /\ stored f' new d m /\ fs_read f' new = fs_read f old /\
    f' !! old = None /\ target f' new = home f old new /\ same_but [old; target f old; new; home f old new] f f'.
Proof.
  intros Hs En Eh Hne Hl. assert (Hr : fs_read f old = Some d) by by eapply stored_read.
  destruct Hs as [Eo|(t & Eo & Hb & Ht & Htl & Et)].
  - exists (<[new := Reg d m]> (delete old f)). assert (Hst : stored (<[new := Reg d m]> (delete old f)) new d m) by (left; apply lookup_insert_eq).
    unfold mgr_rename, fs_rename. rewrite Eo. split; [done|]. split; [done|]. split; [by rewrite Hr; eapply stored_read|].
    split; [rewrite lookup_insert_ne by congruence; apply lookup_delete_eq|].
    unfold target, home. rewrite Eo, lookup_insert_eq. split; [done|].
    intros q Hq. rewrite !not_elem_of_cons in Hq. rewrite lookup_insert_ne, lookup_delete_ne by naive_solver. done.
  - rewrite (rename_link f old new t d m) by done. specialize (Hne t Eo). set (h := home f old new) in *.
    eexists. split; [done|]. set (f' := delete old _).
    assert (Hn' : f' !! new = Some (Link h)).
    { unfold f'. rewrite lookup_delete_ne, lookup_insert_ne, lookup_delete_ne by congruence. apply lookup_insert_eq. }
    assert (Hh' : f' !! h = Some (Reg d m)).
    { unfold f'. rewrite lookup_delete_ne by congruence. apply lookup_insert_eq. }
    assert (Hbn : simple_basename new = simple_basename h).
    { unfold h, home. rewrite Eo, basename_join by apply basename_noslash. done. }
    assert (Hst : stored f' new d m).
    { right. exists h. split; [done|]. split; [done|]. split; [|done]. unfold h, home. rewrite Eo. unfold join. by destruct (dirname t). }
    split; [done|]. split; [by rewrite Hr; eapply stored_read|]. split; [apply lookup_delete_eq|].
    unfold target. rewrite Hn', Eo. split; [done|]. intros q Hq. rewrite !not_elem_of_cons in Hq.
    unfold f'. rewrite lookup_delete_ne, lookup_insert_ne, lookup_delete_ne, lookup_insert_ne by naive_solver. done.
Qed.

(** A data file on the second disk, renumbered. *)
Definition two_disks : fs :=
  <[lit "/a/003.data" := Link (lit "/b/003.data")]> (<[lit "/b/003.data" := Reg [1; 2; 3] 7]> ∅).

Lemma mgr_rename_moves_witness :
  exists f', mgr_rename two_disks (lit "/a/003.data") (lit "/a/001.data") = Ret f' /\
    stored f' (lit "/a/001.data") [1; 2; 3] 7 /\
    fs_read f' (lit "/a/001.data") = fs_read two_disks (lit "/a/003.data") /\
    f' !! lit "/a/003.data" = None /\
    target f' (lit "/a/001.data") = home two_disks (lit "/a/003.data") (lit "/a/001.data") /\
    same_but [lit "/a/003.data"; target two_disks (lit "/a/003.data"); lit "/a/001.data";
              home two_disks (lit "/a/003.data") (lit "/a/001.data")] two_disks f'.
Proof.
  apply (mgr_rename_moves two_disks (lit "/a/003.data") (lit "/a/001.data") [1; 2; 3] 7).
  - right. exists (lit "/b/003.data"). split; [vm_compute; reflexivity|]. split; [vm_compute; reflexivity|]. split; [discriminate|].
    vm_compute. split; reflexivity.
  - vm_compute. reflexivity.
  - vm_compute. reflexivity.
  - intros t _. vm_compute. discriminate.
  - vm_compute. reflexivity.
Defined.
