(* ===== verification/Hint.v ===== *)
(** * Hint files (hint.c, hint.h)

    A hint file lists, for one data file, the key, position, version and value
    hash of each record, so that the tree can be rebuilt without reading the
    values.  [fresh n] stands for the contents of [n] newly allocated bytes. *)
From Stdlib Require Import ZArith Lia List.
From stdpp Require Import base numbers list gmap strings.
From S2P Require Import Prelude Hash CText Codec HTree QuickLZ Disk.

(** [struct param]: [curr] is the length of [p_buf]. *)
Record param := { p_size : Z; p_buf : bytes }.

(** A [HintRecord]: [ksize:8] and [pos:24] in one word, the version, the hash,
    the key with its zero byte. *)
Record HintRecord := { h_ksize : Z; h_pos : Z; h_version : Z; h_hash : Z; h_key : bytes }.
Definition HINT_HEAD : Z := 12 - 2.

Definition hint_bytes (r : HintRecord) : bytes :=
  le_bytes 4 (h_ksize r + 256 * (h_pos r mod 2 ^ 24)) ++ le_bytes 4 (u32 (h_version r)) ++
  le_bytes 2 (h_hash r) ++ h_key r.

Definition collect_items (it : Item) (p : param) : outcome param :=
  let key := it_key it in
  let ksize := blen key in
  let length := 12 + ksize + 1 - 2 in
  let curr := blen (p_buf p) in
  let size := if p_size p - curr <? length then s32 (p_size p * 2) else p_size p in
  let ks := u8 ksize in
  k ← safe_memcpy (size - curr - 12 + 2) (take (Z.to_nat (ks + 1)) (key ++ [0]));
  let r := {| h_ksize := ks; h_pos := Z.shiftr (it_pos it) 8; h_version := it_ver it;
              h_hash := it_hash it; h_key := k |} in
  Ret {| p_size := size; p_buf := p_buf p ++ take (Z.to_nat length) (hint_bytes r) |}.

(** [strcmp(path + strlen(path) - 4, ".qlz") == 0] *)
Definition is_qlz (path : bytes) : bool := bool_decide (drop (length path - 4) path = lit ".qlz").

Section Hint.
Context {C : Type} {KC : KeyCodec C}.
Context (fresh : Z -> bytes).
Implicit Types t : HTree C.

Definition write_hint_file (f : fs) (now : Z) (buf path : bytes) : outcome fs :=
  dst ← (if is_qlz path then qlz_compress (fresh 9) buf else Ret buf);
  tmp ← print_path MAX_PATH_LEN (path ++ lit ".tmp");
  let f := fs_write f tmp dst now in
  let f := mgr_unlink f path in
  mgr_rename f tmp path.

(** [build_hint] up to the file: the collected records. *)
Definition collect_tree t : outcome bytes :=
  p ← ht_visit t collect_items {| p_size := 1024 * 1024; p_buf := [] |}; Ret (p_buf p).

Definition build_hint (f : fs) (now : Z) t (hintpath : bytes) : outcome fs :=
  b ← collect_tree t; write_hint_file f now b hintpath.

(** The buffer of [open_hint]: the file, decompressed if it is a [.qlz]. *)
Definition hint_buf (path data : bytes) : outcome bytes :=
  if is_qlz path && (0 <? blen data) then
    size ← qlz_size_decompressed data;
    qlz_decompress data (fresh size)
  else Ret data.

Definition open_hint (f : fs) (now : Z) (path : bytes) (new_path : option bytes)
  : outcome (fs * option bytes) :=
  match fs_read f path with
  | None => Ret (f, None)
  | Some data =>
      b ← hint_buf path data;
      match new_path with
      | Some np => f ← write_hint_file f now b np; Ret (f, Some b)
      | None => Ret (f, Some b)
      end
  end.

(** The record at the head of [b] and what follows; [None] when the end comes
    first. *)
Definition next_hint (b : bytes) : outcome (option (HintRecord * bytes)) :=
  match b with
  | [] => Fault
  | ksize :: _ =>
      let n := 12 - 2 + ksize + 1 in
      if blen b <? n then Ret None
      else
        Ret (Some ({| h_ksize := ksize; h_pos := le_val (take 3 (drop 1 b));
                      h_version := s32 (le_val (take 4 (drop 4 b)));
                      h_hash := le_val (take 2 (drop 8 b));
                      h_key := take (Z.to_nat ksize) (drop 10 b) |}, drop (Z.to_nat n) b))
  end.

(** The loop of [scanHintFile]; every record takes at least a byte. *)
Fixpoint scan_hints (fuel : nat) t (bucket : Z) (b : bytes) : outcome (HTree C) :=
  match fuel, b with
  | _, [] => Ret t
  | O, _ => Fault
  | S k, _ =>
      r ← next_hint b;
      match r with
      | None => Ret t
      | Some (r, b) =>
          let pos := u32 (Z.lor (Z.shiftl (h_pos r) 8) (Z.land bucket 0xff)) in
          t ← (if check_key (h_key r) then
                 if 0 <? h_version r then ht_add2 t (h_key r) pos (h_hash r) (h_version r)
                 else ht_remove2 t (h_key r)
               else Ret t);
          scan_hints k t bucket b
      end
  end.

Definition scanHintFile (f : fs) (now : Z) t (bucket : Z) (path : bytes) (new_path : option bytes)
  : outcome (fs * HTree C) :=
  '(f, b) ← open_hint f now path new_path;
  match b with
  | None => Ret (f, t)
  | Some b => t ← scan_hints (length b) t bucket b; Ret (f, t)
  end.

(** The loop of [count_deleted_record]: deleted and total so far. *)
Fixpoint count_loop (fuel : nat) t (bucket : Z) (skipped : bool) (b : bytes) (deleted total : Z)
  : outcome (HTree C * Z * Z) :=
  match fuel, b with
  | _, [] => Ret (t, deleted, total)
  | O, _ => Fault
  | S k, _ =>
      r ← next_hint b;
      match r with
      | None => Ret (t, deleted, total)
      | Some (r, b) =>
          '(t, it) ← ht_get2 t (h_key r);
          let dead := match it with
                      | None => true
                      | Some it => negb (it_pos it =? u32 (Z.lor (Z.shiftl (h_pos r) 8) bucket))
                                   || ((it_ver it <=? 0) && negb skipped)
                      end in
          count_loop k t bucket skipped b (deleted + b2z dead) (total + 1)
      end
  end.
Definition count_deleted_record (f : fs) (now : Z) t (bucket : Z) (path : bytes) (skipped : bool)
  : outcome (HTree C * Z * Z) :=
  '(_, b) ← open_hint f now path None;
  match b with
  | None => Ret (t, 0, 0)
  | Some b => count_loop (length b) t bucket skipped b 0 0
  end.
End Hint.
