(* ===== verification/HintFacts.v ===== *)
(** * Hint files: the tree is rebuilt from them

    Collecting the entries of a tree into a hint file, compressing it, reading it
    back and adding its records to a new tree gives the live entries again. *)
From Stdlib Require Import ZArith Lia List.
From stdpp Require Import base numbers list gmap strings fin_maps.
From S2P Require Import Prelude Hash CText Codec CodecFacts HTree HTreeShape HTreeMap HTreeSpec HTreeFine HTreeVisit QuickLZ QuickLZFacts Disk DiskFacts Hint.

Import Fnv.

(** The keys that the store accepts fit the tree. *)
Lemma check_key_fits k : bytes_ok k -> check_key k = true -> key_fits k.
Proof.
  intros Hb. unfold check_key. destruct (Z.eqb_spec (blen k) 0); [done|]. destruct (Z.ltb_spec MAX_KEY_LEN (blen k)); [done|].
  cbn [orb]. destruct k as [|c r]; [done|]. destruct (Z.leb_spec (s8 c) 32); [done|]. intros Hall. split; [|done].
  apply Forall_cons in Hb as Hb'. destruct Hb' as [Hc _]. unfold byte_ok in Hc.
  split; [done|]. split; [done|]. split.
  - rewrite forallb_forall in Hall. apply Forall_forall. intros x Hx ->.
    apply list_elem_of_In, Hall in Hx. discriminate.
  - simpl. apply Z.ltb_lt. lia.
Qed.

(** ** One record *)
(** An entry that fits the fields of [struct hint]. *)
Definition hint_fits (it : Item) : Prop :=
  0 <= it_pos it < 2 ^ 32 /\ - 2 ^ 31 <= it_ver it < 2 ^ 31 /\ 0 <= it_hash it < 2 ^ 16 /\ blen (it_key it) <= MAX_KEY_LEN.

Definition hint_of (it : Item) : bytes :=
  hint_bytes {| h_ksize := blen (it_key it); h_pos := Z.shiftr (it_pos it) 8; h_version := it_ver it;
                h_hash := it_hash it; h_key := it_key it ++ [0] |}.

Lemma hint_length it : blen (hint_of it) = 11 + blen (it_key it).
Proof. unfold hint_of, hint_bytes. simpl h_key. rewrite !blen_app, !blen_le. unfold blen. simpl. lia. Qed.

Lemma collect_one it p :
  hint_fits it -> blen (p_buf p) <= p_size p -> 2 ^ 20 <= p_size p <= 2 ^ 30 -> blen (p_buf p) + 261 <= 2 ^ 29 ->
  exists size, collect_items it p = Ret {| p_size := size; p_buf := p_buf p ++ hint_of it |} /\
    blen (p_buf p ++ hint_of it) <= size /\ 2 ^ 20 <= size <= 2 ^ 30.
Proof.
  intros (_ & _ & _ & Hk) Hc Hs Hb. unfold collect_items, MAX_KEY_LEN in *. pose proof (blen_nonneg (it_key it)) as Hk0.
  change (2 ^ 20) with 1048576 in *. change (2 ^ 30) with 1073741824 in *. change (2 ^ 29) with 536870912 in *.
  assert (Hu : u8 (blen (it_key it)) = blen (it_key it)) by (unfold u8; apply Z.mod_small; change (2 ^ 8) with 256; lia). rewrite Hu.
  set (size := if _ <? _ then _ else _).
  assert (Hsz : 11 + blen (it_key it) <= size - blen (p_buf p) /\ 1048576 <= size <= 1073741824).
  { unfold size. destruct (Z.ltb_spec (p_size p - blen (p_buf p)) (12 + blen (it_key it) + 1 - 2)); [|lia].
    rewrite s32_id by (change (2 ^ 31) with 2147483648; lia). lia. }
  replace (take (Z.to_nat (blen (it_key it) + 1)) (it_key it ++ [0])) with (it_key it ++ [0]).
  2: { symmetry. apply take_ge. rewrite length_app. unfold blen. simpl. lia. }
  unfold safe_memcpy. rewrite blen_app. change (blen [0]) with 1.
  destruct (Z.ltb_spec (size - blen (p_buf p) - 12 + 2) (blen (it_key it) + 1)); [lia|]. cbn [mbind outcome_bind].
  exists size. split; [|split; [rewrite blen_app, hint_length; lia|lia]]. do 3 f_equal.
  apply take_ge. pose proof (hint_length it) as Hl. unfold hint_of, blen in *. lia.
Qed.

Lemma collect_all l p :
  Forall hint_fits l -> blen (p_buf p) <= p_size p -> 2 ^ 20 <= p_size p <= 2 ^ 30 ->
  blen (p_buf p) + blen (flat_map hint_of l) + 261 <= 2 ^ 29 ->
  exists size, visit_list collect_items l p = Ret {| p_size := size; p_buf := p_buf p ++ flat_map hint_of l |}.
Proof.
  intros H. revert p. induction H as [|it l Hit _ IH]; intros p Hc Hs Hb; cbn [visit_list flat_map] in *.
  { exists (p_size p). rewrite app_nil_r. by destruct p. }
  rewrite blen_app in Hb. pose proof (blen_nonneg (flat_map hint_of l)). pose proof (blen_nonneg (hint_of it)).
  destruct (collect_one it p) as (size & -> & Hc' & Hs'); auto; [lia|]. cbn [mbind outcome_bind].
  destruct (IH {| p_size := size; p_buf := p_buf p ++ hint_of it |}) as (size' & E); auto; simpl; [rewrite blen_app; lia|].
  exists size'. rewrite E. simpl. by rewrite <- app_assoc.
Qed.

(** The record read back, and what follows. *)
Lemma next_hint_of it rest :
  hint_fits it ->
  next_hint (hint_of it ++ rest) =
  Ret (Some ({| h_ksize := blen (it_key it); h_pos := it_pos it / 256; h_version := it_ver it; h_hash := it_hash it;
                h_key := it_key it |}, rest)).
Proof.
  intros (Hp & Hv & Hh & Hk). unfold MAX_KEY_LEN in Hk. pose proof (blen_nonneg (it_key it)) as Hk0. pose proof (hint_length it) as Hl.
  change (2 ^ 32) with 4294967296 in *. assert (Hq : 0 <= it_pos it / 256 < 16777216) by (Z.div_mod_to_equations; lia).
  assert (Hw : le_bytes 4 (blen (it_key it) + 256 * (Z.shiftr (it_pos it) 8 mod 2 ^ 24)) = blen (it_key it) :: le_bytes 3 (it_pos it / 256)).
  { rewrite Z.shiftr_div_pow2 by lia. change (2 ^ 8) with 256. change (2 ^ 24) with 16777216. rewrite (Z.mod_small (it_pos it / 256)) by lia.
    cbn [le_bytes]. rewrite (Z.mul_comm 256), Z.mod_add, Z.div_add, (Z.mod_small (blen (it_key it))), (Z.div_small (blen (it_key it))), Z.add_0_l by lia. done. }
  unfold next_hint. unfold hint_of, hint_bytes in *. simpl h_key in *. simpl h_ksize in *. simpl h_pos in *. simpl h_version in *. simpl h_hash in *.
  rewrite Hw in *. cbn [app] in *. set (k3 := le_bytes 3 (it_pos it / 256)) in *. set (v4 := le_bytes 4 (u32 (it_ver it))) in *. set (h2 := le_bytes 2 (it_hash it)) in *.
  assert (Hrec : (blen (it_key it) :: (k3 ++ v4 ++ h2 ++ it_key it ++ [0]) ++ rest) = (blen (it_key it) :: k3 ++ v4 ++ h2) ++ it_key it ++ [0] ++ rest)
    by (cbn [app]; by rewrite <- !app_assoc).
  rewrite Hrec in *. set (hd := blen (it_key it) :: k3 ++ v4 ++ h2). assert (Hhd : length hd = 10%nat) by done.
  assert (Hlen : blen (hd ++ it_key it ++ [0] ++ rest) = 11 + blen (it_key it) + blen rest).
  { rewrite !blen_app. unfold blen at 1. rewrite Hhd. change (blen [0]) with 1. lia. }
  rewrite Hlen. pose proof (blen_nonneg rest). destruct (Z.ltb_spec (11 + blen (it_key it) + blen rest) (12 - 2 + blen (it_key it) + 1)); [lia|].
  change (take 3 (drop 1 (hd ++ it_key it ++ [0] ++ rest))) with k3. change (take 4 (drop 4 (hd ++ it_key it ++ [0] ++ rest))) with v4.
  change (take 2 (drop 8 (hd ++ it_key it ++ [0] ++ rest))) with h2. change (drop 10 (hd ++ it_key it ++ [0] ++ rest)) with (it_key it ++ [0] ++ rest).
  unfold k3, v4, h2. rewrite !le_val_le_bytes_id by (apply u32_range || done || (change (256 ^ Z.of_nat 3) with 16777216; lia)).
  rewrite s32_u32, s32_id by done. rewrite take_app_n by (unfold blen; lia).
  replace (hd ++ it_key it ++ [0] ++ rest) with ((hd ++ it_key it ++ [0]) ++ rest) by (by rewrite <- !app_assoc).
  rewrite drop_app_n by (rewrite !length_app, Hhd; unfold blen; simpl; lia). done.
Qed.

(** ** Rebuilding a tree *)
(** The position of an entry in the data file [bucket]. *)
Definition relocate (bucket pos : Z) : Z := 256 * (pos / 256) + bucket.
Definition relocated (bucket : Z) (e : entry) : option entry :=
  match e with (pos, ver, hash) => if 0 <? ver then Some (relocate bucket pos, ver, hash) else None end.

Definition hint_step (bucket : Z) (m : gmap bytes entry) (it : Item) : gmap bytes entry :=
  match relocated bucket (ival it) with Some e => <[it_key it := e]> m | None => delete (it_key it) m end.

Definition find_key (k : bytes) (l : list Item) : option Item := List.find (fun it => bool_decide (it_key it = k)) l.

Lemma find_key_none k l : k ∉ List.map it_key l -> find_key k l = None.
Proof.
  induction l as [|x l IH]; [done|]. simpl. intros H. apply not_elem_of_cons in H as [H1 H2]. unfold find_key. simpl.
  rewrite bool_decide_false by auto. by apply IH.
Qed.

Lemma map_find l k : list_to_map (M := gmap bytes entry) (List.map (fun it => (it_key it, ival it)) l) !! k = ival <$> find_key k l.
Proof.
  induction l as [|x l IH]; [done|]. cbn [List.map list_to_map foldr]. unfold find_key in *. simpl. rewrite lookup_insert.
  destruct (decide (it_key x = k)); [by rewrite bool_decide_true|rewrite bool_decide_false by done; apply IH].
Qed.

(** Its items give the entries of a map. *)
Lemma map_in (l : list Item) x :
  NoDup (List.map it_key l) -> x ∈ l ->
  list_to_map (M := gmap bytes entry) (List.map (fun it => (it_key it, ival it)) l) !! it_key x = Some (ival x).
Proof.
  intros Hnd Hx. apply elem_of_list_to_map_1; [|apply list_elem_of_fmap; eauto].
  change ((List.map (fun it => (it_key it, ival it)) l).*1) with (List.map fst (List.map (fun it => (it_key it, ival it)) l)). by rewrite map_map.
Qed.

Lemma steps_find bucket l m k :
  NoDup (List.map it_key l) ->
  fold_left (hint_step bucket) l m !! k = match find_key k l with Some it => relocated bucket (ival it) | None => m !! k end.
Proof.
  revert m. induction l as [|x l IH]; intros m Hnd; [done|]. simpl in Hnd. apply NoDup_cons in Hnd as [Hni Hnd]. cbn [fold_left]. rewrite IH by done.
  assert (Hstep : hint_step bucket m x !! k = if decide (it_key x = k) then relocated bucket (ival x) else m !! k).
  { unfold hint_step. destruct (relocated bucket (ival x)); rewrite ?lookup_insert, ?lookup_delete; by case_decide. }
  unfold find_key at 2. simpl. destruct (decide (it_key x = k)) as [<-|Hne].
  - rewrite bool_decide_true by done. rewrite find_key_none by done. by rewrite Hstep.
  - rewrite bool_decide_false by done. fold (find_key k l). destruct (find_key k l); [done|]. by rewrite Hstep.
Qed.

Lemma relocate_bits pos bucket :
  0 <= pos < 2 ^ 32 -> 0 <= bucket < 256 ->
  u32 (Z.lor (Z.shiftl (pos / 256) 8) (Z.land bucket 0xff)) = relocate bucket pos.
Proof.
  intros Hp Hb. change 0xff with (Z.ones 8). rewrite Z.land_ones by lia. rewrite (Z.mod_small bucket) by (change (2 ^ 8) with 256; lia).
  rewrite Z.lor_comm, lor_shiftl_add by (change (2 ^ 8) with 256; lia). change (2 ^ 8) with 256. change (2 ^ 32) with 4294967296 in *.
  rewrite u32_id; [unfold relocate; lia|]. change (2 ^ 32) with 4294967296. Z.div_mod_to_equations; lia.
Qed.

(** The base name of a path with a suffix that has no slash. *)
Lemma basename_app p x : Forall (fun c => c <> 47) x -> simple_basename (p ++ x) = simple_basename p ++ x.
Proof.
  intros Hx. unfold simple_basename. set (go := fix go (l acc : bytes) : bytes := match l with [] => acc | c :: r => _ end).
  assert (H1 : forall acc, go x acc = acc ++ x).
  { induction Hx as [|c x Hc _ IHx]; intros acc; [symmetry; apply app_nil_r|]. cbn [go]. rewrite (proj2 (Z.eqb_neq c 47) Hc), IHx. by rewrite <- app_assoc. }
  assert (H2 : forall p acc, go (p ++ x) acc = go p acc ++ x); [|apply H2].
  clear p. induction p as [|c p IH]; intros acc; [apply H1|]. cbn [app go]. destruct (c =? 47); apply IH.
Qed.

Section Rebuild.
Context {C : Type} {KC : KeyCodec C} {KL : KeyCodecLaws C}.
Implicit Types t : HTree C.

Lemma scan_hints_spec bucket l t fuel :
  0 <= bucket < 256 -> tree_ok t -> Forall hint_fits l ->
  Forall (fun it => key_fits (it_key it) /\ check_key (it_key it) = true /\ check_bucket t (it_key it) = true) l ->
  (length l <= fuel)%nat ->
  exists t', scan_hints fuel t bucket (flat_map hint_of l) = Ret t' /\ tree_ok t' /\
    abs t' = fold_left (hint_step bucket) l (abs t) /\ t_depth t' = t_depth t /\ t_pos t' = t_pos t /\ grows (length l) t t'.
Proof.
  intros Hb Ht Hf. revert t fuel Ht. induction Hf as [|it l Hit _ IH]; intros t fuel Ht Hk Hfuel; cbn [flat_map fold_left].
  { exists t. assert (grows 0 t t) by apply grows_refl. by destruct fuel. }
  apply Forall_cons in Hk as [(Hkf & Hck & Hbk) Hk]. destruct fuel as [|fuel]; [simpl in Hfuel; lia|]. simpl in Hfuel.
  assert (Hne : exists b r, hint_of it ++ flat_map hint_of l = b :: r) by (by eexists _, _). destruct Hne as (b0 & r0 & Hne).
  cbn [scan_hints]. rewrite Hne. cbv beta iota. rewrite <- Hne. rewrite next_hint_of by done. cbn [mbind outcome_bind h_key h_pos h_version h_hash].
  rewrite Hck. destruct Hit as (Hp & Hv & Hh & Hl). rewrite relocate_bits by done.
  assert (Hstep : exists t1, (if 0 <? it_ver it then ht_add2 t (it_key it) (relocate bucket (it_pos it)) (it_hash it) (it_ver it) else ht_remove2 t (it_key it)) = Ret t1 /\
    tree_ok t1 /\ t_depth t1 = t_depth t /\ t_pos t1 = t_pos t /\ abs t1 = hint_step bucket (abs t) it /\ grows 1 t t1).
  { unfold hint_step, relocated, ival. destruct (0 <? it_ver it).
    - destruct (ht_add2_spec t (it_key it) (relocate bucket (it_pos it)) (it_hash it) (it_ver it) Ht Hkf) as (t1 & Eg & H1 & H2 & H3 & H4). rewrite Hbk in H4. exists t1. split; [done|]. do 4 (split; [done|]). apply (add_grows _ _ _ _ _ _ Eg); [|done|done].
      unfold relocate. change (2 ^ 32) with 4294967296 in *. Z.div_mod_to_equations; lia.
    - destruct (ht_remove2_spec t (it_key it) Ht Hkf) as (t1 & Eg & H1 & H2 & H3 & H4). exists t1. do 5 (split; [done|]). by eapply remove_grows. }
  destruct Hstep as (t1 & -> & H1 & H2 & H3 & H4 & Hg). cbn [mbind outcome_bind].
  destruct (IH t1 fuel) as (t2 & E & Ht2 & Ha2 & Hd2 & Hp2 & Hg2); auto; [|lia|].
  - eapply Forall_impl; [exact Hk|]. intros x (? & ? & ?). by rewrite (check_bucket_cfg t t1).
  - exists t2. rewrite <- H4, Hd2, Hp2. do 5 (split; [done|]). cbn [length]. exact (grows_trans 1 _ _ _ _ Hg Hg2).
Qed.

Lemma items_shorter (l : list Item) : (length l <= length (flat_map hint_of l))%nat.
Proof. induction l as [|x l IH]; [done|]. cbn [flat_map]. rewrite length_app. pose proof (hint_length x). unfold blen in *. simpl. lia. Qed.

(** Counting the deleted records leaves the tree as it is. *)
Lemma count_loop_spec bucket skipped l t fuel deleted total :
  tree_ok t -> Forall hint_fits l -> Forall (fun it => key_fits (it_key it)) l -> (length l <= fuel)%nat ->
  exists t' x y, count_loop fuel t bucket skipped (flat_map hint_of l) deleted total = Ret (t', x, y) /\ tree_ok t' /\
    t_depth t' = t_depth t /\ t_pos t' = t_pos t /\ abs t' = abs t.
Proof.
  intros Ht Hf. revert t fuel deleted total Ht. induction Hf as [|it l Hit _ IH]; intros t fuel deleted total Ht Hk Hfuel; cbn [flat_map].
  { exists t, deleted, total. by destruct fuel. }
  apply Forall_cons in Hk as [Hki Hk]. destruct fuel as [|fuel]; [simpl in Hfuel; lia|]. simpl in Hfuel.
  assert (Hne : exists b r, hint_of it ++ flat_map hint_of l = b :: r) by (by eexists _, _). destruct Hne as (b0 & r0 & Hne).
  cbn [count_loop]. rewrite Hne. cbv beta iota. rewrite <- Hne. rewrite next_hint_of by done. cbn [mbind outcome_bind h_key h_pos h_version h_hash].
  destruct (ht_get2_spec t (it_key it) Ht Hki) as (t1 & p & -> & Ht1 & Hd1 & Hp1 & Ha1 & _). cbn [mbind outcome_bind].
  destruct (IH t1 fuel (deleted + b2z match p with None => true | Some it0 => negb (it_pos it0 =? u32 (Z.lor (Z.shiftl (it_pos it / 256) 8) bucket)) || ((it_ver it0 <=? 0) && negb skipped) end)
    (total + 1) Ht1 Hk ltac:(lia)) as (t2 & x & y & -> & Ht2 & Hd2 & Hp2 & Ha2).
  exists t2, x, y. rewrite Hd2, Hp2, Ha2. done.
Qed.

(** The entries of a tree that a hint file can hold. *)
Definition hintable (m : gmap bytes entry) : Prop :=
  map_Forall (fun k e => check_key k = true /\ 0 <= e.1.1 < 2 ^ 32 /\ - 2 ^ 31 <= e.1.2 < 2 ^ 31 /\ 0 <= e.2 < 2 ^ 16) m /\
  Z.of_nat (size m) * 261 + 261 <= 2 ^ 29.

Lemma collect_tree_spec t :
  tree_ok t -> hintable (abs t) ->
  exists l, collect_tree t = Ret (flat_map hint_of l) /\ NoDup (List.map it_key l) /\
    list_to_map (List.map (fun it => (it_key it, ival it)) l) = abs t /\ Forall hint_fits l /\
    Forall (fun it => key_fits (it_key it) /\ check_key (it_key it) = true /\ check_bucket t (it_key it) = true) l.
Proof.
  intros Ht [Hm Hsz]. destruct (ht_visit_list t Ht) as (l & Hvis & Hnd & Hmap & Hkeys). exists l.
  assert (Hfit : Forall hint_fits l /\ Forall (fun it => check_key (it_key it) = true) l).
  { rewrite <- Forall_and. apply Forall_forall. intros it Hin. pose proof (proj1 (Forall_forall _ _) Hkeys it Hin) as [[_ Hl] _].
    assert (Hlk : abs t !! it_key it = Some (ival it)).
    { rewrite <- Hmap. by apply map_in. }
    destruct (Hm _ _ Hlk) as (H1 & H2 & H3 & H4). done. }
  destruct Hfit as [Hfit Hck].
  assert (Hlen : Z.of_nat (length l) * 261 + 261 <= 2 ^ 29).
  { rewrite <- Hmap in Hsz. rewrite map_size_list_to_map in Hsz.
    - by rewrite length_map in Hsz.
    - change ((List.map (fun it => (it_key it, ival it)) l).*1) with (List.map fst (List.map (fun it => (it_key it, ival it)) l)). by rewrite map_map. }
  assert (Hbytes : blen (flat_map hint_of l) <= Z.of_nat (length l) * 261).
  { clear -Hfit. induction Hfit as [|it l (_ & _ & _ & Hl) _ IH]; [done|]. cbn [flat_map length]. rewrite blen_app, hint_length. unfold MAX_KEY_LEN in Hl. lia. }
  split; [|split; [done|split; [done|split; [done|]]]].
  - unfold collect_tree. rewrite Hvis. destruct (collect_all l {| p_size := 1024 * 1024; p_buf := [] |}) as (size & ->); auto.
    + simpl. change (blen []) with 0. lia.
    + simpl. lia.
    + simpl p_buf. change (blen []) with 0. lia.
  - rewrite Forall_forall in *. intros it Hin. destruct (Hkeys it Hin) as [H1 H2]. auto.
Qed.

(** ** The file *)
(** The bytes of hint records. *)
Lemma hints_ok l :
  Forall (fun it => bytes_ok (it_key it) /\ blen (it_key it) <= MAX_KEY_LEN) l ->
  bytes_ok (flat_map hint_of l) /\ blen (flat_map hint_of l) <= Z.of_nat (length l) * 261.
Proof.
  induction 1 as [|it l [Hk Hl] _ [Hb Hle]]; [split; [constructor|done]|]. cbn [flat_map length]. rewrite blen_app, hint_length. unfold MAX_KEY_LEN in Hl.
  split; [|lia]. apply Forall_app. split; [|done]. unfold hint_of, hint_bytes. repeat (apply Forall_app; split); try apply le_bytes_ok; simpl;
    [done|by apply Forall_cons_2; [|constructor]].
Qed.

(** The collected records fit the bounds of the compressor. *)
Lemma collected_ok t l :
  hintable (abs t) -> NoDup (List.map it_key l) -> list_to_map (List.map (fun it => (it_key it, ival it)) l) = abs t ->
  Forall hint_fits l ->
  Forall (fun it => key_fits (it_key it) /\ check_key (it_key it) = true /\ check_bucket t (it_key it) = true) l ->
  bytes_ok (flat_map hint_of l) /\ blen (flat_map hint_of l) <= 2 ^ 29.
Proof.
  intros Hm Hnd Hmap Hfit Hkeys. set (buf := flat_map hint_of l).
  assert (Hbuf : bytes_ok buf /\ blen buf <= Z.of_nat (length l) * 261).
  { apply hints_ok. eapply Forall_impl; [apply Forall_and; split; [exact Hfit|exact Hkeys]|]. intros x [(_ & _ & _ & Hl) ((Hk & _) & _)]. split; [apply Hk|done]. }
  split; [apply Hbuf|]. destruct Hm as [_ Hsz]. rewrite <- Hmap, map_size_list_to_map in Hsz; [rewrite length_map in Hsz; lia|].
  change ((List.map (fun it => (it_key it, ival it)) l).*1) with (List.map fst (List.map (fun it => (it_key it, ival it)) l)). by rewrite map_map.
Qed.

Context (fresh : Z -> bytes) (Hfresh : forall n, length (fresh n) = Z.to_nat n /\ bytes_ok (fresh n)).

Lemma hint_file_bytes path buf :
  bytes_ok buf -> blen buf <= 2 ^ 29 ->
  exists d, (if is_qlz path then qlz_compress (fresh 9) buf else Ret buf) = Ret d /\ hint_buf fresh path d = Ret buf.
Proof.
  intros Hb Hl. change (2 ^ 29) with 536870912 in Hl. unfold hint_buf. destruct (is_qlz path); cbn [andb]; [|by exists buf].
  destruct buf as [|x buf]; [exists []; done|]. set (b := x :: buf) in *.
  destruct (Hfresh 9) as [L9 B9]. destruct (Hfresh (blen b)) as [Lb Bb].
  assert (1 <= blen b) by (unfold b, blen; simpl; lia).
  destruct (qlz_codec (fresh 9) b (fresh (blen b))) as (c & E & Hne & Hsz & Hd & _); auto; [rewrite L9; lia|lia|rewrite Lb; unfold blen; lia|].
  exists c. split; [done|]. assert (0 < blen c) by (destruct c; [done|unfold blen; simpl; lia]).
  rewrite (proj2 (Z.ltb_lt 0 (blen c))) by done. rewrite Hsz. done.
Qed.

Lemma write_open_hint f now now' buf path :
  bytes_ok buf -> blen buf <= 2 ^ 29 -> blen path < 251 -> (forall l, f !! (path ++ lit ".tmp") <> Some (Link l)) ->
  exists f', write_hint_file fresh f now buf path = Ret f' /\ open_hint fresh f' now' path None = Ret (f', Some buf).
Proof.
  intros Hb Hl Hp Htmp. destruct (hint_file_bytes path buf Hb Hl) as (d & Ed & Hd). unfold write_hint_file. rewrite Ed. cbn [mbind outcome_bind].
  set (tmp := path ++ lit ".tmp") in *. unfold print_path. assert (Hlt : blen tmp = blen path + 4) by (unfold tmp; rewrite blen_app; done).
  unfold MAX_PATH_LEN. destruct (Z.leb_spec 255 (blen tmp)); [lia|]. cbn [mbind outcome_bind].
  assert (Hw : fs_write f tmp d now = <[tmp := Reg d now]> f).
  { unfold fs_write, MAXSYMLINKS. cbn [real_path]. destruct (f !! tmp) as [[|]|] eqn:E; [done|by destruct (Htmp target)|done]. }
  rewrite Hw. assert (Hne : path <> tmp) by (intros E; rewrite <- E in Hlt; lia).
  assert (Hu : mgr_unlink (<[tmp := Reg d now]> f) path !! tmp = Some (Reg d now)).
  { unfold mgr_unlink, mgr_readlink, fs_unlink. rewrite lookup_insert_ne by done. destruct (f !! path) as [[|t]|]; rewrite ?lookup_delete_ne, ?lookup_insert_eq by done; try done.
    generalize (take (Z.to_nat MAX_PATH_LEN) t). clear t. intros t. cbv zeta. case_bool_decide as Hbn; [|by rewrite lookup_insert_eq]. destruct (0 <? blen t); [|by rewrite lookup_insert_eq].
    rewrite lookup_delete_ne; [by rewrite lookup_insert_eq|]. intros ->. unfold tmp in Hbn. rewrite basename_app in Hbn by (vm_compute; repeat constructor; discriminate).
    apply (f_equal (@length Z)) in Hbn. rewrite length_app in Hbn. simpl in Hbn. lia. }
  unfold mgr_rename, fs_rename. rewrite Hu. eexists. split; [done|].
  unfold open_hint, fs_read, stat_reg, MAXSYMLINKS. cbn [real_path]. rewrite lookup_insert_eq. simpl. rewrite lookup_insert_eq. simpl. by rewrite Hd.
Qed.

(** The same on one disk: nothing but the hint file and its temporary name is
    touched. *)
Lemma write_hint_plain f now buf path :
  bytes_ok buf -> blen buf <= 2 ^ 29 -> blen path < 251 -> plain f ->
  exists f', write_hint_file fresh f now buf path = Ret f' /\ plain f' /\ same_but [path; path ++ lit ".tmp"] f f' /\
    forall now', open_hint fresh f' now' path None = Ret (f', Some buf).
Proof.
  intros Hb Hl Hp Hf. destruct (hint_file_bytes path buf Hb Hl) as (d & Ed & Hd). unfold write_hint_file. rewrite Ed. cbn [mbind outcome_bind].
  set (tmp := path ++ lit ".tmp"). assert (Hlt : blen tmp = blen path + 4) by (unfold tmp; rewrite blen_app; done).
  unfold print_path, MAX_PATH_LEN. destruct (Z.leb_spec 255 (blen tmp)); [lia|]. cbn [mbind outcome_bind].
  assert (Hne : tmp <> path) by (intros E; rewrite E in Hlt; lia). rewrite fs_write_plain by done.
  assert (Hf1 : plain (<[tmp := Reg d now]> f)) by by apply plain_insert. rewrite mgr_unlink_plain by done.
  rewrite (mgr_rename_plain _ _ _ (Reg d now)); [|by apply plain_delete|by rewrite lookup_delete_ne, lookup_insert_eq by done].
  eexists. split; [done|]. split; [by apply plain_insert, plain_delete, plain_delete|]. split.
  - intros q Hq. rewrite !not_elem_of_cons in Hq. by rewrite lookup_insert_ne, !lookup_delete_ne, lookup_insert_ne by naive_solver.
  - intros now'. unfold open_hint. rewrite (stored_read _ path d now) by (left; apply lookup_insert_eq). by rewrite Hd.
Qed.

(** A hint file scanned into any tree of the same bucket: its entries replace
    those of the tree. *)
Lemma build_scan_hint f now now' t0 t path bucket :
  tree_ok t0 -> hintable (abs t0) -> tree_ok t -> 0 <= bucket < 256 -> blen path < 251 ->
  (forall l, f !! (path ++ lit ".tmp") <> Some (Link l)) ->
  (forall key, is_Some (abs t0 !! key) -> check_bucket t key = true) ->
  exists f' t', build_hint fresh f now t0 path = Ret f' /\ scanHintFile fresh f' now' t bucket path None = Ret (f', t') /\
    tree_ok t' /\ forall k, abs t' !! k = match abs t0 !! k with Some e => relocated bucket e | None => abs t !! k end.
Proof.
  intros Ht0 Hm Ht Hbk Hp Htmp Hown. destruct (collect_tree_spec t0 Ht0 Hm) as (l & Hc & Hnd & Hmap & Hfit & Hkeys).
  unfold build_hint. rewrite Hc. cbn [mbind outcome_bind]. set (buf := flat_map hint_of l) in *.
  assert (Hbuf : bytes_ok buf /\ blen buf <= 2 ^ 29) by by apply (collected_ok t0).
  destruct (write_open_hint f now now' buf path) as (f' & -> & Ho); [apply Hbuf|apply Hbuf|done|done|].
  destruct (scan_hints_spec bucket l t (length buf) Hbk Ht Hfit) as (t' & Hs & Ht' & Ha' & _); [|apply items_shorter|].
  { apply Forall_forall. intros x Hx. destruct (proj1 (Forall_forall _ _) Hkeys x Hx) as (? & ? & _). split; [done|]. split; [done|].
    apply Hown. rewrite <- Hmap. exists (ival x). by apply map_in. }
  exists f', t'. split; [done|]. unfold scanHintFile. rewrite Ho. cbn [mbind outcome_bind]. fold buf in Hs. rewrite Hs. split; [done|]. split; [done|].
  intros k. rewrite Ha', steps_find by done. rewrite <- Hmap, map_find. by destruct (find_key k l).
Qed.

(** C25. Hint files are faithful.  [build_hint] of a tree (compressed when the
    path ends in .qlz, written to a temporary file and renamed over an old file
    or link) followed by [scanHintFile] into a new tree of the same bucket gives
    exactly the live entries, with their positions in the data file [bucket]. *)
Theorem hint_roundtrip f now now' t path bucket :
  tree_ok t -> hintable (abs t) -> 0 <= t_depth t <= 7 -> 0 <= bucket < 256 -> blen path < 251 ->
  (forall l, f !! (path ++ lit ".tmp") <> Some (Link l)) ->
  exists f' t', build_hint fresh f now t path = Ret f' /\
    scanHintFile fresh f' now' (ht_new (C := C) (t_depth t) (t_pos t) false) bucket path None = Ret (f', t') /\
    tree_ok t' /\ abs t' = omap (relocated bucket) (abs t).
Proof.
  intros Ht Hm Hdp Hbk Hp Htmp. destruct (tree_new_ok (C := C) (t_depth t) (t_pos t) false Hdp) as [Hn Hna].
  destruct (build_scan_hint f now now' t (ht_new (t_depth t) (t_pos t) false) path bucket) as (f' & t' & E1 & E2 & Ht' & Ha'); auto.
  { intros key [e He]. rewrite (check_bucket_cfg t) by done. destruct (check_bucket t key) eqn:E; [done|]. by rewrite abs_own in He. }
  exists f', t'. split; [done|]. split; [done|]. split; [done|]. apply map_eq. intros k.
  rewrite Ha', Hna, lookup_omap. by destruct (abs t !! k).
Qed.
End Rebuild.


(** ** A concrete tree *)
#[export] Instance hintable_dec m : Decision (hintable m).
Proof. unfold hintable. apply _. Defined.

Lemma hint_roundtrip_witness :
  exists f' t', build_hint zeros ∅ 1 (tree_of history1) (lit "d/000.hint.qlz") = Ret f' /\
    scanHintFile zeros f' 2 (ht_new (C := Codec) (t_depth (tree_of history1)) (t_pos (tree_of history1)) false) 3 (lit "d/000.hint.qlz") None = Ret (f', t') /\
    tree_ok t' /\ abs t' = omap (relocated 3) (abs (tree_of history1)).
Proof.
  apply (hint_roundtrip zeros zeros_ok ∅ 1 2 (tree_of history1) (lit "d/000.hint.qlz") 3).
  - apply tree_of_ok; [|done]. by_compute.
  - by_compute.
  - vm_compute. split; discriminate.
  - lia.
  - vm_compute. reflexivity.
  - intros l. rewrite lookup_empty. discriminate.
Defined.
