(* ===== verification/Record.v ===== *)
(** * Data records (record.c, record.h, util.h)

    The on-disk record: 24 bytes of header (checksum, time, flag, version, key
    and value size), the key, the value, zero padding to a multiple of 256.
    This file models encoding with the compression decision, the three readers,
    the scan of a data file with its recovery from broken records, and the
    garbage collection of one data file.  A record in memory keeps [ksz] and
    [vsz] as the lengths of its key and value. *)
From Stdlib Require Import ZArith Lia List.
From stdpp Require Import base numbers list gmap strings.
From S2P Require Import Prelude Hash CText Codec HTree QuickLZ Disk Hint.

Import Fnv Crc.

Definition PADDING : Z := 256.
Definition COMPRESS_FLAG : Z := 0x00010000.
Definition CLIENT_COMPRESS_FLAG : Z := 0x00000010.
Definition TRY_COMPRESS_SIZE : Z := 1024 * 10.
Definition MAX_VALUE_LEN : Z := 100 * 1024 * 1024.
(** [sizeof(DataRecord) - sizeof(char* )] *)
Definition HEADER : Z := 24.

Record DataRecord := {
  r_tstamp : Z;
  r_flag : Z;
  r_version : Z;
  r_key : bytes;
  r_value : bytes
}.

(** Why a record was not decoded. *)
Inductive bad_rec := BAD_REC_SIZE | BAD_REC_END | BAD_REC_CRC | BAD_REC_DECOMPRESS.

Definition bad_kv_size (ksz vsz : Z) : bool :=
  ((ksz =? 0) || (MAX_KEY_LEN <? ksz)) || (MAX_VALUE_LEN <? vsz).

(** [record_length]: the padded size. *)
Definition padded (n : Z) : Z := (n / PADDING + b2z (negb (n mod PADDING =? 0))) * PADDING.
Definition record_length (r : DataRecord) : Z := padded (HEADER + blen (r_key r) + blen (r_value r)).

(** ** Single-precision comparison

    [round24 x] is the nonnegative integer [x] rounded to a [float] (24
    significant bits, ties to even). *)
Definition round24 (x : Z) : Z :=
  let e := Z.log2 x - 23 in
  if e <=? 0 then x
  else
    let q := Z.shiftr x e in
    let r := x mod 2 ^ e in
    let half := 2 ^ (e - 1) in
    let up := (half <? r) || ((r =? half) && Z.odd q) in
    Z.shiftl (q + b2z up) e.
(** [COMPRESS_RATIO_LIMIT], the [float] nearest to 0.7, times 2^24. *)
Definition RATIO : Z := 11744051.
(** [vsize < try_size * COMPRESS_RATIO_LIMIT] and the opposite strict test, both
    sides scaled by 2^24. *)
Definition ratio_limit (try_size : Z) : Z := round24 (round24 try_size * RATIO).
Definition below_ratio (vsize try_size : Z) : bool := round24 vsize * 2 ^ 24 <? ratio_limit try_size.
Definition above_ratio (vsize try_size : Z) : bool := ratio_limit try_size <? round24 vsize * 2 ^ 24.

(** ** The bytes of a record *)
(** The header from [tstamp] on, then the key and the value: what the checksum
    covers. *)
Definition record_body (r : DataRecord) : bytes :=
  le_bytes 4 (u32 (r_tstamp r)) ++ le_bytes 4 (u32 (r_flag r)) ++ le_bytes 4 (u32 (r_version r)) ++
  le_bytes 4 (blen (r_key r)) ++ le_bytes 4 (blen (r_value r)) ++ r_key r ++ r_value r.

Section Record.
Context (fresh : Z -> bytes).

Definition with_value (r : DataRecord) (v : bytes) (flag : Z) : DataRecord :=
  {| r_tstamp := r_tstamp r; r_flag := flag; r_version := r_version r; r_key := r_key r; r_value := v |}.

(** [compress_record]: large values are tried on a prefix first. *)
Definition compress_record (r : DataRecord) : outcome DataRecord :=
  if negb (Z.land (r_flag r) COMPRESS_FLAG =? 0) then Ret r else
  let vsz := blen (r_value r) in
  let n := HEADER + blen (r_key r) + vsz in
  if (PADDING <? n) && (Z.land (r_flag r) (Z.lor COMPRESS_FLAG CLIENT_COMPRESS_FLAG) =? 0) then
    let try_size := if TRY_COMPRESS_SIZE <? vsz then TRY_COMPRESS_SIZE else vsz in
    v ← qlz_compress (fresh 9) (take (Z.to_nat try_size) (r_value r));
    '(v, try_size) ←
      (if (try_size <? vsz) && below_ratio (blen v) try_size then
         v ← qlz_compress (fresh 9) (r_value r); Ret (v, vsz)
       else Ret (v, try_size));
    if above_ratio (blen v) try_size || (try_size <? vsz) then Ret r
    else Ret (with_value r v (Z.lor (r_flag r) COMPRESS_FLAG))
  else Ret r.

(** [decompress_record]: [None] for broken compressed data. *)
Definition decompress_record (r : DataRecord) : outcome (option DataRecord) :=
  if negb (Z.land (r_flag r) COMPRESS_FLAG =? 0) then
    csize ← qlz_size_compressed (r_value r);
    if negb (csize =? blen (r_value r)) then Ret None
    else
      size ← qlz_size_decompressed (r_value r);
      v ← qlz_decompress (r_value r) (fresh size);
      Ret (Some (with_value r v (Z.land (r_flag r) (Z.lnot COMPRESS_FLAG))))
  else Ret (Some r).

(** [encode_record]: the padded bytes, with the checksum computed last. *)
Definition encode_bytes (r : DataRecord) : bytes :=
  let n := HEADER + blen (r_key r) + blen (r_value r) in
  let m := if negb (n mod PADDING =? 0) then n + (PADDING - n mod PADDING) else n in
  le_bytes 4 (crc32 0 (record_body r)) ++ record_body r ++ repeat 0 (Z.to_nat (m - n)).
Definition encode_record (r : DataRecord) : outcome bytes :=
  r ← compress_record r; Ret (encode_bytes r).

(** ** Reading records *)
(** The 4-byte field at an offset. *)
Definition field (b : bytes) (off : nat) : Z := le_val (take 4 (drop off b)).

(** A record with the header fields at [b], from a key and a value. *)
Definition record_of (b key value : bytes) : DataRecord :=
  {| r_tstamp := s32 (field b 4); r_flag := s32 (field b 8); r_version := s32 (field b 12);
     r_key := key; r_value := value |}.

(** [decode_record(buf, size, decomp, ...)]; the header is read before [size] is
    looked at. *)
Definition decode_record (buf : bytes) (size : Z) (decomp : bool) : outcome (DataRecord + bad_rec) :=
  if blen buf <? HEADER then Fault else
  let ksz := field buf 16 in
  let vsz := field buf 20 in
  if bad_kv_size ksz vsz then Ret (inr BAD_REC_SIZE)
  else
    let need := u32 (HEADER + ksz + vsz) in
    if size <? need then Ret (inr BAD_REC_END)
    else if blen buf <? need then Fault
    else
      let crc := crc32 0 (take (Z.to_nat (need - 4)) (drop 4 buf)) in
      if negb (field buf 0 =? crc) then Ret (inr BAD_REC_CRC)
      else
        let key := take (Z.to_nat ksz) (drop 24 buf) in
        let value := take (Z.to_nat vsz) (drop (Z.to_nat (HEADER + ksz)) buf) in
        let r2 := record_of buf key value in
        if decomp then
          d ← decompress_record r2;
          match d with Some r => Ret (inl r) | None => Ret (inr BAD_REC_DECOMPRESS) end
        else Ret (inl r2).

(** The header and key as the checksum sees them, rebuilt in memory. *)
Definition head_crc (b key value : bytes) : Z :=
  crc32 (crc32 0 (take 20 (drop 4 b) ++ key)) value.

(** The end shared by [read_record] and [fast_read_record]. *)
Definition finish_read (b key value : bytes) (decomp : bool) : outcome (option DataRecord) :=
  if negb (head_crc b key value =? field b 0) then Ret None
  else if decomp then decompress_record (record_of b key value)
  else Ret (Some (record_of b key value)).

(** [pread(fd, buf, n, off) == n] *)
Definition pread (file : bytes) (off n : Z) : option bytes :=
  if (off <? 0) || (blen file <? off + n) then None
  else Some (take (Z.to_nat n) (drop (Z.to_nat off) file)).

(** [fast_read_record(fd, offset, decomp, ...)] on the contents of the file. *)
Definition fast_read_record (file : bytes) (offset : Z) (decomp : bool) : outcome (option DataRecord) :=
  match pread file offset PADDING with
  | None => Ret None
  | Some b =>
      let ksz := field b 16 in
      let vsz := field b 20 in
      if bad_kv_size ksz vsz then Ret None
      else
        let read_more := HEADER + ksz + vsz - PADDING in
        if read_more <=? 0 then
          finish_read b (take (Z.to_nat ksz) (drop 24 b))
            (take (Z.to_nat vsz) (drop (Z.to_nat (HEADER + ksz)) b)) decomp
        else
          match pread file (offset + PADDING) read_more with
          | None => Ret None
          | Some more =>
              if vsz <? read_more then
                (* the key goes past the first block *)
                let key_more := read_more - vsz in
                finish_read b (take (Z.to_nat (ksz - key_more)) (drop 24 b) ++ take (Z.to_nat key_more) more)
                  (drop (Z.to_nat key_more) more) decomp
              else
                let vreadn := vsz - read_more in
                _ ← safe_memcpy vsz (take (Z.to_nat vreadn) (drop (Z.to_nat (HEADER + ksz)) b));
                finish_read b (take (Z.to_nat ksz) (drop 24 b))
                  (take (Z.to_nat vreadn) (drop (Z.to_nat (HEADER + ksz)) b) ++ more) decomp
          end
  end.

(** [read_record(f, decomp, ...)] at the file position [offset].  The buffer
    has [PADDING] bytes after the pointer, so [PADDING + 8 - 32 = 232] for the
    key, its zero byte and an inlined value; [vsz < read_size] compares as
    unsigned. *)
Definition read_record (file : bytes) (offset : Z) (decomp : bool) : outcome (option DataRecord) :=
  match pread file offset PADDING with
  | None => Ret None
  | Some b =>
      let ksz := field b 16 in
      let vsz := field b 20 in
      if bad_kv_size ksz vsz then Ret None
      else
        let read_size := PADDING - HEADER - ksz in
        if vsz <? u32 read_size then
          if PADDING - HEADER <? ksz + 1 + vsz then Fault
          else finish_read b (take (Z.to_nat ksz) (drop 24 b))
                 (take (Z.to_nat vsz) (drop (Z.to_nat (HEADER + ksz)) b)) decomp
        else
          let need := vsz - read_size in
          if PADDING - HEADER <? ksz + 1 then Fault else
          match (if 0 <? need then pread file (offset + PADDING) need else Some []) with
          | None => Ret None
          | Some more =>
              finish_read b (take (Z.to_nat ksz) (drop 24 b))
                (take (Z.to_nat read_size) (drop (Z.to_nat (HEADER + ksz)) b) ++ more) decomp
          end
  end.

Definition write_record (f : fs) (now : Z) (path : bytes) (r : DataRecord) : outcome fs :=
  b ← encode_record r; Ret (fs_append f path b now).
End Record.
