(* ===== verification/RecordFacts.v ===== *)
(** * Data records: what is written is what is read

    The encoding of a record, compressed or not, is read back by
    [fast_read_record] at its position in a data file and by [decode_record];
    a changed byte is detected by the checksum. *)
From Stdlib Require Import ZArith Lia List.
From stdpp Require Import base numbers list gmap strings.
From S2P Require Import Prelude Hash CText Codec HTree QuickLZ QuickLZFacts Disk Hint Record.

Import Fnv Crc CrcFacts.

(** ** Lists cut at known places *)
Lemma take_app_le {A} (n : nat) (a b : list A) : (n <= length a)%nat -> take n (a ++ b) = take n a.
Proof. intros H. rewrite take_app. replace (n - length a)%nat with 0%nat by lia. by rewrite take_0, app_nil_r. Qed.
Lemma drop_app_le {A} (n : nat) (a b : list A) : (n <= length a)%nat -> drop n (a ++ b) = drop n a ++ b.
Proof. intros H. rewrite drop_app. replace (n - length a)%nat with 0%nat by lia. by rewrite drop_0. Qed.

Lemma pread_at pre a post n :
  blen a = n -> pread (pre ++ a ++ post) (blen pre) n = Some a.
Proof.
  intros <-. unfold pread. rewrite !blen_app. pose proof (blen_nonneg pre). pose proof (blen_nonneg a). pose proof (blen_nonneg post).
  destruct (Z.ltb_spec (blen pre) 0); [lia|]. destruct (Z.ltb_spec (blen pre + (blen a + blen post)) (blen pre + blen a)); [lia|]. cbn [orb].
  unfold blen. by rewrite !Nat2Z.id, drop_app_length, take_app_length.
Qed.

(** The header fields do not depend on what follows the header. *)
Lemma field_app H b off : length H = 24%nat -> (off + 4 <= 24)%nat -> field (H ++ b) off = field H off.
Proof.
  intros Hl Ho. unfold field. rewrite drop_app_le by lia. by rewrite take_app_le by (rewrite length_drop; lia).
Qed.

Section Record.
Context (fresh : Z -> bytes).

(** What a reader makes of the header [H], the key and the value. *)
Definition read_parts (H key value : bytes) (decomp : bool) : outcome (option DataRecord) :=
  if negb (crc32 0 (drop 4 H ++ key ++ value) =? field H 0) then Ret None
  else if decomp then decompress_record fresh (record_of H key value) else Ret (Some (record_of H key value)).

Lemma finish_parts H rest key value decomp :
  length H = 24%nat -> finish_read fresh (H ++ rest) key value decomp = read_parts H key value decomp.
Proof.
  intros Hl. unfold finish_read, read_parts, head_crc. rewrite crc32_app, <- app_assoc, field_app by (done || lia).
  replace (take 20 (drop 4 (H ++ rest))) with (drop 4 H).
  - unfold record_of. by rewrite !field_app by (done || lia).
  - rewrite drop_app_le by lia. symmetry. apply take_app_n. rewrite length_drop. lia.
Qed.

Definition sizes_ok (H key value : bytes) : Prop :=
  length H = 24%nat /\ field H 16 = blen key /\ field H 20 = blen value /\ bad_kv_size (blen key) (blen value) = false.

(** The record in one block; the key, or the value, over two. *)
Lemma fast_read_one pre H key value r1 r2 decomp :
  sizes_ok H key value -> blen (key ++ value ++ r1) = 232 ->
  fast_read_record fresh (pre ++ (H ++ key ++ value ++ r1) ++ r2) (blen pre) decomp = read_parts H key value decomp.
Proof.
  intros (Hl & Hk & Hv & Hbad) Hlen. unfold fast_read_record, PADDING, HEADER.
  rewrite pread_at by (rewrite blen_app, Hlen; unfold blen; lia).
  rewrite !field_app, Hk, Hv, Hbad by (done || lia). rewrite !blen_app in Hlen. pose proof (blen_nonneg r1).
  destruct (Z.leb_spec (24 + blen key + blen value - 256) 0); [|lia]. rewrite finish_parts by done. f_equal.
  - rewrite drop_app_n by done. apply take_app_n. unfold blen. lia.
  - rewrite app_assoc, drop_app_n by (rewrite length_app; unfold blen; lia). apply take_app_n. unfold blen. lia.
Qed.

Lemma fast_read_key pre H k1 k2 value rest decomp :
  sizes_ok H (k1 ++ k2) value -> length k1 = 232%nat -> k2 <> [] ->
  fast_read_record fresh (pre ++ (H ++ k1) ++ (k2 ++ value) ++ rest) (blen pre) decomp = read_parts H (k1 ++ k2) value decomp.
Proof.
  intros (Hl & Hk & Hv & Hbad) H1 H2. unfold fast_read_record, PADDING, HEADER.
  assert (Hb : blen (H ++ k1) = 256) by (rewrite blen_app; unfold blen; lia). rewrite pread_at by done.
  rewrite !field_app, Hk, Hv, Hbad by (done || lia).
  assert (Hk2 : 1 <= blen k2) by (destruct k2; [done|unfold blen; simpl; lia]). pose proof (blen_nonneg value).
  assert (E : 24 + blen (k1 ++ k2) + blen value - 256 = blen (k2 ++ value)) by (rewrite !blen_app; unfold blen at 1; lia).
  rewrite E. rewrite !blen_app. destruct (Z.leb_spec (blen k2 + blen value) 0); [lia|].
  rewrite (app_assoc pre). replace (blen pre + 256) with (blen (pre ++ H ++ k1)) by (rewrite blen_app; lia).
  rewrite pread_at by apply blen_app. destruct (Z.ltb_spec (blen value) (blen k2 + blen value)); [|lia].
  rewrite finish_parts by done. replace (blen k2 + blen value - blen value) with (blen k2) by lia.
  replace (blen k1 + blen k2 - blen k2) with (blen k1) by lia. unfold blen. rewrite !Nat2Z.id.
  rewrite drop_app_n by done. by rewrite (take_ge k1), take_app_length, drop_app_length by lia.
Qed.

Lemma fast_read_value pre H key v1 v2 rest decomp :
  sizes_ok H key (v1 ++ v2) -> blen (key ++ v1) = 232 -> v2 <> [] ->
  fast_read_record fresh (pre ++ (H ++ key ++ v1) ++ v2 ++ rest) (blen pre) decomp = read_parts H key (v1 ++ v2) decomp.
Proof.
  intros (Hl & Hk & Hv & Hbad) H1 H2. unfold fast_read_record, PADDING, HEADER.
  assert (Hb : blen (H ++ key ++ v1) = 256) by (rewrite blen_app, H1; unfold blen; lia). rewrite pread_at by done.
  rewrite !field_app, Hk, Hv, Hbad by (done || lia). rewrite !blen_app in *.
  assert (Hv2 : 1 <= blen v2) by (destruct v2; [done|unfold blen; simpl; lia]). pose proof (blen_nonneg v1).
  replace (24 + blen key + (blen v1 + blen v2) - 256) with (blen v2) by lia.
  destruct (Z.leb_spec (blen v2) 0); [lia|]. rewrite (app_assoc pre).
  replace (blen pre + 256) with (blen (pre ++ H ++ key ++ v1)) by (rewrite !blen_app; lia). rewrite pread_at by done.
  destruct (Z.ltb_spec (blen v1 + blen v2) (blen v2)); [lia|]. replace (blen v1 + blen v2 - blen v2) with (blen v1) by lia.
  assert (Hd : take (Z.to_nat (blen v1)) (drop (Z.to_nat (24 + blen key)) (H ++ key ++ v1)) = v1).
  { rewrite app_assoc, drop_app_n by (rewrite length_app; unfold blen; lia). apply take_ge. unfold blen. lia. }
  rewrite Hd. unfold safe_memcpy. destruct (Z.ltb_spec (blen v1 + blen v2) (blen v1)); [lia|]. cbn [mbind outcome_bind].
  rewrite finish_parts by done. f_equal. rewrite drop_app_n by done. apply take_app_n. unfold blen. lia.
Qed.

(** [fast_read_record] on a record that is entirely in the file. *)
Lemma fast_read_parts pre H key value rest decomp :
  sizes_ok H key value -> 256 <= blen (H ++ key ++ value ++ rest) ->
  fast_read_record fresh (pre ++ H ++ key ++ value ++ rest) (blen pre) decomp = read_parts H key value decomp.
Proof.
  intros Hs Hlen. pose proof Hs as (Hl & _). rewrite !blen_app in Hlen. assert (HH : blen H = 24) by (unfold blen; lia).
  destruct (Z.le_gt_cases (blen key + blen value) 232).
  - set (n := Z.to_nat (232 - blen key - blen value)).
    replace (pre ++ H ++ key ++ value ++ rest) with (pre ++ (H ++ key ++ value ++ take n rest) ++ drop n rest)
      by (rewrite <- !app_assoc; by rewrite take_drop).
    apply fast_read_one; [done|]. rewrite !blen_app. unfold n, blen in *. rewrite length_take. lia.
  - destruct (Z.le_gt_cases (blen key) 232).
    + set (n := Z.to_nat (232 - blen key)).
      replace (pre ++ H ++ key ++ value ++ rest) with (pre ++ (H ++ key ++ take n value) ++ drop n value ++ rest)
        by (rewrite <- !app_assoc, (app_assoc (take n value)); by rewrite take_drop).
      rewrite <- (take_drop n value) in Hs. rewrite fast_read_value; [by rewrite take_drop|done| |].
      * rewrite blen_app. unfold n, blen in *. rewrite length_take. lia.
      * intros E. apply (f_equal (@length Z)) in E. rewrite length_drop in E. unfold n, blen in *. simpl in E. lia.
    + replace (pre ++ H ++ key ++ value ++ rest) with (pre ++ (H ++ take 232 key) ++ (drop 232 key ++ value) ++ rest)
        by (rewrite <- !app_assoc, (app_assoc (take 232 key)); by rewrite take_drop).
      rewrite <- (take_drop 232 key) in Hs. rewrite fast_read_key; [by rewrite take_drop|done| |].
      * rewrite length_take. unfold blen in *. lia.
      * intros E. apply (f_equal (@length Z)) in E. rewrite length_drop in E. unfold blen in *. simpl in E. lia.
Qed.

Lemma decode_parts H key value rest size decomp :
  sizes_ok H key value -> 24 + blen key + blen value <= size ->
  decode_record fresh (H ++ key ++ value ++ rest) size decomp =
  if negb (field H 0 =? crc32 0 (drop 4 H ++ key ++ value)) then Ret (inr BAD_REC_CRC)
  else if decomp then
    d ← decompress_record fresh (record_of H key value);
    match d with Some r => Ret (inl r) | None => Ret (inr BAD_REC_DECOMPRESS) end
  else Ret (inl (record_of H key value)).
Proof.
  intros (Hl & Hk & Hv & Hbad) Hsz. unfold decode_record, HEADER. assert (HH : blen H = 24) by (unfold blen; lia).
  pose proof (blen_nonneg key). pose proof (blen_nonneg value). pose proof (blen_nonneg rest). rewrite !blen_app, HH.
  destruct (Z.ltb_spec (24 + (blen key + (blen value + blen rest))) 24); [lia|].
  rewrite !field_app, Hk, Hv, Hbad by (done || lia).
  assert (Hb : blen key <= 250 /\ blen value <= 104857600).
  { unfold bad_kv_size in Hbad. bool_to_prop. unfold MAX_KEY_LEN, MAX_VALUE_LEN in *. lia. }
  rewrite u32_id by (change (2 ^ 32) with 4294967296; lia).
  destruct (Z.ltb_spec size (24 + blen key + blen value)); [lia|].
  destruct (Z.ltb_spec (24 + (blen key + (blen value + blen rest))) (24 + blen key + blen value)); [lia|].
  replace (take (Z.to_nat (24 + blen key + blen value - 4)) (drop 4 (H ++ key ++ value ++ rest))) with (drop 4 H ++ key ++ value).
  2: { rewrite drop_app_le by lia. replace (drop 4 H ++ key ++ value ++ rest) with ((drop 4 H ++ key ++ value) ++ rest) by (by rewrite <- !app_assoc).
       symmetry. apply take_app_n.
       rewrite !length_app, length_drop. unfold blen. lia. }
  unfold record_of. rewrite !field_app by (done || lia).
  rewrite drop_app_n by done. rewrite take_app_n by (unfold blen; lia).
  rewrite (app_assoc H key), drop_app_n by (rewrite length_app; unfold blen; lia). by rewrite take_app_n by (unfold blen; lia).
Qed.

(** ** The bytes of a record *)
Definition header (r : DataRecord) : bytes :=
  le_bytes 4 (crc32 0 (record_body r)) ++ le_bytes 4 (u32 (r_tstamp r)) ++ le_bytes 4 (u32 (r_flag r)) ++
  le_bytes 4 (u32 (r_version r)) ++ le_bytes 4 (blen (r_key r)) ++ le_bytes 4 (blen (r_value r)).

Definition int32 (x : Z) : Prop := - 2 ^ 31 <= x < 2 ^ 31.

(** A record that may be stored: the limits of record.c, fields in range. *)
Record record_ok (r : DataRecord) : Prop := {
  ro_size : bad_kv_size (blen (r_key r)) (blen (r_value r)) = false;
  ro_key : bytes_ok (r_key r);
  ro_value : bytes_ok (r_value r);
  ro_tstamp : int32 (r_tstamp r);
  ro_flag : int32 (r_flag r);
  ro_version : int32 (r_version r)
}.

Lemma sizes_range k v : bad_kv_size k v = false -> 0 <= k -> 0 <= v -> 1 <= k <= 250 /\ 0 <= v <= 104857600.
Proof. unfold bad_kv_size, MAX_KEY_LEN, MAX_VALUE_LEN. intros H Hk Hv. bool_to_prop. lia. Qed.

Lemma record_body_ok r : record_ok r -> bytes_ok (record_body r).
Proof. intros []. unfold record_body. repeat (apply Forall_app; split); auto using le_bytes_ok. Qed.

Lemma header_fields r :
  record_ok r -> sizes_ok (header r) (r_key r) (r_value r) /\ field (header r) 0 = crc32 0 (record_body r) /\
    record_of (header r) (r_key r) (r_value r) = r /\ drop 4 (header r) ++ r_key r ++ r_value r = record_body r.
Proof.
  intros Hr. pose proof Hr as []. destruct (sizes_range _ _ ro_size0 (blen_nonneg _) (blen_nonneg _)).
  assert (Hcrc : 0 <= crc32 0 (record_body r) < 2 ^ 32) by (apply crc32_range; [by apply record_body_ok|lia]).
  assert (HF : forall x, 0 <= x < 2 ^ 32 -> le_val (le_bytes 4 x) = x) by (intros; by apply le_val_le_bytes_id).
  unfold sizes_ok, record_of, header, field.
  set (c := le_bytes 4 (crc32 0 (record_body r))). set (a1 := le_bytes 4 (u32 (r_tstamp r))). set (a2 := le_bytes 4 (u32 (r_flag r))).
  set (a3 := le_bytes 4 (u32 (r_version r))). set (a4 := le_bytes 4 (blen (r_key r))). set (a5 := le_bytes 4 (blen (r_value r))).
  change (take 4 (drop 16 (c ++ a1 ++ a2 ++ a3 ++ a4 ++ a5))) with a4. change (take 4 (drop 20 (c ++ a1 ++ a2 ++ a3 ++ a4 ++ a5))) with a5.
  change (take 4 (drop 0 (c ++ a1 ++ a2 ++ a3 ++ a4 ++ a5))) with c. change (take 4 (drop 4 (c ++ a1 ++ a2 ++ a3 ++ a4 ++ a5))) with a1.
  change (take 4 (drop 8 (c ++ a1 ++ a2 ++ a3 ++ a4 ++ a5))) with a2. change (take 4 (drop 12 (c ++ a1 ++ a2 ++ a3 ++ a4 ++ a5))) with a3.
  unfold c, a1, a2, a3, a4, a5. rewrite !HF by (apply u32_range || done || (change (2 ^ 32) with 4294967296; lia)).
  split; [done|]. split; [done|]. split.
  - rewrite !s32_u32, !s32_id by done. by destruct r.
  - unfold record_body. rewrite drop_app_n by done. by rewrite <- !app_assoc.
Qed.

(** The zero bytes that fill the last block. *)
Definition pad (r : DataRecord) : bytes := repeat 0 (Z.to_nat (record_length r - (HEADER + blen (r_key r) + blen (r_value r)))).

Lemma encode_parts r : encode_bytes r = header r ++ r_key r ++ r_value r ++ pad r.
Proof.
  unfold encode_bytes, header, record_body. rewrite <- !app_assoc. repeat f_equal. unfold pad, record_length, padded, PADDING.
  set (n := HEADER + blen (r_key r) + blen (r_value r)). f_equal. f_equal.
  destruct (Z.eqb_spec (n mod 256) 0); cbn [negb b2z]; Z.div_mod_to_equations; lia.
Qed.

Lemma encode_length r : blen (encode_bytes r) = record_length r /\ record_length r mod 256 = 0 /\ 256 <= record_length r.
Proof.
  rewrite encode_parts, !blen_app. change (blen (header r)) with 24. unfold pad, blen at 3. rewrite repeat_length.
  pose proof (blen_nonneg (r_key r)). pose proof (blen_nonneg (r_value r)). unfold record_length, padded, PADDING, HEADER.
  set (n := 24 + blen (r_key r) + blen (r_value r)). assert (Hn : 24 <= n) by (unfold n; lia).
  assert (Hp : n <= (n / 256 + b2z (negb (n mod 256 =? 0))) * 256 /\ 256 <= (n / 256 + b2z (negb (n mod 256 =? 0))) * 256).
  { destruct (Z.eqb_spec (n mod 256) 0); cbn [negb b2z]; Z.div_mod_to_equations; lia. }
  split; [rewrite Z2Nat.id by lia; lia|]. split; [apply Z.mod_mul; lia|lia].
Qed.

(** ** Compression of the value *)
Context (Hfresh : forall n, length (fresh n) = Z.to_nat n /\ bytes_ok (fresh n)).

Lemma flag_compressed f :
  int32 f -> Z.land f COMPRESS_FLAG = 0 ->
  int32 (Z.lor f COMPRESS_FLAG) /\ Z.land (Z.lor f COMPRESS_FLAG) COMPRESS_FLAG <> 0 /\
  Z.land (Z.lor f COMPRESS_FLAG) (Z.lnot COMPRESS_FLAG) = f.
Proof.
  intros Hf H0. split; [|split].
  - unfold int32 in *. assert (E : Z.lor f COMPRESS_FLAG / 2 ^ 31 = f / 2 ^ 31).
    { rewrite <- !Z.shiftr_div_pow2 by lia. rewrite Z.shiftr_lor. change (Z.shiftr COMPRESS_FLAG 31) with 0. apply Z.lor_0_r. }
    change (2 ^ 31) with 2147483648 in *. Z.div_mod_to_equations; lia.
  - rewrite Z.land_lor_distr_l, H0. done.
  - rewrite Z.land_lor_distr_l. change (Z.land COMPRESS_FLAG (Z.lnot COMPRESS_FLAG)) with 0. rewrite Z.lor_0_r.
    apply Z.bits_inj'. intros i Hi. rewrite Z.land_spec, Z.lnot_spec by done.
    apply (f_equal (fun x => Z.testbit x i)) in H0. rewrite Z.land_spec, Z.bits_0 in H0.
    by destruct (Z.testbit f i), (Z.testbit COMPRESS_FLAG i).
Qed.

(** The value of [r] may be replaced by its compressed form; reading undoes it. *)
Definition stored_as (r r' : DataRecord) : Prop :=
  record_ok r' /\ r_key r' = r_key r /\ r_version r' = r_version r /\ decompress_record fresh r' = Ret (Some r).

Lemma decompress_compressed r c :
  record_ok r -> Z.land (r_flag r) COMPRESS_FLAG = 0 -> r_value r <> [] ->
  qlz_compress (fresh 9) (r_value r) = Ret c -> blen c <= blen (r_value r) ->
  stored_as r (with_value r c (Z.lor (r_flag r) COMPRESS_FLAG)).
Proof.
  intros Hr Hf Hv Hc Hle. pose proof Hr as []. destruct (sizes_range _ _ ro_size0 (blen_nonneg _) (blen_nonneg _)) as [Hk Hvr].
  destruct (flag_compressed _ ro_flag0 Hf) as (F1 & F2 & F3). destruct (Hfresh 9) as [L9 B9]. destruct (Hfresh (blen (r_value r))) as [Lv Bv].
  assert (H1 : 1 <= blen (r_value r)) by (destruct (r_value r); [done|unfold blen; simpl; lia]).
  destruct (qlz_codec (fresh 9) (r_value r) (fresh (blen (r_value r)))) as (c' & E1 & E2 & E3 & E4 & E5 & E6); auto;
    [rewrite L9; lia|lia|rewrite Lv; unfold blen; lia|]. rewrite Hc in E1. injection E1 as <-.
  split; [|split; [done|split; [done|]]].
  - constructor; simpl; auto. unfold bad_kv_size in *. bool_to_prop. rewrite H, H2. cbn [orb]. apply Z.ltb_ge. unfold MAX_VALUE_LEN in *. lia.
  - unfold decompress_record. simpl. rewrite (proj2 (Z.eqb_neq _ _) F2). cbn [negb]. rewrite E5 by (change (2 ^ 31) with 2147483648; lia).
    cbn [mbind outcome_bind]. rewrite Z.eqb_refl. cbn [negb]. rewrite E3. cbn [mbind outcome_bind]. rewrite E4. cbn [mbind outcome_bind].
    unfold with_value. simpl. rewrite F3. by destruct r.
Qed.

(** Rounding to a [float] is within half a unit in the 24th place. *)
Lemma round24_bounds x : 0 <= x -> (2 ^ 24 - 1) * x <= 2 ^ 24 * round24 x <= (2 ^ 24 + 1) * x.
Proof.
  intros Hx. unfold round24. destruct (Z.leb_spec (Z.log2 x - 23) 0) as [|He]; [change (2 ^ 24) with 16777216; lia|].
  assert (Hpos : 0 < x) by (destruct (Z.eq_dec x 0) as [->|]; [simpl in He; lia|lia]).
  destruct (Z.log2_spec x Hpos) as [Hlo _]. set (e := Z.log2 x - 23) in *.
  assert (Hlo' : 2 ^ 23 * 2 ^ e <= x) by (rewrite <- Z.pow_add_r by lia; replace (23 + e) with (Z.log2 x) by (unfold e; lia); done).
  assert (He2 : 2 ^ e = 2 * 2 ^ (e - 1)) by (rewrite <- Z.pow_succ_r by lia; f_equal; lia).
  rewrite Z.shiftl_mul_pow2, Z.shiftr_div_pow2 by lia. assert (0 < 2 ^ (e - 1)) by (apply Z.pow_pos_nonneg; lia).
  pose proof (Z.div_mod x (2 ^ e) ltac:(lia)) as Hdm. pose proof (Z.mod_pos_bound x (2 ^ e) ltac:(lia)) as Hmb.
  set (q := x / 2 ^ e) in *. set (r := x mod 2 ^ e) in *. set (h := 2 ^ (e - 1)) in *. rewrite He2 in *.
  change (2 ^ 23) with 8388608 in *. change (2 ^ 24) with 16777216.
  destruct (Z.ltb_spec h r); cbn [orb b2z]; [lia|]. destruct (Z.eqb_spec r h); cbn [andb]; [|cbn [b2z]; lia].
  destruct (Z.odd q); cbn [b2z]; lia.
Qed.

Lemma ratio_smaller v t : 0 <= v -> 0 <= t -> above_ratio v t = false -> v <= t.
Proof.
  unfold above_ratio, ratio_limit, RATIO. intros Hv Ht H%Z.ltb_ge.
  pose proof (round24_bounds v Hv) as [Bv _]. pose proof (round24_bounds t Ht) as [Bt0 Bt].
  assert (Hrt : 0 <= round24 t) by (change (2 ^ 24) with 16777216 in *; lia).
  pose proof (round24_bounds (round24 t * 11744051) ltac:(lia)) as [_ Bl]. change (2 ^ 24) with 16777216 in *. lia.
Qed.

Lemma compress_record_ok r :
  record_ok r -> Z.land (r_flag r) COMPRESS_FLAG = 0 -> r_value r <> [] \/ blen (r_key r) <= 232 ->
  exists r', compress_record fresh r = Ret r' /\ stored_as r r'.
Proof.
  intros Hr Hf Hne. pose proof Hr as []. destruct (sizes_range _ _ ro_size0 (blen_nonneg _) (blen_nonneg _)) as [Hk Hv].
  assert (Hsame : stored_as r r).
  { split; [done|]. split; [done|]. split; [done|]. unfold decompress_record. by rewrite Hf. }
  unfold compress_record. rewrite Hf. cbn [negb Z.eqb]. destruct (_ && _) eqn:Eg; [|by exists r].
  apply andb_prop in Eg as [Hbig%Z.ltb_lt _]. unfold PADDING, HEADER in Hbig. set (vsz := blen (r_value r)) in *.
  assert (Hv1 : 1 <= vsz).
  { destruct Hne as [Hne|]; [|lia]. unfold vsz, blen. destruct (r_value r); [done|]. simpl. lia. }
  set (ts := if TRY_COMPRESS_SIZE <? vsz then TRY_COMPRESS_SIZE else vsz).
  assert (Hts : 1 <= ts <= vsz /\ (ts < vsz -> ts = TRY_COMPRESS_SIZE)).
  { unfold ts, TRY_COMPRESS_SIZE. destruct (Z.ltb_spec (1024 * 10) vsz); lia. }
  destruct (Hfresh 9) as [L9 B9].
  assert (Hq : forall s, bytes_ok s -> 1 <= blen s <= 104857600 -> exists c, qlz_compress (fresh 9) s = Ret c).
  { intros s Hs Hl. destruct (Hfresh (blen s)) as [Ls Bs].
    destruct (qlz_codec (fresh 9) s (fresh (blen s))) as (c & E & _); auto; [rewrite L9; lia|lia|rewrite Ls; unfold blen; lia|eauto]. }
  destruct (Hq (take (Z.to_nat ts) (r_value r))) as [c1 E1]; [by apply Forall_take|unfold vsz, blen in *; rewrite length_take; lia|].
  rewrite E1. cbn [mbind outcome_bind]. destruct (Hq (r_value r)) as [c2 E2]; [done|unfold vsz in *; lia|].
  assert (Hfull : forall c, qlz_compress (fresh 9) (r_value r) = Ret c ->
    exists r', (if above_ratio (blen c) vsz || (vsz <? vsz) then Ret r else Ret (with_value r c (Z.lor (r_flag r) COMPRESS_FLAG))) = Ret r' /\ stored_as r r').
  { intros c Ec. rewrite Z.ltb_irrefl, orb_false_r. destruct (above_ratio (blen c) vsz) eqn:Er; [by exists r|]. eexists. split; [done|].
    apply ratio_smaller in Er; [|apply blen_nonneg|lia]. apply decompress_compressed; auto. intros E. unfold vsz in *. rewrite E in *. simpl in Hts. unfold blen in Hts. simpl in Hts. lia. }
  destruct (Z.ltb_spec ts vsz) as [Hlt|Hge]; cbn [andb].
  - destruct (below_ratio (blen c1) ts); cbn [mbind outcome_bind].
    + rewrite E2. cbn [mbind outcome_bind]. by apply Hfull.
    + rewrite (proj2 (Z.ltb_lt ts vsz)) by done. rewrite orb_true_r. by exists r.
  - cbn [mbind outcome_bind]. assert (Ets : ts = vsz) by lia. rewrite Ets in *. apply Hfull.
    rewrite <- E1. f_equal. symmetry. apply take_ge. unfold vsz, blen. lia.
Qed.

(** ** Reading what was written *)
Lemma encoded_read r r' pre post :
  stored_as r r' ->
  fast_read_record fresh (pre ++ encode_bytes r' ++ post) (blen pre) true = Ret (Some r) /\
  forall size, blen (encode_bytes r') <= size -> decode_record fresh (encode_bytes r' ++ post) size true = Ret (inl r).
Proof.
  intros (Hr & _ & _ & Hd). destruct (header_fields r' Hr) as (Hs & H0 & Hrec & Hbody).
  pose proof (encode_length r') as (Hl & _ & H256). rewrite encode_parts, <- !app_assoc. split.
  - rewrite fast_read_parts; [|done|].
    + unfold read_parts. rewrite Hbody, H0, Z.eqb_refl, Hrec. done.
    + rewrite encode_parts in Hl. rewrite !blen_app in *. pose proof (blen_nonneg post). lia.
  - intros size Hsz. rewrite !blen_app in Hsz. change (blen (header r')) with 24 in Hsz.
    pose proof (blen_nonneg (pad r')). rewrite decode_parts by (done || lia). rewrite Hbody, H0, Z.eqb_refl, Hrec. cbn [negb]. by rewrite Hd.
Qed.

(** ** Corruption *)
Lemma change_middle {A} (l : list A) i y :
  l !! i = Some y -> exists a b, l = a ++ y :: b /\ length a = i /\ forall x, <[i := x]> l = a ++ x :: b.
Proof.
  intros H. exists (take i l), (drop (S i) l). pose proof (lookup_lt_Some _ _ _ H). split; [by rewrite take_drop_middle|].
  split; [rewrite length_take; lia|]. intros x. by apply insert_take_drop.
Qed.

Lemma crc_changed body i x y :
  bytes_ok body -> byte_ok x -> body !! i = Some y -> x <> y -> crc32 0 (<[i := x]> body) <> crc32 0 body.
Proof.
  intros Hb Hx Hy Hne. destruct (change_middle body i y Hy) as (a & b & -> & _ & ->).
  apply Forall_app in Hb as [Ha Hb]. apply Forall_cons in Hb as [Hyb Hb]. by apply crc32_byte_change; [lia|..].
Qed.

Lemma take4_val_inj a b : length a = 4%nat -> length b = 4%nat -> bytes_ok a -> bytes_ok b -> le_val a = le_val b -> a = b.
Proof.
  intros La Lb Ha Hb E. rewrite <- (le_bytes_le_val a Ha), <- (le_bytes_le_val b Hb), La, Lb. by rewrite E.
Qed.

(** A byte changed in the header before the sizes. *)
Lemma changed_header H key value i x y :
  sizes_ok H key value -> bytes_ok H -> bytes_ok (key ++ value) -> field H 0 = crc32 0 (drop 4 H ++ key ++ value) ->
  (i < 16)%nat -> byte_ok x -> H !! i = Some y -> x <> y ->
  sizes_ok (<[i := x]> H) key value /\ crc32 0 (drop 4 (<[i := x]> H) ++ key ++ value) <> field (<[i := x]> H) 0.
Proof.
  intros (Hl & Hk & Hv & Hbad) HH Hkv Hcrc Hi Hx Hy Hne. unfold sizes_ok, field in *.
  split.
  { rewrite length_insert. rewrite !drop_insert_lt by lia. done. }
  destruct (decide (i < 4)%nat) as [Hi4|Hi4].
  - rewrite drop_insert_lt by lia. rewrite <- Hcrc, !drop_0. intros E. apply take4_val_inj in E.
    + apply (f_equal (fun l => l !! i)) in E. rewrite !lookup_take_lt, Hy, list_lookup_insert_eq in E by lia. congruence.
    + rewrite length_take. lia.
    + rewrite length_take, length_insert. lia.
    + by apply Forall_take.
    + apply Forall_take. by apply Forall_insert.
  - rewrite drop_insert_ge by lia. rewrite drop_0, take_insert_ge by lia. rewrite drop_0 in Hcrc. rewrite Hcrc.
    rewrite <- insert_app_l by (rewrite length_drop; lia). eapply crc_changed; [|done| |exact Hne].
    + apply Forall_app. split; [by apply Forall_drop|done].
    + rewrite lookup_app_l by (rewrite length_drop; lia). rewrite lookup_drop. by replace (4 + (i - 4))%nat with i by lia.
Qed.

(** A changed byte outside the two sizes leaves a record of the same sizes whose
    checksum does not match. *)
Lemma changed_parts r i x y :
  record_ok r -> (i < 24 + length (r_key r) + length (r_value r))%nat -> (i < 16 \/ 24 <= i)%nat ->
  byte_ok x -> encode_bytes r !! i = Some y -> x <> y ->
  exists H' k' v', sizes_ok H' k' v' /\ blen k' = blen (r_key r) /\ blen v' = blen (r_value r) /\
    <[i := x]> (encode_bytes r) = H' ++ k' ++ v' ++ pad r /\ crc32 0 (drop 4 H' ++ k' ++ v') <> field H' 0 /\
    ((i < 16 \/ 24 + length (r_key r) <= i)%nat -> k' = r_key r).
Proof.
  intros Hr Hi Hsz Hx Hy Hne. destruct (header_fields r Hr) as (Hs & H0 & _ & Hbody). pose proof Hr as [].
  assert (Hl24 : length (header r) = 24%nat) by done.
  assert (Hrb := record_body_ok r Hr). rewrite <- Hbody in Hrb. apply Forall_app in Hrb as [Hb1 Hb2].
  rewrite encode_parts in Hy |- *. destruct (decide (i < 16)%nat) as [H16|H16].
  - rewrite lookup_app_l in Hy by lia.
    destruct (changed_header (header r) (r_key r) (r_value r) i x y) as [Hs' Hc']; auto.
    { unfold header. repeat (apply Forall_app; split); apply le_bytes_ok. }
    exists (<[i := x]> (header r)), (r_key r), (r_value r). repeat (split; [done|]). by rewrite insert_app_l by lia.
  - assert (H24 : (24 <= i)%nat) by lia. rewrite lookup_app_r, Hl24 in Hy by lia.
    assert (Hcrc : forall k' v', k' ++ v' = <[(i - 24)%nat := x]> (r_key r ++ r_value r) -> crc32 0 (drop 4 (header r) ++ k' ++ v') <> field (header r) 0).
    { intros k' v' ->. rewrite H0, <- Hbody. rewrite <- insert_app_r. eapply crc_changed; [by apply Forall_app|done| |exact Hne].
      rewrite lookup_app_r by lia. replace (length (drop 4 (header r)) + (i - 24) - length (drop 4 (header r)))%nat with (i - 24)%nat by lia.
      rewrite app_assoc in Hy. rewrite lookup_app_l in Hy by (rewrite length_app; lia). done. }
    unfold sizes_ok in *. destruct Hs as (Hs1 & Hs2 & Hs3 & Hs4). rewrite insert_app_r_alt, Hl24 by lia.
    destruct (decide (i - 24 < length (r_key r))%nat) as [Hk|Hk].
    + exists (header r), (<[(i - 24)%nat := x]> (r_key r)), (r_value r).
      assert (El : blen (<[(i - 24)%nat := x]> (r_key r)) = blen (r_key r)) by (unfold blen; by rewrite length_insert). rewrite El.
      repeat (split; [done|]). rewrite insert_app_l by lia. split; [done|]. split; [|lia]. apply Hcrc. by rewrite insert_app_l by lia.
    + exists (header r), (r_key r), (<[(i - 24 - length (r_key r))%nat := x]> (r_value r)).
      assert (El : blen (<[(i - 24 - length (r_key r))%nat := x]> (r_value r)) = blen (r_value r)) by (unfold blen; by rewrite length_insert). rewrite El.
      repeat (split; [done|]). rewrite insert_app_r_alt by lia. rewrite insert_app_l by lia. split; [done|]. split; [|done]. apply Hcrc. by rewrite insert_app_r_alt by lia.
Qed.

Lemma changed_record r i x y pre post decomp :
  record_ok r -> (i < 24 + length (r_key r) + length (r_value r))%nat -> (i < 16 \/ 24 <= i)%nat ->
  byte_ok x -> encode_bytes r !! i = Some y -> x <> y ->
  fast_read_record fresh (pre ++ <[i := x]> (encode_bytes r) ++ post) (blen pre) decomp = Ret None.
Proof.
  intros Hr Hi Hsz Hx Hy Hne. destruct (changed_parts r i x y) as (H' & k' & v' & Hs' & Hk' & Hv' & E & Hcrc & _); auto.
  assert (Hl' : blen (<[i := x]> (encode_bytes r)) = blen (encode_bytes r)) by (unfold blen; by rewrite length_insert).
  pose proof (encode_length r) as (Hlen & _ & H256). rewrite E in *. rewrite <- !app_assoc. rewrite fast_read_parts; [|done|].
  - unfold read_parts. by rewrite (proj2 (Z.eqb_neq _ _) Hcrc).
  - rewrite !blen_app in *. pose proof (blen_nonneg post). lia.
Qed.

(** C21. A record written to a data file is read back.  [encode_record] gives a
    multiple of 256 bytes; [fast_read_record] at their offset, whatever surrounds
    them in the file, returns the record as it was before compression, and so
    does [decode_record]; both check the checksum. *)
Theorem record_roundtrip r pre post :
  record_ok r -> Z.land (r_flag r) COMPRESS_FLAG = 0 -> r_value r <> [] \/ blen (r_key r) <= 232 ->
  exists b, encode_record fresh r = Ret b /\ blen b mod 256 = 0 /\
    fast_read_record fresh (pre ++ b ++ post) (blen pre) true = Ret (Some r) /\
    decode_record fresh (b ++ post) (blen b) true = Ret (inl r).
Proof.
  intros Hr Hf Hne. destruct (compress_record_ok r Hr Hf Hne) as (r' & E & Hst). unfold encode_record. rewrite E. cbn [mbind outcome_bind].
  exists (encode_bytes r'). split; [done|]. destruct (encode_length r') as (-> & Hm & _). split; [done|].
  destruct (encoded_read r r' pre post Hst) as [H1 H2]. split; [done|]. apply H2. destruct (encode_length r') as (-> & _). done.
Qed.

(** C22. A changed byte is detected.  If one byte of a stored record other than
    its two size fields is changed (in the checksum, the time, the flag, the
    version, the key or the value), [fast_read_record] rejects the record. *)
Theorem record_corruption_detected r i x y pre post decomp :
  record_ok r -> (i < 24 + length (r_key r) + length (r_value r))%nat -> (i < 16 \/ 24 <= i)%nat ->
  byte_ok x -> encode_bytes r !! i = Some y -> x <> y ->
  fast_read_record fresh (pre ++ <[i := x]> (encode_bytes r) ++ post) (blen pre) decomp = Ret None.
Proof. apply changed_record. Qed.
End Record.

(** ** Positions: an offset in a data file and the number of the file *)
Lemma pos_bits p c :
  0 <= p < 2 ^ 32 -> p mod 256 = 0 -> 0 <= c < 256 ->
  let q := u32 (Z.lor p c) in 0 <= q < 2 ^ 32 /\ Z.land q 0xff = c /\ Z.land q 0xffffff00 = p.
Proof.
  intros Hp Hm Hc. assert (E : Z.lor p c = c + (p / 256) * 2 ^ 8).
  { rewrite Z.lor_comm, <- (lor_shiftl_add 8 c (p / 256)) by (done || lia). f_equal. rewrite Z.shiftl_mul_pow2 by lia. change (2 ^ 8) with 256. Z.div_mod_to_equations. lia. }
  change (2 ^ 8) with 256 in E. change (2 ^ 32) with 4294967296 in *.
  assert (Hr : 0 <= Z.lor p c < 4294967296) by (rewrite E; Z.div_mod_to_equations; lia).
  cbv zeta. rewrite u32_id by done. split; [done|].
  assert (Hl : Z.land (Z.lor p c) 0xff = c).
  { change 0xff with (Z.ones 8). rewrite Z.land_ones by lia. change (2 ^ 8) with 256. rewrite E. Z.div_mod_to_equations. lia. }
  split; [done|]. change 0xffffff00 with (Z.ldiff 0xffffffff 0xff).
  assert (E2 : Z.land (Z.lor p c) (Z.ldiff 0xffffffff 0xff) = Z.lor p c - Z.land (Z.lor p c) 0xff).
  { rewrite Z.sub_nocarry_ldiff.
    - apply Z.bits_inj'. intros n Hn. rewrite !Z.land_spec, !Z.ldiff_spec, Z.land_spec. change 0xffffffff with (Z.ones 32). change 0xff with (Z.ones 8).
      destruct (Z.ltb_spec n 32).
      + rewrite (Z.ones_spec_low 32) by lia. by destruct (Z.testbit (Z.lor p c) n), (Z.testbit (Z.ones 8) n).
      + rewrite <- (Z.mod_small (Z.lor p c) (2 ^ 32)) by (change (2 ^ 32) with 4294967296; lia). rewrite Z.mod_pow2_bits_high by lia. done.
    - apply Z.bits_inj'. intros n Hn. rewrite Z.ldiff_spec, Z.land_spec, Z.bits_0. by destruct (Z.testbit (Z.lor p c) n), (Z.testbit 0xff n). }
  rewrite E2, Hl, E. Z.div_mod_to_equations. lia.
Qed.

(** ** Lengths *)
Lemma compress_smaller fresh r r' : compress_record fresh r = Ret r' -> r_key r' = r_key r /\ blen (r_value r') <= blen (r_value r).
Proof.
  unfold compress_record. destruct (negb _); [by intros [= <-]|]. destruct (_ && _); [|by intros [= <-]].
  set (ts := if _ <? _ then _ else _). assert (Hts : 0 <= ts) by (unfold ts, TRY_COMPRESS_SIZE, blen; destruct (_ <? _); lia).
  destruct (qlz_compress (fresh 9) (take (Z.to_nat ts) (r_value r))) as [v| |]; cbn [mbind outcome_bind]; [|done|done].
  assert (H2 : forall v ts, 0 <= ts -> (if above_ratio (blen v) ts || (ts <? blen (r_value r)) then Ret r
      else Ret (with_value r v (Z.lor (r_flag r) COMPRESS_FLAG))) = Ret r' -> r_key r' = r_key r /\ blen (r_value r') <= blen (r_value r) \/ blen (r_value r) < ts).
  { intros w t Ht. destruct (above_ratio (blen w) t) eqn:Ea; [by intros [= <-]; left|]. destruct (Z.ltb_spec t (blen (r_value r))); [by intros [= <-]; left|].
    intros [= <-]. cbn. apply ratio_smaller in Ea; [|unfold blen; lia|done]. destruct (Z.eq_dec t (blen (r_value r))); [left; split; [done|lia]|right; lia]. }
  destruct (_ && _).
  - destruct (qlz_compress (fresh 9) (r_value r)) as [w| |]; cbn [mbind outcome_bind]; [|done|done]. intros H.
    destruct (H2 _ (blen (r_value r)) (blen_nonneg _) H) as [|]; [done|lia].
  - cbn [mbind outcome_bind]. intros H. destruct (H2 _ _ Hts H) as [|Hl]; [done|]. revert Hl. unfold ts. destruct (Z.ltb_spec TRY_COMPRESS_SIZE (blen (r_value r))); lia.
Qed.

Lemma padded_bounds n : 0 <= n -> n <= padded n < n + 256 /\ padded n mod 256 = 0.
Proof.
  intros Hn. unfold padded, PADDING. split; [|by rewrite Z.mod_mul by lia]. unfold b2z. destruct (Z.eqb_spec (n mod 256) 0); cbn [negb]; Z.div_mod_to_equations; lia.
Qed.
Lemma padded_mono a b : 0 <= a <= b -> padded a <= padded b.
Proof.
  intros H. unfold padded, PADDING, b2z. destruct (Z.eqb_spec (a mod 256) 0), (Z.eqb_spec (b mod 256) 0); cbn [negb]; Z.div_mod_to_equations; lia.
Qed.

Lemma compress_shrinks fresh r r' : compress_record fresh r = Ret r' -> record_length r' <= record_length r.
Proof.
  intros E. destruct (compress_smaller _ _ _ E) as [Hk Hv]. unfold record_length. rewrite Hk. apply padded_mono.
  pose proof (blen_nonneg (r_value r')). pose proof (blen_nonneg (r_key r)). unfold HEADER. lia.
Qed.

(** ** Concrete records *)

#[export] Instance record_ok_dec r : Decision (record_ok r).
Proof.
  refine (cast_if (decide (bad_kv_size (blen (r_key r)) (blen (r_value r)) = false /\ bytes_ok (r_key r) /\ bytes_ok (r_value r) /\
    int32 (r_tstamp r) /\ int32 (r_flag r) /\ int32 (r_version r)))).
  - abstract (destruct a as (? & ? & ? & ? & ? & ?); by constructor).
  - abstract (intros []; apply n; repeat split; apply ro_tstamp0 || apply ro_flag0 || apply ro_version0 || done).
Defined.

Definition demo_record : DataRecord :=
  {| r_tstamp := 1300000000; r_flag := 0; r_version := -3; r_key := lit "photo"; r_value := repeat 97 700 |}.

Lemma record_roundtrip_witness :
  exists b, encode_record zeros demo_record = Ret b /\ blen b mod 256 = 0 /\
    fast_read_record zeros (repeat 7 256 ++ b ++ [1; 2]) (blen (repeat 7 256)) true = Ret (Some demo_record) /\
    decode_record zeros (b ++ [1; 2]) (blen b) true = Ret (inl demo_record).
Proof.
  apply (record_roundtrip zeros zeros_ok demo_record (repeat 7 256) [1; 2]).
  - by_compute.
  - reflexivity.
  - left. discriminate.
Defined.

Lemma record_corruption_detected_witness :
  fast_read_record zeros ([] ++ <[30%nat := 98]> (encode_bytes demo_record) ++ []) (blen []) true = Ret None.
Proof.
  apply (record_corruption_detected zeros demo_record 30 98 97 [] [] true).
  - by_compute.
  - apply Nat.ltb_lt. vm_compute. reflexivity.
  - right. lia.
  - unfold byte_ok. lia.
  - vm_compute. reflexivity.
  - lia.
Defined.

(** ** An empty value under a long key *)
Definition long_key_record : DataRecord :=
  {| r_tstamp := 1300000000; r_flag := 0; r_version := 1; r_key := repeat 107 240; r_value := [] |}.

(** [compress_record] looks at the size of the whole record, so an empty
    value under a key of more than 232 bytes is "compressed" to no bytes and
    marked compressed; [fast_read_record] then reads the header of the compressed
    data in front of it, outside the empty value. *)
Theorem empty_value_long_key :
  record_ok long_key_record /\
  exists b, encode_record zeros long_key_record = Ret b /\
    fast_read_record zeros b 0 true = Fault /\
    exists r, fast_read_record zeros b 0 false = Ret (Some r) /\ r_value r = [] /\ r_flag r = COMPRESS_FLAG.
Proof.
  split; [by_compute|].
  eexists. split; [vm_compute; reflexivity|]. split; [vm_compute; reflexivity|].
  eexists. split; [vm_compute; reflexivity|]. split; reflexivity.
Qed.
