(* ===== verification/Scan.v ===== *)
(** * Scanning and rewriting data files (record.c)

    [scan_record] walks a data file and steps over broken records; the tree is
    rebuilt from a data file by [scanDataFile] and [scanDataFileBefore];
    [optimizeDataFile] is the garbage collection of one file into another (or
    into itself through a temporary file). *)
From Stdlib Require Import ZArith Lia List.
From stdpp Require Import base numbers list gmap strings.
From S2P Require Import Prelude Hash CText Codec HTree QuickLZ Disk Hint Record.

Import Fnv.

Section Scan.
Context {C : Type} {KC : KeyCodec C}.
Context (fresh : Z -> bytes).
Implicit Types t : HTree C.

(** The file as it is mapped: [mmap] fills the last page with zero bytes. *)
Definition PAGE_SIZE : Z := 4096.
Definition mapped (file : bytes) : bytes := file ++ repeat 0 (Z.to_nat ((- blen file) mod PAGE_SIZE)).

(** The first broken record of a run: if the tree says that its key lives here,
    forget the key. *)
Definition forget_broken t (file : bytes) (p bucket : Z) : outcome (HTree C) :=
  let buf := drop (Z.to_nat p) (mapped file) in
  let ksz := field buf 16 in
  if (0 <? ksz) && (ksz <=? MAX_KEY_LEN) && (HEADER + ksz <? blen file - p) then
    let key := take (Z.to_nat ksz) (drop 24 buf) in
    '(t, it) ← ht_get2 t key;
    match it with
    | Some it =>
        if (Z.land (it_pos it) 0xffffff00 =? p) && (Z.land (it_pos it) 0xff =? bucket)
        then ht_remove2 t key else Ret t
    | None => Ret t
    end
  else Ret t.

(** [scan_record]: the next good record at or after [curr], with the position
    it was found at and the number of broken blocks so far; [broken] counts the
    blocks of the current run.  Each round moves 256 bytes ahead. *)
Fixpoint scan_record (fuel : nat) t (file : bytes) (curr broken total bucket : Z)
  : outcome (HTree C * option DataRecord * Z * Z) :=
  match fuel with
  | O => Fault
  | S k =>
      if curr <? blen file then
        r ← decode_record fresh (drop (Z.to_nat curr) (mapped file)) (u32 (blen file - curr)) false;
        match r with
        | inl r => Ret (t, Some r, curr, total)
        | inr reason =>
            '(t, jumped) ←
              (if broken =? 0 then
                 t ← forget_broken t file curr bucket;
                 match reason with
                 | BAD_REC_CRC =>
                     let buf := drop (Z.to_nat curr) (mapped file) in
                     let jump := padded (HEADER + field buf 16 + field buf 20) in
                     let p := curr + jump in
                     rn ← decode_record fresh (drop (Z.to_nat p) (mapped file)) (u32 (blen file - p)) false;
                     match rn with
                     | inl rn => Ret (t, Some (rn, p, jump / PADDING))
                     | inr _ => Ret (t, None)
                     end
                 | _ => Ret (t, None)
                 end
               else Ret (t, None));
            match jumped with
            | Some (rn, p, jump) => Ret (t, Some rn, p, total + jump)
            | None =>
                if MAX_VALUE_LEN / PADDING <? broken + 1 then Ret (t, None, curr, total + 1)
                else scan_record k t file (curr + PADDING) (broken + 1) (total + 1) bucket
            end
        end
      else Ret (t, None, curr, total)
  end.

(** Enough rounds for the rest of the file. *)
Definition scan_fuel (file : bytes) : nat := S (S (length file)).

(** The loop of [scanDataFile]. *)
Fixpoint scan_loop (fuel : nat) t (cur_tree : HTree C) (file : bytes) (p total bucket : Z)
  : outcome (HTree C * HTree C) :=
  match fuel with
  | O => Fault
  | S k =>
      if p <? blen file then
        '(t, r, p, total) ← scan_record (scan_fuel file) t file p 0 total bucket;
        match r with
        | None => Ret (t, cur_tree)
        | Some r =>
            let pos := u32 p in
            let p := p + record_length r in
            d ← decompress_record fresh r;
            match d with
            | None => scan_loop k t cur_tree file p total bucket
            | Some r =>
                let hash := u16 (gen_hash (r_value r)) in
                if check_key (r_key r) then
                  t ← (if 0 <? r_version r
                       then ht_add2 t (r_key r) (Z.lor pos bucket) hash (r_version r)
                       else ht_remove2 t (r_key r));
                  cur_tree ← ht_add2 cur_tree (r_key r) (Z.lor pos bucket) hash (r_version r);
                  scan_loop k t cur_tree file p total bucket
                else scan_loop k t cur_tree file p total bucket
            end
        end
      else Ret (t, cur_tree)
  end.

Definition scanDataFile (f : fs) (now : Z) t (bucket : Z) (path hintpath : bytes)
  : outcome (fs * HTree C) :=
  match fs_read f path with
  | None => Ret (f, t)
  | Some file =>
      '(t, cur_tree) ← scan_loop (scan_fuel file) t (ht_new 0 0 true) file 0 0 bucket;
      f ← build_hint fresh f now cur_tree hintpath;
      Ret (f, t)
  end.

(** The loop of [scanDataFileBefore]: it stops at the first record that is not
    older than [before]. *)
Fixpoint scan_before_loop (fuel : nat) t (file : bytes) (p total bucket before : Z)
  : outcome (HTree C) :=
  match fuel with
  | O => Fault
  | S k =>
      if p <? blen file then
        '(t, r, p, total) ← scan_record (scan_fuel file) t file p 0 total bucket;
        match r with
        | None => Ret t
        | Some r =>
            if before <=? r_tstamp r then Ret t
            else
              let pos := u32 p in
              let p := p + record_length r in
              d ← decompress_record fresh r;
              match d with
              | None => scan_before_loop k t file p total bucket before
              | Some r =>
                  if check_key (r_key r) then
                    t ← (if 0 <? r_version r
                         then ht_add2 t (r_key r) (Z.lor pos bucket) (u16 (gen_hash (r_value r))) (r_version r)
                         else ht_remove2 t (r_key r));
                    scan_before_loop k t file p total bucket before
                  else scan_before_loop k t file p total bucket before
              end
        end
      else Ret t
  end.
Definition scanDataFileBefore (f : fs) t (bucket : Z) (path : bytes) (before : Z) : outcome (HTree C) :=
  match fs_read f path with
  | None => Ret t
  | Some file => scan_before_loop (scan_fuel file) t file 0 0 bucket before
  end.

(** [update_items]: the visitor that moves the tree to the new positions. *)
Definition update_items (it : Item) t : outcome (HTree C) :=
  '(t, p) ← ht_get2 t (it_key it);
  match p with
  | Some p =>
      if negb (it_pos it =? it_pos p) && (it_ver it =? it_ver p) then
        if 0 <? it_ver it then ht_add2 t (it_key p) (it_pos it) (it_hash p) (it_ver p)
        else ht_remove2 t (it_key p)
      else Ret t
  | None => ht_add2 t (it_key it) (it_pos it) (it_hash it) (it_ver it)
  end.

(** ** Garbage collection of one data file *)
(** What the loop of [optimizeDataFile] carries: the tree, the tree of moved
    records, the new data file, the hint records. *)
Record Gc := {
  g_tree : HTree C;
  g_cur : HTree C;
  g_new : bytes;
  g_hint : bytes;
  g_broken : Z
}.

(** How the loop ends: all of the file read, or one of the failure exits. *)
Inductive gc_end := GcDone (g : Gc) | GcOverflow (g : Gc) | GcBroken (g : Gc).

(** Keep a record: append it to the new file and its hint. *)
Definition gc_keep (g : Gc) (r : DataRecord) (it : Item) (new_pos last_bucket : Z) : outcome Gc :=
  cur ← ht_add2 (g_cur g) (r_key r) (Z.lor new_pos last_bucket) (it_hash it) (it_ver it);
  let hr := {| h_ksize := u8 (blen (r_key r)); h_pos := Z.shiftr new_pos 8; h_version := it_ver it;
               h_hash := it_hash it; h_key := r_key r ++ [0] |} in
  b ← encode_record fresh {| r_tstamp := r_tstamp r; r_flag := r_flag r; r_version := it_ver it;
                             r_key := r_key r; r_value := r_value r |};
  Ret {| g_tree := g_tree g; g_cur := cur; g_new := g_new g ++ b;
         g_hint := g_hint g ++ hint_bytes hr; g_broken := g_broken g |}.

(** The loop of [optimizeDataFile] over the source file. *)
Fixpoint gc_loop (fuel : nat) (g : Gc) (file : bytes) (p bucket last_bucket max_data_size : Z)
    (skipped : bool) : outcome gc_end :=
  match fuel with
  | O => Fault
  | S k =>
      if p <? blen file then
        '(t, r, p, broken) ← scan_record (scan_fuel file) (g_tree g) file p 0 (g_broken g) bucket;
        match r with
        | None =>
            let g := {| g_tree := t; g_cur := g_cur g; g_new := g_new g; g_hint := g_hint g;
                        g_broken := broken |} in
            Ret (if p <? blen file then GcBroken g else GcDone g)
        | Some r =>
            let newp := p + record_length r in
            '(t, it) ← ht_get2 t (r_key r);
            let g := {| g_tree := t; g_cur := g_cur g; g_new := g_new g; g_hint := g_hint g;
                        g_broken := broken |} in
            let pos := u32 p in
            match it with
            | Some it =>
                if (it_pos it =? Z.lor pos bucket) && ((0 <? it_ver it) || skipped) then
                  let new_pos := u32 (blen (g_new g)) in
                  if max_data_size <? u32 (new_pos + record_length r) then Ret (GcOverflow g)
                  else
                    g ← gc_keep g r it new_pos last_bucket;
                    gc_loop k g file newp bucket last_bucket max_data_size skipped
                else if (it_pos it =? Z.lor pos bucket) && (it_ver it <? 0) then
                  cur ← ht_add2 (g_cur g) (r_key r) 0 (it_hash it) (it_ver it);
                  gc_loop k {| g_tree := g_tree g; g_cur := cur; g_new := g_new g;
                               g_hint := g_hint g; g_broken := g_broken g |}
                    file newp bucket last_bucket max_data_size skipped
                else gc_loop k g file newp bucket last_bucket max_data_size skipped
            | None => gc_loop k g file newp bucket last_bucket max_data_size skipped
            end
        end
      else Ret (GcDone g)
  end.

(** The new data file and the hint records of what it holds already: the empty
    temporary file, or the last data file padded to 256 bytes (with
    indeterminate bytes).  No hints ([None]) when the last hint file is missing. *)
Definition gc_start (env : DiskEnv) (m : Mgr) (f : fs) (now : Z) (lastdata lasthint : bytes) (use_tmp : bool)
  : outcome (fs * bytes * option bytes) :=
  if use_tmp then
    '(f, _) ← mgr_alloc env m f (simple_basename (lastdata ++ lit ".tmp")); Ret (f, [], Some [])
  else
    let old := default [] (fs_read f lastdata) in
    let e := blen old mod 256 in
    let new := if e =? 0 then old else old ++ take (Z.to_nat (256 - e)) (fresh 256) in
    if 0 <? blen old then
      '(f, h) ← open_hint fresh f now lasthint None; Ret (f, new, h)
    else Ret (f, new, Some []).

(** The label [OPT_FAIL]: the temporary file is removed; appended records stay
    in the last data file. *)
Definition gc_fail (f : fs) (now : Z) (lastdata new : bytes) (use_tmp : bool) : fs :=
  let tmp := lastdata ++ lit ".tmp" in
  if use_tmp then mgr_unlink (fs_write f tmp new now) tmp else fs_write f lastdata new now.

(** The end of a successful collection: move the tree to the new positions and
    the files into place. *)
Definition gc_commit (f : fs) (now : Z) (g : Gc) (bucket : Z) (path hintpath : bytes)
    (last_bucket : Z) (lastdata lasthint : bytes) (use_tmp : bool) : outcome (fs * HTree C) :=
  let tmp := lastdata ++ lit ".tmp" in
  let f := fs_write f (if use_tmp then tmp else lastdata) (g_new g) now in
  '(f, t) ←
    (if bucket =? last_bucket then
       t ← ht_visit (g_cur g) update_items (g_tree g);
       f ← mgr_rename (mgr_unlink f lastdata) tmp lastdata;
       Ret (f, t)
     else
       f ← (if use_tmp then mgr_rename f tmp lastdata else Ret f);
       t ← ht_visit (g_cur g) update_items (g_tree g);
       Ret (mgr_unlink f path, t));
  let f := if negb (last_bucket =? bucket) then mgr_unlink f hintpath else f in
  f ← write_hint_file fresh f now (g_hint g) lasthint;
  Ret (f, t).

(** [optimizeDataFile]: the file system, the tree, [*deleted_bytes] and the
    return value: 0 on success, 1 when the records do not fit (the last data
    file is then truncated to its old size) or its hint is missing, -1 on
    failure. *)
Definition optimizeDataFile (env : DiskEnv) (m : Mgr) (f : fs) (now : Z) t (bucket : Z)
    (path hintpath : bytes) (last_bucket : Z) (lastdata lasthint : bytes) (max_data_size : Z)
    (skipped use_tmp : bool) : outcome (fs * HTree C * Z * Z) :=
  match fs_read f path with
  | None => if use_tmp then Fault (* unlinks the uninitialised [tmp] *) else Ret (f, t, 0, -1)
  | Some file =>
      let old := default [] (fs_read f lastdata) in
      let orig_size := if use_tmp then 0 else u32 (blen old) in
      '(f, new, hints) ← gc_start env m f now lastdata lasthint use_tmp;
      match hints with
      | None => Ret (gc_fail f now lastdata new use_tmp, t, 0, 1)
      | Some hints =>
          r ← gc_loop (scan_fuel file)
                {| g_tree := t; g_cur := ht_new 0 0 true; g_new := new; g_hint := hints; g_broken := 0 |}
                file 0 bucket last_bucket max_data_size skipped;
          match r with
          | GcOverflow g =>
              Ret (gc_fail f now lastdata (if use_tmp then g_new g else old) use_tmp, g_tree g, 0, 1)
          | GcBroken g => Ret (gc_fail f now lastdata (g_new g) use_tmp, g_tree g, 0, -1)
          | GcDone g =>
              '(f, t) ← gc_commit f now g bucket path hintpath last_bucket lastdata lasthint use_tmp;
              Ret (f, t, u32 (u32 (blen file) - (blen (g_new g) - orig_size)), 0)
          end
      end
  end.
End Scan.
