(* ===== verification/ScanFacts.v ===== *)
(** * Scanning a data file replays it

    A data file is a log of records.  Scanning an intact file applies the records
    in order to the tree and leaves a hint file that does the same; a damaged
    record is stepped over. *)
From Stdlib Require Import ZArith Lia List.
From stdpp Require Import base numbers list gmap strings.
From S2P Require Import Prelude Hash CText Codec CodecFacts HTree HTreeMap HTreeSpec HTreeFine QuickLZ QuickLZFacts Disk DiskFacts Hint HintFacts Record RecordFacts Scan.

Import Fnv Crc CrcFacts.

Section Log.
Context (fresh : Z -> bytes).

(** The records [l] with their offsets, stored one after the other from offset
    [p] on; compression does not make them longer. *)
Inductive logged : Z -> list (Z * DataRecord) -> bytes -> Prop :=
| logged_nil p : logged p [] []
| logged_cons p r r' l b :
    stored_as fresh r r' -> record_length r' <= record_length r -> logged (p + record_length r') l b ->
    logged p ((p, r) :: l) (encode_bytes r' ++ b).

Lemma logged_app p l1 b1 l2 b2 :
  logged p l1 b1 -> logged (p + blen b1) l2 b2 -> logged p (l1 ++ l2) (b1 ++ b2).
Proof.
  intros H. induction H as [p|p r r' l b Hs Hle Hl IH]; cbn [app]; intros H2.
  - by replace (p + blen []) with p in H2 by (unfold blen; simpl; lia).
  - rewrite <- app_assoc. constructor; [done|done|]. apply IH.
    rewrite blen_app in H2. destruct (encode_length fresh r') as (E & _). rewrite E in H2.
    by replace (p + (record_length r' + blen b)) with (p + record_length r' + blen b) in H2 by lia.
Qed.

Lemma logged_length p l b : logged p l b -> 256 * Z.of_nat (length l) <= blen b.
Proof.
  intros H. induction H as [p|p r r' l b Hs Hle Hl IH]; [done|]. rewrite blen_app. cbn [length].
  destruct (encode_length fresh r') as (-> & _ & ?). lia.
Qed.

Lemma logged_mod p l b : logged p l b -> p mod 256 = 0 -> (p + blen b) mod 256 = 0.
Proof.
  intros H. induction H as [p|p r r' l b Hs Hle Hl IH]; intros Hp; [by rewrite Z.add_0_r|]. rewrite blen_app.
  destruct (encode_length fresh r') as (-> & Hm & _). rewrite Z.add_assoc. apply IH. rewrite Z.add_mod, Hp, Hm by lia. done.
Qed.

Lemma decode_raw r' post size :
  record_ok r' -> record_length r' <= size ->
  decode_record fresh (encode_bytes r' ++ post) size false = Ret (inl r').
Proof.
  intros Hr Hsz. destruct (header_fields r' Hr) as (Hs & H0 & Hrec & Hbody).
  pose proof (encode_length fresh r') as (Hl & _ & _). rewrite (encode_parts fresh) in Hl |- *. rewrite !blen_app in Hl.
  change (blen (header r')) with 24 in Hl. pose proof (blen_nonneg (pad r')).
  rewrite <- !app_assoc, decode_parts by (done || lia). by rewrite Hbody, H0, Z.eqb_refl, Hrec.
Qed.

Lemma stored_fields r r' : stored_as fresh r r' -> r_tstamp r' = r_tstamp r.
Proof.
  intros (_ & _ & _ & H). unfold decompress_record in H. destruct (negb _); [|congruence].
  destruct (qlz_size_compressed _) as [c| |]; [|done|done]. cbn [mbind outcome_bind] in H. destruct (negb _); [done|].
  destruct (qlz_size_decompressed _) as [s| |]; [|done|done]. cbn [mbind outcome_bind] in H.
  destruct (qlz_decompress _ _) as [v| |]; [|done|done]. cbn [mbind outcome_bind] in H. by injection H as <-.
Qed.
End Log.

(** Records whose reader copes with them: [compress_record] must not be given an
    empty value under a key longer than a block. *)
Definition not_hollow (r : DataRecord) : Prop := r_value r <> [] \/ blen (r_key r) <= 232.

(** Records that the store writes and may copy. *)
Definition copyable (x : Z * DataRecord) : Prop := check_key (r_key x.2) = true /\ not_hollow x.2.

(** ** Replaying a log *)
(** The entry of a record at offset [p] of the data file [bucket]. *)
Definition log_entry (bucket p : Z) (r : DataRecord) : entry :=
  (Z.lor p bucket, r_version r, u16 (gen_hash (r_value r))).

(** A record brings its key to life or removes it. *)
Definition replay (bucket : Z) (m : gmap bytes entry) (x : Z * DataRecord) : gmap bytes entry :=
  let (p, r) := x in
  if check_key (r_key r) then
    if 0 <? r_version r then <[r_key r := log_entry bucket p r]> m else delete (r_key r) m
  else m.

(** The entries of a hint file: tombstones included. *)
Definition replay_all (bucket : Z) (m : gmap bytes entry) (x : Z * DataRecord) : gmap bytes entry :=
  let (p, r) := x in if check_key (r_key r) then <[r_key r := log_entry bucket p r]> m else m.

Section Scanning.
Context {C : Type} {KC : KeyCodec C} {KL : KeyCodecLaws C}.
Context (fresh : Z -> bytes) (Hfresh : forall n, length (fresh n) = Z.to_nat n /\ bytes_ok (fresh n)).
Implicit Types t : HTree C.

(** A tree with the same configuration. *)
Definition same_cfg t t' : Prop := t_depth t' = t_depth t /\ t_pos t' = t_pos t.
(** The records whose keys the tree owns. *)
Definition owned t (l : list (Z * DataRecord)) : Prop :=
  Forall (fun x => check_key (r_key x.2) = true -> check_bucket t (r_key x.2) = true) l.

Lemma owned_cfg t t' l : same_cfg t t' -> owned t l -> owned t' l.
Proof. intros [Hd Hp] Ho. eapply Forall_impl; [exact Ho|]. intros x Hx Hk. rewrite (check_bucket_cfg t t') by done. auto. Qed.

(** The mapped file at an offset. *)
Lemma mapped_at pre b : exists z, drop (Z.to_nat (blen pre)) (mapped (pre ++ b)) = b ++ z.
Proof. unfold mapped. rewrite <- app_assoc, drop_app_n by (unfold blen; lia). eauto. Qed.

Lemma scan_record_intact fuel t r' pre post broken total bucket :
  record_ok r' -> blen (pre ++ encode_bytes r' ++ post) < 2 ^ 32 ->
  scan_record fresh (S fuel) t (pre ++ encode_bytes r' ++ post) (blen pre) broken total bucket =
    Ret (t, Some r', blen pre, total).
Proof.
  intros Hr Hlen. rewrite !blen_app in Hlen. pose proof (encode_length fresh r') as (Hl & _ & H256).
  pose proof (blen_nonneg pre). pose proof (blen_nonneg post). rewrite Hl in Hlen. cbn [scan_record]. rewrite !blen_app, Hl.
  destruct (mapped_at pre (encode_bytes r' ++ post)) as [z ->]. rewrite <- app_assoc, (proj2 (Z.ltb_lt _ _)) by lia.
  by rewrite decode_raw by (done || rewrite u32_id; lia).
Qed.

(** One record applied to the tree, and to the tree of the file. *)
Lemma replay_tree t bucket p r :
  tree_ok t -> key_fits (r_key r) -> check_key (r_key r) = true -> check_bucket t (r_key r) = true ->
  exists t', (if 0 <? r_version r
              then ht_add2 t (r_key r) (Z.lor p bucket) (u16 (gen_hash (r_value r))) (r_version r)
              else ht_remove2 t (r_key r)) = Ret t' /\
    tree_ok t' /\ same_cfg t t' /\ abs t' = replay bucket (abs t) (p, r) /\ (0 <= p < 2 ^ 32 -> 0 <= bucket < 256 -> int32 (r_version r) -> grows 1 t t').
Proof.
  intros Ht Hk Hck Hb. unfold replay. rewrite Hck. destruct (0 <? r_version r).
  - destruct (ht_add2_spec t (r_key r) (Z.lor p bucket) (u16 (gen_hash (r_value r))) (r_version r) Ht Hk) as (t' & Eg & H1 & H2 & H3 & H4).
    rewrite Hb in H4. exists t'. do 4 (split; [done|]). intros Hp Hbk Hv. apply (add_grows _ _ _ _ _ _ Eg); [|apply u16_range|done].
    apply lor_range; [lia|lia|]. change (2 ^ 32) with 4294967296. lia.
  - destruct (ht_remove2_spec t (r_key r) Ht Hk) as (t' & Eg & H1 & H2 & H3 & H4). exists t'. do 4 (split; [done|]). intros _ _ _. by eapply remove_grows.
Qed.

Lemma replay_curr t bucket p r :
  tree_ok t -> t_depth t = 0 -> key_fits (r_key r) -> check_key (r_key r) = true ->
  exists t', ht_add2 t (r_key r) (Z.lor p bucket) (u16 (gen_hash (r_value r))) (r_version r) = Ret t' /\
    tree_ok t' /\ same_cfg t t' /\ abs t' = replay_all bucket (abs t) (p, r).
Proof.
  intros Ht Hd Hk Hck. unfold replay_all. rewrite Hck.
  destruct (ht_add2_spec t (r_key r) (Z.lor p bucket) (u16 (gen_hash (r_value r))) (r_version r) Ht Hk) as (t' & -> & H1 & H2 & H3 & H4).
  replace (check_bucket t (r_key r)) with true in H4 by (unfold check_bucket; by rewrite Hd). by exists t'.
Qed.

Lemma stored_key r r' : stored_as fresh r r' -> bytes_ok (r_key r).
Proof. intros (Hr & <- & _). apply Hr. Qed.

(** One round of the loop of [scanDataFile]. *)
Lemma scan_loop_step fuel t t0 ct file p q total total' bucket r r' :
  p < blen file -> 0 <= q < 2 ^ 32 -> scan_record fresh (scan_fuel file) t file p 0 total bucket = Ret (t0, Some r', q, total') ->
  stored_as fresh r r' -> tree_ok t0 -> tree_ok ct -> t_depth ct = 0 -> owned t0 [(q, r)] ->
  exists t1 ct1, scan_loop fresh (S fuel) t ct file p total bucket = scan_loop fresh fuel t1 ct1 file (q + record_length r') total' bucket /\
    tree_ok t1 /\ same_cfg t0 t1 /\ abs t1 = replay bucket (abs t0) (q, r) /\
    tree_ok ct1 /\ t_depth ct1 = 0 /\ abs ct1 = replay_all bucket (abs ct) (q, r) /\ (0 <= bucket < 256 -> grows 1 t0 t1).
Proof.
  intros Hp Hq Hrec Hs Ht Hct Hd Ho. pose proof Hs as (Hrok & _ & Hver & Hd'). pose proof (ro_version _ Hrok) as Hv32. rewrite Hver in Hv32. apply Forall_cons in Ho as [Hb _]. cbn [snd] in Hb.
  cbn [scan_loop]. rewrite (proj2 (Z.ltb_lt _ _)) by done. rewrite Hrec. cbn [mbind outcome_bind]. rewrite Hd'. cbn [mbind outcome_bind].
  rewrite (u32_id q) by done. destruct (check_key (r_key r)) eqn:Hck.
  - pose proof (check_key_fits _ (stored_key _ _ Hs) Hck) as Hkf.
    destruct (replay_tree t0 bucket q r Ht Hkf Hck (Hb eq_refl)) as (t1 & -> & Ht1 & Hc1 & Ha1 & Hg1). cbn [mbind outcome_bind].
    destruct (replay_curr ct bucket q r Hct Hd Hkf Hck) as (ct1 & -> & Hct1 & [Hc2 _] & Ha2). cbn [mbind outcome_bind].
    exists t1, ct1. repeat (split; [done|]). split; [congruence|]. split; [done|]. auto.
  - exists t0, ct. unfold replay, replay_all. rewrite Hck. do 7 (split; [done|]). intros _. apply (grows_le 0); [lia|apply grows_refl].
Qed.

(** The loop over an intact part of the file. *)
Lemma scan_loop_prefix l b pre post fuel t ct total bucket :
  logged fresh (blen pre) l b -> blen (pre ++ b ++ post) < 2 ^ 32 ->
  tree_ok t -> tree_ok ct -> t_depth ct = 0 -> owned t l ->
  exists t1 ct1, scan_loop fresh (length l + fuel) t ct (pre ++ b ++ post) (blen pre) total bucket =
      scan_loop fresh fuel t1 ct1 (pre ++ b ++ post) (blen pre + blen b) total bucket /\
    tree_ok t1 /\ same_cfg t t1 /\ abs t1 = fold_left (replay bucket) l (abs t) /\
    tree_ok ct1 /\ t_depth ct1 = 0 /\ abs ct1 = fold_left (replay_all bucket) l (abs ct) /\ (0 <= bucket < 256 -> grows (length l) t t1).
Proof.
  intros Hl. remember (blen pre) as p eqn:Ep. revert pre Ep t ct. induction Hl as [p|p r r' l b Hs Hle Hl IH];
    intros pre Ep t ct Hlen Ht Hct Hd Ho.
  { exists t, ct. replace (p + blen []) with p by (unfold blen; simpl; lia). do 7 (split; [done|]). intros _. apply grows_refl. }
  pose proof (encode_length fresh r') as (El & _ & H256). rewrite <- (app_assoc (encode_bytes r')) in Hlen |- *.
  apply Forall_cons in Ho as [Hb Ho]. cbn [length Nat.add fold_left].
  destruct (scan_loop_step (length l + fuel) t t ct (pre ++ encode_bytes r' ++ b ++ post) p p total total bucket r r') as (t1 & ct1 & -> & Ht1 & Hc1 & <- & Hct1 & Hd1 & <- & Hg1);
    [..|rewrite Ep; apply scan_record_intact; [apply Hs|done]|done|done|done|done|by constructor|].
  - rewrite !blen_app in *. pose proof (blen_nonneg b). pose proof (blen_nonneg post). lia.
  - rewrite !blen_app in *. pose proof (blen_nonneg b). pose proof (blen_nonneg post). pose proof (blen_nonneg pre). lia.
  - destruct (IH (pre ++ encode_bytes r')) with (t := t1) (ct := ct1) as (t2 & ct2 & E & H1 & H2 & H3 & H4 & H5 & H6 & Hg2);
      rewrite <- ?app_assoc; auto; [by rewrite blen_app, El, Ep|by eapply owned_cfg|].
    rewrite <- app_assoc in E. exists t2, ct2. rewrite blen_app, El, Z.add_assoc. split; [done|]. split; [done|]. split; [destruct Hc1, H2; split; congruence|]. do 4 (split; [done|]). intros Hbk. exact (grows_trans 1 _ _ _ _ (Hg1 Hbk) (Hg2 Hbk)).
Qed.

(** The loop to the end of an intact log. *)
Lemma scan_loop_log l b pre fuel t ct total bucket :
  logged fresh (blen pre) l b -> blen (pre ++ b) < 2 ^ 32 -> (length l < fuel)%nat ->
  tree_ok t -> tree_ok ct -> t_depth ct = 0 -> owned t l ->
  exists t' ct', scan_loop fresh fuel t ct (pre ++ b) (blen pre) total bucket = Ret (t', ct') /\
    tree_ok t' /\ same_cfg t t' /\ abs t' = fold_left (replay bucket) l (abs t) /\
    tree_ok ct' /\ abs ct' = fold_left (replay_all bucket) l (abs ct) /\ (0 <= bucket < 256 -> grows (length l) t t').
Proof.
  intros Hl Hlen Hf Ht Hct Hd Ho. destruct (scan_loop_prefix l b pre [] (fuel - length l) t ct total bucket) as (t1 & ct1 & E & H1 & H2 & H3 & H4 & _ & H5 & Hg);
    rewrite ?app_nil_r; auto.
  rewrite app_nil_r in E. replace (length l + (fuel - length l))%nat with fuel in E by lia. exists t1, ct1. split; [|done].
  rewrite E. destruct (fuel - length l)%nat eqn:Ef; [lia|]. cbn [scan_loop]. by rewrite blen_app, Z.ltb_irrefl.
Qed.

(** ** The hint file of a scanned file *)
Lemma pos_sum p bucket : p mod 256 = 0 -> 0 <= bucket < 256 -> Z.lor p bucket = p + bucket.
Proof.
  intros Hp Hb. assert (E : p = Z.shiftl (p / 256) 8) by (rewrite Z.shiftl_mul_pow2 by lia; change (2 ^ 8) with 256; Z.div_mod_to_equations; lia).
  rewrite E at 1. rewrite Z.lor_comm, lor_shiftl_add by (change (2 ^ 8) with 256; lia). change (2 ^ 8) with 256. Z.div_mod_to_equations; lia.
Qed.

(** What a hint record needs of a logged record. *)
Definition hint_ready (x : Z * DataRecord) : Prop :=
  x.1 mod 256 = 0 /\ 0 <= x.1 < 2 ^ 32 /\ - 2 ^ 31 <= r_version x.2 < 2 ^ 31.

Lemma logged_ready p l b :
  logged fresh p l b -> 0 <= p -> p mod 256 = 0 -> p + blen b < 2 ^ 32 -> Forall hint_ready l.
Proof.
  intros H. induction H as [p|p r r' l b Hs Hle Hl IH]; intros H0 Hm Hlt; [constructor|].
  rewrite blen_app in Hlt. destruct (encode_length fresh r') as (E & Hm' & H256). rewrite E in Hlt. pose proof (blen_nonneg b).
  destruct Hs as (Hr & _ & Hv & _). constructor.
  - unfold hint_ready. cbn [fst snd]. rewrite <- Hv. pose proof (ro_version _ Hr) as Hi. unfold int32 in Hi. split; [done|]. split; [lia|done].
  - apply IH; [lia| |lia]. rewrite Z.add_mod, Hm, Hm' by lia. done.
Qed.

Lemma relocated_entry bucket x :
  hint_ready x -> 0 <= bucket < 256 ->
  relocated bucket (log_entry bucket x.1 x.2) = if 0 <? r_version x.2 then Some (log_entry bucket x.1 x.2) else None.
Proof.
  intros (Hm & Hr & _) Hb. unfold relocated, log_entry, relocate. rewrite pos_sum by done. destruct (0 <? r_version x.2); [|done].
  do 3 f_equal. Z.div_mod_to_equations; lia.
Qed.

(** The log and the last entry of each key give the same map. *)
Lemma replay_agrees bucket l m :
  Forall hint_ready l -> 0 <= bucket < 256 ->
  forall k, fold_left (replay bucket) l m !! k =
    match fold_left (replay_all bucket) l ∅ !! k with Some e => relocated bucket e | None => m !! k end.
Proof.
  intros Hl Hb. assert (H0 : forall k, m !! k = match (∅ : gmap bytes entry) !! k with Some e => relocated bucket e | None => m !! k end)
    by (intros k; by rewrite lookup_empty).
  revert H0. generalize (∅ : gmap bytes entry) as m2. generalize m at 1 3 as m1. induction Hl as [|[p r] l Hx _ IH]; intros m1 m2 H0 k; [apply H0|].
  cbn [fold_left]. apply IH. clear k. intros k. pose proof (relocated_entry bucket (p, r) Hx Hb) as He. cbn [fst snd] in He.
  unfold replay, replay_all. destruct (check_key (r_key r)); [|apply H0]. destruct (decide (r_key r = k)) as [->|Hne].
  - rewrite lookup_insert_eq, He. destruct (0 <? r_version r); [by rewrite lookup_insert_eq|by rewrite lookup_delete_eq].
  - rewrite lookup_insert_ne by done. destruct (0 <? r_version r); [rewrite lookup_insert_ne by done|rewrite lookup_delete_ne by done]; apply H0.
Qed.

Lemma replay_all_fits bucket l :
  Forall hint_ready l -> 0 <= bucket < 256 -> forall m,
  map_Forall (fun k e => check_key k = true /\ 0 <= e.1.1 < 2 ^ 32 /\ - 2 ^ 31 <= e.1.2 < 2 ^ 31 /\ 0 <= e.2 < 2 ^ 16) m ->
  map_Forall (fun k e => check_key k = true /\ 0 <= e.1.1 < 2 ^ 32 /\ - 2 ^ 31 <= e.1.2 < 2 ^ 31 /\ 0 <= e.2 < 2 ^ 16)
    (fold_left (replay_all bucket) l m) /\
  (size (fold_left (replay_all bucket) l m) <= size m + length l)%nat.
Proof.
  intros Hl Hb. induction Hl as [|[p r] l (Hm & Hp & Hv) _ IH]; intros m H; cbn [fold_left length]; [split; [done|lia]|].
  cbn [fst snd] in *. unfold replay_all at 2 4. destruct (check_key (r_key r)) eqn:Hck; [|destruct (IH m H); split; [done|lia]].
  destruct (IH (<[r_key r := log_entry bucket p r]> m)) as [H1 H2].
  - apply map_Forall_insert_2; [|done]. split; [done|]. unfold log_entry. cbn [fst snd]. rewrite pos_sum by done.
    split; [|split; [done|]]; [|unfold u16; apply Z.mod_pos_bound; lia].
    change (2 ^ 32) with 4294967296 in *. Z.div_mod_to_equations; lia.
  - split; [done|]. rewrite map_size_insert in H2. destruct (m !! r_key r); simpl in H2; lia.
Qed.

Lemma replay_all_keys bucket l m k :
  is_Some (fold_left (replay_all bucket) l m !! k) ->
  is_Some (m !! k) \/ exists x, x ∈ l /\ r_key x.2 = k /\ check_key k = true.
Proof.
  revert m. induction l as [|[p r] l IH]; intros m H; [by left|]. cbn [fold_left] in H.
  destruct (IH _ H) as [H1|(x & Hx & E)]; [|right; exists x; split; [by apply elem_of_cons; right|done]].
  unfold replay_all in H1. destruct (check_key (r_key r)) eqn:Hck; [|by left]. destruct (decide (r_key r = k)) as [<-|Hne].
  - right. exists (p, r). split; [apply elem_of_cons; by left|done].
  - rewrite lookup_insert_ne in H1 by done. by left.
Qed.

Section File.
Context (f : fs) (now now' bucket : Z) (path hintpath : bytes) (l : list (Z * DataRecord)) (file : bytes) (t : HTree C).
Context (Hread : fs_read f path = Some file) (Hlog : logged fresh 0 l file) (Hsize : blen file < 2 ^ 32).
Context (Hn : Z.of_nat (length l) <= 2000000) (Hb : 0 <= bucket < 256) (Ht : tree_ok t) (Hown : owned t l).
Context (Hhp : blen hintpath < 251) (Htmp : forall x, f !! (hintpath ++ lit ".tmp") <> Some (Link x)).

Lemma scan_file_both :
  exists f' t' t'', scanDataFile fresh f now t bucket path hintpath = Ret (f', t') /\ tree_ok t' /\ same_cfg t t' /\
    abs t' = fold_left (replay bucket) l (abs t) /\
    scanHintFile fresh f' now' t bucket hintpath None = Ret (f', t'') /\ tree_ok t'' /\ abs t'' = abs t'.
Proof.
  unfold scanDataFile. rewrite Hread. destruct (tree_new_ok (C := C) 0 0 true ltac:(lia)) as [Hn0 Hna].
  destruct (scan_loop_log l file [] (scan_fuel file) t (ht_new 0 0 true) 0 bucket) as (t' & ct & E & H1 & H2 & H3 & H4 & H5 & _); auto.
  { apply logged_length in Hlog. unfold scan_fuel, blen in *. lia. }
  cbn [app] in E. change (blen []) with 0 in E. rewrite E. cbn [mbind outcome_bind]. rewrite Hna in H5.
  pose proof (logged_ready 0 l file Hlog ltac:(lia) eq_refl ltac:(lia)) as Hrd.
  destruct (replay_all_fits bucket l Hrd Hb ∅ (map_Forall_empty _)) as [F1 F2]. rewrite <- H5, map_size_empty in *.
  destruct (build_scan_hint fresh Hfresh f now now' ct t hintpath bucket) as (f' & t'' & E1 & E2 & H6 & H7); auto.
  { split; [done|]. change (2 ^ 29) with 536870912. lia. }
  { intros k Hk. rewrite H5 in Hk. apply replay_all_keys in Hk as [[? Hk]|(x & Hx & <- & Hck)]; [by rewrite lookup_empty in Hk|].
    by apply (proj1 (Forall_forall _ _) Hown). }
  rewrite E1. cbn [mbind outcome_bind]. exists f', t', t''. repeat (split; [done|]).
  apply map_eq. intros k. by rewrite H7, H5, H3, <- replay_agrees.
Qed.

(** C18. Scanning an intact data file replays it.  [scanDataFile] of a file that
    is a sequence of encoded records, compressed or not, returns (the loop
    terminates and nothing is read outside the file) and applies the records in
    order to the tree: a positive version sets the key to the record's position,
    version and hash, any other removes it; keys the store would not accept are
    left out. *)
Theorem scan_replays_log :
  exists f' t', scanDataFile fresh f now t bucket path hintpath = Ret (f', t') /\ tree_ok t' /\
    abs t' = fold_left (replay bucket) l (abs t).
Proof. destruct scan_file_both as (f' & t' & t'' & ? & ? & _ & ? & _). eauto. Qed.

(** C19. The hint file stands for the data file.  The hint file that
    [scanDataFile] leaves behind gives the same tree when it is scanned in the
    data file's place, from whatever tree the scan started. *)
Theorem hint_stands_for_data :
  exists f' t' t'', scanDataFile fresh f now t bucket path hintpath = Ret (f', t') /\
    scanHintFile fresh f' now' t bucket hintpath None = Ret (f', t'') /\ tree_ok t'' /\ abs t'' = abs t'.
Proof. destruct scan_file_both as (f' & t' & t'' & ? & _ & _ & _ & ? & ? & ?). eauto 10. Qed.
End File.

(** ** A damaged record *)
(** A broken record at offset [p]: its key is forgotten if the tree has it
    there. *)
Definition forget (bucket p : Z) (k : bytes) (m : gmap bytes entry) : gmap bytes entry :=
  match m !! k with
  | Some e => if (Z.land e.1.1 0xffffff00 =? p) && (Z.land e.1.1 0xff =? bucket) then delete k m else m
  | None => m
  end.

(** A stored record with one byte changed outside the sizes and the key. *)
Definition damaged (r : DataRecord) (bad : bytes) : Prop :=
  record_ok r /\ check_key (r_key r) = true /\
  exists i x y, (i < 24 + length (r_key r) + length (r_value r))%nat /\ (i < 16 \/ 24 + length (r_key r) <= i)%nat /\
    byte_ok x /\ encode_bytes r !! i = Some y /\ x <> y /\ bad = <[i := x]> (encode_bytes r).

Lemma damaged_parts r bad :
  damaged r bad ->
  blen bad = record_length r /\ exists H v, sizes_ok H (r_key r) v /\ blen v = blen (r_value r) /\
    bad = H ++ r_key r ++ v ++ pad r /\ crc32 0 (drop 4 H ++ r_key r ++ v) <> field H 0.
Proof.
  intros (Hr & _ & i & x & y & H1 & H2 & H3 & H4 & H5 & ->). split.
  - unfold blen. rewrite length_insert. apply (encode_length fresh).
  - destruct (changed_parts fresh r i x y) as (H & k & v & Hs & Hk & Hv & E & Hc & Hkey); auto; [lia|].
    rewrite Hkey in * by done. eauto 10.
Qed.

Lemma damaged_length r bad : damaged r bad -> 24 + blen (r_key r) + blen (r_value r) <= record_length r.
Proof.
  intros Hd. destruct (damaged_parts r bad Hd) as (Hl & H & v & (H24 & _) & Hv & -> & _). rewrite !blen_app, Hv in Hl.
  pose proof (blen_nonneg (pad r)). unfold blen at 1 in Hl. lia.
Qed.

Lemma decode_damaged r bad post size :
  damaged r bad -> record_length r <= size -> decode_record fresh (bad ++ post) size false = Ret (inr BAD_REC_CRC).
Proof.
  intros Hd Hsz. destruct (damaged_parts r bad Hd) as (Hl & H & v & Hs & Hv & -> & Hc). rewrite !blen_app in Hl.
  pose proof (blen_nonneg (pad r)). assert (blen H = 24) by (destruct Hs; unfold blen; lia).
  rewrite <- !app_assoc, decode_parts by (done || lia). by rewrite (proj2 (Z.eqb_neq _ _) (not_eq_sym Hc)).
Qed.

Lemma damaged_fields r bad post :
  damaged r bad ->
  field (bad ++ post) 16 = blen (r_key r) /\ field (bad ++ post) 20 = blen (r_value r) /\
  take (Z.to_nat (blen (r_key r))) (drop 24 (bad ++ post)) = r_key r.
Proof.
  intros Hd. destruct (damaged_parts r bad Hd) as (_ & H & v & (Hl & Hk & Hv' & _) & Hv & -> & _).
  rewrite <- !app_assoc, !field_app by (done || lia). rewrite Hk, Hv', Hv. split; [done|]. split; [done|].
  rewrite drop_app_n by done. apply take_app_n. unfold blen. lia.
Qed.

Lemma forget_broken_spec t r bad pre post bucket :
  damaged r bad -> 24 + blen (r_key r) < blen bad + blen post -> tree_ok t ->
  exists t', forget_broken t (pre ++ bad ++ post) (blen pre) bucket = Ret t' /\ tree_ok t' /\ same_cfg t t' /\
    abs t' = forget bucket (blen pre) (r_key r) (abs t).
Proof.
  intros Hd Hne Ht. pose proof Hd as (Hr & Hck & _). destruct (mapped_at pre (bad ++ post)) as [z Ez]. destruct (damaged_fields r bad (post ++ z) Hd) as (E1 & _ & E2).
  pose proof (check_key_fits _ (ro_key _ Hr) Hck) as Hkf. 
  pose proof (ro_size _ Hr) as Hsz. apply sizes_range in Hsz as [Hk Hv]; [|apply blen_nonneg|apply blen_nonneg].
  unfold forget_broken. rewrite Ez, <- app_assoc, E1, E2, !blen_app.
  unfold MAX_KEY_LEN, HEADER. rewrite (proj2 (Z.ltb_lt 0 _)), (proj2 (Z.leb_le _ 250)), (proj2 (Z.ltb_lt _ _)) by lia. cbn [andb].
  destruct (ht_get2_spec t (r_key r) Ht Hkf) as (t1 & it & -> & Ht1 & Hd1 & Hp1 & Ha1 & Hg & _). cbn [mbind outcome_bind]. unfold forget.
  destruct it as [it|]; cbn [fmap option_fmap option_map] in Hg; rewrite <- Hg; [|exists t1; done].
  unfold ival. cbn [fst snd]. destruct (_ && _); [|exists t1; done].
  destruct (ht_remove2_spec t1 (r_key r) Ht1 Hkf) as (t2 & -> & Ht2 & Hd2 & Hp2 & Ha2). exists t2. split; [done|]. split; [done|].
  split; [split; congruence|]. by rewrite Ha2, Ha1.
Qed.

(** The scan finds the record after a damaged one. *)
Lemma scan_record_damaged fuel t r bad r2 pre post total bucket :
  damaged r bad -> record_ok r2 -> tree_ok t -> blen (pre ++ bad ++ encode_bytes r2 ++ post) < 2 ^ 32 ->
  exists t', scan_record fresh (S fuel) t (pre ++ bad ++ encode_bytes r2 ++ post) (blen pre) 0 total bucket =
      Ret (t', Some r2, blen pre + blen bad, total + blen bad / PADDING) /\
    tree_ok t' /\ same_cfg t t' /\ abs t' = forget bucket (blen pre) (r_key r) (abs t).
Proof.
  intros Hd Hr2 Ht Hlen. pose proof (encode_length fresh r2) as (El & _ & H256). destruct (damaged_parts r bad Hd) as (Hl & _).
  destruct (forget_broken_spec t r bad pre (encode_bytes r2 ++ post) bucket) as (t' & Ef & Ht' & Hc & Ha); auto.
  { rewrite blen_app, El, Hl. pose proof (damaged_length r bad Hd). pose proof (blen_nonneg post). pose proof (blen_nonneg (r_value r)). lia. }
  exists t'. split; [|done]. pose proof (blen_nonneg pre). pose proof (blen_nonneg post). pose proof (blen_nonneg bad).
  destruct (mapped_at pre (bad ++ encode_bytes r2 ++ post)) as [z Ez]. destruct (damaged_fields r bad ((encode_bytes r2 ++ post) ++ z) Hd) as (F1 & F2 & _).
  cbn [scan_record]. rewrite !blen_app, El in Hlen. rewrite !blen_app, El, (proj2 (Z.ltb_lt _ _)), Ez, <- (app_assoc bad) by lia.
  rewrite (decode_damaged r bad) by (done || rewrite u32_id; lia). cbn [mbind outcome_bind Z.eqb]. rewrite Ef. cbn [mbind outcome_bind].
  rewrite F1, F2. change (padded (HEADER + blen (r_key r) + blen (r_value r))) with (record_length r). rewrite <- Hl.
  destruct (mapped_at (pre ++ bad) (encode_bytes r2 ++ post)) as [z' Ez']. rewrite blen_app, <- !app_assoc in Ez'. rewrite Ez'.
  by rewrite decode_raw by (done || rewrite u32_id; lia).
Qed.

Lemma scan_loop_damaged l1 l2 a bad c r fuel t ct bucket :
  damaged r bad -> logged fresh 0 l1 a -> logged fresh (blen a + blen bad) l2 c -> l2 <> [] -> blen (a ++ bad ++ c) < 2 ^ 32 ->
  (length l1 + length l2 < fuel)%nat -> tree_ok t -> tree_ok ct -> t_depth ct = 0 -> owned t (l1 ++ l2) ->
  exists t' ct', scan_loop fresh fuel t ct (a ++ bad ++ c) 0 0 bucket = Ret (t', ct') /\ tree_ok t' /\ tree_ok ct' /\
    abs t' = fold_left (replay bucket) l2 (forget bucket (blen a) (r_key r) (fold_left (replay bucket) l1 (abs t))) /\
    abs ct' = fold_left (replay_all bucket) (l1 ++ l2) (abs ct).
Proof.
  intros Hd H1 H2 Hne Hlen Hf Ht Hct Hdp Ho. apply Forall_app in Ho as [Ho1 Ho2]. rewrite fold_left_app.
  destruct (scan_loop_prefix l1 a [] (bad ++ c) (fuel - length l1) t ct 0 bucket) as (t1 & ct1 & E1 & Ht1 & Hc1 & <- & Hct1 & Hd1 & <- & _); auto.
  cbn [app] in E1. change (blen []) with 0 in E1. rewrite Z.add_0_l in E1. replace (length l1 + (fuel - length l1))%nat with fuel in E1 by lia. rewrite E1.
  inversion H2 as [|p2 r2 r2' l2' b Hs2 H2' E2 E3 E4]; subst; [done|]. clear Hne. pose proof (encode_length fresh r2') as (El & _ & H256).
  destruct (scan_record_damaged (S (length (a ++ bad ++ encode_bytes r2' ++ b))) t1 r bad r2' a b 0 bucket) as (t2 & Er & Ht2 & Hc2 & <-); auto; [apply Hs2|].
  assert (Ho : owned t2 ((blen a + blen bad, r2) :: l2')) by (eapply owned_cfg; [|exact Ho2]; destruct Hc1, Hc2; split; congruence).
  apply Forall_cons in Ho as [Hb Ho]. cbn [length] in Hf. destruct (fuel - length l1)%nat as [|n] eqn:En; [lia|].
  pose proof (blen_nonneg a). pose proof (blen_nonneg b). pose proof (blen_nonneg bad). pose proof Hlen as Hlen'. rewrite !blen_app in Hlen'.
  destruct (scan_loop_step n t1 t2 ct1 (a ++ bad ++ encode_bytes r2' ++ b) (blen a) (blen a + blen bad) 0 (0 + blen bad / PADDING) bucket r2 r2')
    as (t3 & ct3 & -> & Ht3 & Hc3 & Ha3 & Hct3 & Hd3 & Ha3' & _); auto; [rewrite !blen_app; lia|lia|by constructor|].
  destruct (scan_loop_log l2' b (a ++ bad ++ encode_bytes r2') n t3 ct3 (0 + blen bad / PADDING) bucket) as (t4 & ct4 & E & H4 & _ & H5 & H6 & H7 & _); auto.
  - by rewrite !blen_app, El, Z.add_assoc.
  - by rewrite <- !app_assoc.
  - lia.
  - by eapply owned_cfg.
  - rewrite <- !app_assoc, !blen_app, El, Z.add_assoc in E. rewrite E. exists t4, ct4. cbn [fold_left]. rewrite H5, H7, Ha3, Ha3'. done.
Qed.

Section DamagedFile.
Context (f : fs) (now bucket : Z) (path hintpath : bytes) (l1 l2 : list (Z * DataRecord)) (a bad c : bytes) (r : DataRecord) (t : HTree C).
Context (Hread : fs_read f path = Some (a ++ bad ++ c)) (Hsize : blen (a ++ bad ++ c) < 2 ^ 32) (Hdam : damaged r bad).
Context (Hl1 : logged fresh 0 l1 a) (Hl2 : logged fresh (blen a + blen bad) l2 c) (Hne : l2 <> []).
Context (Hn : Z.of_nat (length (l1 ++ l2)) <= 2000000) (Hb : 0 <= bucket < 256) (Ht : tree_ok t) (Hown : owned t (l1 ++ l2)).
Context (Hhp : blen hintpath < 251) (Htmp : forall x, f !! (hintpath ++ lit ".tmp") <> Some (Link x)).

(** C23. Only the damaged record is lost.  When one record in the middle of a data
    file has a wrong byte (in its checksum, time, flag, version or value),
    [scanDataFile] jumps over it by its length and replays all the records before
    and after it; if the tree said that the damaged record's key lives there, the
    key is forgotten. *)
Theorem scan_survives_damage :
  exists f' t', scanDataFile fresh f now t bucket path hintpath = Ret (f', t') /\ tree_ok t' /\
    abs t' = fold_left (replay bucket) l2 (forget bucket (blen a) (r_key r) (fold_left (replay bucket) l1 (abs t))).
Proof.
  unfold scanDataFile. rewrite Hread. destruct (tree_new_ok (C := C) 0 0 true ltac:(lia)) as [Hn0 Hna].
  destruct (scan_loop_damaged l1 l2 a bad c r (scan_fuel (a ++ bad ++ c)) t (ht_new 0 0 true) bucket) as (t' & ct & -> & Ht' & Hct & Ha & Hac); auto.
  { pose proof (logged_length _ _ _ _ Hl1). pose proof (logged_length _ _ _ _ Hl2). unfold scan_fuel. rewrite !length_app. unfold blen in *. lia. }
  cbn [mbind outcome_bind]. rewrite Hna in Hac. destruct (damaged_parts r bad Hdam) as (El & _). destruct (encode_length fresh r) as (_ & Hm & _).
  pose proof (logged_mod _ _ _ _ Hl1 eq_refl) as Hma. pose proof (blen_nonneg a). pose proof (blen_nonneg bad). rewrite !blen_app in Hsize.
  assert (Hrd : Forall hint_ready (l1 ++ l2)).
  { apply Forall_app. split; [eapply logged_ready; [exact Hl1|done|done|pose proof (blen_nonneg c); lia]|].
    eapply logged_ready; [exact Hl2|lia| |lia]. rewrite Z.add_mod, El, Hm by lia. by rewrite Z.add_0_l in Hma; rewrite Hma. }
  destruct (replay_all_fits bucket (l1 ++ l2) Hrd Hb ∅ (map_Forall_empty _)) as [F1 F2]. rewrite <- Hac, map_size_empty in *.
  destruct (build_scan_hint fresh Hfresh f now now ct ct hintpath bucket) as (f' & _ & -> & _); auto.
  { split; [done|]. change (2 ^ 29) with 536870912. lia. }
  { intros key [e He]. destruct (check_bucket ct key) eqn:E; [done|]. by rewrite abs_own in He. }
  exists f', t'. done.
Qed.
End DamagedFile.



(** ** Scanning up to a time *)
(** The records before the first that is not older than [before]. *)
Fixpoint older (before : Z) (l : list (Z * DataRecord)) : list (Z * DataRecord) :=
  match l with
  | [] => []
  | x :: l => if before <=? r_tstamp x.2 then [] else x :: older before l
  end.

Lemma scan_before_log l b pre fuel t total bucket before :
  logged fresh (blen pre) l b -> blen (pre ++ b) < 2 ^ 32 -> (length l < fuel)%nat -> tree_ok t -> owned t l ->
  exists t', scan_before_loop fresh fuel t (pre ++ b) (blen pre) total bucket before = Ret t' /\
    tree_ok t' /\ same_cfg t t' /\ abs t' = fold_left (replay bucket) (older before l) (abs t).
Proof.
  intros Hl. remember (blen pre) as p eqn:Ep. revert pre Ep fuel t. induction Hl as [p|p r r' l b Hs Hle Hl IH];
    intros pre Ep fuel t Hlen Hf Ht Ho; destruct fuel as [|fuel]; try (cbn [length] in Hf; lia).
  { exists t. cbn [scan_before_loop]. rewrite app_nil_r, Ep, Z.ltb_irrefl. done. }
  pose proof Hs as (Hr' & Hk & Hv & Hd'). pose proof (encode_length fresh r') as (El & _ & H256). pose proof (stored_fields _ _ _ Hs) as Hts.
  cbn [length] in Hf. cbn [scan_before_loop]. rewrite (proj2 (Z.ltb_lt _ _)) by (rewrite !blen_app, Ep; pose proof (blen_nonneg b); lia).
  unfold scan_fuel. rewrite Ep, scan_record_intact by done. cbn [mbind outcome_bind older snd]. rewrite Hts.
  destruct (before <=? r_tstamp r); [exists t; done|]. rewrite Hd'. cbn [mbind outcome_bind fold_left].
  assert (Hp : 0 <= blen pre < 2 ^ 32) by (rewrite blen_app in Hlen; pose proof (blen_nonneg pre); pose proof (blen_nonneg (encode_bytes r' ++ b)); lia).
  rewrite (u32_id (blen pre)) by done. apply Forall_cons in Ho as [Hb Ho]. cbn [snd] in Hb.
  assert (Hnext : forall t1, tree_ok t1 -> same_cfg t t1 ->
    exists t', scan_before_loop fresh fuel t1 (pre ++ encode_bytes r' ++ b) (blen pre + record_length r') total bucket before = Ret t' /\
      tree_ok t' /\ same_cfg t t' /\ abs t' = fold_left (replay bucket) (older before l) (abs t1)).
  { intros t1 Ht1 Hc. destruct (IH (pre ++ encode_bytes r')) with (fuel := fuel) (t := t1) as (t' & E & H1 & H2 & H3);
      rewrite <- ?app_assoc; auto; [by rewrite blen_app, El, Ep|lia|by eapply owned_cfg|].
    rewrite <- app_assoc, Ep in E. exists t'. split; [done|]. split; [done|]. split; [|done]. destruct Hc, H2. split; congruence. }
  destruct (check_key (r_key r)) eqn:Hck.
  - pose proof (check_key_fits _ (stored_key _ _ Hs) Hck) as Hkf.
    destruct (replay_tree t bucket (blen pre) r Ht Hkf Hck (Hb eq_refl)) as (t1 & -> & Ht1 & Hc1 & <- & _). cbn [mbind outcome_bind]. by apply Hnext.
  - unfold replay at 2. rewrite Hck. apply Hnext; done.
Qed.

(** C24. [scanDataFileBefore] stops in time: it replays exactly the records of an
    intact file that come before the first one not older than [before]. *)
Theorem scan_before_prefix f t bucket path before l file :
  fs_read f path = Some file -> logged fresh 0 l file -> blen file < 2 ^ 32 -> tree_ok t -> owned t l ->
  exists t', scanDataFileBefore fresh f t bucket path before = Ret t' /\ tree_ok t' /\
    abs t' = fold_left (replay bucket) (older before l) (abs t).
Proof.
  intros Hread Hl Hlen Ht Ho. unfold scanDataFileBefore. rewrite Hread. pose proof (logged_length _ _ _ _ Hl).
  destruct (scan_before_log l file [] (scan_fuel file) t 0 bucket before) as (t' & E & H1 & _ & H2); auto; [unfold scan_fuel, blen in *; lia|].
  eauto.
Qed.
End Scanning.

(** ** A concrete data file *)
(** Three records, the second of them damaged in [demo_bad]; the last two are of
    the same key. *)
Definition log_record (tstamp version : Z) (key value : bytes) : DataRecord :=
  {| r_tstamp := tstamp; r_flag := 1; r_version := version; r_key := key; r_value := value |}.
Definition rec1 := log_record 100 1 (lit "a") (lit "one").
Definition rec2 := log_record 200 1 (lit "b") (lit "two").
Definition rec3 := log_record 300 2 (lit "b") (lit "three").
Definition rec4 := log_record 400 (-2) (lit "a") [].
Definition demo_log : list (Z * DataRecord) := [(0, rec1); (256, rec2); (512, rec3); (768, rec4)].
Definition demo_data : bytes := encode_bytes rec1 ++ encode_bytes rec2 ++ encode_bytes rec3 ++ encode_bytes rec4 ++ [].
Definition demo_bad : bytes := <[26%nat := 0]> (encode_bytes rec2).
Definition demo_path : bytes := lit "d/003.data".
Definition demo_hint : bytes := lit "d/003.hint.qlz".
Definition demo_fs (b : bytes) : fs := {[ demo_path := Reg b 0 ]}.
Definition demo_tree : HTree Codec := ht_new 0 0 false.

Lemma plain_stored r : record_ok r -> Z.land (r_flag r) COMPRESS_FLAG = 0 -> stored_as zeros r r.
Proof. intros Hr Hf. split; [done|]. split; [done|]. split; [done|]. unfold decompress_record. by rewrite Hf. Qed.
Lemma demo_ok r : r ∈ [rec1; rec2; rec3; rec4] -> record_ok r /\ stored_as zeros r r.
Proof.
  intros H. assert (Hr : record_ok r) by (revert r H; apply Forall_forall; by_compute). split; [done|]. apply plain_stored; [done|].
  revert r H Hr. intros r H _. revert r H. apply (Forall_forall (fun r => Z.land (r_flag r) COMPRESS_FLAG = 0)). by_compute.
Qed.

Lemma logged_demo : logged zeros 0 demo_log demo_data.
Proof.
  unfold demo_log, demo_data.
  change (logged zeros 0 [(0, rec1); (0 + record_length rec1, rec2); (0 + record_length rec1 + record_length rec2, rec3);
    (0 + record_length rec1 + record_length rec2 + record_length rec3, rec4)] (encode_bytes rec1 ++ encode_bytes rec2 ++ encode_bytes rec3 ++ encode_bytes rec4 ++ [])).
  repeat (constructor; [apply demo_ok; set_solver|lia|]). constructor.
Qed.
Lemma owned_demo l : owned demo_tree l.
Proof. apply Forall_forall. done. Qed.
Lemma demo_tree_ok : tree_ok demo_tree.
Proof. by apply tree_new_ok. Qed.

Lemma scan_replays_log_witness :
  exists f' t', scanDataFile zeros (demo_fs demo_data) 1 demo_tree 3 demo_path demo_hint = Ret (f', t') /\ tree_ok t' /\
    abs t' = fold_left (replay 3) demo_log (abs demo_tree).
Proof.
  apply (scan_replays_log zeros zeros_ok (demo_fs demo_data) 1 2 3 demo_path demo_hint demo_log demo_data demo_tree).
  - by vm_compute.
  - exact logged_demo.
  - by vm_compute.
  - by vm_compute.
  - lia.
  - exact demo_tree_ok.
  - apply owned_demo.
  - by vm_compute.
  - intros x. by vm_compute.
Defined.

Lemma hint_stands_for_data_witness :
  exists f' t' t'', scanDataFile zeros (demo_fs demo_data) 1 demo_tree 3 demo_path demo_hint = Ret (f', t') /\
    scanHintFile zeros f' 2 demo_tree 3 demo_hint None = Ret (f', t'') /\ tree_ok t'' /\ abs t'' = abs t'.
Proof.
  apply (hint_stands_for_data zeros zeros_ok (demo_fs demo_data) 1 2 3 demo_path demo_hint demo_log demo_data demo_tree).
  - by vm_compute.
  - exact logged_demo.
  - by vm_compute.
  - by vm_compute.
  - lia.
  - exact demo_tree_ok.
  - apply owned_demo.
  - by vm_compute.
  - intros x. by vm_compute.
Defined.

Lemma damaged_demo : damaged rec2 demo_bad.
Proof.
  split; [apply demo_ok; set_solver|]. split; [done|]. exists 26%nat, 0, 119. split; [vm_compute; lia|]. split; [right; vm_compute; lia|].
  split; [by vm_compute|]. split; [by vm_compute|]. split; [done|]. reflexivity.
Qed.
Lemma logged_parts : logged zeros 0 [(0, rec1)] (encode_bytes rec1 ++ []) /\
  logged zeros (blen (encode_bytes rec1 ++ []) + blen demo_bad) [(512, rec3); (768, rec4)] (encode_bytes rec3 ++ encode_bytes rec4 ++ []).
Proof.
  split; [constructor; [apply demo_ok; set_solver|lia|constructor]|]. replace (blen (encode_bytes rec1 ++ []) + blen demo_bad) with 512 by by vm_compute.
  change (logged zeros 512 [(512, rec3); (512 + record_length rec3, rec4)] (encode_bytes rec3 ++ encode_bytes rec4 ++ [])).
  repeat (constructor; [apply demo_ok; set_solver|lia|]). constructor.
Qed.

Lemma scan_survives_damage_witness :
  exists f' t', scanDataFile zeros (demo_fs ((encode_bytes rec1 ++ []) ++ demo_bad ++ encode_bytes rec3 ++ encode_bytes rec4 ++ [])) 1 demo_tree 3 demo_path demo_hint = Ret (f', t') /\
    tree_ok t' /\
    abs t' = fold_left (replay 3) [(512, rec3); (768, rec4)]
               (forget 3 (blen (encode_bytes rec1 ++ [])) (r_key rec2) (fold_left (replay 3) [(0, rec1)] (abs demo_tree))).
Proof.
  apply (scan_survives_damage zeros zeros_ok _ 1 3 demo_path demo_hint [(0, rec1)] [(512, rec3); (768, rec4)]
           (encode_bytes rec1 ++ []) demo_bad (encode_bytes rec3 ++ encode_bytes rec4 ++ []) rec2 demo_tree).
  - by vm_compute.
  - by vm_compute.
  - exact damaged_demo.
  - apply logged_parts.
  - apply logged_parts.
  - discriminate.
  - by vm_compute.
  - lia.
  - exact demo_tree_ok.
  - apply owned_demo.
  - by vm_compute.
  - intros x. by vm_compute.
Defined.


Lemma scan_before_prefix_witness :
  exists t', scanDataFileBefore zeros (demo_fs demo_data) demo_tree 3 demo_path 300 = Ret t' /\ tree_ok t' /\
    abs t' = fold_left (replay 3) (older 300 demo_log) (abs demo_tree).
Proof.
  apply (scan_before_prefix zeros (demo_fs demo_data) demo_tree 3 demo_path 300 demo_log demo_data).
  - by vm_compute.
  - exact logged_demo.
  - by vm_compute.
  - exact demo_tree_ok.
  - apply owned_demo.
Defined.
