(* ===== verification/GcFacts.v ===== *)
(** * Garbage collection of a data file

    [optimizeDataFile] copies the records of a data file that the tree still
    points to into another file and moves the tree to them: no live key is lost
    or changed, and the new file is again a log. *)
From Stdlib Require Import ZArith Lia List.
From stdpp Require Import base numbers list gmap strings.
From S2P Require Import Prelude Hash CText Codec CodecFacts HTree HTreeMap HTreeSpec HTreeVisit QuickLZ QuickLZFacts Disk DiskFacts Hint HintFacts Record RecordFacts Scan ScanFacts.

Import Fnv.

(** ** Records with another version *)
Definition set_version (r : DataRecord) (v : Z) : DataRecord :=
  {| r_tstamp := r_tstamp r; r_flag := r_flag r; r_version := v; r_key := r_key r; r_value := r_value r |}.

Section Recode.
Context (fresh : Z -> bytes) (Hfresh : forall n, length (fresh n) = Z.to_nat n /\ bytes_ok (fresh n)).

Lemma record_ok_version r v : record_ok r -> int32 v -> record_ok (set_version r v).
Proof. intros [] Hv. by constructor. Qed.

(** Decompression does not look at the version. *)
Lemma decompress_version r v :
  decompress_record fresh (set_version r v) = (d ← decompress_record fresh r; Ret (option_map (fun r => set_version r v) d)).
Proof.
  unfold decompress_record. cbn [set_version r_flag r_value]. destruct (negb _); [|done].
  destruct (qlz_size_compressed _); [|done|done]. cbn [mbind outcome_bind]. destruct (negb _); [done|].
  destruct (qlz_size_decompressed _); [|done|done]. cbn [mbind outcome_bind]. by destruct (qlz_decompress _ _).
Qed.

Lemma stored_version r r' v : stored_as fresh r r' -> int32 v -> stored_as fresh (set_version r v) (set_version r' v).
Proof.
  intros (Hr & Hk & _ & Hd) Hv. split; [by apply record_ok_version|]. split; [done|]. split; [done|]. by rewrite decompress_version, Hd.
Qed.

(** A stored record is encoded again, compressed as it is, or perhaps for the
    first time. *)
Lemma recode r r' v :
  stored_as fresh r r' -> int32 v -> not_hollow r ->
  exists r'', encode_record fresh (set_version r' v) = Ret (encode_bytes r'') /\ stored_as fresh (set_version r v) r'' /\
    record_length r'' <= record_length r'.
Proof.
  intros Hs Hv Hh. pose proof (stored_version r r' v Hs Hv) as Hs'. unfold encode_record.
  destruct (Z.eqb_spec (Z.land (r_flag r') COMPRESS_FLAG) 0) as [Hf|Hf].
  - assert (E : r' = r) by (destruct Hs as (_ & _ & _ & Hd); unfold decompress_record in Hd; rewrite Hf in Hd; by injection Hd).
    subst r'. destruct (compress_record_ok fresh Hfresh (set_version r v)) as (r'' & E & Hst); [apply Hs'|done|done|].
    apply compress_shrinks in E as Hl. rewrite E. exists r''. done.
  - unfold compress_record. cbn [set_version r_flag]. rewrite (proj2 (Z.eqb_neq _ _) Hf). cbn [negb mbind outcome_bind]. exists (set_version r' v). split; [done|]. split; [done|]. unfold record_length. cbn [set_version r_key r_value]. lia.
Qed.
End Recode.

Lemma logged_key fresh p l b : logged fresh p l b -> Forall (fun x => bytes_ok (r_key x.2)) l.
Proof. induction 1 as [|p r r' l b Hs _ _ IH]; constructor; [|done]. by apply (stored_key fresh r r'). Qed.

(** ** The loop over the source file *)
Section Loop.
Context {C : Type} {KC : KeyCodec C} {KL : KeyCodecLaws C}.
Context (fresh : Z -> bytes) (Hfresh : forall n, length (fresh n) = Z.to_nat n /\ bytes_ok (fresh n)).
Implicit Types t : HTree C.

(** The source file, the target file and what they hold at the start: [m] is the
    map of the tree, [new0] the target, [h0] its hint records. *)
Context (m : gmap bytes entry) (t0 : HTree C) (bucket last max R : Z) (skipped : bool) (new0 h0 : bytes).
Context (Hmax : max + R < 2 ^ 32) (HR : 0 <= R) (Hbk : 0 <= bucket < 256) (Hlast : 0 <= last < 256).
Context (Hm : map_Forall (fun _ e => e.1.2 <> 0 /\ int32 e.1.2) m).
Context (Hnew : blen new0 mod 256 = 0) (Hnew' : blen new0 + R < 2 ^ 32).

(** The tree points to the record. *)
Definition hit (x : Z * DataRecord) : option entry :=
  match m !! r_key x.2 with
  | Some e => if e.1.1 =? Z.lor x.1 bucket then Some e else None
  | None => None
  end.
Definition kept_entry (e : entry) : bool := (0 <? e.1.2) || skipped.

(** The hint record of a copied record. *)
Definition hint_item (x : Z * DataRecord) : Item :=
  {| it_pos := Z.lor x.1 last; it_ver := r_version x.2;
     it_hash := match m !! r_key x.2 with Some e => e.2 | None => 0 end; it_key := r_key x.2 |}.

(** The new entry [e'] of a record [x] to which the entry [e] pointed. *)
Definition moved (kept : list (Z * DataRecord)) (x : Z * DataRecord) (e e' : entry) : Prop :=
  e'.1.2 = e.1.2 /\ e'.2 = e.2 /\
  if kept_entry e then exists np, e'.1.1 = Z.lor np last /\ (np, set_version x.2 e.1.2) ∈ kept else e'.1.1 = 0.

(** After the records [done]: those the tree points to are in [kept], the log
    appended to the target; the tree of moved records has an entry for each. *)
Record gc_inv (done kept : list (Z * DataRecord)) (g : Gc (C := C)) : Prop := {
  gi_tree : tree_ok (g_tree g) /\ same_cfg t0 (g_tree g) /\ abs (g_tree g) = m;
  gi_cur : tree_ok (g_cur g) /\ t_depth (g_cur g) = 0;
  gi_new : exists b, g_new g = new0 ++ b /\ logged fresh (blen new0) kept b;
  gi_hint : g_hint g = h0 ++ flat_map hint_of (List.map hint_item kept);
  gi_size : blen (g_new g) <= Z.max (blen new0) max;
  gi_some : forall k e', abs (g_cur g) !! k = Some e' -> exists x e, x ∈ done /\ r_key x.2 = k /\ hit x = Some e /\ moved kept x e e';
  gi_none : forall x e, x ∈ done -> hit x = Some e -> is_Some (abs (g_cur g) !! r_key x.2);
  gi_len : (length kept <= length done)%nat;
  gi_kept : Forall (fun y => exists x e, x ∈ done /\ hit x = Some e /\ y.2 = set_version x.2 e.1.2) kept
}.

Lemma new_size l kept g : gc_inv l kept g -> blen (g_new g) + R < 2 ^ 32.
Proof. intros []. lia. Qed.

Lemma moved_mono kept kept' x e e' : moved kept x e e' -> moved (kept ++ kept') x e e'.
Proof.
  intros (H1 & H2 & H3). split; [done|]. split; [done|]. destruct (kept_entry e); [|done]. destruct H3 as (np & ? & ?). exists np. rewrite elem_of_app. auto.
Qed.

Definition with_tree (g : Gc (C := C)) t : Gc :=
  {| g_tree := t; g_cur := g_cur g; g_new := g_new g; g_hint := g_hint g; g_broken := g_broken g |}.

Lemma gc_inv_tree l kept g t :
  gc_inv l kept g -> tree_ok t -> same_cfg (g_tree g) t -> abs t = abs (g_tree g) -> gc_inv l kept (with_tree g t).
Proof.
  intros [(H1 & [H2 H2'] & H3)] Ht [Hd Hp] Ha. constructor; auto. cbn [with_tree g_tree]. split; [done|]. split; [split; congruence|congruence].
Qed.

Lemma gc_skip l kept g x : gc_inv l kept g -> hit x = None -> gc_inv (l ++ [x]) kept g.
Proof.
  intros [] Hx. constructor; auto.
  - intros k e' He. destruct (gi_some0 k e' He) as (y & e & Hy & H). exists y, e. rewrite elem_of_app. auto.
  - intros y e Hy He. apply elem_of_app in Hy as [Hy|Hy]; [by eapply gi_none0|]. apply list_elem_of_singleton in Hy as ->. congruence.
  - rewrite length_app. lia.
  - eapply Forall_impl; [exact gi_kept0|]. intros y (z & e & Hz & H). exists z, e. rewrite elem_of_app. auto.
Qed.

(** One entry more in the tree of moved records. *)
Lemma gc_more l kept more g x e e' cur' new hint :
  gc_inv l kept g -> hit x = Some e -> moved (kept ++ more) x e e' ->
  tree_ok cur' -> t_depth cur' = 0 -> abs cur' = <[r_key x.2 := e']> (abs (g_cur g)) ->
  (exists b, new = new0 ++ b /\ logged fresh (blen new0) (kept ++ more) b) ->
  hint = h0 ++ flat_map hint_of (List.map hint_item (kept ++ more)) -> blen new <= Z.max (blen new0) max ->
  Forall (fun y => y.2 = set_version x.2 e.1.2) more -> (length more <= 1)%nat ->
  gc_inv (l ++ [x]) (kept ++ more) {| g_tree := g_tree g; g_cur := cur'; g_new := new; g_hint := hint; g_broken := g_broken g |}.
Proof.
  intros [] Hx Hmv Hc Hd Ha Hn Hh Hsz Hmore Hml. constructor; cbn [g_tree g_cur g_new g_hint g_broken]; auto.
  - intros k e1. rewrite Ha. destruct (decide (r_key x.2 = k)) as [Ek|Hk].
    + rewrite Ek, lookup_insert_eq. intros [= <-]. exists x, e. rewrite elem_of_app, list_elem_of_singleton. auto.
    + rewrite lookup_insert_ne by done. intros He. destruct (gi_some0 k e1 He) as (y & e2 & Hy & Hk' & Hh' & Hm').
      exists y, e2. rewrite elem_of_app. auto using moved_mono.
  - intros y e1 Hy He. rewrite Ha. apply lookup_insert_is_Some. apply elem_of_app in Hy as [Hy|Hy].
    + destruct (decide (r_key x.2 = r_key y.2)); [by left|right]. split; [done|]. by eapply gi_none0.
    + apply list_elem_of_singleton in Hy as ->. by left.
  - rewrite !length_app. simpl. lia.
  - apply Forall_app. split.
    + eapply Forall_impl; [exact gi_kept0|]. intros y (z & e1 & Hz & H). exists z, e1. rewrite elem_of_app. auto.
    + eapply Forall_impl; [exact Hmore|]. intros y Hy. exists x, e. rewrite elem_of_app, list_elem_of_singleton. auto.
Qed.

Lemma new_mod l kept g : gc_inv l kept g -> blen (g_new g) mod 256 = 0 /\ 0 <= blen (g_new g).
Proof. intros []. destruct gi_new0 as (b & -> & Hl). rewrite blen_app. split; [by eapply logged_mod|]. unfold blen. lia. Qed.

Lemma cur_add (ct : HTree C) key pos hash ver :
  tree_ok ct -> t_depth ct = 0 -> key_fits key ->
  exists ct', ht_add2 ct key pos hash ver = Ret ct' /\ tree_ok ct' /\ t_depth ct' = 0 /\ abs ct' = <[key := (pos, ver, hash)]> (abs ct).
Proof.
  intros Ht Hd Hk. destruct (ht_add2_spec ct key pos hash ver Ht Hk) as (ct' & -> & H1 & H2 & _ & H4).
  replace (check_bucket ct key) with true in H4 by (unfold check_bucket; by rewrite Hd). exists ct'. split; [done|]. split; [done|]. split; [congruence|done].
Qed.

Lemma gc_keep_spec l kept g p r r' e it :
  gc_inv l kept g -> stored_as fresh r r' -> hit (p, r) = Some e -> kept_entry e = true ->
  it_ver it = e.1.2 -> it_hash it = e.2 -> key_fits (r_key r) -> not_hollow r -> record_length r' <= record_length r -> blen (g_new g) + record_length r' <= max ->
  exists g', gc_keep fresh g r' it (blen (g_new g)) last = Ret g' /\ blen (g_new g') <= blen (g_new g) + record_length r' /\
    gc_inv (l ++ [(p, r)]) (kept ++ [(blen (g_new g), set_version r e.1.2)]) g'.
Proof.
  intros Hi Hs Hx Hke Hv Hh Hk Hnh Hrl Hsz. pose proof Hs as (Hr' & Ek & _). destruct (new_mod _ _ _ Hi) as [Hmod H0].
  assert (Hme : m !! r_key r = Some e) by (unfold hit in Hx; cbn [snd fst] in Hx; destruct (m !! r_key r); [|done]; by destruct (_ =? _); [injection Hx as ->|]).
  destruct (Hm _ _ Hme) as [_ Hint]. unfold gc_keep. rewrite Ek, Hv, Hh. set (np := blen (g_new g)) in *.
  pose proof (gi_cur _ _ _ Hi) as [Hc1 Hc2]. destruct (cur_add (g_cur g) (r_key r) (Z.lor np last) e.2 e.1.2 Hc1 Hc2 Hk) as (ct & -> & Hct & Hd & Ha). cbn [mbind outcome_bind].
  fold (set_version r' e.1.2). destruct (recode fresh Hfresh r r' e.1.2 Hs Hint Hnh) as (r'' & E & Hs'' & Hle).
  unfold set_version at 1 in E. rewrite Ek in E. rewrite E. cbn [mbind outcome_bind]. eexists. split; [done|].
  pose proof (encode_length fresh r'') as (El & _ & _). split; [cbn [g_new]; rewrite blen_app, El; lia|].
  apply (gc_more l kept _ g (p, r) e (Z.lor np last, e.1.2, e.2)); auto.
  - split; [done|]. split; [done|]. rewrite Hke. exists np. split; [done|]. rewrite elem_of_app, list_elem_of_singleton. auto.
  - destruct (gi_new _ _ _ Hi) as (b & Eb & Hb). exists (b ++ encode_bytes r''). rewrite Eb, app_assoc. split; [done|].
    apply logged_app; [done|]. rewrite <- blen_app, <- Eb. fold np. rewrite <- (app_nil_r (encode_bytes r'')). constructor; [done| |constructor]. change (record_length (set_version r e.1.2)) with (record_length r). lia.
  - rewrite (gi_hint _ _ _ Hi), map_app, flat_map_app, <- app_assoc. f_equal. f_equal. cbn [List.map flat_map]. rewrite app_nil_r.
    unfold hint_of, hint_item. cbn [fst snd set_version r_key r_version it_pos it_ver it_hash it_key]. rewrite Hme. f_equal. f_equal.
    + unfold u8. apply Z.mod_small. destruct Hk as [_ Hk]. pose proof (blen_nonneg (r_key r)). unfold MAX_KEY_LEN in Hk. change (2 ^ 8) with 256. lia.
    + rewrite pos_sum by done. rewrite !Z.shiftr_div_pow2 by lia. change (2 ^ 8) with 256. Z.div_mod_to_equations; lia.
  - rewrite blen_app, El. fold np. lia.
Qed.

Lemma gc_drop_spec l kept g p r e :
  gc_inv l kept g -> hit (p, r) = Some e -> kept_entry e = false -> key_fits (r_key r) ->
  exists ct, ht_add2 (g_cur g) (r_key r) 0 e.2 e.1.2 = Ret ct /\
    gc_inv (l ++ [(p, r)]) kept {| g_tree := g_tree g; g_cur := ct; g_new := g_new g; g_hint := g_hint g; g_broken := g_broken g |}.
Proof.
  intros Hi Hx Hke Hk. pose proof (gi_cur _ _ _ Hi) as [Hc1 Hc2].
  destruct (cur_add (g_cur g) (r_key r) 0 e.2 e.1.2 Hc1 Hc2 Hk) as (ct & -> & Hct & Hd & Ha). exists ct. split; [done|].
  rewrite <- (app_nil_r kept). apply (gc_more l kept [] g (p, r) e (0, e.1.2, e.2)); rewrite ?app_nil_r; auto; try apply Hi.
  split; [done|]. split; [done|]. by rewrite Hke.
Qed.

(** What was copied does not fit, so [len] bytes more than the target do not either. *)
Definition overflowed (len : Z) (res : gc_end (C := C)) : Prop :=
  max < blen new0 + len /\ exists g, res = GcOverflow g /\ tree_ok (g_tree g) /\ same_cfg t0 (g_tree g) /\ abs (g_tree g) = m.

(** One round of the loop. *)
Lemma gc_step fuel g l kept pre r r' b :
  gc_inv l kept g -> stored_as fresh r r' -> record_length r' <= record_length r <= R -> copyable (blen pre, r) -> blen (pre ++ encode_bytes r' ++ b) < 2 ^ 32 -> blen (g_new g) <= blen new0 + blen pre ->
  (exists res, gc_loop fresh (S fuel) g (pre ++ encode_bytes r' ++ b) (blen pre) bucket last max skipped = Ret res /\ overflowed (blen (pre ++ encode_bytes r' ++ b)) res) \/
  exists g' kept', gc_inv (l ++ [(blen pre, r)]) kept' g' /\ blen (g_new g') <= blen new0 + blen (pre ++ encode_bytes r') /\
    gc_loop fresh (S fuel) g (pre ++ encode_bytes r' ++ b) (blen pre) bucket last max skipped =
    gc_loop fresh fuel g' (pre ++ encode_bytes r' ++ b) (blen pre + record_length r') bucket last max skipped.
Proof.
  intros Hi Hs Hrl [Hck Hnh] Hlen Hused. cbn [snd] in *. pose proof Hs as (Hr' & Ek & _). pose proof (encode_length fresh r') as (El & _ & H256).
  pose proof (check_key_fits _ (stored_key _ _ _ Hs) Hck) as Hk. pose proof (blen_nonneg pre). pose proof (blen_nonneg b).
  assert (Hp : 0 <= blen pre < 2 ^ 32) by (rewrite !blen_app in Hlen; lia).
  assert (Hpre : blen (pre ++ encode_bytes r') = blen pre + record_length r') by by rewrite blen_app, El.
  cbn [gc_loop]. rewrite (proj2 (Z.ltb_lt _ _)) by (rewrite !blen_app; lia). unfold scan_fuel. rewrite scan_record_intact by done. cbn [mbind outcome_bind].
  pose proof (gi_tree _ _ _ Hi) as (Ht & Hc & Ha). rewrite Ek.
  destruct (ht_get2_spec (g_tree g) (r_key r) Ht Hk) as (t1 & it & -> & Ht1 & Hd1 & Hp1 & Ha1 & Hg & _). cbn [mbind outcome_bind].
  rewrite (u32_id (blen pre)) by done. set (g1 := {| g_tree := t1 |}).
  assert (Hi1 : gc_inv l kept g1) by (apply (gc_inv_tree l kept g t1); auto; by split). rewrite Ha in Hg.
  destruct (new_mod _ _ _ Hi1) as [_ Hn0]. pose proof (new_size _ _ _ Hi1) as Hn1.
  destruct it as [it|]; cbn [fmap option_fmap option_map] in Hg.
  2: { right. exists g1, kept. split; [|split; [rewrite Hpre; cbn [g1 g_new]; lia|done]]. apply gc_skip; [done|]. unfold hit. cbn [snd]. by rewrite <- Hg. }
  unfold ival in Hg. destruct (Z.eqb_spec (it_pos it) (Z.lor (blen pre) bucket)) as [Hpos|Hpos]; cbn [andb].
  2: { right. exists g1, kept. split; [|split; [rewrite Hpre; cbn [g1 g_new]; lia|done]]. apply gc_skip; [done|]. unfold hit. cbn [snd fst]. rewrite <- Hg. cbn [fst]. by rewrite (proj2 (Z.eqb_neq _ _)). }
  assert (Hx : hit (blen pre, r) = Some (it_pos it, it_ver it, it_hash it)).
  { unfold hit. cbn [snd fst]. rewrite <- Hg. cbn [fst]. by rewrite (proj2 (Z.eqb_eq _ _)). }
  destruct ((0 <? it_ver it) || skipped) eqn:Ekept.
  - rewrite (u32_id (blen (g_new g1))) by lia. rewrite u32_id by lia.
    destruct (Z.ltb_spec max (blen (g_new g1) + record_length r')); [left; eexists; split; [done|]|right].
    + split; [change (g_new g1) with (g_new g) in *; rewrite !blen_app, El; lia|]. exists g1. split; [done|]. apply Hi1.
    + destruct (gc_keep_spec l kept g1 (blen pre) r r' (it_pos it, it_ver it, it_hash it) it) as (g2 & -> & Hl2 & Hi2); auto; [lia|].
      cbn [mbind outcome_bind]. eexists _, _. split; [exact Hi2|]. split; [rewrite Hpre; change (g_new g1) with (g_new g) in *; lia|done].
  - right. pose proof (Hm _ _ (eq_sym Hg)) as [Hne _]. cbn [fst snd] in Hne. apply orb_false_iff in Ekept as [Hneg%Z.ltb_ge Hsk].
    rewrite (proj2 (Z.ltb_lt (it_ver it) 0)) by lia.
    destruct (gc_drop_spec l kept g1 (blen pre) r (it_pos it, it_ver it, it_hash it)) as (ct & E & Hi2); auto.
    { unfold kept_entry. cbn [fst snd]. by rewrite Hsk, (proj2 (Z.ltb_ge 0 (it_ver it))). }
    cbn [fst snd] in E. rewrite E. cbn [mbind outcome_bind]. eexists _, _. split; [exact Hi2|]. split; [rewrite Hpre; cbn [g1 g_new]; lia|done].
Qed.

Lemma gc_loop_log l b pre fuel g dn kept :
  logged fresh (blen pre) l b -> blen (pre ++ b) < 2 ^ 32 -> (length l < fuel)%nat -> Forall (fun x => copyable x /\ record_length x.2 <= R) l -> gc_inv dn kept g -> blen (g_new g) <= blen new0 + blen pre ->
  exists res, gc_loop fresh fuel g (pre ++ b) (blen pre) bucket last max skipped = Ret res /\
    (overflowed (blen (pre ++ b)) res \/ exists g' kept', res = GcDone g' /\ gc_inv (dn ++ l) kept' g').
Proof.
  intros Hl. remember (blen pre) as p eqn:Ep. revert pre Ep fuel g dn kept. induction Hl as [p|p r r' l b Hs Hle Hl IH];
    intros pre Ep fuel g dn kept Hlen Hf Hcp Hi Hu; destruct fuel as [|fuel]; try (cbn [length] in Hf; lia).
  { exists (GcDone g). cbn [gc_loop]. rewrite app_nil_r, Ep, Z.ltb_irrefl, app_nil_r. eauto 10. }
  apply Forall_cons in Hcp as [[Hc Hsm] Hcp]. rewrite Ep in *. cbn [length] in Hf.
  destruct (gc_step fuel g dn kept pre r r' b Hi Hs (conj Hle Hsm) Hc Hlen ltac:(lia)) as [(res & E & Ho)|(g' & kept' & Hi' & Hu' & ->)]; [exists res; auto|].
  destruct (encode_length fresh r') as (El & _). destruct (IH (pre ++ encode_bytes r')) with (fuel := fuel) (g := g') (dn := dn ++ [(blen pre, r)]) (kept := kept') as (res & E & H);
    rewrite <- ?app_assoc; auto; [by rewrite blen_app, El|lia|rewrite blen_app, El in *; lia|].
  rewrite <- !app_assoc in E. rewrite <- (app_assoc dn), <- (app_assoc pre) in H. exists res. split; [exact E|exact H].
Qed.
End Loop.

(** ** Moving the tree to the copies *)
Section Update.
Context {C : Type} {KC : KeyCodec C} {KL : KeyCodecLaws C}.
Implicit Types t : HTree C.

(** The entry [e] of the tree, given the entry [e'] of the moved record. *)
Definition updated (e' e : entry) : option entry :=
  if negb (e'.1.1 =? e.1.1) && (e'.1.2 =? e.1.2) then
    if 0 <? e'.1.2 then Some (e'.1.1, e.1.2, e.2) else None
  else Some e.

Lemma update_one t it e :
  tree_ok t -> key_fits (it_key it) -> abs t !! it_key it = Some e ->
  exists t', update_items it t = Ret t' /\ tree_ok t' /\ same_cfg t t' /\
    forall k, abs t' !! k = if decide (it_key it = k) then updated (ival it) e else abs t !! k.
Proof.
  intros Ht Hk He. unfold update_items. assert (Hb : check_bucket t (it_key it) = true).
  { destruct (check_bucket t (it_key it)) eqn:E; [done|]. by rewrite abs_own in He. }
  destruct (ht_get2_spec t (it_key it) Ht Hk) as (t1 & p & -> & Ht1 & Hd1 & Hp1 & Ha1 & Hg & Hkey). cbn [mbind outcome_bind]. rewrite He in Hg.
  destruct p as [p|]; [|done]. cbn [fmap option_fmap option_map] in Hg. injection Hg as Hg. rewrite (Hkey p eq_refl).
  unfold updated. subst e. unfold ival. cbn [fst snd]. rewrite <- (check_bucket_cfg t t1) in Hb by done.
  assert (Hsame : forall k, abs t1 !! k = if decide (it_key it = k) then Some (it_pos p, it_ver p, it_hash p) else abs t !! k).
  { intros k. rewrite Ha1. case_decide as E; [by rewrite <- E|done]. }
  destruct (negb _ && _); [|exists t1; done]. destruct (0 <? it_ver it).
  - destruct (ht_add2_spec t1 (it_key it) (it_pos it) (it_hash p) (it_ver p) Ht1 Hk) as (t2 & -> & H1 & H2 & H3 & H4). rewrite Hb in H4.
    exists t2. split; [done|]. split; [done|]. split; [split; congruence|]. intros k. rewrite H4, lookup_insert, Ha1. done.
  - destruct (ht_remove2_spec t1 (it_key it) Ht1 Hk) as (t2 & -> & H1 & H2 & H3 & H4).
    exists t2. split; [done|]. split; [done|]. split; [split; congruence|]. intros k. rewrite H4, lookup_delete, Ha1. done.
Qed.

Lemma update_list its t :
  tree_ok t -> NoDup (List.map it_key its) -> Forall (fun it => key_fits (it_key it) /\ is_Some (abs t !! it_key it)) its ->
  exists t', visit_list update_items its t = Ret t' /\ tree_ok t' /\ same_cfg t t' /\
    forall k, abs t' !! k = match find_key k its, abs t !! k with Some it, Some e => updated (ival it) e | _, x => x end.
Proof.
  intros Ht Hnd. revert t Ht. induction its as [|it its IH]; intros t Ht Hf; cbn [visit_list]; [exists t; by split; [|split; [|split]]|].
  simpl in Hnd. apply NoDup_cons in Hnd as [Hni Hnd]. apply Forall_cons in Hf as [[Hk [e He]] Hf].
  destruct (update_one t it e Ht Hk He) as (t1 & -> & Ht1 & Hc1 & Ha1). cbn [mbind outcome_bind].
  assert (Hother : forall k, k ∈ List.map it_key its -> abs t1 !! k = abs t !! k) by (intros k Hin; rewrite Ha1, decide_False; congruence).
  destruct (IH Hnd t1 Ht1) as (t2 & -> & Ht2 & Hc2 & Ha2).
  { eapply Forall_impl; [apply Forall_and; split; [exact Hf|apply (Forall_forall (fun x => x ∈ its)); tauto]|]. intros x [[? ?] Hx].
    split; [done|]. rewrite Hother; [done|]. apply list_elem_of_fmap. eauto. }
  exists t2. split; [done|]. split; [done|]. split; [destruct Hc1, Hc2; split; congruence|]. intros k. rewrite Ha2. unfold find_key at 2. simpl.
  destruct (decide (it_key it = k)) as [<-|Hne].
  - rewrite bool_decide_true, find_key_none by done. rewrite Ha1, decide_True by done. by rewrite He.
  - rewrite bool_decide_false by done. fold (find_key k its). by rewrite Ha1, decide_False.
Qed.

(** Visiting the tree of moved records. *)
Lemma update_visit ct t :
  tree_ok ct -> tree_ok t -> (forall k, is_Some (abs ct !! k) -> is_Some (abs t !! k)) ->
  exists t', ht_visit ct update_items t = Ret t' /\ tree_ok t' /\ same_cfg t t' /\
    forall k, abs t' !! k = match abs ct !! k, abs t !! k with Some e', Some e => updated e' e | _, x => x end.
Proof.
  intros Hct Ht Hin. destruct (ht_visit_list ct Hct) as (its & Hv & Hnd & Hmap & Hk). rewrite Hv.
  destruct (update_list its t Ht Hnd) as (t' & -> & Ht' & Hc & Ha).
  - apply Forall_forall. intros x Hx. destruct (proj1 (Forall_forall _ _) Hk x Hx) as [Hkx _]. split; [done|]. apply Hin. rewrite <- Hmap.
    exists (ival x). by apply map_in.
  - exists t'. split; [done|]. split; [done|]. split; [done|]. intros k. rewrite Ha, <- Hmap, map_find. by destruct (find_key k its).
Qed.
End Update.

(** ** The whole collection *)
Section Optimize.
Context {C : Type} {KC : KeyCodec C} {KL : KeyCodecLaws C}.
Context (fresh : Z -> bytes) (Hfresh : forall n, length (fresh n) = Z.to_nat n /\ bytes_ok (fresh n)).
Context (env : DiskEnv) (mg : Mgr) (d : bytes) (Hdisk : disks mg = [d]).
Implicit Types t : HTree C.

(** The paths of the source, the target and their hint files.  A file collected
    into itself goes through the temporary file. *)
Record gc_paths (bucket last : Z) (path hintpath lastdata lasthint : bytes) (use_tmp : bool) : Prop := {
  gp_bucket : 0 <= bucket < 256;
  gp_last : 0 <= last < 256;
  gp_self : bucket = last -> path = lastdata /\ use_tmp = true;
  gp_other : bucket <> last -> path <> lastdata;
  gp_path : path <> lastdata ++ lit ".tmp";
  gp_data : lastdata ∉ [hintpath; lasthint; lasthint ++ lit ".tmp"];
  gp_src : path ∉ [hintpath; lasthint; lasthint ++ lit ".tmp"];
  gp_len : blen lasthint < 251
}.

Lemma tmp_ne p : p ++ lit ".tmp" <> p.
Proof. intros E. apply (f_equal (@length Z)) in E. rewrite length_app in E. simpl in E. lia. Qed.

(** The new data file put in place. *)
Lemma gc_place f now (g : Gc (C := C)) t' bucket path hintpath last lastdata lasthint use_tmp :
  gc_paths bucket last path hintpath lastdata lasthint use_tmp -> plain f -> ht_visit (g_cur g) update_items (g_tree g) = Ret t' ->
  let tmp := lastdata ++ lit ".tmp" in
  let f0 := fs_write f (if use_tmp then tmp else lastdata) (g_new g) now in
  exists f1, (if bucket =? last then
      t ← ht_visit (g_cur g) update_items (g_tree g); f ← mgr_rename (mgr_unlink f0 lastdata) tmp lastdata; Ret (f, t)
    else
      f ← (if use_tmp then mgr_rename f0 tmp lastdata else Ret f0); t ← ht_visit (g_cur g) update_items (g_tree g); Ret (mgr_unlink f path, t)) = Ret (f1, t') /\
    plain f1 /\ f1 !! lastdata = Some (Reg (g_new g) now) /\ (bucket <> last -> f1 !! path = None) /\ same_but [path; lastdata; tmp] f f1.
Proof.
  intros [] Hf Ev. cbv zeta. set (tmp := lastdata ++ lit ".tmp") in *. pose proof (tmp_ne lastdata) as Hne. fold tmp in Hne. rewrite fs_write_plain, Ev by done.
  cbn [mbind outcome_bind]. set (f0 := <[if use_tmp then tmp else lastdata := Reg (g_new g) now]> f). assert (Hf0 : plain f0) by by apply plain_insert.
  destruct (Z.eqb_spec bucket last) as [E|E].
  - destruct (gp_self0 E) as [Ep ->]. rewrite mgr_unlink_plain by done. unfold f0.
    rewrite (mgr_rename_plain _ _ _ (Reg (g_new g) now)); [|by apply plain_delete|by rewrite lookup_delete_ne, lookup_insert_eq by done].
    cbn [mbind outcome_bind]. eexists. split; [done|]. split; [by apply plain_insert, plain_delete, plain_delete|]. split; [apply lookup_insert_eq|]. split; [done|].
    intros q Hq. rewrite !not_elem_of_cons in Hq. by rewrite lookup_insert_ne, !lookup_delete_ne, lookup_insert_ne by naive_solver.
  - specialize (gp_other0 E). assert (Hmv : exists f1, (if use_tmp then mgr_rename f0 tmp lastdata else Ret f0) = Ret f1 /\ plain f1 /\
      f1 !! lastdata = Some (Reg (g_new g) now) /\ same_but [lastdata; tmp] f f1).
    { unfold f0 in *. destruct use_tmp.
      - rewrite (mgr_rename_plain _ _ _ (Reg (g_new g) now)) by (done || apply lookup_insert_eq). eexists. split; [done|].
        split; [by apply plain_insert, plain_delete|]. split; [apply lookup_insert_eq|].
        intros q Hq. rewrite !not_elem_of_cons in Hq. by rewrite lookup_insert_ne, lookup_delete_ne, lookup_insert_ne by naive_solver.
      - eexists. split; [done|]. split; [done|]. split; [apply lookup_insert_eq|]. intros q Hq. rewrite !not_elem_of_cons in Hq. by rewrite lookup_insert_ne by naive_solver. }
    destruct Hmv as (f1 & -> & Hf1 & Hd1 & Hs1). cbn [mbind outcome_bind]. rewrite mgr_unlink_plain by done. eexists. split; [done|].
    split; [by apply plain_delete|]. split; [by rewrite lookup_delete_ne|]. split; [intros _; apply lookup_delete_eq|].
    intros q Hq. rewrite !not_elem_of_cons in Hq. rewrite lookup_delete_ne by naive_solver. apply Hs1. rewrite !not_elem_of_cons. naive_solver.
Qed.

Lemma gc_commit_spec f now g bucket path hintpath last lastdata lasthint use_tmp :
  gc_paths bucket last path hintpath lastdata lasthint use_tmp -> plain f -> tree_ok (g_cur g) -> tree_ok (g_tree g) ->
  (forall k, is_Some (abs (g_cur g) !! k) -> is_Some (abs (g_tree g) !! k)) -> bytes_ok (g_hint g) -> blen (g_hint g) <= 2 ^ 29 ->
  exists f' t', gc_commit fresh f now g bucket path hintpath last lastdata lasthint use_tmp = Ret (f', t') /\
    plain f' /\ tree_ok t' /\ same_cfg (g_tree g) t' /\
    (forall k, abs t' !! k = match abs (g_cur g) !! k, abs (g_tree g) !! k with Some e', Some e => updated e' e | _, x => x end) /\
    fs_read f' lastdata = Some (g_new g) /\ (bucket <> last -> f' !! path = None) /\
    (forall now', open_hint fresh f' now' lasthint None = Ret (f', Some (g_hint g))) /\
    same_but [path; hintpath; lastdata; lastdata ++ lit ".tmp"; lasthint; lasthint ++ lit ".tmp"] f f'.
Proof.
  intros Hgp Hf Hc Ht Hin Hhb Hhl. destruct (update_visit (g_cur g) (g_tree g) Hc Ht Hin) as (t' & Ev & Ht' & Hcf & Ha).
  destruct (gc_place f now g t' _ _ _ _ _ _ _ Hgp Hf Ev) as (f1 & E1 & Hf1 & Hd1 & Hp1 & Hs1). unfold gc_commit. rewrite E1. clear E1. cbn [mbind outcome_bind].
  destruct Hgp. set (f2 := if negb (last =? bucket) then mgr_unlink f1 hintpath else f1).
  rewrite !not_elem_of_cons in gp_data0, gp_src0. destruct gp_data0 as (Hd2 & Hd3 & Hd4 & _), gp_src0 as (Hs2 & Hs3 & Hs4 & _).
  assert (Hf2 : plain f2 /\ same_but [hintpath] f1 f2).
  { unfold f2. destruct (negb _); [|split; [done|by intros q _]]. rewrite mgr_unlink_plain by done. split; [by apply plain_delete|].
    intros q Hq. apply lookup_delete_ne. rewrite list_elem_of_singleton in Hq. congruence. }
  destruct Hf2 as [Hf2 Hs2']. destruct (write_hint_plain fresh Hfresh f2 now (g_hint g) lasthint Hhb Hhl gp_len0 Hf2) as (f3 & -> & Hf3 & Hs3' & Ho).
  cbn [mbind outcome_bind]. exists f3, t'. assert (Hkeep : forall q, q <> hintpath -> q <> lasthint -> q <> lasthint ++ lit ".tmp" -> f3 !! q = f1 !! q).
  { intros q H1 H2 H3. rewrite Hs3' by (rewrite !not_elem_of_cons; auto using not_elem_of_nil). apply Hs2'. by rewrite list_elem_of_singleton. }
  repeat (split; [done|]). split; [apply (stored_read _ _ _ now); left; by rewrite Hkeep|]. split; [intros E; rewrite Hkeep by done; by apply Hp1|].
  split; [done|]. intros q Hq. rewrite !not_elem_of_cons in Hq. rewrite Hkeep by naive_solver. apply Hs1. rewrite !not_elem_of_cons. naive_solver.
Qed.

(** The target before the collection: a new file, or a data file with its hint
    records [h0] and room for a record of [R] bytes before 4 GB. *)
Definition target_ok (R : Z) (f : fs) (lastdata lasthint : bytes) (use_tmp : bool) (h0 : bytes) : Prop :=
  if use_tmp then h0 = []
  else exists old, fs_read f lastdata = Some old /\ blen old + 256 + R <= 2 ^ 32 /\
    if 0 <? blen old then forall now, open_hint fresh f now lasthint None = Ret (f, Some h0) else h0 = [].
Definition old_data (f : fs) (lastdata : bytes) (use_tmp : bool) : bytes :=
  if use_tmp then [] else default [] (fs_read f lastdata).

Lemma gc_start_spec R f now lastdata lasthint use_tmp h0 :
  0 <= R < 2 ^ 32 -> target_ok R f lastdata lasthint use_tmp h0 ->
  exists z, gc_start fresh env mg f now lastdata lasthint use_tmp = Ret (f, old_data f lastdata use_tmp ++ z, Some h0) /\
    blen (old_data f lastdata use_tmp ++ z) mod 256 = 0 /\ blen (old_data f lastdata use_tmp ++ z) + R < 2 ^ 32 /\
    (use_tmp = true -> old_data f lastdata use_tmp ++ z = []) /\ (blen (old_data f lastdata use_tmp) mod 256 = 0 -> z = []).
Proof.
  intros HR. unfold target_ok, gc_start, old_data. destruct use_tmp.
  - intros ->. exists []. unfold mgr_alloc. rewrite Hdisk. do 2 (split; [done|]). split; [change (blen ([] ++ [])) with 0; lia|done].
  - intros (old & -> & Hl & Hh). cbn [default id]. set (z := if blen old mod 256 =? 0 then [] else take (Z.to_nat (256 - blen old mod 256)) (fresh 256)).
    exists z. pose proof (Z.mod_pos_bound (blen old) 256 ltac:(lia)) as Hmb. pose proof (blen_nonneg old).
    assert (Hz : (blen old + blen z) mod 256 = 0 /\ 0 <= blen z <= 255).
    { unfold z. destruct (Z.eqb_spec (blen old mod 256) 0) as [E|E]; [change (blen []) with 0; rewrite Z.add_0_r; done|].
      assert (Hlz : blen (take (Z.to_nat (256 - blen old mod 256)) (fresh 256)) = 256 - blen old mod 256).
      { destruct (Hfresh 256) as [Hl256 _]. unfold blen at 1. rewrite length_take, Hl256. lia. }
      rewrite Hlz. split; [|lia].
      replace (blen old + (256 - blen old mod 256)) with ((blen old / 256 + 1) * 256) by (Z.div_mod_to_equations; lia). by apply Z.mod_mul. }
    rewrite blen_app. split; [|split; [apply Hz|split; [lia|split; [done|intros E; unfold z; by rewrite (proj2 (Z.eqb_eq _ _) E)]]]].
    replace (if blen old mod 256 =? 0 then old else old ++ take _ (fresh 256)) with (old ++ z) by (unfold z; destruct (_ =? 0); [apply app_nil_r|done]).
    destruct (0 <? blen old); [by rewrite Hh|by rewrite Hh].
Qed.

Section Collect.
Context (f : fs) (now bucket last max R : Z) (path hintpath lastdata lasthint : bytes) (skipped use_tmp : bool) (t : HTree C).
Context (l : list (Z * DataRecord)) (file h0 : bytes).
Context (Hf : plain f) (Hpaths : gc_paths bucket last path hintpath lastdata lasthint use_tmp) (Htarget : target_ok R f lastdata lasthint use_tmp h0).
Context (Hread : fs_read f path = Some file) (Hlog : logged fresh 0 l file) (Hsize : blen file < 2 ^ 32) (Hcopy : Forall (fun x => copyable x /\ record_length x.2 <= R) l).
Context (Hmax : 0 <= max /\ max + R < 2 ^ 32) (HR : 0 <= R) (Hhint : bytes_ok h0 /\ blen h0 + Z.of_nat (length l) * 261 <= 2 ^ 29).
Context (Ht : tree_ok t) (Hver : map_Forall (fun _ e => e.1.2 <> 0 /\ int32 e.1.2) (abs t)).
(** Every entry of the tree with the number of the source file points to a record
    of it. *)
Context (Hpoint : forall k e, abs t !! k = Some e -> Z.land e.1.1 0xff = bucket -> exists p r, (p, r) ∈ l /\ r_key r = k /\ e.1.1 = Z.lor p bucket).

(** What is promised of the entry of a key: [o] before, [o'] after. *)
Definition entry_kept (kept : list (Z * DataRecord)) (k : bytes) (o o' : option entry) : Prop :=
  match o with
  | None => o' = None
  | Some e =>
      if Z.land e.1.1 0xff =? bucket then
        if 0 <? e.1.2 then
          exists p r np, (p, r) ∈ l /\ e.1.1 = Z.lor p bucket /\ r_key r = k /\
            o' = Some (Z.lor np last, e.1.2, e.2) /\ (np, set_version r e.1.2) ∈ kept
        else o' = None \/ o' = Some e
      else o' = Some e
  end.

Lemma bucket_bits p : p mod 256 = 0 -> Z.land (Z.lor p bucket) 0xff = bucket.
Proof.
  intros Hp. destruct Hpaths. rewrite pos_sum by done. change 0xff with (Z.ones 8). rewrite Z.land_ones by lia. change (2 ^ 8) with 256.
  rewrite Z.add_mod, Hp by lia. rewrite Z.add_0_l, Z.mod_mod, Z.mod_small by lia. done.
Qed.

Lemma collected_entry new0 kept (g : Gc (C := C)) k :
  gc_inv fresh (abs t) t bucket last max skipped new0 h0 l kept g ->
  entry_kept kept k (abs t !! k) (match abs (g_cur g) !! k, abs t !! k with Some e', Some e => updated e' e | _, x => x end).
Proof.
  intros Hi. unfold entry_kept. destruct (abs t !! k) as [e|] eqn:He; [|by destruct (abs (g_cur g) !! k)].
  pose proof (logged_ready fresh 0 l file Hlog ltac:(lia) eq_refl ltac:(lia)) as Hrd.
  destruct (abs (g_cur g) !! k) as [e'|] eqn:Ec.
  - destruct (gi_some _ _ _ _ _ _ _ _ _ _ _ _ Hi k e' Ec) as ([p r] & e1 & Hx & Hk & Hh & Hv & Hhash & Hmv). cbn [snd] in *. unfold hit in Hh. cbn [fst snd] in Hh.
    rewrite Hk, He in Hh. destruct (Z.eqb_spec e.1.1 (Z.lor p bucket)) as [Hpos|]; [|done]. injection Hh as <-.
    pose proof (proj1 (Forall_forall _ _) Hrd _ Hx) as (Hp256 & _). cbn [fst] in Hp256. rewrite Hpos, bucket_bits, Z.eqb_refl by done.
    unfold updated. rewrite Hv, Z.eqb_refl, andb_true_r. unfold kept_entry in Hmv. destruct (Z.ltb_spec 0 e.1.2); cbn [orb] in Hmv.
    + destruct Hmv as (np & Hnp & Hin). exists p, r, np. repeat (split; [done|]). split; [|done]. rewrite <- Hnp.
      destruct (Z.eqb_spec e'.1.1 e.1.1) as [E|]; cbn [negb]; [rewrite E; by destruct e as [[]]|done].
    + destruct (negb _); auto.
  - destruct (Z.eqb_spec (Z.land e.1.1 0xff) bucket) as [Hb|]; [|done]. exfalso.
    destruct (Hpoint k e He Hb) as (p & r & Hx & Hk & Hpos). destruct (gi_none _ _ _ _ _ _ _ _ _ _ _ _ Hi (p, r) e Hx) as [e' He'].
    + unfold hit. cbn [fst snd]. by rewrite Hk, He, Hpos, Z.eqb_refl.
    + cbn [snd] in He'. congruence.
Qed.

(** A collection that does not fit leaves the files as they were. *)
Lemma gc_fail_spec new :
  let f' := gc_fail f now lastdata (if use_tmp then new else default [] (fs_read f lastdata)) use_tmp in
  plain f' /\ same_but [lastdata; lastdata ++ lit ".tmp"] f f' /\ forall q, q <> lastdata ++ lit ".tmp" -> fs_read f' q = fs_read f q.
Proof.
  cbv zeta. unfold gc_fail. destruct use_tmp.
  - rewrite fs_write_plain, mgr_unlink_plain by (done || by apply plain_insert).
    split; [by apply plain_delete, plain_insert|]. split.
    + intros q Hq. rewrite !not_elem_of_cons in Hq. by rewrite lookup_delete_ne, lookup_insert_ne by naive_solver.
    + intros q Hq. apply fs_read_same; [done|by apply plain_delete, plain_insert|]. by rewrite lookup_delete_ne, lookup_insert_ne.
  - destruct Htarget as (old & Eo & _). rewrite Eo, fs_write_plain by done. split; [by apply plain_insert|].
    split; [intros q Hq; rewrite !not_elem_of_cons in Hq; by rewrite lookup_insert_ne by naive_solver|]. intros q _. destruct (decide (q = lastdata)) as [->|Hq].
    + rewrite Eo. apply (stored_read _ _ _ now). left. apply lookup_insert_eq.
    + apply fs_read_same; [done|by apply plain_insert|]. by rewrite lookup_insert_ne.
Qed.

Lemma gc_hint_ok new0 kept (g : Gc (C := C)) :
  gc_inv fresh (abs t) t bucket last max skipped new0 h0 l kept g ->
  bytes_ok (g_hint g) /\ blen (g_hint g) <= 2 ^ 29 /\ blen (g_hint g) <= blen h0 + Z.of_nat (length l) * 261.
Proof.
  intros Hi. rewrite (gi_hint _ _ _ _ _ _ _ _ _ _ _ _ Hi). pose proof (gi_len _ _ _ _ _ _ _ _ _ _ _ _ Hi) as Hlen.
  destruct (hints_ok (List.map (hint_item (abs t) last) kept)) as [Hb Hl].
  - apply List.Forall_map. eapply Forall_impl; [exact (gi_kept _ _ _ _ _ _ _ _ _ _ _ _ Hi)|]. intros y (x & e & Hx & _ & E). cbn [hint_item it_key].
    rewrite E. cbn [set_version r_key]. pose proof (proj1 (Forall_forall _ _) Hcopy x Hx) as [[Hck _] _]. 
    pose proof (logged_key _ _ _ _ Hlog) as Hlk. pose proof (proj1 (Forall_forall _ _) Hlk x Hx) as Hkb.
    destruct (check_key_fits _ Hkb Hck) as [_ ?]. done.
  - rewrite length_map in Hl. rewrite blen_app. split; [apply Forall_app; split; [apply Hhint|done]|]. split; lia.
Qed.

(** All that is known of a collected file: the theorem below, and that the hint
    records are as many as the copies, that the target stays within its limit, and
    that a file fits a new target of its size. *)
Lemma collect_spec :
  exists f' t' deleted ret,
    optimizeDataFile fresh env mg f now t bucket path hintpath last lastdata lasthint max skipped use_tmp = Ret (f', t', deleted, ret) /\
    tree_ok t' /\ same_cfg t t' /\ plain f' /\
    ((ret = 1 /\ abs t' = abs t /\ (use_tmp = true -> max < blen file) /\ same_but [lastdata; lastdata ++ lit ".tmp"] f f' /\
       forall q, q <> lastdata ++ lit ".tmp" -> fs_read f' q = fs_read f q) \/
     (ret = 0 /\ exists z b kept, let new := old_data f lastdata use_tmp ++ z in
        fs_read f' lastdata = Some (new ++ b) /\ logged fresh (blen new) kept b /\ blen (new ++ b) <= Z.max (blen new) max /\ (blen (old_data f lastdata use_tmp) mod 256 = 0 -> z = []) /\
        (forall now', open_hint fresh f' now' lasthint None = Ret (f', Some (h0 ++ flat_map hint_of (List.map (hint_item (abs t) last) kept)))) /\
        (let h := h0 ++ flat_map hint_of (List.map (hint_item (abs t) last) kept) in bytes_ok h /\ blen h <= blen h0 + Z.of_nat (length l) * 261) /\
        (forall k, entry_kept kept k (abs t !! k) (abs t' !! k)) /\ (bucket <> last -> f' !! path = None) /\
        same_but [path; hintpath; lastdata; lastdata ++ lit ".tmp"; lasthint; lasthint ++ lit ".tmp"] f f')).
Proof.
  unfold optimizeDataFile. rewrite Hread. destruct (gc_start_spec R f now lastdata lasthint use_tmp h0 ltac:(lia) Htarget) as (z & -> & Hz1 & Hz2 & Hz3 & Hz4). cbn [mbind outcome_bind].
  set (new0 := old_data f lastdata use_tmp ++ z) in *. destruct (tree_new_ok (C := C) 0 0 true ltac:(lia)) as [Hn0 Hna]. pose proof Hpaths as [].
  set (g0 := {| g_tree := t |}). assert (Hi0 : gc_inv fresh (abs t) t bucket last max skipped new0 h0 [] [] g0).
  { constructor; cbn [g0 g_tree g_cur g_new g_hint]; auto.
    - by split; [|split].
    - exists []. rewrite app_nil_r. split; [done|constructor].
    - by rewrite app_nil_r.
    - lia.
    - intros k e'. rewrite Hna, lookup_empty. done.
    - intros x e Hx. by apply not_elem_of_nil in Hx. }
  pose proof (logged_length _ _ _ _ Hlog). destruct (gc_loop_log fresh Hfresh (abs t) t bucket last max R skipped new0 h0) with (l := l) (b := file) (pre := @nil Z)
    (fuel := scan_fuel file) (g := g0) (dn := @nil (Z * DataRecord)) (kept := @nil (Z * DataRecord)) as (res & E & Hres); auto;
    [lia|unfold scan_fuel, blen in *; lia|change (blen (@nil Z)) with 0; cbn [g0 g_new]; lia|]. cbn [app] in E, Hres. change (blen []) with 0 in E. rewrite E. clear E. cbn [mbind outcome_bind].
  destruct Hres as [(Hov & g & -> & Hgt & Hgc & Hga)|(g & kept & -> & Hi)].
  - destruct (gc_fail_spec (g_new g)) as (Hpl & Hsb & Hq). eexists _, _, _, _. split; [done|]. split; [done|]. split; [done|]. split; [done|]. left. split; [done|]. split; [done|]. split; [|by split].
    intros Eu. rewrite (Hz3 Eu) in Hov. change (blen []) with 0 in Hov. lia.
  - cbn [app] in Hi. destruct (gc_hint_ok new0 kept g Hi) as (Hh1 & Hh2 & Hh3). pose proof (gi_tree _ _ _ _ _ _ _ _ _ _ _ _ Hi) as (Hgt & Hgc & Hga).
    destruct (gc_commit_spec f now g bucket path hintpath last lastdata lasthint use_tmp) as (f' & t' & -> & Hf' & Ht' & Hcf & Ha' & Hd & Hp & Ho & Hs); auto.
    + apply Hi.
    + intros k [e' He']. destruct (gi_some _ _ _ _ _ _ _ _ _ _ _ _ Hi k e' He') as (x & e & _ & <- & Hh & _). rewrite Hga. unfold hit in Hh. by destruct (abs t !! r_key x.2).
    + cbn [mbind outcome_bind]. eexists _, _, _, _. split; [done|]. split; [done|]. split; [destruct Hgc, Hcf; split; congruence|]. split; [done|]. right. split; [done|].
      pose proof (gi_size _ _ _ _ _ _ _ _ _ _ _ _ Hi) as Hsz'. destruct (gi_new _ _ _ _ _ _ _ _ _ _ _ _ Hi) as (b & Eb & Hb). exists z, b, kept. cbv zeta. fold new0. rewrite <- Eb.
      split; [done|]. split; [done|]. split; [done|]. split; [done|]. rewrite <- (gi_hint _ _ _ _ _ _ _ _ _ _ _ _ Hi). split; [done|]. split; [done|]. split; [|done].
      intros k. rewrite Ha', Hga. by apply (collected_entry new0).
Qed.

(** C17. Garbage collection loses no live key.  [optimizeDataFile] of an intact data
    file that the tree points into, whose records are of at most [R] bytes,
    returns, if its limit leaves room for such a record before 4 GB.  If the records to keep do not fit
    into the target it returns 1 with the tree and all the files as they were.
    Otherwise it returns 0; the target holds its old contents followed by an
    intact log, its hint file the old hints followed by those of the copied
    records; every live key of the source has the same version and hash and
    points to a copy of its record with that version; deleted keys of the source
    stay deleted; the entries of other files are as they were; the source is gone
    unless it is the target. *)
Theorem gc_keeps_live :
  exists f' t' deleted ret,
    optimizeDataFile fresh env mg f now t bucket path hintpath last lastdata lasthint max skipped use_tmp = Ret (f', t', deleted, ret) /\
    tree_ok t' /\ plain f' /\
    ((ret = 1 /\ abs t' = abs t /\ forall q, q <> lastdata ++ lit ".tmp" -> fs_read f' q = fs_read f q) \/
     (ret = 0 /\ exists z b kept, let new := old_data f lastdata use_tmp ++ z in
        fs_read f' lastdata = Some (new ++ b) /\ logged fresh (blen new) kept b /\
        (forall now', open_hint fresh f' now' lasthint None = Ret (f', Some (h0 ++ flat_map hint_of (List.map (hint_item (abs t) last) kept)))) /\
        (forall k, entry_kept kept k (abs t !! k) (abs t' !! k)) /\ (bucket <> last -> f' !! path = None) /\
        same_but [path; hintpath; lastdata; lastdata ++ lit ".tmp"; lasthint; lasthint ++ lit ".tmp"] f f')).
Proof.
  destruct collect_spec as (f' & t' & deleted & ret & E & Ht' & _ & Hf' & [(Er & Ha & _ & _ & Hq)|(Er & z & b & kept & Hnew & Hlog' & _ & _ & Ho & _ & Hk & Hp & Hs)]);
    exists f', t', deleted, ret; (split; [done|]); (split; [done|]); (split; [done|]); [by left|]. right. split; [done|]. by exists z, b, kept.
Qed.
End Collect.
End Optimize.

(** ** A concrete collection: file 3 into the new file 0 *)
Definition gc_hash : Z := u16 (gen_hash (lit "three")).
Definition gc_tree : HTree Codec := tree_of [OpAdd (lit "b") 515 gc_hash 2; OpAdd (lit "a") 771 0 (-2)].
Lemma gc_tree_abs : abs gc_tree = {[lit "b" := (515, 2, gc_hash); lit "a" := (771, -2, 0)]}.
Proof. by_compute. Qed.

Lemma gc_keeps_live_witness :
  exists f' t' deleted ret,
    optimizeDataFile zeros {| avail := fun _ => 0; coin := fun _ => false |} {| disks := [lit "d"] |} (demo_fs demo_data) 9 gc_tree 3 demo_path demo_hint
      0 (lit "d/000.data") (lit "d/000.hint.qlz") 4000000 false true = Ret (f', t', deleted, ret) /\
    tree_ok t' /\ plain f' /\
    ((ret = 1 /\ abs t' = abs gc_tree /\ forall q, q <> lit "d/000.data" ++ lit ".tmp" -> fs_read f' q = fs_read (demo_fs demo_data) q) \/
     (ret = 0 /\ exists z b kept, let new := old_data (demo_fs demo_data) (lit "d/000.data") true ++ z in
        fs_read f' (lit "d/000.data") = Some (new ++ b) /\ logged zeros (blen new) kept b /\
        (forall now', open_hint zeros f' now' (lit "d/000.hint.qlz") None =
           Ret (f', Some ([] ++ flat_map hint_of (List.map (hint_item (abs gc_tree) 0) kept)))) /\
        (forall k, entry_kept 3 0 demo_log kept k (abs gc_tree !! k) (abs t' !! k)) /\ (3 <> 0 -> f' !! demo_path = None) /\
        same_but [demo_path; demo_hint; lit "d/000.data"; lit "d/000.data" ++ lit ".tmp"; lit "d/000.hint.qlz"; lit "d/000.hint.qlz" ++ lit ".tmp"]
          (demo_fs demo_data) f')).
Proof.
  apply (gc_keeps_live zeros zeros_ok {| avail := fun _ => 0; coin := fun _ => false |} {| disks := [lit "d"] |} (lit "d") eq_refl
           (demo_fs demo_data) 9 3 0 4000000 1024 demo_path demo_hint (lit "d/000.data") (lit "d/000.hint.qlz") false true gc_tree demo_log demo_data []).
  - apply plain_insert. intros p x. rewrite lookup_empty. discriminate.
  - constructor; try lia; try (vm_compute; discriminate); try done; by_compute.
  - reflexivity.
  - by vm_compute.
  - exact logged_demo.
  - by vm_compute.
  - unfold demo_log. repeat (apply Forall_cons; split; [split; [split; [done|right; by vm_compute]|by vm_compute]|]). apply Forall_nil_2.
  - lia.
  - lia.
  - split; [constructor|by vm_compute].
  - apply tree_of_ok; [by_compute|done].
  - rewrite gc_tree_abs. by_compute.
  - rewrite gc_tree_abs. intros k e He _. apply lookup_insert_Some in He as [[<- <-]|[_ He]].
    + exists 512, rec3. split; [set_solver|]. by vm_compute.
    + apply lookup_singleton_Some in He as [<- <-]. exists 768, rec4. split; [set_solver|]. by vm_compute.
Defined.
