(* ===== verification/Buckets.v ===== *)
(** * The files of a bitcask (bitcask.c, first part)

    A bitcask keeps up to 256 data files ("buckets"), each with a hint file, and
    snapshots of the tree, named by number under the base directory; the sizes
    are recorded in buckets.txt and compared at the next start. *)
From Stdlib Require Import ZArith Lia List.
From stdpp Require Import base numbers list gmap strings.
From S2P Require Import Prelude CText HTree Disk.

Definition MAX_BUCKET_COUNT : Z := 256.
Definition MAX_BUCKETS_FILE_SIZE : Z := 256 * 32.

(** The three kinds of files: their suffix after the number. *)
Inductive ftype := DATA_FILE | HINT_FILE | HTREE_FILE.
Definition suffix (ty : ftype) : bytes :=
  match ty with
  | DATA_FILE => lit ".data"
  | HINT_FILE => lit ".hint.qlz"
  | HTREE_FILE => lit ".htree"
  end.
(** [types[i]] *)
Definition ftypes : list ftype := [DATA_FILE; HINT_FILE; HTREE_FILE].

(** [%03d] *)
Definition print_03d (i : Z) : bytes :=
  let d := print_u (Z.abs i) in
  if i <? 0 then [45] ++ repeat 48 (2 - length d) ++ d else repeat 48 (3 - length d) ++ d.

Definition gen_path (base : bytes) (ty : ftype) (i : Z) : outcome bytes :=
  print_path MAX_PATH_LEN (join base (print_03d i ++ suffix ty)).

Definition new_path_real (env : DiskEnv) (m : Mgr) (f : fs) (ty : ftype) (i : Z) : outcome (fs * bytes) :=
  name ← print_path 16 (print_03d i ++ suffix ty);
  '(f, d) ← mgr_alloc env m f name;
  p ← print_path MAX_PATH_LEN (join d name);
  Ret (f, p).

Definition new_path (env : DiskEnv) (m : Mgr) (f : fs) (ty : ftype) (i : Z) : outcome (fs * bytes) :=
  base ← mgr_base m;
  path ← gen_path base ty i;
  new_path_real env m (mgr_unlink f path) ty i.

(** ** Bucket sizes: -1 for a bucket that does not exist *)
Abbreviation sizes := (gmap Z Z).
Definition bucket (b : sizes) (i : Z) : Z := default (-1) (b !! i).

(** The text of [dump_buckets]. *)
Fixpoint buckets_text (k : nat) (b : sizes) (i : Z) (buf : bytes) : outcome bytes :=
  match k with
  | O => Ret buf
  | S k' =>
      if 0 <=? bucket b i then
        buf ← buf_print MAX_BUCKETS_FILE_SIZE buf (print_d i ++ [32] ++ print_d (bucket b i) ++ [10]);
        buckets_text k' b (i + 1) buf
      else buckets_text k' b (i + 1) buf
  end.

Definition dump_buckets (m : Mgr) (b : sizes) (f : fs) (now : Z) : outcome fs :=
  buf ← buckets_text 256 b 0 [];
  base ← mgr_base m;
  path ← print_path MAX_PATH_LEN (join base (lit "buckets.txt"));
  match buf with
  | [] => Ret (fs_unlink f path)
  | _ => Ret (fs_write f path buf now)
  end.

(** The loop of [load_buckets]: [None] is the return value -1.  A line that does
    not start with a number makes the loop repeat itself for ever ([Fault] when
    the fuel is spent); a file that ends after the bucket number is read past
    its end. *)
Fixpoint load_loop (fuel : nat) (p : bytes) (b : sizes) (last : Z) : outcome (option (sizes * Z)) :=
  match p, fuel with
  | [], _ => Ret (Some (b, last))
  | _, O => Fault
  | _, S k =>
      let bkt := fst (strtol 10 p) in
      let n := st_used (strto_scan 10 p) in
      if (n =? 0)%nat then load_loop k p b last
      else if (bkt <? 0) || (255 <? bkt) || (bkt <=? last) then Ret None
      else if (length p <=? n)%nat then Fault
      else
        let p := drop (n + 1) p in
        let size := fst (strtol 10 p) in
        let n := st_used (strto_scan 10 p) in
        if (n =? 0)%nat then Ret None
        else load_loop k (drop (n + 1) p) (<[bkt := size]> b) bkt
  end.

(** [load_buckets(base, buckets, &last)]: the return value with the sizes. *)
Definition load_buckets (f : fs) (base : bytes) : outcome (Z * sizes * Z) :=
  path ← print_path MAX_PATH_LEN (join base (lit "buckets.txt"));
  match fs_read f path with
  | None => Ret (0, ∅, -1)
  | Some d =>
      if MAX_BUCKETS_FILE_SIZE <? blen d then Ret (-1, ∅, -1)
      else if blen d =? MAX_BUCKETS_FILE_SIZE then Fault (* buf[n] = 0 is out of range *)
      else
        r ← load_loop (S (length d)) d ∅ (-1);
        match r with None => Ret (-1, ∅, -1) | Some (b, last) => Ret (1, b, last) end
  end.

(** ** What is on the disks *)
(** [get_bucket_by_name]: the kind of file and its number. *)
Definition get_bucket_by_name (dir name : bytes) : option (ftype * Z) :=
  if match name with 46 :: _ => true | _ => false end || bool_decide (name = lit "buckets.txt") then None
  else if MAX_PATH_LEN <? blen name + blen dir then None
  else
    let '(b, erange) := strtol 10 name in
    if erange || negb (st_used (strto_scan 10 name) =? 3)%nat || (255 <? b) || (b <? 0) then None
    else if bool_decide (drop (length name - 3) name = lit "tmp") then None
    else match List.find (fun ty => bool_decide (suffix ty = drop 3 name)) ftypes with
         | Some ty => Some (ty, b)
         | None => None
         end.

Definition type_num (ty : ftype) : Z := match ty with DATA_FILE => 0 | HINT_FILE => 1 | HTREE_FILE => 2 end.

(** Sizes, and [locations[bucket][type]]: the disk of a file, -2 for a link that
    leads nowhere known, -1 for none. *)
Record Found := { f_sizes : sizes; f_locs : gmap (Z * Z) Z }.
Definition loc (x : Found) (b : Z) (ty : ftype) : Z := default (-1) (f_locs x !! (b, type_num ty)).
Definition set_loc (x : Found) (b : Z) (ty : ftype) (v : Z) : Found :=
  {| f_sizes := f_sizes x; f_locs := <[(b, type_num ty) := v]> (f_locs x) |}.

(** The disk (from number [j] on) whose file [name] is the file behind [real]. *)
Fixpoint same_file_disk (f : fs) (ds : list bytes) (j : Z) (name real : bytes) : Z :=
  match ds with
  | [] => -2
  | d :: r =>
      if bool_decide (is_Some (stat_reg f (join d name))) &&
         bool_decide (real_path MAXSYMLINKS f (join d name) = real_path MAXSYMLINKS f real)
      then j else same_file_disk f r (j + 1) name real
  end.

(** One directory entry of disk [i]; [None] is the return value -1. *)
Definition check_entry (autolink : bool) (m : Mgr) (i : Z) (disk name : bytes) (f : fs) (x : Found)
  : outcome (option (fs * Found)) :=
  match get_bucket_by_name disk name with
  | None => Ret (Some (f, x))
  | Some (ty, b) =>
      path ← print_path MAX_PATH_LEN (join disk name);
      r ←
        (if i =? 0 then
           match f !! path with
           | Some (Link _) =>
               match mgr_readlink f path with
               | None => Ret None
               | Some real =>
                   if negb (0 <? blen real) then Ret None else
                   match get_bucket_by_name disk (simple_basename real) with
                   | Some (ty', b') =>
                       if negb (type_num ty' =? type_num ty) || negb (b' =? b) then Ret None
                       else if file_exists f real
                            then Ret (Some (f, set_loc x b ty (same_file_disk f (drop 1 (disks m)) 1 name real)))
                            else Ret (Some (f, set_loc x b ty (-2)))
                   | None => Ret None
                   end
               end
           | _ => Ret (Some (f, set_loc x b ty 0))
           end
         else
           match f !! path with
           | Some (Reg _ _) =>
               if loc x b ty =? -1 then
                 if autolink then
                   d0 ← fetch (disks m) 0;
                   sym ← print_path MAX_PATH_LEN (join d0 name);
                   match fs_symlink f path sym with
                   | None => Ret None
                   | Some f => Ret (Some (f, set_loc x b ty i))
                   end
                 else Ret None
               else if negb (loc x b ty =? i) then Ret None
               else Ret (Some (f, x))
           | _ => Ret None
           end);
      match r with
      | None => Ret None
      | Some (f, x) =>
          if type_num ty =? 0 then
            let size := match stat_reg f path with Some (d, _) => blen d | None => 0 end in
            Ret (Some (f, {| f_sizes := <[b := size]> (f_sizes x); f_locs := f_locs x |}))
          else Ret (Some (f, x))
      end
  end.

Fixpoint check_dir (autolink : bool) (m : Mgr) (i : Z) (disk : bytes) (names : list bytes) (f : fs) (x : Found)
  : outcome (option (fs * Found)) :=
  match names with
  | [] => Ret (Some (f, x))
  | n :: r =>
      e ← check_entry autolink m i disk n f x;
      match e with None => Ret None | Some (f, x) => check_dir autolink m i disk r f x end
  end.

(** [check_buckets]; [readdir] lists a directory in the order of the kernel. *)
Fixpoint check_disks (autolink : bool) (readdir : bytes -> list bytes) (m : Mgr) (ds : list bytes) (i : Z)
    (f : fs) (x : Found) : outcome (option (fs * Found)) :=
  match ds with
  | [] => Ret (Some (f, x))
  | d :: r =>
      e ← check_dir autolink m i d (readdir d) f x;
      match e with None => Ret None | Some (f, x) => check_disks autolink readdir m r (i + 1) f x end
  end.
Definition check_buckets (autolink : bool) (readdir : bytes -> list bytes) (m : Mgr) (f : fs)
  : outcome (option (fs * Found)) :=
  check_disks autolink readdir m (disks m) 0 f {| f_sizes := ∅; f_locs := ∅ |}.

(** The comparison with buckets.txt, bucket 255 first: a mismatch is tolerated
    only for a data file after the last recorded one, or for the last one. *)
Fixpoint sizes_agree (k : nat) (want have : sizes) (last : Z) : bool :=
  match k with
  | O => true
  | S k' =>
      let i := Z.of_nat k' in
      ((bucket want i =? bucket have i) ||
       ((last <? i) && (0 <=? bucket have i)) ||
       ((i =? last) && (0 <=? bucket want i) && (0 <=? bucket have i)))
      && sizes_agree k' want have last
  end.

(** [init_buckets]: the sizes found, or the end of the process. *)
Definition init_buckets (autolink check_file_size : bool) (readdir : bytes -> list bytes) (m : Mgr) (f : fs)
  : outcome (fs * sizes) :=
  r ← check_buckets autolink readdir m f;
  match r with
  | None => Exit (-1)
  | Some (f, x) =>
      if check_file_size then
        base ← mgr_base m;
        '(ret, want, last) ← load_buckets f base;
        if ret <? 0 then Exit 1
        else if ret =? 0 then Ret (f, f_sizes x)
        else if sizes_agree 256 want (f_sizes x) last then Ret (f, f_sizes x) else Exit 1
      else Ret (f, f_sizes x)
  end.
