(* ===== verification/BucketsFacts.v ===== *)
(** * The names of the files and the record of their sizes

    Names of different files are different; buckets.txt always fits its buffer
    and what [dump_buckets] writes is what [load_buckets] reads. *)
From Stdlib Require Import ZArith Lia List Sorted.
From stdpp Require Import base numbers list list_numbers gmap strings.
From S2P Require Import Prelude CText HTree Disk DiskFacts Buckets.

(** ** Printed numbers *)
Lemma digits_aux_length base fuel n k :
  1 < base -> 0 <= n < base ^ Z.of_nat (S k) -> (length (digits_aux base fuel n) <= S k)%nat.
Proof.
  intros Hb. revert n k. induction fuel as [|f IH]; intros n k Hn; cbn [digits_aux]; [simpl; lia|].
  destruct (Z.ltb_spec n base); [simpl; lia|]. rewrite length_app. cbn [length]. rewrite Nat2Z.inj_succ, Z.pow_succ_r in Hn by lia.
  destruct k as [|k]; [change (base ^ Z.of_nat 0) with 1 in Hn; lia|].
  pose proof (IH (n / base) k). assert (0 <= n / base < base ^ Z.of_nat (S k)); [|intuition lia].
  split; [apply Z.div_pos; lia|]. apply Z.div_lt_upper_bound; lia.
Qed.

Lemma print_d_length n k : 0 <= n < 10 ^ Z.of_nat (S k) -> (length (print_d n) <= S k)%nat.
Proof.
  intros Hn. unfold print_d. destruct (Z.ltb_spec n 0); [lia|]. unfold print_u. rewrite length_map. by apply digits_aux_length.
Qed.

Lemma take_0x_10 s : take_0x 10 s = (s, O).
Proof. unfold take_0x. repeat case_match; done. Qed.
Lemma take_sign_none c r : c <> 45 -> c <> 43 -> take_sign (c :: r) = (false, c :: r, O).
Proof. intros. unfold take_sign. repeat case_match; done. Qed.
Lemma digit_char_plain d : 0 <= d < 10 -> isspace (digit_char d) = false /\ digit_char d <> 45 /\ digit_char d <> 43.
Proof.
  intros. unfold digit_char, isspace. destruct (Z.ltb_spec d 10); [|lia]. split; [|lia].
  apply orb_false_intro; [apply Z.eqb_neq; lia|]. apply andb_false_intro2. apply Z.leb_gt. lia.
Qed.

(** A printed number is read back up to the first character that is not a digit. *)
Lemma strtol_print n rest :
  0 <= n < 2 ^ 63 -> (forall c r, rest = c :: r -> 10 <= digit_val c) ->
  strtol 10 (print_d n ++ rest) = (n, false) /\ st_used (strto_scan 10 (print_d n ++ rest)) = length (print_d n) /\
  print_d n <> [].
Proof.
  intros Hn Hrest. unfold print_d. destruct (Z.ltb_spec n 0); [lia|]. unfold print_u.
  pose proof (digits_ok_digits 10 n ltac:(lia) ltac:(lia)) as Hok. pose proof (digits_nonempty 10 n) as Hne.
  assert (E : strto_scan 10 (List.map digit_char (digits 10 n) ++ rest) =
              {| st_neg := false; st_mag := n; st_used := length (digits 10 n) |}).
  { pose proof (scan_digits_app 10 (digits 10 n) rest 0 0 ltac:(lia) Hok Hrest) as Hs.
    fold (from_digits 10 (digits 10 n)) in Hs. rewrite from_digits_digits in Hs by lia.
    destruct (digits 10 n) as [|x l] eqn:Ed; [done|]. apply Forall_cons_1 in Hok as [Hx _].
    cbn [List.map app length Nat.add] in *. destruct (digit_char_plain x Hx) as (Hsp & Hm & Hp). unfold strto_scan.
    cbn [skip_spaces]. rewrite Hsp, take_sign_none, take_0x_10 by done. rewrite Hs. done. }
  unfold strtol. rewrite E. cbn [st_neg st_mag st_used]. unfold LONG_MAX, LONG_MIN.
  destruct (Z.gtb_spec n (2 ^ 63 - 1)); [lia|]. destruct (Z.ltb_spec n (- 2 ^ 63)); [lia|].
  split; [done|]. rewrite length_map. split; [done|]. by destruct (digits 10 n).
Qed.

(** ** Names *)
Lemma lookup_nodup_inj {A B} (g : A -> B) (l : list A) x y :
  NoDup (g <$> l) -> x ∈ l -> y ∈ l -> g x = g y -> x = y.
Proof.
  intros Hnd Hx Hy E. apply list_elem_of_lookup in Hx as [i Hi]. apply list_elem_of_lookup in Hy as [j Hj].
  assert (i = j) as ->; [|congruence]. apply (NoDup_lookup _ i j (g x) Hnd); rewrite list_lookup_fmap; [by rewrite Hi|by rewrite Hj, E].
Qed.

(** The names under the base directory: buckets.txt, the files of bucket [i] and
    their temporary files. *)
Inductive name_id := Sizes | File (ty : ftype) (i : Z) | Tmp (ty : ftype) (i : Z).
Definition name (n : name_id) : bytes :=
  match n with
  | Sizes => lit "buckets.txt"
  | File ty i => print_03d i ++ suffix ty
  | Tmp ty i => (print_03d i ++ suffix ty) ++ lit ".tmp"
  end.
Definition in_range (n : name_id) : Prop := match n with Sizes => True | File _ i | Tmp _ i => 0 <= i <= 257 end.
Definition all_names : list name_id :=
  Sizes :: flat_map (fun ty => flat_map (fun i => [File ty i; Tmp ty i]) (seqZ 0 258)) ftypes.

Lemma all_names_nodup : NoDup (name <$> all_names).
Proof. by_compute. Qed.

Lemma all_names_in n : in_range n -> n ∈ all_names.
Proof.
  intros Hn. unfold all_names. apply elem_of_cons. destruct n as [|ty i|ty i]; [by left|right|right];
    (apply elem_of_flat_map; exists ty; split; [destruct ty; set_solver|];
     apply elem_of_flat_map; exists i; split; [apply elem_of_seqZ; simpl in Hn; lia|set_solver]).
Qed.

Lemma name_inj a b : in_range a -> in_range b -> name a = name b -> a = b.
Proof.
  intros Ha Hb. apply (lookup_nodup_inj name all_names); [apply all_names_nodup|by apply all_names_in..].
Qed.

Definition path (d : bytes) (n : name_id) : bytes := join d (name n).

Lemma path_inj d a b : in_range a -> in_range b -> path d a = path d b -> a = b.
Proof.
  intros Ha Hb E. apply name_inj; auto. unfold path, join in E. apply app_inv_head in E. by injection E.
Qed.

Lemma path_ne d a b : in_range a -> in_range b -> a <> b -> path d a <> path d b.
Proof. intros Ha Hb Hne E. by apply Hne, (path_inj d). Qed.

Lemma name_length n : in_range n -> blen (name n) <= 16.
Proof.
  intros Hn. apply all_names_in in Hn. revert n Hn. apply Forall_forall.
  by_compute.
Qed.

Lemma path_length d n : in_range n -> blen d <= 230 -> blen (path d n) < MAX_PATH_LEN - 4.
Proof.
  intros Hn Hd. apply name_length in Hn. unfold path, join, MAX_PATH_LEN. rewrite !blen_app. change (blen [47]) with 1. lia.
Qed.

Lemma print_path_ok n p : blen p < n -> print_path n p = Ret p.
Proof. intros H. unfold print_path. by destruct (Z.leb_spec n (blen p)); [lia|]. Qed.

Lemma gen_path_ok d ty i : 0 <= i <= 257 -> blen d <= 230 -> gen_path d ty i = Ret (path d (File ty i)).
Proof. intros Hi Hd. unfold gen_path. apply print_path_ok. pose proof (path_length d (File ty i) Hi Hd). unfold path, name in *. lia. Qed.

Lemma file_name_length ty i : 0 <= i <= 257 -> blen (name (File ty i)) < 16.
Proof.
  intros Hi. assert (Hall : forallb (fun n => match n with File _ _ => blen (name n) <? 16 | _ => true end) all_names = true)
    by (vm_compute; reflexivity).
  rewrite forallb_forall in Hall. apply Z.ltb_lt, (Hall (File ty i)), list_elem_of_In. by apply all_names_in.
Qed.

Lemma new_path_plain env m f d ty i :
  disks m = [d] -> plain f -> 0 <= i <= 257 -> blen d <= 230 ->
  new_path_real env m f ty i = Ret (f, path d (File ty i)) /\
  new_path env m f ty i = Ret (delete (path d (File ty i)) f, path d (File ty i)).
Proof.
  intros Hm Hf Hi Hd. assert (Hr : forall g, new_path_real env m g ty i = Ret (g, path d (File ty i))).
  { intros g. unfold new_path_real. rewrite print_path_ok by by apply file_name_length. cbn [mbind outcome_bind].
    unfold mgr_alloc. rewrite Hm. cbn [mbind outcome_bind]. rewrite print_path_ok; [done|].
    pose proof (path_length d (File ty i) Hi Hd). unfold path, name in *. lia. }
  split; [apply Hr|]. unfold new_path, mgr_base. rewrite Hm. change (fetch [d] 0) with (Ret d). cbn [mbind outcome_bind].
  rewrite gen_path_ok by done. cbn [mbind outcome_bind]. by rewrite Hr, mgr_unlink_plain.
Qed.

(** ** buckets.txt *)
Definition line (e : Z * Z) : bytes := print_d e.1 ++ [32] ++ print_d e.2 ++ [10].
(** The lines for the [k] buckets from [i] on. *)
Definition recorded (b : sizes) (i : Z) (k : nat) : list (Z * Z) :=
  List.map (fun j => (j, bucket b j)) (List.filter (fun j => 0 <=? bucket b j) (seqZ i (Z.of_nat k))).
Definition sizes_fit (b : sizes) : Prop := forall i, 0 <= i < 256 -> -1 <= bucket b i < 2 ^ 63.

Lemma recorded_S b i k :
  recorded b i (S k) = (if 0 <=? bucket b i then [(i, bucket b i)] else []) ++ recorded b (i + 1) k.
Proof.
  unfold recorded. rewrite seqZ_cons by lia. replace (Z.pred (Z.of_nat (S k))) with (Z.of_nat k) by lia.
  replace (Z.succ i) with (i + 1) by lia. cbn [List.filter]. by destruct (0 <=? bucket b i).
Qed.

Lemma line_length i s : 0 <= i < 256 -> 0 <= s < 2 ^ 63 -> blen (line (i, s)) <= 24.
Proof.
  intros Hi Hs. unfold line. rewrite !blen_app. cbn [fst snd]. pose proof (print_d_length i 2). pose proof (print_d_length s 18).
  change (10 ^ Z.of_nat 3) with 1000 in *. change (10 ^ Z.of_nat 19) with 10000000000000000000 in *.
  change (2 ^ 63) with 9223372036854775808 in *. unfold blen in *. simpl. lia.
Qed.

Lemma buckets_text_spec b k i buf :
  sizes_fit b -> 0 <= i -> i + Z.of_nat k <= 256 -> blen buf <= 24 * i ->
  buckets_text k b i buf = Ret (buf ++ flat_map line (recorded b i k)) /\
  blen (buf ++ flat_map line (recorded b i k)) <= 24 * (i + Z.of_nat k).
Proof.
  intros Hb. revert i buf. induction k as [|k IH]; intros i buf Hi Hk Hl.
  - cbn [buckets_text]. change (recorded b i 0) with (@nil (Z * Z)). cbn [flat_map]. rewrite app_nil_r. split; [done|lia].
  - cbn [buckets_text]. rewrite recorded_S. destruct (Z.leb_spec 0 (bucket b i)) as [Hs|Hs]; cbn [app flat_map].
    + pose proof (line_length i (bucket b i) ltac:(lia) (conj Hs (proj2 (Hb i ltac:(lia))))) as Hll. unfold buf_print, MAX_BUCKETS_FILE_SIZE.
      change (print_d i ++ _) with (line (i, bucket b i)).
      destruct (Z.leb_spec (256 * 32 - blen buf) (blen (line (i, bucket b i)))); [lia|]. cbn [mbind outcome_bind].
      destruct (IH (i + 1) (buf ++ line (i, bucket b i))) as [-> H2]; [lia|lia|rewrite blen_app; lia|].
      rewrite <- app_assoc in H2 |- *. split; [done|lia].
    + destruct (IH (i + 1) buf) as [-> H2]; [lia|lia|lia|]. split; [done|lia].
Qed.

(** Reading the lines of increasing bucket numbers. *)
Lemma load_lines l : forall fuel b last,
  Forall (fun e => 0 <= e.1 < 256 /\ 0 <= e.2 < 2 ^ 63) l -> StronglySorted (fun a b => a.1 < b.1) ((last, 0) :: l) ->
  (length l <= fuel)%nat ->
  load_loop fuel (flat_map line l) b last =
  Ret (Some (fold_left (fun m e => <[e.1 := e.2]> m) l b, fold_left (fun _ e => e.1) l last)).
Proof.
  induction l as [|[i s] l IH]; intros fuel b last Hl Hs Hf; cbn [flat_map fold_left]; [by destruct fuel|].
  destruct fuel as [|fuel]; [simpl in Hf; lia|]. apply Forall_cons in Hl as [[Hi Hsz] Hl]. cbn [fst snd] in *.
  apply StronglySorted_inv in Hs as [Hs Hlt]. apply Forall_cons in Hlt as [Hlt _]. cbn [fst] in Hlt.
  set (r := flat_map line l) in *. assert (E : line (i, s) ++ r = print_d i ++ 32 :: print_d s ++ 10 :: r).
  { unfold line. cbn [fst snd]. by rewrite <- !app_assoc. }
  rewrite E. destruct (strtol_print i (32 :: print_d s ++ 10 :: r)) as (S1 & U1 & N1); [lia|by intros ? ? [= <- _]|].
  destruct (strtol_print s (10 :: r)) as (S2 & U2 & N2); [lia|by intros ? ? [= <- _]|].
  destruct (print_d i ++ 32 :: print_d s ++ 10 :: r) as [|c0 p0] eqn:Ep; [by destruct (print_d i)|].
  cbn [load_loop]. rewrite <- Ep in *. rewrite S1, U1. cbn [fst].
  assert ((length (print_d i) =? 0)%nat = false) as -> by (destruct (print_d i); done).
  assert ((i <? 0) || (255 <? i) || (i <=? last) = false) as ->.
  { rewrite !orb_false_iff. split; [split|]; [apply Z.ltb_ge|apply Z.ltb_ge|apply Z.leb_gt]; lia. }
  destruct (Nat.leb_spec (length (print_d i ++ 32 :: print_d s ++ 10 :: r)) (length (print_d i))) as [Hle|_]; [rewrite length_app in Hle; simpl in Hle; lia|].
  assert (D1 : forall (a b : bytes) c, drop (length a + 1) (a ++ c :: b) = b).
  { intros a b' c. rewrite <- drop_drop, drop_app_length. done. }
  rewrite D1, S2, U2. cbn [fst]. assert ((length (print_d s) =? 0)%nat = false) as -> by (destruct (print_d s); done).
  rewrite D1. apply IH; [done| |simpl in Hf; lia].
  apply StronglySorted_inv in Hs as [Hs Hall]. constructor; done.
Qed.

Lemma recorded_sorted b k i :
  StronglySorted (fun x y : Z * Z => x.1 < y.1) (recorded b i k) /\
  Forall (fun e => i <= e.1 < i + Z.of_nat k /\ e.2 = bucket b e.1 /\ 0 <= e.2) (recorded b i k).
Proof.
  revert i. induction k as [|k IH]; intros i; [split; constructor|]. rewrite recorded_S. destruct (IH (i + 1)) as [Hs Hf].
  assert (Hf' : Forall (fun e : Z * Z => i <= e.1 < i + Z.of_nat (S k) /\ e.2 = bucket b e.1 /\ 0 <= e.2) (recorded b (i + 1) k)).
  { eapply Forall_impl; [exact Hf|]. intros e He. cbn beta in *. intuition lia. }
  destruct (Z.leb_spec 0 (bucket b i)); [|by split]. cbn [app]. split.
  - constructor; [done|]. eapply Forall_impl; [exact Hf|]. intros e He. cbn beta in *. cbn [fst]. lia.
  - constructor; [cbn [fst snd]; intuition lia|done].
Qed.

Lemma recorded_lookup b k i m j :
  bucket (fold_left (fun m e => <[e.1 := e.2]> m) (recorded b i k) m) j =
  if (i <=? j) && (j <? i + Z.of_nat k) && (0 <=? bucket b j) then bucket b j else bucket m j.
Proof.
  revert i m. induction k as [|k IH]; intros i m.
  - change (recorded b i 0) with (@nil (Z * Z)). cbn [fold_left]. destruct (_ && _ && _) eqn:E; [|done].
    rewrite !andb_true_iff, Z.leb_le, Z.ltb_lt in E. lia.
  - rewrite recorded_S, fold_left_app, IH. destruct (Z.eq_dec i j) as [<-|Hne].
    + rewrite Z.leb_refl. destruct (Z.leb_spec (i + 1) i); [lia|]. cbn [andb]. rewrite (proj2 (Z.ltb_lt i (i + Z.of_nat (S k)))) by lia.
      destruct (0 <=? bucket b i); cbn [andb fold_left fst snd]; [|done]. unfold bucket at 1. by rewrite lookup_insert_eq.
    + replace (i + 1 + Z.of_nat k) with (i + Z.of_nat (S k)) by lia. replace (i <=? j) with (i + 1 <=? j) by lia.
      destruct (_ && _ && _); [done|]. destruct (0 <=? bucket b i); [|done]. cbn [fold_left fst snd].
      unfold bucket. by rewrite lookup_insert_ne.
Qed.

Lemma recorded_last b k i l :
  let L := fold_left (fun (_ : Z) e => e.1) (recorded b i k) l in
  (L = l /\ forall j, i <= j < i + Z.of_nat k -> bucket b j < 0) \/
  (i <= L < i + Z.of_nat k /\ 0 <= bucket b L /\ forall j, L < j < i + Z.of_nat k -> bucket b j < 0).
Proof.
  revert i l. induction k as [|k IH]; intros i l; cbv zeta; [left; split; [done|lia]|].
  rewrite recorded_S, fold_left_app. set (l' := fold_left _ _ l). specialize (IH (i + 1) l'). cbv zeta in IH.
  destruct IH as [[E H]|(H1 & H2 & H3)].
  - rewrite E. unfold l'. destruct (Z.leb_spec 0 (bucket b i)); cbn [fold_left fst].
    + right. split; [lia|]. split; [done|]. intros j Hj. apply H. lia.
    + left. split; [done|]. intros j Hj. destruct (Z.eq_dec j i) as [->|]; [done|]. apply H. lia.
  - right. split; [lia|]. split; [done|]. intros j Hj. apply H3. lia.
Qed.

Lemma lines_length l : (length l <= length (flat_map line l))%nat.
Proof.
  induction l as [|e l IH]; [done|]. cbn [flat_map]. rewrite length_app. cbn [length].
  assert (1 <= length (line e))%nat by (unfold line; rewrite !length_app; cbn [length]; lia). lia.
Qed.

Lemma sizes_agree_same k want have last :
  (forall i, 0 <= i < Z.of_nat k -> bucket want i = bucket have i) -> sizes_agree k want have last = true.
Proof.
  induction k as [|k IH]; intros H; [done|]. cbn [sizes_agree]. rewrite (H (Z.of_nat k)) by lia. rewrite Z.eqb_refl. cbn [orb andb].
  apply IH. intros i Hi. apply H. lia.
Qed.

Lemma dump_buckets_ok m d b f now :
  mgr_base m = Ret d -> blen d <= 230 -> sizes_fit b -> (forall t, f !! path d Sizes <> Some (Link t)) ->
  dump_buckets m b f now =
  Ret (match recorded b 0 256 with
       | [] => delete (path d Sizes) f
       | l => <[path d Sizes := Reg (flat_map line l) now]> f
       end).
Proof.
  intros Hm Hd Hb Hp. unfold dump_buckets. destruct (buckets_text_spec b 256 0 [] Hb) as [-> _]; [lia|change (Z.of_nat 256) with 256; lia|done|].
  cbn [mbind outcome_bind app]. rewrite Hm. cbn [mbind outcome_bind].
  pose proof (path_length d Sizes I Hd) as Hl. change (join d (lit "buckets.txt")) with (path d Sizes).
  rewrite print_path_ok by lia. cbn [mbind outcome_bind]. destruct (recorded b 0 256) as [|[i s] l] eqn:E; [done|].
  cbn [flat_map]. destruct (line (i, s) ++ flat_map line l) as [|c r] eqn:El.
  { exfalso. apply app_eq_nil in El as [El _]. unfold line in El. apply app_eq_nil in El as [_ El]. done. }
  unfold fs_write. by rewrite real_direct.
Qed.

Lemma load_recorded d f now l :
  blen d <= 230 -> Forall (fun e => 0 <= e.1 < 256 /\ 0 <= e.2 < 2 ^ 63) l -> StronglySorted (fun a b : Z * Z => a.1 < b.1) l ->
  blen (flat_map line l) < MAX_BUCKETS_FILE_SIZE ->
  load_buckets (<[path d Sizes := Reg (flat_map line l) now]> f) d =
  Ret (1, fold_left (fun m e => <[e.1 := e.2]> m) l ∅, fold_left (fun _ e => e.1) l (-1)).
Proof.
  intros Hd Hl Hs Hlen. unfold load_buckets. change (join d (lit "buckets.txt")) with (path d Sizes).
  pose proof (path_length d Sizes I Hd). rewrite print_path_ok by lia. cbn [mbind outcome_bind].
  rewrite (stored_read _ _ (flat_map line l) now) by (left; apply lookup_insert_eq).
  destruct (Z.ltb_spec MAX_BUCKETS_FILE_SIZE (blen (flat_map line l))); [lia|].
  destruct (Z.eqb_spec (blen (flat_map line l)) MAX_BUCKETS_FILE_SIZE); [lia|].
  rewrite load_lines; [done|done| |pose proof (lines_length l); lia].
  constructor; [done|]. eapply Forall_impl; [exact Hl|]. intros e He. cbn beta in He. cbn [fst]. lia.
Qed.

(** What is read back of the lines for [k] = 256 buckets. *)
Lemma load_back (k : nat) d b f now :
  Z.of_nat k = 256 -> blen d <= 230 -> sizes_fit b -> (exists i, 0 <= i < 256 /\ 0 <= bucket b i) ->
  exists b' last, recorded b 0 k <> [] /\
    load_buckets (<[path d Sizes := Reg (flat_map line (recorded b 0 k)) now]> f) d = Ret (1, b', last) /\
    (forall i, 0 <= i < 256 -> bucket b' i = bucket b i) /\
    (0 <= last < 256 /\ 0 <= bucket b last /\ forall j, last < j < 256 -> bucket b j < 0) /\
    sizes_agree k b' b last = true.
Proof.
  intros Hk Hd Hb (i0 & Hi0 & Hs0). destruct (buckets_text_spec b k 0 [] Hb) as [_ Hlen]; [lia|lia|done|].
  destruct (recorded_sorted b k 0) as [Hsort Hall]. pose proof (recorded_lookup b k 0 ∅) as Hlook.
  pose proof (recorded_last b k 0 (-1)) as Hlast. cbv zeta in Hlast. cbn [app] in Hlen. rewrite Z.add_0_l, Hk in *.
  destruct Hlast as [[_ H]|Hlast]; [specialize (H i0 ltac:(lia)); lia|].
  set (l := recorded b 0 k) in *.
  set (b' := fold_left (fun m e => <[e.1 := e.2]> m) l ∅) in *. set (last := fold_left (fun _ e => e.1) l (-1)) in *.
  assert (Hb' : forall i, 0 <= i < 256 -> bucket b' i = bucket b i).
  { intros i Hi. rewrite Hlook. specialize (Hb i Hi).
    destruct (Z.leb_spec 0 i), (Z.ltb_spec i 256), (Z.leb_spec 0 (bucket b i)); cbn [andb]; try lia.
    unfold bucket at 1. rewrite lookup_empty. simpl. lia. }
  exists b', last. split; [intros E; unfold last in Hlast; rewrite E in Hlast; simpl in Hlast; lia|].
  split; [|split; [done|split; [done|apply sizes_agree_same; intros i Hi; apply Hb'; lia]]].
  apply load_recorded; [done| |done|unfold MAX_BUCKETS_FILE_SIZE; lia].
  eapply Forall_impl; [exact Hall|]. intros [i s] (Hi & -> & Hs). cbn [fst snd] in *. specialize (Hb i ltac:(lia)). lia.
Qed.

(** C30. What [dump_buckets] writes, [load_buckets] reads: the text of up to 256
    sizes fits both buffers, every size comes back, the last bucket is the
    greatest that exists, and a restart that finds the files with these sizes
    passes the check of [init_buckets]. *)
Theorem buckets_roundtrip m d b f now :
  mgr_base m = Ret d -> blen d <= 230 -> sizes_fit b -> (forall t, f !! path d Sizes <> Some (Link t)) ->
  (exists i, 0 <= i < 256 /\ 0 <= bucket b i) ->
  exists f' b' last, dump_buckets m b f now = Ret f' /\ same_but [path d Sizes] f f' /\
    load_buckets f' d = Ret (1, b', last) /\ (forall i, 0 <= i < 256 -> bucket b' i = bucket b i) /\
    (0 <= last < 256 /\ 0 <= bucket b last /\ forall j, last < j < 256 -> bucket b j < 0) /\
    sizes_agree 256 b' b last = true.
Proof.
  intros Hm Hd Hb Hp He. rewrite (dump_buckets_ok m d) by done.
  destruct (load_back 256 d b f now eq_refl Hd Hb He) as (b' & last & Hne & H).
  exists (<[path d Sizes := Reg (flat_map line (recorded b 0 256)) now]> f), b', last.
  split; [by destruct (recorded b 0 256)|]. split; [|exact H].
  intros q Hq. rewrite lookup_insert_ne; [done|]. intros E. apply Hq. rewrite <- E. apply list_elem_of_here.
Qed.

(** Two files, the second one just begun. *)
Definition demo_sizes : sizes := <[0 := 4096]> (<[1 := 0]> ∅).

Lemma buckets_roundtrip_witness :
  exists f' b' last, dump_buckets {| disks := [lit "/a"] |} demo_sizes ∅ 5 = Ret f' /\ same_but [path (lit "/a") Sizes] ∅ f' /\
    load_buckets f' (lit "/a") = Ret (1, b', last) /\ (forall i, 0 <= i < 256 -> bucket b' i = bucket demo_sizes i) /\
    (0 <= last < 256 /\ 0 <= bucket demo_sizes last /\ forall j, last < j < 256 -> bucket demo_sizes j < 0) /\
    sizes_agree 256 b' demo_sizes last = true.
Proof.
  apply (buckets_roundtrip {| disks := [lit "/a"] |} (lit "/a") demo_sizes ∅ 5).
  - reflexivity.
  - vm_compute. discriminate.
  - intros i Hi. unfold bucket, demo_sizes. destruct (decide (i = 0)) as [->|]; [vm_compute; split; congruence|].
    destruct (decide (i = 1)) as [->|]; [vm_compute; split; congruence|]. rewrite !lookup_insert_ne, lookup_empty by done. simpl. lia.
  - intros t. rewrite lookup_empty. discriminate.
  - exists 0. split; [lia|]. vm_compute. discriminate.
Defined.
