(* ===== verification/Bitcask.v ===== *)
(** * The bitcask: a log-structured store of one bucket of the key space
      (bitcask.c)

    Writes go to a buffer that is appended to the current data file when it
    fills up; the tree maps a key to the file number (low 8 bits) and offset of
    its last record.  [bc_flush] is in two steps, as the code does it under two
    locks: [flush_begin] moves the buffer aside, [flush_end] writes it to the
    file; a reader may run in between.  The thread that [bc_rotate] starts to
    write the hint file is run at once.  The file system is part of the state;
    [now] is the result of [time(NULL)]. *)
From Stdlib Require Import ZArith Lia List.
From stdpp Require Import base numbers list gmap strings.
From S2P Require Import Prelude Hash CText Codec HTree HTreeFile QuickLZ Disk Hint Record Scan Buckets.

Import Fnv.

Definition WRITE_BUFFER_SIZE : Z := 2 * 2 ^ 20.
Definition SAVE_HTREE_LIMIT : Z := 5.

(** [write_buffer] up to [wbuf_curr_pos], [wbuf_size] and [wbuf_start_pos]. *)
Record WBuf := { wb_data : bytes; wb_size : Z; wb_start : Z }.
(** [flush_buffer], [fbuf_start_pos] and [flushing_bucket] while flushing. *)
Record FBuf := { fb_data : bytes; fb_start : Z; fb_bucket : Z }.

Record Bitcask (C : Type) := {
  bc_depth : Z;
  bc_pos : Z;
  bc_before : Z;
  bc_mgr : Mgr;
  bc_tree : HTree C;
  bc_updating : Updating C;
  bc_curr_tree : HTree C;
  bc_last_snapshot : Z;
  bc_curr : Z;
  bc_bytes : Z;
  bc_curr_bytes : Z;
  bc_wb : WBuf;
  bc_fb : option FBuf;
  bc_last_flush_time : Z;
  bc_optimize_flag : Z;
  bc_buckets : sizes;
  bc_fs : fs
}.
Arguments bc_depth {C}.
Arguments bc_pos {C}.
Arguments bc_before {C}.
Arguments bc_mgr {C}.
Arguments bc_tree {C}.
Arguments bc_updating {C}.
Arguments bc_curr_tree {C}.
Arguments bc_last_snapshot {C}.
Arguments bc_curr {C}.
Arguments bc_bytes {C}.
Arguments bc_curr_bytes {C}.
Arguments bc_wb {C}.
Arguments bc_fb {C}.
Arguments bc_last_flush_time {C}.
Arguments bc_optimize_flag {C}.
Arguments bc_buckets {C}.
Arguments bc_fs {C}.

Section Setters.
Context {C : Type}.
Implicit Types bc : Bitcask C.
Definition set_tree bc (x : HTree C) : Bitcask C :=
  {| bc_depth := bc_depth bc; bc_pos := bc_pos bc; bc_before := bc_before bc;
     bc_mgr := bc_mgr bc; bc_tree := x; bc_updating := bc_updating bc;
     bc_curr_tree := bc_curr_tree bc; bc_last_snapshot := bc_last_snapshot bc;
     bc_curr := bc_curr bc; bc_bytes := bc_bytes bc; bc_curr_bytes := bc_curr_bytes bc;
     bc_wb := bc_wb bc; bc_fb := bc_fb bc; bc_last_flush_time := bc_last_flush_time bc;
     bc_optimize_flag := bc_optimize_flag bc; bc_buckets := bc_buckets bc; bc_fs := bc_fs bc |}.
Definition set_trees bc (x0 : HTree C) (x1 : HTree C) : Bitcask C :=
  {| bc_depth := bc_depth bc; bc_pos := bc_pos bc; bc_before := bc_before bc;
     bc_mgr := bc_mgr bc; bc_tree := x0; bc_updating := bc_updating bc; bc_curr_tree := x1;
     bc_last_snapshot := bc_last_snapshot bc; bc_curr := bc_curr bc; bc_bytes := bc_bytes bc;
     bc_curr_bytes := bc_curr_bytes bc; bc_wb := bc_wb bc; bc_fb := bc_fb bc;
     bc_last_flush_time := bc_last_flush_time bc; bc_optimize_flag := bc_optimize_flag bc;
     bc_buckets := bc_buckets bc; bc_fs := bc_fs bc |}.
Definition set_updating bc (x : Updating C) : Bitcask C :=
  {| bc_depth := bc_depth bc; bc_pos := bc_pos bc; bc_before := bc_before bc;
     bc_mgr := bc_mgr bc; bc_tree := bc_tree bc; bc_updating := x;
     bc_curr_tree := bc_curr_tree bc; bc_last_snapshot := bc_last_snapshot bc;
     bc_curr := bc_curr bc; bc_bytes := bc_bytes bc; bc_curr_bytes := bc_curr_bytes bc;
     bc_wb := bc_wb bc; bc_fb := bc_fb bc; bc_last_flush_time := bc_last_flush_time bc;
     bc_optimize_flag := bc_optimize_flag bc; bc_buckets := bc_buckets bc; bc_fs := bc_fs bc |}.
Definition set_wb bc (x : WBuf) : Bitcask C :=
  {| bc_depth := bc_depth bc; bc_pos := bc_pos bc; bc_before := bc_before bc;
     bc_mgr := bc_mgr bc; bc_tree := bc_tree bc; bc_updating := bc_updating bc;
     bc_curr_tree := bc_curr_tree bc; bc_last_snapshot := bc_last_snapshot bc;
     bc_curr := bc_curr bc; bc_bytes := bc_bytes bc; bc_curr_bytes := bc_curr_bytes bc;
     bc_wb := x; bc_fb := bc_fb bc; bc_last_flush_time := bc_last_flush_time bc;
     bc_optimize_flag := bc_optimize_flag bc; bc_buckets := bc_buckets bc; bc_fs := bc_fs bc |}.
Definition set_fb bc (x : option FBuf) : Bitcask C :=
  {| bc_depth := bc_depth bc; bc_pos := bc_pos bc; bc_before := bc_before bc;
     bc_mgr := bc_mgr bc; bc_tree := bc_tree bc; bc_updating := bc_updating bc;
     bc_curr_tree := bc_curr_tree bc; bc_last_snapshot := bc_last_snapshot bc;
     bc_curr := bc_curr bc; bc_bytes := bc_bytes bc; bc_curr_bytes := bc_curr_bytes bc;
     bc_wb := bc_wb bc; bc_fb := x; bc_last_flush_time := bc_last_flush_time bc;
     bc_optimize_flag := bc_optimize_flag bc; bc_buckets := bc_buckets bc; bc_fs := bc_fs bc |}.
Definition set_fs bc (x : fs) : Bitcask C :=
  {| bc_depth := bc_depth bc; bc_pos := bc_pos bc; bc_before := bc_before bc;
     bc_mgr := bc_mgr bc; bc_tree := bc_tree bc; bc_updating := bc_updating bc;
     bc_curr_tree := bc_curr_tree bc; bc_last_snapshot := bc_last_snapshot bc;
     bc_curr := bc_curr bc; bc_bytes := bc_bytes bc; bc_curr_bytes := bc_curr_bytes bc;
     bc_wb := bc_wb bc; bc_fb := bc_fb bc; bc_last_flush_time := bc_last_flush_time bc;
     bc_optimize_flag := bc_optimize_flag bc; bc_buckets := bc_buckets bc; bc_fs := x |}.
Definition set_files bc (x0 : sizes) (x1 : fs) : Bitcask C :=
  {| bc_depth := bc_depth bc; bc_pos := bc_pos bc; bc_before := bc_before bc;
     bc_mgr := bc_mgr bc; bc_tree := bc_tree bc; bc_updating := bc_updating bc;
     bc_curr_tree := bc_curr_tree bc; bc_last_snapshot := bc_last_snapshot bc;
     bc_curr := bc_curr bc; bc_bytes := bc_bytes bc; bc_curr_bytes := bc_curr_bytes bc;
     bc_wb := bc_wb bc; bc_fb := bc_fb bc; bc_last_flush_time := bc_last_flush_time bc;
     bc_optimize_flag := bc_optimize_flag bc; bc_buckets := x0; bc_fs := x1 |}.
Definition set_bytes bc (x0 : Z) (x1 : Z) : Bitcask C :=
  {| bc_depth := bc_depth bc; bc_pos := bc_pos bc; bc_before := bc_before bc;
     bc_mgr := bc_mgr bc; bc_tree := bc_tree bc; bc_updating := bc_updating bc;
     bc_curr_tree := bc_curr_tree bc; bc_last_snapshot := bc_last_snapshot bc;
     bc_curr := bc_curr bc; bc_bytes := x0; bc_curr_bytes := x1; bc_wb := bc_wb bc;
     bc_fb := bc_fb bc; bc_last_flush_time := bc_last_flush_time bc;
     bc_optimize_flag := bc_optimize_flag bc; bc_buckets := bc_buckets bc; bc_fs := bc_fs bc |}.
Definition set_snapshot bc (x : Z) : Bitcask C :=
  {| bc_depth := bc_depth bc; bc_pos := bc_pos bc; bc_before := bc_before bc;
     bc_mgr := bc_mgr bc; bc_tree := bc_tree bc; bc_updating := bc_updating bc;
     bc_curr_tree := bc_curr_tree bc; bc_last_snapshot := x; bc_curr := bc_curr bc;
     bc_bytes := bc_bytes bc; bc_curr_bytes := bc_curr_bytes bc; bc_wb := bc_wb bc;
     bc_fb := bc_fb bc; bc_last_flush_time := bc_last_flush_time bc;
     bc_optimize_flag := bc_optimize_flag bc; bc_buckets := bc_buckets bc; bc_fs := bc_fs bc |}.
Definition set_curr bc (x : Z) : Bitcask C :=
  {| bc_depth := bc_depth bc; bc_pos := bc_pos bc; bc_before := bc_before bc;
     bc_mgr := bc_mgr bc; bc_tree := bc_tree bc; bc_updating := bc_updating bc;
     bc_curr_tree := bc_curr_tree bc; bc_last_snapshot := bc_last_snapshot bc; bc_curr := x;
     bc_bytes := bc_bytes bc; bc_curr_bytes := bc_curr_bytes bc; bc_wb := bc_wb bc;
     bc_fb := bc_fb bc; bc_last_flush_time := bc_last_flush_time bc;
     bc_optimize_flag := bc_optimize_flag bc; bc_buckets := bc_buckets bc; bc_fs := bc_fs bc |}.
Definition set_flush_time bc (x : Z) : Bitcask C :=
  {| bc_depth := bc_depth bc; bc_pos := bc_pos bc; bc_before := bc_before bc;
     bc_mgr := bc_mgr bc; bc_tree := bc_tree bc; bc_updating := bc_updating bc;
     bc_curr_tree := bc_curr_tree bc; bc_last_snapshot := bc_last_snapshot bc;
     bc_curr := bc_curr bc; bc_bytes := bc_bytes bc; bc_curr_bytes := bc_curr_bytes bc;
     bc_wb := bc_wb bc; bc_fb := bc_fb bc; bc_last_flush_time := x;
     bc_optimize_flag := bc_optimize_flag bc; bc_buckets := bc_buckets bc; bc_fs := bc_fs bc |}.
Definition set_optimize bc (x : Z) : Bitcask C :=
  {| bc_depth := bc_depth bc; bc_pos := bc_pos bc; bc_before := bc_before bc;
     bc_mgr := bc_mgr bc; bc_tree := bc_tree bc; bc_updating := bc_updating bc;
     bc_curr_tree := bc_curr_tree bc; bc_last_snapshot := bc_last_snapshot bc;
     bc_curr := bc_curr bc; bc_bytes := bc_bytes bc; bc_curr_bytes := bc_curr_bytes bc;
     bc_wb := bc_wb bc; bc_fb := bc_fb bc; bc_last_flush_time := bc_last_flush_time bc;
     bc_optimize_flag := x; bc_buckets := bc_buckets bc; bc_fs := bc_fs bc |}.
Definition set_rotated bc (x0 : HTree C) (x1 : Z) (x2 : Z) (x3 : WBuf) (x4 : sizes) (x5 : fs) : Bitcask C :=
  {| bc_depth := bc_depth bc; bc_pos := bc_pos bc; bc_before := bc_before bc;
     bc_mgr := bc_mgr bc; bc_tree := bc_tree bc; bc_updating := bc_updating bc;
     bc_curr_tree := x0; bc_last_snapshot := bc_last_snapshot bc; bc_curr := x1;
     bc_bytes := bc_bytes bc; bc_curr_bytes := x2; bc_wb := x3; bc_fb := bc_fb bc;
     bc_last_flush_time := bc_last_flush_time bc; bc_optimize_flag := bc_optimize_flag bc;
     bc_buckets := x4; bc_fs := x5 |}.
End Setters.

(** What the code takes from its environment: the global settings, the kernel,
    and the values of pointers and of fresh memory. *)
Record Env := {
  e_max_bucket_size : Z;
  e_check_file_size : bool;
  e_autolink : bool;
  e_disk : DiskEnv;
  e_readdir : bytes -> list bytes;
  e_fresh : Z -> bytes;
  e_addr : Z -> Z;
  e_cwd : bytes;               (* the working directory *)
  e_dir_ok : bytes -> bool     (* the directory exists or can be made *)
}.

Section Bitcask.
Context {C : Type} {KC : KeyCodec C} (env : Env).
Implicit Types bc : Bitcask C.

Definition wb_pos bc : Z := blen (wb_data (bc_wb bc)).
Definition base bc : outcome bytes := mgr_base (bc_mgr bc).
Definition path_of bc (ty : ftype) (i : Z) : outcome bytes := b ← base bc; gen_path b ty i.

Definition dump bc (now : Z) : outcome (Bitcask C) :=
  f ← dump_buckets (bc_mgr bc) (bc_buckets bc) (bc_fs bc) now; Ret (set_fs bc f).

(** [new_data(buf, size, bc, DATA_FILE, i)] *)
Definition new_data bc (i now : Z) : outcome (Bitcask C * bytes) :=
  path ← path_of bc DATA_FILE i;
  if 0 <=? bucket (bc_buckets bc) i then Ret (bc, path)
  else if file_exists (bc_fs bc) path then Exit (-1)
  else
    bc ← dump (set_files bc (<[i := 0]> (bc_buckets bc)) (bc_fs bc)) now;
    '(f, p) ← new_path_real (e_disk env) (bc_mgr bc) (bc_fs bc) DATA_FILE i;
    Ret (set_fs bc f, p).

(** ** Flushing *)
Definition bc_rotate bc (now : Z) : outcome (Bitcask C) :=
  '(f, hintpath) ← new_path (e_disk env) (bc_mgr bc) (bc_fs bc) HINT_FILE (bc_curr bc);
  f ← build_hint (e_fresh env) f now (bc_curr_tree bc) hintpath;
  datapath ← path_of bc DATA_FILE (bc_curr bc);
  bc ← (match stat_reg f datapath with
        | Some (d, _) => dump (set_files bc (<[bc_curr bc := blen d]> (bc_buckets bc)) f) now
        | None => Ret (set_fs bc f)
        end);
  Ret (set_rotated bc (ht_new (bc_depth bc) (bc_pos bc) true) (bc_curr bc + 1) 0
         {| wb_data := wb_data (bc_wb bc); wb_size := wb_size (bc_wb bc); wb_start := 0 |}
         (bc_buckets bc) (bc_fs bc)).

(** [bc->wbuf_start_pos + bc->wbuf_size > settings.max_bucket_size], in 32 bits. *)
Definition needs_rotate (start size max : Z) : bool := max <? u32 (start + size).

(** The size of the next write buffer. *)
Definition next_wbuf_size (size : Z) : Z :=
  if size <? WRITE_BUFFER_SIZE then u32 (size * 2)
  else if WRITE_BUFFER_SIZE * 2 <? size then WRITE_BUFFER_SIZE else size.

Definition flush_due bc (limit period now : Z) : bool :=
  (u32 (limit * 1024) <? wb_pos bc) ||
  ((bc_last_flush_time bc + period <? now) && (0 <? wb_pos bc)).

(** Under the buffer lock: move the write buffer aside. *)
Definition flush_begin bc (now : Z) : outcome (Bitcask C) :=
  let wb := bc_wb bc in
  let size := wb_pos bc in
  let bc := set_fb bc (Some {| fb_data := wb_data wb; fb_start := wb_start wb; fb_bucket := bc_curr bc |}) in
  let bc := set_bytes bc (u64 (bc_bytes bc + size)) (u64 (bc_curr_bytes bc + size)) in
  let wb := {| wb_data := []; wb_size := next_wbuf_size (wb_size wb); wb_start := u32 (wb_start wb + size) |} in
  let bc := set_wb bc wb in
  if needs_rotate (wb_start wb) (wb_size wb) (e_max_bucket_size env) then bc_rotate bc now else Ret bc.

(** Then write it out. *)
Definition flush_end bc (now : Z) : outcome (Bitcask C) :=
  match bc_fb bc with
  | None => Fault
  | Some fb =>
      '(bc, path) ← new_data bc (fb_bucket fb) now;
      let file_size := blen (default [] (fs_read (bc_fs bc) path)) in
      if (0 <? fb_start fb) && negb (fb_start fb =? file_size) then Exit 1
      else
        let f := fs_append (bc_fs bc) path (fb_data fb) now in
        let bc := set_files bc (<[fb_bucket fb := file_size + blen (fb_data fb)]> (bc_buckets bc)) f in
        bc ← (if (file_size =? 0) || (3600 <? now - bc_last_flush_time bc) then dump bc now else Ret bc);
        Ret (set_fb (set_flush_time bc now) None)
  end.

Definition bc_flush bc (limit period now : Z) : outcome (Bitcask C) :=
  if MAX_BUCKET_COUNT <=? bc_curr bc then Exit 1
  else if flush_due bc limit period now
       then bc ← flush_begin bc now; flush_end bc now
       else Ret bc.

(** ** Reading *)
(** The loop at [RETRY_READ]: a record that is not of this key makes the code
    ask the tree again; [pos] is the offset tried. *)
Fixpoint read_retry (fuel : nat) bc (path key : bytes) (pos : Z) (item : Item) (maybe_tmp : bool)
  : outcome (Bitcask C * option (DataRecord * Z)) :=
  match fuel with
  | O => Fault
  | S k =>
      r ← (match fs_read (bc_fs bc) path with
           | None => Ret None
           | Some file => fast_read_record (e_fresh env) file pos true
           end);
      let good := match r with Some r => bool_decide (cstr key = cstr (r_key r)) | None => false end in
      if negb maybe_tmp && negb good then
        '(t, it) ← ht_get_withbuf (bc_tree bc) key;
        let bc := set_tree bc t in
        match it with
        | Some it =>
            let new_pos := Z.land (it_pos it) 0xffffff00 in
            if negb (new_pos =? pos) then read_retry k bc path key new_pos it maybe_tmp
            else Ret (bc, None)
        | None => Ret (bc, None)
        end
      else Ret (bc, if good then match r with Some r => Some (r, it_ver item) | None => None end else None)
  end.

Definition set_version (r : DataRecord) (v : Z) : DataRecord :=
  {| r_tstamp := r_tstamp r; r_flag := r_flag r; r_version := v; r_key := r_key r; r_value := r_value r |}.

(** The record in the write buffer or the flush buffer: [None] if the position
    is in neither. *)
Definition read_buffers bc (bkt pos : Z) : outcome (option DataRecord) :=
  let wb := bc_wb bc in
  if (bkt =? u32 (bc_curr bc)) && (wb_start wb <=? pos) then
    let p := pos - wb_start wb in
    r ← decode_record (e_fresh env) (drop (Z.to_nat p) (wb_data wb)) (u32 (wb_pos bc - p)) true;
    Ret (match r with inl r => Some r | inr _ => None end)
  else
    match bc_fb bc with
    | Some fb =>
        if (bkt =? fb_bucket fb) && (fb_start fb <=? pos) then
          let p := pos - fb_start fb in
          r ← decode_record (e_fresh env) (drop (Z.to_nat p) (fb_data fb)) (u32 (blen (fb_data fb) - p)) true;
          Ret (match r with inl r => Some r | inr _ => None end)
        else Ret None
    | None => Ret None
    end.

(** The label [READ_FAIL] without a record: forget the key. *)
Definition read_fail bc (key : bytes) : outcome (Bitcask C) :=
  t ← ht_remove2 (bc_tree bc) key; Ret (set_tree bc t).

(** The part of [bc_get] that reads the files. *)
Definition read_files bc (key : bytes) (bkt pos : Z) (item : Item) (maybe_tmp : bool)
  : outcome (Bitcask C * option DataRecord) :=
  datapath ← path_of bc DATA_FILE bkt;
  tmp ← (if maybe_tmp then
           p ← print_path MAX_PATH_LEN (datapath ++ lit ".tmp");
           match fs_read (bc_fs bc) p with
           | Some file => r ← fast_read_record (e_fresh env) file pos true; Ret (Some r)
           | None => Ret None
           end
         else Ret None);
  match tmp with
  | Some r =>
      match r with
      | Some r =>
          if bool_decide (cstr key = cstr (r_key r)) then Ret (bc, Some (set_version r (it_ver item)))
          else bc ← read_fail bc key; Ret (bc, None)
      | None => bc ← read_fail bc key; Ret (bc, None)
      end
  | None =>
      '(bc, r) ← read_retry 3 bc datapath key pos item maybe_tmp;
      match r with
      | Some (r, v) => Ret (bc, Some (set_version r v))
      | None => bc ← read_fail bc key; Ret (bc, None)
      end
  end.

(** [bc_get(bc, key, &ret_pos, return_deleted)]: the record and [*ret_pos] if it
    was written. *)
Definition bc_get bc (key : bytes) (return_deleted : bool)
  : outcome (Bitcask C * option DataRecord * option Z) :=
  if negb (check_key key) then Ret (bc, None, None) else
  '(t, u, maybe_tmp, item) ← ht_get_maybe_tmp (bc_tree bc) (bc_updating bc) key;
  let bc := set_updating (set_tree bc t) u in
  match item with
  | None => Ret (bc, None, None)
  | Some item =>
      let ret_pos := Some (it_pos item) in
      if negb return_deleted && (it_ver item <? 0) then Ret (bc, None, ret_pos) else
      let bkt := Z.land (it_pos item) 0xff in
      let pos := Z.land (it_pos item) 0xffffff00 in
      if u32 (bc_curr bc) <? bkt then
        bc ← read_fail bc key; Ret (bc, None, ret_pos)
      else
        r ← read_buffers bc bkt pos;
        match r with
        | Some r => Ret (bc, Some (set_version r (it_ver item)), ret_pos)
        | None =>
            '(bc, r) ← read_files bc key bkt pos item maybe_tmp; Ret (bc, r, ret_pos)
        end
  end.

(** ** Writing *)
(** The version a [set] asks for and the one stored give the new version;
    [None] refuses the operation. *)
Definition new_version (version oldv : Z) : option Z :=
  if (version =? 0) && (0 <? oldv) then Some (s32 (oldv + 1))
  else if (version =? 0) && (oldv <=? 0) then Some (s32 (- oldv + 1))
  else if (version <? 0) && (oldv <=? 0) then None
  else if version =? -1 then Some (s32 (- Z.abs oldv - 1))
  else if Z.abs version <=? Z.abs oldv then None
  else Some version.

(** [while (rlen > bc->wbuf_size) bc->wbuf_size *= 2;] *)
Fixpoint grow_wbuf (fuel : nat) (size rlen : Z) : outcome Z :=
  match fuel with
  | O => Fault
  | S k => if size <? rlen then grow_wbuf k (u32 (size * 2)) rlen else Ret size
  end.

(** Make room for a record of [rlen] bytes in the write buffer. *)
Definition make_room bc (rlen now : Z) : outcome (Bitcask C) :=
  if wb_size (bc_wb bc) <? u32 (wb_pos bc + rlen) then
    bc ← bc_flush bc 0 0 now;
    size ← grow_wbuf 32 (wb_size (bc_wb bc)) rlen;
    let wb := {| wb_data := wb_data (bc_wb bc); wb_size := size; wb_start := wb_start (bc_wb bc) |} in
    let bc := set_wb bc wb in
    if needs_rotate (wb_start wb) size (e_max_bucket_size env) then bc_rotate bc now else Ret bc
  else Ret bc.

(** Append an encoded record to the write buffer and enter it in both trees. *)
Definition append_record bc (key rbuf : bytes) (hash ver : Z) : outcome (Bitcask C) :=
  let wb := bc_wb bc in
  if wb_size wb <? wb_pos bc + blen rbuf then Fault else
  let pos := u32 (Z.lor (u32 (wb_start wb + wb_pos bc)) (bc_curr bc)) in
  let bc := set_wb bc {| wb_data := wb_data wb ++ rbuf; wb_size := wb_size wb; wb_start := wb_start wb |} in
  ct ← ht_add2 (bc_curr_tree bc) key pos hash ver;
  t ← ht_add2 (bc_tree bc) key pos hash ver;
  Ret (set_trees bc t ct).

(** Is the stored value the one to be set? *)
Definition same_value (r : option DataRecord) (value : bytes) (flag : Z) : bool :=
  match r with
  | Some r => (r_flag r =? flag) && bool_decide (r_value r = value)
  | None => false
  end.

(** The record is written even if equal data is stored: the last part of [bc_set]. *)
Definition store_record bc (key value : bytes) (flag ver hash now : Z) : outcome (Bitcask C * bool) :=
  rbuf ← encode_record (e_fresh env)
           {| r_tstamp := s32 now; r_flag := flag; r_version := ver; r_key := key; r_value := value |};
  if negb (Z.land (blen rbuf) 0xff =? 0) then Ret (bc, false)
  else
    bc ← make_room bc (blen rbuf) now;
    bc ← append_record bc key rbuf hash ver;
    Ret (bc, true).

Definition bc_set bc (key value : bytes) (flag version now : Z) : outcome (Bitcask C * bool) :=
  if ((version <? 0) && (0 <? blen value)) || (MAX_VALUE_LEN <? blen value) || negb (check_key key)
  then Ret (bc, false)
  else
    '(t, it) ← ht_get2 (bc_tree bc) key;
    let bc := set_tree bc t in
    let oldv := match it with Some it => it_ver it | None => 0 end in
    match new_version version oldv with
    | None => Ret (bc, false)
    | Some ver =>
        let hash := if 0 <? ver then u16 (gen_hash value) else 0 in
        match it with
        | Some it =>
            if hash =? it_hash it then
              '(bc, r, _) ← bc_get bc key false;
              if same_value r value flag then
                if negb (version =? 0) then
                  ct ← (if Z.land (it_pos it) 0xff =? bc_curr bc
                        then ht_add2 (bc_curr_tree bc) key (it_pos it) (it_hash it) ver
                        else Ret (bc_curr_tree bc));
                  t ← ht_add2 (bc_tree bc) key (it_pos it) (it_hash it) ver;
                  Ret (set_trees bc t ct, true)
                else Ret (bc, true)
              else store_record bc key value flag ver hash now
            else store_record bc key value flag ver hash now
        | None => store_record bc key value flag ver hash now
        end
    end.

Definition bc_delete bc (key : bytes) (now : Z) : outcome (Bitcask C * bool) :=
  bc_set bc key [] 0 (-1) now.

Definition bc_get_hash bc (pos : bytes) : outcome (Bitcask C * Z * Z) :=
  '(t, h, n) ← ht_get_hash (bc_tree bc) pos; Ret (set_tree bc t, u16 h, n).

Definition bc_list bc (pos : bytes) (prefix : option bytes) : outcome (Bitcask C * option bytes) :=
  '(t, r) ← ht_list (bc_tree bc) pos prefix; Ret (set_tree bc t, r).

(** [bc_count]: the items of the tree and of the current tree. *)
Definition bc_count bc : outcome (Bitcask C * Z * Z) :=
  '(t, _, total) ← ht_get_hash (bc_tree bc) [64];
  '(ct, _, curr) ← ht_get_hash (bc_curr_tree bc) [64];
  Ret (set_trees bc t ct, total, curr).

Definition bc_stat bc : Z := bc_bytes bc.
End Bitcask.
