(* ===== verification/BitcaskInv.v ===== *)
(** * The invariant of a bitcask

    A bitcask on one disk is related to a finite map from keys to (version, flag,
    value).  The tree has an entry for exactly the keys of the map; its position
    names a bucket and an offset, and the record is there: in the write buffer, in
    the buffer being flushed, or in the data file.  The offsets of the buffers
    continue the data file; data files above the current one do not exist. *)
From Stdlib Require Import ZArith Lia List.
From stdpp Require Import base numbers list gmap strings.
From S2P Require Import Prelude Hash CText Codec CodecFacts HTree HTreeMap HTreeSpec HTreeFine Disk DiskFacts Hint HintFacts Record RecordFacts Buckets BucketsFacts Bitcask.

Import Fnv.

(** ** Records inside a string of bytes *)
Section InBytes.
Context (fresh : Z -> bytes).

(** An encoding of the record [r] starts at [off]. *)
Definition in_bytes (l : bytes) (off : Z) (r : DataRecord) : Prop :=
  exists r' pre post, stored_as fresh r r' /\ l = pre ++ encode_bytes r' ++ post /\ blen pre = off.

Lemma in_bytes_app l x off r : in_bytes l off r -> in_bytes (l ++ x) off r.
Proof.
  intros (r' & pre & post & Hs & -> & Hl). exists r', pre, (post ++ x). by rewrite <- !app_assoc.
Qed.

Lemma in_bytes_prepend l x off r : in_bytes l off r -> in_bytes (x ++ l) (blen x + off) r.
Proof.
  intros (r' & pre & post & Hs & -> & Hl). exists r', (x ++ pre), post. rewrite <- !app_assoc, blen_app. split; [done|]. split; [done|lia].
Qed.

Lemma in_bytes_last l r r' : stored_as fresh r r' -> in_bytes (l ++ encode_bytes r') (blen l) r.
Proof. intros Hs. exists r', l, []. by rewrite app_nil_r. Qed.

Lemma in_bytes_range l off r : in_bytes l off r -> 0 <= off /\ off + 256 <= blen l.
Proof.
  intros (r' & pre & post & Hs & -> & <-). destruct (encode_length fresh r') as (E & _ & ?).
  rewrite !blen_app, E. unfold blen. lia.
Qed.

Lemma in_bytes_read l off r : in_bytes l off r -> fast_read_record fresh l off true = Ret (Some r).
Proof. intros (r' & pre & post & Hs & -> & <-). by apply encoded_read. Qed.

Lemma in_bytes_decode l off r :
  in_bytes l off r -> decode_record fresh (drop (Z.to_nat off) l) (blen l - off) true = Ret (inl r).
Proof.
  intros (r' & pre & post & Hs & -> & <-). rewrite drop_app_n by (unfold blen; lia).
  apply (encoded_read fresh r r' [] post Hs). rewrite !blen_app. pose proof (Zle_0_nat (length post)). unfold blen in *. lia.
Qed.
End InBytes.

(** ** Keys *)
Lemma cstr_nozero k : Forall (fun c => c <> 0) k -> cstr k = k.
Proof. induction 1 as [|c r Hc _ IH]; [done|]. simpl. by rewrite (proj2 (Z.eqb_neq c 0)), IH. Qed.

(** ** The index *)
Section Index.
Context {C : Type} {KC : KeyCodec C} {KL : KeyCodecLaws C}.

Lemma ht_get_withbuf_spec (t : HTree C) key :
  tree_ok t -> key_fits key ->
  exists t' r, ht_get_withbuf t key = Ret (t', r) /\ tree_ok t' /\ t_depth t' = t_depth t /\ t_pos t' = t_pos t /\
    abs t' = abs t /\ ival <$> r = abs t !! key.
Proof.
  intros Ht Hk. unfold ht_get_withbuf. destruct (check_bucket t key) eqn:Eb; cbn [negb].
  2: { exists t, None. do 5 (split; [done|]). by rewrite abs_own. }
  destruct (create_item_spec t key 0 0 0 Ht Hk Eb) as (t1 & it & E & Ht1 & Hit1 & Ha1 & Hd1 & Hp1 & Hi & Hik & Hkh & _).
  unfold create_item in E. destruct (kc_encode (t_dc t) (TREE_BUF_SIZE - 11) key) as [[c e]| |]; cbn [mbind outcome_bind] in *; [|done|done].
  injection E as <- <-. destruct (get_item_hash_spec _ _ Ht1 Hi) as (r & Er & Hr). unfold keyhash. rewrite <- Hkh.
  cbn [it_key] in Er. rewrite Er. cbn [mbind outcome_bind]. exists (with_dc t c), r. do 5 (split; [done|]). by rewrite <- Hr, Hik, Ha1.
Qed.

(** Entries that fit the fields of a hint record. *)
Definition entry_fits (k : bytes) (e : entry) : Prop :=
  check_key k = true /\ 0 <= e.1.1 < 2 ^ 32 /\ - 2 ^ 31 <= e.1.2 < 2 ^ 31 /\ 0 <= e.2 < 2 ^ 16.

(** The stored form of a key is looked up; the nodes stay. *)
Lemma get_root (t t' : HTree C) key r : ht_get2 t key = Ret (t', r) -> t_root t' = t_root t.
Proof.
  unfold ht_get2. destruct (negb _); [by intros [= <- <-]|]. intros H. apply bind_ret in H as ([t1 it] & E & H). apply bind_ret in H as (p & _ & H). injection H as <- _. by apply create_spec in E as [-> _].
Qed.
Lemma get_withbuf_root (t t' : HTree C) key r : ht_get_withbuf t key = Ret (t', r) -> t_root t' = t_root t.
Proof.
  unfold ht_get_withbuf. destruct (negb _); [by intros [= <- <-]|]. intros H. apply bind_ret in H as ([c e] & _ & H). apply bind_ret in H as (p & _ & H). by injection H as <- _.
Qed.

(** The tree of all keys and the tree of the current bucket, after at most [n]
    insertions. *)
Record idx_ok (n depth pos : Z) (t ct : HTree C) : Prop := {
  io_depth : 0 <= depth <= 7;
  io_tree : tree_ok t;
  io_curr : tree_ok ct;
  io_cfg : t_depth t = depth /\ t_pos t = pos;
  io_cfg' : t_depth ct = depth /\ t_pos ct = pos;
  io_size : Z.of_nat (size (abs t)) <= n /\ Z.of_nat (size (abs ct)) <= n;
  io_fits : map_Forall entry_fits (abs ct);
  io_built : built n t
}.

Lemma idx_ok_le n n' depth pos t ct : n <= n' -> idx_ok n depth pos t ct -> idx_ok n' depth pos t ct.
Proof. intros H []. constructor; auto; [lia|by eapply built_le]. Qed.

Lemma idx_tree n depth pos t ct t' :
  idx_ok n depth pos t ct -> tree_ok t' -> t_depth t' = t_depth t -> t_pos t' = t_pos t ->
  (size (abs t') <= size (abs t))%nat -> t_root t' = t_root t -> idx_ok n depth pos t' ct.
Proof. intros [] Ht' Hd Hp Ha Hr. constructor; auto; [by rewrite Hd, Hp|lia|by eapply built_root]. Qed.

Lemma idx_new n depth pos t ct tmp : idx_ok n depth pos t ct -> idx_ok n depth pos t (ht_new depth pos tmp).
Proof.
  intros []. destruct (tree_new_ok (C := C) depth pos tmp io_depth0) as [Hn Ha]. constructor; auto.
  - rewrite Ha, map_size_empty. lia.
  - rewrite Ha. apply map_Forall_empty.
Qed.

(** Adding an entry to the tree. *)
Lemma idx_add_tree n depth pos t ct k e :
  idx_ok n depth pos t ct -> key_fits k -> check_bucket t k = true -> entry_fits k e ->
  exists t', ht_add2 t k e.1.1 e.2 e.1.2 = Ret t' /\ abs t' = <[k := e]> (abs t) /\ idx_ok (n + 1) depth pos t' ct.
Proof.
  intros [] Hk Hb (_ & F1 & F2 & F3). destruct (ht_add2_spec t k e.1.1 e.2 e.1.2 io_tree0 Hk) as (t' & E & Ht' & Hd & Hp & Ha).
  rewrite Hb in Ha. replace (e.1.1, e.1.2, e.2) with e in Ha by by destruct e as [[] ?].
  exists t'. split; [done|]. split; [done|]. constructor; auto; [by rewrite Hd, Hp| |].
  - rewrite Ha, map_size_insert. destruct (abs t !! k); simpl; lia.
  - eapply built_add; [exact io_built0|lia| | | |exact E]; done.
Qed.

Lemma idx_add_curr n depth pos t ct k e :
  idx_ok n depth pos t ct -> key_fits k -> entry_fits k e ->
  exists ct', ht_add2 ct k e.1.1 e.2 e.1.2 = Ret ct' /\ abs ct' = (if check_bucket ct k then <[k := e]> (abs ct) else abs ct) /\ idx_ok (n + 1) depth pos t ct'.
Proof.
  intros [] Hk He. destruct (ht_add2_spec ct k e.1.1 e.2 e.1.2 io_curr0 Hk) as (t' & E & Ht' & Hd & Hp & Ha).
  replace (e.1.1, e.1.2, e.2) with e in Ha by by destruct e as [[] ?].
  exists t'. split; [done|]. split; [done|]. constructor; auto; [by rewrite Hd, Hp| | |by eapply built_le, io_built0; lia]; rewrite Ha; destruct (check_bucket ct k).
  - rewrite map_size_insert. destruct (abs ct !! k); simpl; lia.
  - lia.
  - by apply map_Forall_insert_2.
  - done.
Qed.

Lemma idx_hintable n depth pos t ct : idx_ok n depth pos t ct -> n <= 2000000 -> hintable (abs ct).
Proof. intros [] Hn. split; [done|]. change (2 ^ 29) with 536870912. lia. Qed.
End Index.

(** ** Files and buffers *)
(** A store: (version, flag, value) of every key, deleted ones included. *)
Abbreviation store := (gmap bytes (Z * Z * bytes)).

Section Files.
Context (env : Env) (d : bytes).

Definition data (i : Z) : bytes := path d (File DATA_FILE i).
Definition flen (f : fs) (i : Z) : Z := blen (default [] (fs_read f (data i))).

Record files_ok (f : fs) (b : sizes) (curr : Z) : Prop := {
  fo_plain : plain f;
  fo_fit : sizes_fit b;
  fo_curr : 0 <= curr <= 257;
  fo_known : forall i, 0 <= i < 256 -> is_Some (f !! data i) -> 0 <= bucket b i;
  fo_pos : forall i, 0 <= i < 256 -> 0 < flen f i <-> 0 < bucket b i;
  fo_size : forall i, 0 <= i <= 257 -> flen f i < 2 ^ 32;
  fo_above : forall i, curr < i \/ 256 <= i -> i <= 257 -> f !! data i = None
}.

(** The buffers continue the data files. *)
Definition chained (f : fs) (curr start : Z) (fb : option FBuf) : Prop :=
  match fb with
  | None => flen f curr = start
  | Some fb =>
      0 <= fb_bucket fb < 256 /\ fb_bucket fb <= curr /\ flen f (fb_bucket fb) = fb_start fb /\
      fb_start fb + blen (fb_data fb) < 2 ^ 32 /\
      ((fb_bucket fb = curr /\ start = fb_start fb + blen (fb_data fb)) \/
       (fb_bucket fb < curr /\ flen f curr = 0 /\ start = 0))
  end.

(** The largest write buffer is [2 ^ top] bytes: 128 MB holds any record; with a
    file limit above 3968 MB the buffer must stay below that for its end not to
    pass 4 GB. *)
Definition top : Z := if e_max_bucket_size env <=? 2 ^ 32 - 2 ^ 27 then 27 else 26.
(** No record is longer: it fits the buffer, its key 250 bytes and its value 100 MB. *)
Definition big : Z := Z.min (2 ^ top) 104858112.
Definition size_ok (size : Z) : Prop := exists k, 12 <= k <= top /\ size = 2 ^ k.

(** The write buffer: whole blocks, and the data file stays within its limit. *)
Record buf_ok (wb : WBuf) : Prop := {
  bo_pos : blen (wb_data wb) <= wb_size wb;
  bo_mod : blen (wb_data wb) mod 256 = 0 /\ wb_start wb mod 256 = 0;
  bo_start : 0 <= wb_start wb;
  bo_limit : wb_start wb + wb_size wb <= e_max_bucket_size env \/ wb_start wb = 0
}.

(** The record at offset [pos] of bucket [bkt]. *)
Definition located (f : fs) (curr : Z) (wb : WBuf) (fb : option FBuf) (bkt pos : Z) (r : DataRecord) : Prop :=
  (bkt = curr /\ in_bytes (e_fresh env) (wb_data wb) (pos - wb_start wb) r) \/
  (exists x, fb = Some x /\ bkt = fb_bucket x /\ in_bytes (e_fresh env) (fb_data x) (pos - fb_start x) r) \/
  (exists file, fs_read f (data bkt) = Some file /\ in_bytes (e_fresh env) file pos r).

(** The entries [m] of a tree point to the records of the store. *)
Definition points_to (L : Z -> Z -> DataRecord -> Prop) (k : bytes) (e : entry) (v : Z * Z * bytes) : Prop :=
  e.1.2 = v.1.1 /\ e.2 = (if 0 <? v.1.1 then u16 (gen_hash v.2) else 0) /\ entry_fits k e /\
  exists r, r_key r = k /\ r_flag r = v.1.2 /\ r_value r = v.2 /\
    L (Z.land e.1.1 0xff) (Z.land e.1.1 0xffffff00) r.
Definition points (L : Z -> Z -> DataRecord -> Prop) (m : gmap bytes entry) (M : store) : Prop :=
  forall k, match m !! k, M !! k with
            | Some e, Some v => key_fits k /\ points_to L k e v
            | None, None => True
            | _, _ => False
            end.

Lemma points_mono (L L' : Z -> Z -> DataRecord -> Prop) m M :
  (forall b o r, L b o r -> L' b o r) -> points L m M -> points L' m M.
Proof.
  intros H Hp k. specialize (Hp k). destruct (m !! k) as [e|], (M !! k) as [v|]; auto.
  destruct Hp as (Hk & E1 & E2 & Hf & r & ? & ? & ? & HL). split; [done|]. repeat (split; [done|]). exists r. auto.
Qed.

Lemma points_insert L m M k e v : key_fits k -> points_to L k e v -> points L m M -> points L (<[k := e]> m) (<[k := v]> M).
Proof.
  intros Hk Hp H j. destruct (decide (k = j)) as [<-|].
  - by rewrite !lookup_insert_eq.
  - rewrite !lookup_insert_ne by done. apply H.
Qed.

Lemma fs_read_some f p x : plain f -> fs_read f p = Some x -> is_Some (f !! p).
Proof. intros Hf. rewrite fs_read_plain by done. destruct (f !! p) as [[]|]; naive_solver. Qed.

(** A record is found where the tree says, and only there. *)
Lemma located_range f b curr wb fb bkt pos r :
  files_ok f b curr -> 0 <= wb_start wb -> chained f curr (wb_start wb) fb -> 0 <= bkt < 256 ->
  located f curr wb fb bkt pos r -> bkt <= curr /\ 0 <= pos.
Proof.
  intros Hf Hs Hc Hbk [[-> H]|[(x & -> & -> & H)|(file & E & H)]].
  - apply in_bytes_range in H. lia.
  - apply in_bytes_range in H. simpl in Hc. pose proof (Zle_0_nat (length (default [] (fs_read f (data (fb_bucket x)))))). unfold flen, blen in *. lia.
  - split; [|apply in_bytes_range in H; lia]. destruct (Z.le_gt_cases bkt curr); [done|].
    apply fs_read_some in E; [|apply Hf]. rewrite (fo_above _ _ _ Hf) in E by lia. by destruct E.
Qed.

(** ** Changes that leave the data files alone *)
Definition keeps_data (f f' : fs) : Prop := plain f' /\ forall i, 0 <= i <= 257 -> f' !! data i = f !! data i.

Lemma kept_refl f : plain f -> keeps_data f f.
Proof. done. Qed.
Lemma kept_trans f f1 f2 : keeps_data f f1 -> keeps_data f1 f2 -> keeps_data f f2.
Proof. intros [_ H1] [Hp H2]. split; [done|]. intros i Hi. by rewrite H2, H1. Qed.

Lemma data_ne n i : in_range n -> 0 <= i <= 257 -> n <> File DATA_FILE i -> path d n <> data i.
Proof. intros Hn Hi Hne. by apply path_ne. Qed.

Definition not_data (n : name_id) : Prop := in_range n /\ match n with File DATA_FILE _ => False | _ => True end.
Lemma kept_insert f n x m : plain f -> not_data n -> keeps_data f (<[path d n := Reg x m]> f).
Proof.
  intros Hf [Hr Hn]. split; [by apply plain_insert|]. intros i Hi. apply lookup_insert_ne, data_ne; [done|done|]. by intros ->.
Qed.
Lemma kept_delete f n : plain f -> not_data n -> keeps_data f (delete (path d n) f).
Proof.
  intros Hf [Hr Hn]. split; [by apply plain_delete|]. intros i Hi. apply lookup_delete_ne, data_ne; [done|done|]. by intros ->.
Qed.

Lemma kept_read f f' i : plain f -> keeps_data f f' -> 0 <= i <= 257 -> fs_read f' (data i) = fs_read f (data i).
Proof. intros Hf [Hp H] Hi. apply fs_read_same; auto. Qed.
Lemma kept_flen f f' i : plain f -> keeps_data f f' -> 0 <= i <= 257 -> flen f' i = flen f i.
Proof. intros Hf Hk Hi. unfold flen. by rewrite (kept_read f f'). Qed.

Lemma kept_files f f' b curr : keeps_data f f' -> files_ok f b curr -> files_ok f' b curr.
Proof.
  intros Hk []. pose proof Hk as [Hp H]. constructor; auto.
  - intros i Hi. rewrite H by lia. auto.
  - intros i Hi. rewrite (kept_flen f f') by (done || lia). auto.
  - intros i Hi. rewrite (kept_flen f f') by done. auto.
  - intros i Hi Hi'. rewrite H by lia. auto.
Qed.
Lemma kept_chained f f' curr start fb :
  plain f -> keeps_data f f' -> 0 <= curr <= 257 -> chained f curr start fb -> chained f' curr start fb.
Proof.
  intros Hf Hk Hc. unfold chained. destruct fb as [fb|].
  - intros (H1 & H2 & H3 & H4 & H5). rewrite !(kept_flen f f') by (auto; lia). auto.
  - by rewrite (kept_flen f f').
Qed.
Lemma kept_located f f' curr wb fb b o r :
  plain f -> keeps_data f f' -> 0 <= b <= 257 -> located f curr wb fb b o r -> located f' curr wb fb b o r.
Proof. intros Hf Hk Hb [H|[H|(file & E & H)]]; [by left|by right; left|]. right. right. exists file. by rewrite (kept_read f f'). Qed.

(** Changes of buckets.txt alone. *)
Definition keeps (f f' : fs) : Prop := plain f' /\ same_but [path d Sizes] f f'.
Lemma keeps_same f f' n : keeps f f' -> in_range n -> n <> Sizes -> f' !! path d n = f !! path d n.
Proof. intros [_ H] Hr Hn. apply H. rewrite list_elem_of_singleton. by apply path_ne. Qed.
Lemma keeps_kept f f' : keeps f f' -> keeps_data f f'.
Proof. intros H. split; [apply H|]. intros i Hi. by apply (keeps_same f f' (File DATA_FILE i)). Qed.
Lemma keeps_trans f f1 f2 : keeps f f1 -> keeps f1 f2 -> keeps f f2.
Proof. intros [_ H1] [Hp H2]. split; [done|]. intros q Hq. by rewrite H2, H1. Qed.
Lemma keeps_refl f : plain f -> keeps f f.
Proof. by split. Qed.

Lemma flen_nonneg f i : 0 <= flen f i.
Proof. unfold flen, blen. lia. Qed.

(** [dump_buckets] and the writing of a hint file. *)
Lemma dump_keeps m b f now :
  disks m = [d] -> blen d <= 230 -> sizes_fit b -> plain f ->
  exists f', dump_buckets m b f now = Ret f' /\ keeps f f'.
Proof.
  intros Hm Hd Hb Hf. rewrite (dump_buckets_ok m d); [|by unfold mgr_base; rewrite Hm|done|done|apply Hf].
  eexists. split; [done|]. destruct (recorded b 0 256); (split; [by apply plain_delete || by apply plain_insert|]);
    intros q Hq; rewrite list_elem_of_singleton in Hq; [by apply lookup_delete_ne|by apply lookup_insert_ne].
Qed.

Lemma build_hint_keeps {C} {KC : KeyCodec C} {KL : KeyCodecLaws C} f now (t : HTree C) i :
  (forall n, length (e_fresh env n) = Z.to_nat n /\ bytes_ok (e_fresh env n)) ->
  tree_ok t -> hintable (abs t) -> plain f -> blen d <= 230 -> 0 <= i <= 257 ->
  exists f', build_hint (e_fresh env) f now t (path d (File HINT_FILE i)) = Ret f' /\ keeps_data f f'.
Proof.
  intros Hfresh Ht Hm Hf Hd Hi. destruct (collect_tree_spec t Ht Hm) as (l & Hc & Hnd & Hmap & Hfit & Hkeys).
  destruct (collected_ok t l Hm Hnd Hmap Hfit Hkeys) as [Hb Hl]. unfold build_hint. rewrite Hc. cbn [mbind outcome_bind].
  pose proof (path_length d (File HINT_FILE i) Hi Hd) as Hpl.
  destruct (write_hint_plain (e_fresh env) Hfresh f now (flat_map hint_of l) (path d (File HINT_FILE i)) Hb Hl) as (f' & -> & Hf' & Hsame & _);
    [unfold MAX_PATH_LEN in *; lia|done|].
  assert (Et : path d (File HINT_FILE i) ++ lit ".tmp" = path d (Tmp HINT_FILE i)) by (unfold path, join, name; by rewrite <- !app_assoc).
  exists f'. split; [done|]. split; [done|]. intros j Hj. apply Hsame. rewrite Et, !not_elem_of_cons.
  split; [apply not_eq_sym; by apply path_ne|]. split; [apply not_eq_sym; by apply path_ne|apply not_elem_of_nil].
Qed.
End Files.
