(* ===== verification/BitcaskLog.v ===== *)
(** * The log behind a bitcask

    What a bitcask has written to a bucket, in its data file, the buffer being
    flushed and the write buffer together, is a log.  Replaying the logs of all
    buckets gives the live entries of the tree, and the hint file of a finished
    bucket stands for its log: this is what a restart relies on. *)
From Stdlib Require Import ZArith Lia List.
From stdpp Require Import base numbers list gmap strings.
From S2P Require Import Prelude Hash CText Codec CodecFacts HTree HTreeMap HTreeSpec Disk DiskFacts Hint HintFacts Record RecordFacts Scan ScanFacts Buckets BucketsFacts Bitcask BitcaskInv.

Import Fnv.

(** ** The logs of all buckets *)
Abbreviation log := (list (Z * DataRecord)).

(** The number of buckets. *)
Definition BUCKETS : nat := 256.
Lemma buckets_256 : Z.of_nat BUCKETS = 256.
Proof. reflexivity. Qed.
#[global] Opaque BUCKETS.

(** The logs of the first [n] buckets replayed, one after the other. *)
Fixpoint replays (L : Z -> log) (n : nat) : gmap bytes entry :=
  match n with
  | O => ∅
  | S k => fold_left (replay (Z.of_nat k)) (L (Z.of_nat k)) (replays L k)
  end.

(** An entry [a] of the log and the entry [b] of the tree that it left: setting
    the same value with a higher version changes only the tree. *)
Definition like (a b : entry) : Prop := a.1.1 = b.1.1 /\ a.2 = b.2 /\ 0 < a.1.2 <= b.1.2.
Definition like_all (a b : entry) : Prop := a.1.1 = b.1.1 /\ if 0 <? a.1.2 then like a b else b.1.2 <= 0.

(** The live entries [R] of the log and the tree [m], which remembers deletions. *)
Definition recovers (R m : gmap bytes entry) : Prop :=
  forall k, match R !! k, m !! k with
            | Some a, Some b => like a b
            | None, Some b => b.1.2 < 0
            | None, None => True
            | Some _, None => False
            end.
(** All entries [A] of the log of one bucket and the tree of that bucket. *)
Definition covers (A ct : gmap bytes entry) : Prop := forall k, option_Forall2 like_all (A !! k) (ct !! k).

Definition add_log (L : Z -> log) (c : Z) (x : Z * DataRecord) : Z -> log := fun i => if i =? c then L i ++ [x] else L i.

Lemma replays_ext L L' n : (forall i, 0 <= i < Z.of_nat n -> L i = L' i) -> replays L n = replays L' n.
Proof. induction n as [|n IH]; intros H; cbn [replays]; [done|]. rewrite IH, H by (intros; apply H || idtac; lia). done. Qed.

Lemma replays_above L c n : (c <= n)%nat -> (forall i, Z.of_nat c <= i < Z.of_nat n -> L i = []) -> replays L n = replays L c.
Proof.
  intros Hc. induction n as [|n IH]; intros H; [by replace c with O by lia|]. destruct (decide (c = S n)) as [->|]; [done|].
  cbn [replays]. rewrite H by lia. apply IH; [lia|]. intros i Hi. apply H. lia.
Qed.

(** A record appended to the last log that is not empty. *)
Lemma replays_snoc L c x n :
  0 <= c < Z.of_nat n -> (forall i, c < i < Z.of_nat n -> L i = []) -> replays (add_log L c x) n = replay c (replays L n) x.
Proof.
  intros Hc H. assert (Ha : forall i, i <> c -> add_log L c x i = L i) by (intros i Hi; unfold add_log; by rewrite (proj2 (Z.eqb_neq i c))).
  rewrite (replays_above L (S (Z.to_nat c)) n), (replays_above (add_log L c x) (S (Z.to_nat c)) n) by (lia || (intros i Hi; rewrite ?Ha by lia; apply H; lia)).
  cbn [replays]. rewrite Z2Nat.id by lia. unfold add_log at 1. rewrite Z.eqb_refl, fold_left_app. cbn [fold_left]. do 2 f_equal.
  apply replays_ext. intros i Hi. apply Ha. lia.
Qed.

(** The number of records. *)
Fixpoint total (L : Z -> log) (n : nat) : Z :=
  match n with O => 0 | S k => total L k + Z.of_nat (length (L (Z.of_nat k))) end.

Lemma total_ext L L' n : (forall i, 0 <= i < Z.of_nat n -> L i = L' i) -> total L n = total L' n.
Proof. induction n as [|n IH]; intros H; cbn [total]; [done|]. rewrite IH, H by (intros; apply H || idtac; lia). done. Qed.

Lemma total_add L c x n : 0 <= c < Z.of_nat n -> total (add_log L c x) n = total L n + 1.
Proof.
  intros Hc. assert (Ha : forall i, i <> c -> add_log L c x i = L i) by (intros i Hi; unfold add_log; by rewrite (proj2 (Z.eqb_neq i c))).
  induction n as [|n IH]; [lia|]. cbn [total]. destruct (decide (c = Z.of_nat n)) as [->|Hne].
  - rewrite (total_ext _ L n) by (intros; apply Ha; lia). unfold add_log. rewrite Z.eqb_refl, length_app. cbn [length]. lia.
  - rewrite IH, Ha by lia. lia.
Qed.

Lemma total_nonneg L n : 0 <= total L n.
Proof. induction n as [|n IH]; cbn [total]; lia. Qed.
Lemma total_le L a b : (a <= b)%nat -> total L a <= total L b.
Proof. induction 1; cbn [total]; lia. Qed.
Lemma total_above L c n : (c <= n)%nat -> (forall i, Z.of_nat c <= i < Z.of_nat n -> L i = []) -> total L n = total L c.
Proof.
  intros Hc. induction n as [|n IH]; intros H; [by replace c with O by lia|]. destruct (decide (c = S n)) as [->|]; [done|].
  cbn [total]. rewrite H by lia. cbn [length]. rewrite IH; [lia|lia|]. intros i Hi. apply H. lia.
Qed.
Lemma total_one L n i : 0 <= i < Z.of_nat n -> Z.of_nat (length (L i)) <= total L n.
Proof.
  intros Hi. induction n as [|n IH]; [lia|]. cbn [total]. destruct (decide (i = Z.of_nat n)) as [->|Hne]; [pose proof (total_nonneg L n)|]; lia.
Qed.

(** No more keys than records. *)
Lemma replay_size i l m : (size (fold_left (replay i) l m) <= size m + length l)%nat.
Proof.
  revert m. induction l as [|[p r] l IH]; intros m; cbn [fold_left length]; [lia|]. etransitivity; [apply IH|]. unfold replay.
  destruct (check_key (r_key r)); [|lia]. destruct (0 <? r_version r).
  - rewrite map_size_insert. destruct (m !! r_key r); simpl; lia.
  - rewrite map_size_delete. destruct (m !! r_key r); simpl; lia.
Qed.
Lemma replays_size L n : Z.of_nat (size (replays L n)) <= total L n.
Proof.
  induction n as [|n IH]; cbn [replays total]; [by rewrite map_size_empty|]. pose proof (replay_size (Z.of_nat n) (L (Z.of_nat n)) (replays L n)). lia.
Qed.

(** Where an entry comes from. *)
Lemma replay_origin i l m k a :
  fold_left (replay i) l m !! k = Some a -> m !! k = Some a \/ exists p r, (p, r) ∈ l /\ a = log_entry i p r /\ r_key r = k.
Proof.
  revert m. induction l as [|[p r] l IH]; intros m H; [by left|]. cbn [fold_left] in H.
  destruct (IH _ H) as [H1|(p' & r' & Hin & E)]; [|right; exists p', r'; split; [by apply elem_of_cons; right|done]].
  unfold replay in H1. destruct (check_key (r_key r)); [|by left]. destruct (0 <? r_version r).
  - apply lookup_insert_Some in H1 as [[Ek <-]|[_ H1]]; [|by left]. right. exists p, r. split; [apply elem_of_cons; by left|done].
  - apply lookup_delete_Some in H1 as [_ H1]. by left.
Qed.
Lemma replays_origin L n k a :
  replays L n !! k = Some a -> exists i p r, 0 <= i < Z.of_nat n /\ (p, r) ∈ L i /\ a = log_entry i p r /\ r_key r = k.
Proof.
  induction n as [|n IH]; cbn [replays]; intros H; [by rewrite lookup_empty in H|].
  destruct (replay_origin _ _ _ _ _ H) as [H1|(p & r & Hin & E)].
  - destruct (IH H1) as (i & p & r & Hi & Hr). exists i, p, r. split; [lia|done].
  - exists (Z.of_nat n), p, r. split; [lia|done].
Qed.

(** The position of a logged record names its bucket and its offset. *)
Lemma log_bits i p : 0 <= i < 256 -> p mod 256 = 0 -> 0 <= p < 2 ^ 32 -> Z.land (Z.lor p i) 0xff = i /\ Z.land (Z.lor p i) 0xffffff00 = p.
Proof.
  intros Hi Hm Hp. destruct (pos_bits p i Hp Hm Hi) as (_ & H1 & H2). rewrite u32_id in H1, H2; [done| |];
    rewrite pos_sum by done; change (2 ^ 32) with 4294967296 in *; Z.div_mod_to_equations; lia.
Qed.

Lemma relocate_bucket i p : 0 <= i < 256 -> Z.land (relocate i p) 0xff = i.
Proof.
  intros Hi. unfold relocate. change 0xff with (Z.ones 8). rewrite Z.land_ones by lia. change (2 ^ 8) with 256.
  rewrite Z.add_comm, Z.mul_comm, Z.mod_add by lia. by apply Z.mod_small.
Qed.

(** The snapshot that a session started from: its number, the snapshot files of
    the directory, the hint file beside it, the entries it holds, and how often the
    tree in it was changed. *)
Class Snaps := { sn_last : Z; sn_file : Z -> option inode; sn_hint : option inode; sn_tree : gmap bytes entry; sn_count : Z }.
(** Without a snapshot. *)
#[export] Instance no_snaps : Snaps := {| sn_last := -1; sn_file := fun _ => None; sn_hint := None; sn_tree := ∅; sn_count := 0 |}.

Section Logs.
Context {C : Type} {KC : KeyCodec C} {KL : KeyCodecLaws C} {SN : Snaps}.
Context (env : Env) (d : bytes).

(** ** What was written to a bucket *)
Definition fb_part (fb : option FBuf) (i : Z) : bytes :=
  match fb with Some x => if fb_bucket x =? i then fb_data x else [] | None => [] end.
Definition wb_part (curr : Z) (wb : WBuf) (i : Z) : bytes := if curr =? i then wb_data wb else [].
Definition stream (f : fs) (curr : Z) (wb : WBuf) (fb : option FBuf) (i : Z) : bytes :=
  default [] (fs_read f (data d i)) ++ fb_part fb i ++ wb_part curr wb i.

(** The keys of a bitcask. *)
Definition own (depth pos : Z) (k : bytes) : bool := check_bucket (ht_new (C := C) depth pos false) k.

Definition hint (i : Z) : bytes := path d (File HINT_FILE i).
Definition snap (i : Z) : bytes := path d (File HTREE_FILE i).
(** No item is ahead of the entry of the tree for the same record. *)
Definition not_ahead (i : Z) (m : gmap bytes entry) (its : list Item) : Prop :=
  Forall (fun it => forall e, m !! it_key it = Some e -> e.1.1 = relocate i (it_pos it) -> it_ver it <= e.1.2) its.
(** The hint file of bucket [i], if there is one, stands for the log [l] and is
    not ahead of the tree [m]. *)
Definition hint_ok (depth pos : Z) (f : fs) (i : Z) (l : log) (m : gmap bytes entry) : Prop :=
  is_Some (f !! hint i) ->
  exists its, (forall now, open_hint (e_fresh env) f now (hint i) None = Ret (f, Some (flat_map hint_of its))) /\
    NoDup (List.map it_key its) /\ Forall hint_fits its /\
    Forall (fun it => key_fits (it_key it) /\ check_key (it_key it) = true /\ own depth pos (it_key it) = true) its /\
    covers (fold_left (replay_all i) l ∅) (list_to_map (List.map (fun it => (it_key it, ival it)) its)) /\ not_ahead i m its.

(** The entries of bucket [i] of [m'] are those of [m], perhaps with higher versions. *)
Definition moves_on (i : Z) (m m' : gmap bytes entry) : Prop :=
  forall k e', m' !! k = Some e' -> Z.land e'.1.1 0xff = i -> exists e, m !! k = Some e /\ e.1.1 = e'.1.1 /\ e.1.2 <= e'.1.2.
Lemma not_ahead_on i m m' its : 0 <= i < 256 -> moves_on i m m' -> not_ahead i m its -> not_ahead i m' its.
Proof.
  intros Hi H Hf. eapply Forall_impl; [exact Hf|]. intros it Hit e' He' Hp. destruct (H _ _ He') as (e & He & E1 & E2).
  { rewrite Hp. by apply relocate_bucket. }
  specialize (Hit e He). rewrite E1 in Hit. specialize (Hit Hp). lia.
Qed.
Lemma hint_ok_on depth pos f i l m m' : 0 <= i < 256 -> moves_on i m m' -> hint_ok depth pos f i l m -> hint_ok depth pos f i l m'.
Proof.
  intros Hi Hm H Hs. destruct (H Hs) as (its & H1 & H2 & H3 & H4 & H5 & H6). exists its. repeat (split; [done|]). by eapply not_ahead_on.
Qed.

Lemma hint_ok_same depth pos f f' i l m :
  plain f -> plain f' -> f' !! hint i = f !! hint i -> hint_ok depth pos f i l m -> hint_ok depth pos f' i l m.
Proof.
  intros Hf Hf' E H Hs. rewrite E in Hs. destruct (H Hs) as (its & Ho & Hr). exists its. split; [|done]. intros now.
  specialize (Ho now). unfold open_hint in *. rewrite (fs_read_same f f') by done. destruct (fs_read f (hint i)); [|by injection Ho].
  destruct (hint_buf _ _ _); [|done|done]. cbn [mbind outcome_bind] in *. by injection Ho as ->.
Qed.

(** Only data is flushed: no data file is empty. *)
Definition no_empty (f : fs) (fb : option FBuf) : Prop :=
  (forall i, 0 <= i < 256 -> fs_read f (data d i) <> Some []) /\ forall x, fb = Some x -> fb_data x <> [].

(** ** What the snapshot knows *)
(** A record of [k] was written to one of the buckets after the snapshot, before [j]. *)
Definition touched (j : Z) (L : Z -> log) (k : bytes) : Prop := exists i p r, sn_last < i < j /\ (p, r) ∈ L i /\ r_key r = k.
(** The entry [b] of the snapshot is the entry [e], perhaps with an older version. *)
Definition carried (b e : entry) : Prop := e.1.1 = b.1.1 /\ e.2 = b.2 /\ if 0 <? b.1.2 then b.1.2 <= e.1.2 else e.1.2 = b.1.2.
Definition behind (j : Z) (L : Z -> log) (m : gmap bytes entry) : Prop :=
  forall k b, sn_tree !! k = Some b -> Z.land b.1.1 0xff <= sn_last /\
    match m !! k with
    | Some e => carried b e \/ (sn_last < Z.land e.1.1 0xff /\ touched j L k)
    | None => touched j L k
    end.

Record resumed (n depth pos curr : Z) (f : fs) (m : gmap bytes entry) (L : Z -> log) : Prop := {
  rs_last : sn_last < curr;
  rs_count : 0 <= sn_count <= n - (total L BUCKETS - total L (Z.to_nat (sn_last + 1)));
  rs_file : forall i, 0 <= i <= 257 -> f !! snap i = sn_file i;
  rs_shint : 0 <= sn_last -> f !! hint sn_last = sn_hint;
  rs_old : forall i, 0 <= i <= sn_last -> hint_ok depth pos f i (L i) sn_tree;
  rs_rec : recovers (replays L (Z.to_nat (sn_last + 1))) sn_tree;
  rs_behind : behind 256 L m
}.

Lemma resumed_le n n' depth pos curr curr' f m L : n <= n' -> curr <= curr' -> resumed n depth pos curr f m L -> resumed n' depth pos curr' f m L.
Proof. intros H H' []. constructor; auto; lia. Qed.

Lemma resumed_fs n depth pos curr f f' m L :
  plain f -> plain f' -> sn_last <= 257 -> (forall i, 0 <= i <= 257 -> f' !! snap i = f !! snap i) -> (forall i, 0 <= i <= sn_last -> f' !! hint i = f !! hint i) ->
  resumed n depth pos curr f m L -> resumed n depth pos curr f' m L.
Proof.
  intros Hf Hf' Hl Hs Hh []. constructor; auto.
  - intros i Hi. rewrite Hs by done. auto.
  - intros Hi. rewrite Hh by lia. auto.
  - intros i Hi. apply (hint_ok_same _ _ f); auto.
Qed.

(** ** The invariant *)
Record log_ok (n depth pos : Z) (f : fs) (curr : Z) (wb : WBuf) (fb : option FBuf) (m ct : gmap bytes entry) (L : Z -> log) : Prop := {
  lo_log : forall i, 0 <= i < 256 -> logged (e_fresh env) 0 (L i) (stream f curr wb fb i);
  lo_good : forall i, 0 <= i < 256 -> Forall (fun x => copyable x /\ own depth pos (r_key x.2) = true) (L i);
  lo_rec : recovers (replays L BUCKETS) m;
  lo_cur : 0 <= curr < 256 -> covers (fold_left (replay_all curr) (L curr) ∅) ct;
  lo_point : forall k e, m !! k = Some e -> exists r, (Z.land e.1.1 0xffffff00, r) ∈ L (Z.land e.1.1 0xff) /\ r_key r = k;
  lo_hint : forall i, 0 <= i < curr -> i < 256 -> hint_ok depth pos f i (L i) m;
  lo_full : 2 ^ 27 <= e_max_bucket_size env -> forall i, 0 <= i < curr -> i < 256 -> L i <> [];
  lo_file : no_empty f fb;
  lo_count : total L BUCKETS <= n;
  lo_sub : ct ⊆ m;
  lo_nohint : forall i, curr <= i <= 257 -> f !! hint i = None;
  lo_hinted : forall i, 0 <= i < curr -> i < 256 -> is_Some (f !! hint i);
  lo_resumed : resumed n depth pos curr f m L;
  lo_limit : 2 ^ 27 <= e_max_bucket_size env -> forall i, 0 <= i < 256 -> blen (stream f curr wb fb i) <= e_max_bucket_size env;
  lo_small : forall i, 0 <= i < 256 -> Forall (fun x => record_length x.2 <= big env) (L i)
}.

Lemma log_le n n' depth pos f curr wb fb m ct L : n <= n' -> log_ok n depth pos f curr wb fb m ct L -> log_ok n' depth pos f curr wb fb m ct L.
Proof. intros H []. constructor; auto; [lia|]. by eapply resumed_le. Qed.

(** The hint files and the snapshots. *)
Definition same_index (f f' : fs) : Prop := forall ty i, 0 <= i <= 257 -> ty <> DATA_FILE -> f' !! path d (File ty i) = f !! path d (File ty i).

Lemma log_streams n depth pos f f' curr wb wb' fb fb' m ct L :
  log_ok n depth pos f curr wb fb m ct L -> 0 <= curr <= 257 -> plain f -> plain f' ->
  (forall i, 0 <= i < 256 -> stream f' curr wb' fb' i = stream f curr wb fb i) ->
  same_index f f' -> no_empty f' fb' ->
  log_ok n depth pos f' curr wb' fb' m ct L.
Proof.
  intros [] Hc Hf Hf' Hs Hh He. constructor; auto.
  - intros i Hi. rewrite Hs by done. auto.
  - intros i Hi Hi'. apply (hint_ok_same _ _ f); auto. apply Hh; [lia|done].
  - intros i Hi. unfold hint. rewrite Hh by (done || lia). by apply lo_nohint0.
  - intros i Hi Hi'. unfold hint. rewrite Hh by (done || lia). by apply lo_hinted0.
  - pose proof (rs_last _ _ _ _ _ _ _ lo_resumed0). eapply (resumed_fs _ _ _ _ f); auto; [lia| |]; intros i Hi; apply Hh; done || lia.
  - intros Hmx i Hi. rewrite Hs by done. auto.
Qed.

Lemma logged_nil_inv p l : logged (e_fresh env) p l [] -> l = [].
Proof. intros H. apply logged_length in H. change (blen []) with 0 in H. destruct l; [done|]. simpl in H. lia. Qed.

(** A new bitcask. *)
Lemma fresh_log depth pos f curr : plain f -> (forall ty i, 0 <= i <= 257 -> f !! path d (File ty i) = None) -> curr = 0 ->
  SN = no_snaps -> forall s, log_ok 0 depth pos f curr {| wb_data := []; wb_size := s; wb_start := 0 |} None ∅ ∅ (fun _ => []).
Proof.
  intros Hf Hno -> Hsn s. assert (Hr : forall n, replays (fun _ => []) n = ∅) by (induction n as [|n IH]; [done|by cbn [replays fold_left]]).
  assert (Hd : forall i, 0 <= i < 256 -> f !! data d i = None) by (intros i Hi; apply Hno; lia).
  assert (Ht : forall n, total (fun _ => []) n = 0) by (induction n as [|n IH]; [done|cbn [total]; by rewrite IH]).
  constructor; try (intros; lia).
  - intros i Hi. unfold stream, fb_part, wb_part. rewrite fs_read_plain, Hd by done. cbn [default app wb_data]. destruct (0 =? i); constructor.
  - intros i Hi. constructor.
  - intros k. rewrite Hr, !lookup_empty. done.
  - intros _ k. cbn [fold_left]. rewrite !lookup_empty. constructor.
  - intros k e. rewrite lookup_empty. done.
  - split; [|done]. intros i Hi. by rewrite fs_read_plain, Hd.
  - by rewrite Ht.
  - done.
  - intros i Hi. apply Hno. lia.
  - constructor; rewrite ?Hsn; try (cbn; intros; lia).
    + rewrite !Ht. cbn. lia.
    + cbn [sn_last sn_file no_snaps]. intros i Hi. by apply Hno.
    + cbn [sn_last sn_tree no_snaps]. intros k. by rewrite Hr, lookup_empty.
    + intros k b. rewrite Hsn. cbn [sn_tree no_snaps]. by rewrite lookup_empty.
  - intros Hmx i Hi. unfold stream, fb_part, wb_part. rewrite fs_read_plain, Hd by done. cbn [default app wb_data]. destruct (0 =? i); change (blen []) with 0; lia.
  - intros i Hi. constructor.
Qed.

(** ** Writing a record *)
Lemma replay_all_origin i l m k a :
  fold_left (replay_all i) l m !! k = Some a -> m !! k = Some a \/ exists p r, (p, r) ∈ l /\ a = log_entry i p r /\ r_key r = k.
Proof.
  revert m. induction l as [|[p r] l IH]; intros m H; [by left|]. cbn [fold_left] in H.
  destruct (IH _ H) as [H1|(p' & r' & Hin & E)]; [|right; exists p', r'; split; [by apply elem_of_cons; right|done]].
  unfold replay_all in H1. destruct (check_key (r_key r)); [|by left].
  apply lookup_insert_Some in H1 as [[Ek <-]|[_ H1]]; [|by left]. right. exists p, r. split; [apply elem_of_cons; by left|done].
Qed.
(** A hint file has no more items than its log has records. *)
Lemma hints_fewer i (l : log) its :
  NoDup (List.map it_key its) -> covers (fold_left (replay_all i) l ∅) (list_to_map (List.map (fun it => (it_key it, ival it)) its)) -> (length its <= length l)%nat.
Proof.
  intros Hnd Hc. rewrite <- (length_map it_key its), <- (length_map (fun x => r_key x.2) l). apply NoDup_incl_length; [by apply NoDup_ListNoDup|].
  intros k Hk. apply in_map_iff in Hk as (it & <- & Hin). specialize (Hc (it_key it)). rewrite map_in in Hc by (done || by apply list_elem_of_In).
  inversion Hc as [a b Hl Ea Eb|]. destruct (replay_all_origin _ _ _ _ _ (eq_sym Ea)) as [E|(p & r & Hr & _ & <-)]; [by rewrite lookup_empty in E|].
  apply in_map_iff. exists (p, r). split; [done|]. by apply list_elem_of_In.
Qed.

Definition above_empty (f : fs) (curr : Z) (wb : WBuf) (fb : option FBuf) : Prop :=
  forall j, curr < j < 256 -> stream f curr wb fb j = [].

Lemma log_above n depth pos f curr wb fb m ct L :
  log_ok n depth pos f curr wb fb m ct L -> 0 <= curr -> above_empty f curr wb fb -> forall j, curr < j < 256 -> L j = [].
Proof. intros [] Hc H j Hj. apply (logged_nil_inv 0). rewrite <- (H j Hj). apply lo_log0. lia. Qed.

(** The entry of a record just written. *)
Definition new_entry (curr p : Z) (r : DataRecord) : entry :=
  (Z.lor p curr, r_version r, if 0 <? r_version r then u16 (gen_hash (r_value r)) else 0).

Lemma touched_add j L curr x k : touched j L k -> touched j (add_log L curr x) k.
Proof.
  intros (i & p & r & Hi & Hr & Hk). exists i, p, r. split; [done|]. split; [|done]. unfold add_log. destruct (i =? curr); [|done]. apply elem_of_app. by left.
Qed.

Lemma resumed_append n depth pos curr f m L p r :
  resumed n depth pos curr f m L -> 0 <= curr < 256 -> p mod 256 = 0 -> 0 <= p < 2 ^ 32 ->
  resumed (n + 1) depth pos curr f (<[r_key r := new_entry curr p r]> m) (add_log L curr (p, r)).
Proof.
  intros [] Hc Hm Hp. assert (Ha : forall i, i <> curr -> add_log L curr (p, r) i = L i) by (intros i Hi; unfold add_log; by rewrite (proj2 (Z.eqb_neq i curr))).
  constructor; auto.
  - rewrite total_add by (rewrite buckets_256; lia). rewrite (total_ext (add_log L curr (p, r)) L) by (intros i Hi; apply Ha; lia). lia.
  - intros i Hi. rewrite Ha by lia. auto.
  - rewrite (replays_ext (add_log L curr (p, r)) L) by (intros i Hi; apply Ha; lia). done.
  - intros k b Hb. destruct (rs_behind0 k b Hb) as [H1 H2]. split; [done|]. destruct (decide (r_key r = k)) as [<-|Hne].
    + rewrite lookup_insert_eq. right. unfold new_entry. cbn [fst]. destruct (log_bits curr p Hc Hm Hp) as [-> _]. split; [lia|].
      exists curr, p, r. split; [lia|]. split; [|done]. unfold add_log. rewrite Z.eqb_refl. apply elem_of_app. right. by apply list_elem_of_singleton.
    + rewrite lookup_insert_ne by done. destruct (m !! k); [destruct H2 as [H2|[H2 H3]]; [by left|right; split; [done|]]|]; by apply touched_add.
Qed.

Lemma resumed_bump n depth pos curr f m L k e ver :
  resumed n depth pos curr f m L -> m !! k = Some e -> 0 < e.1.2 <= ver -> resumed n depth pos curr f (<[k := (e.1.1, ver, e.2)]> m) L.
Proof.
  intros [] He Hv. constructor; auto. intros j b Hb. destruct (rs_behind0 j b Hb) as [H1 H2]. split; [done|]. destruct (decide (k = j)) as [<-|Hne].
  - rewrite He in H2. rewrite lookup_insert_eq. destruct H2 as [(E1 & E2 & E3)|H2]; [left|by right]. split; [done|]. split; [done|]. cbn [fst snd]. destruct (0 <? b.1.2) eqn:E; lia.
  - by rewrite lookup_insert_ne.
Qed.

Lemma log_append n depth pos f curr wb wb' fb m ct L r r' :
  log_ok n depth pos f curr wb fb m ct L -> 0 <= curr < 256 -> above_empty f curr wb fb ->
  let p := blen (stream f curr wb fb curr) in
  p < 2 ^ 32 -> (2 ^ 27 <= e_max_bucket_size env -> p + blen (encode_bytes r') <= e_max_bucket_size env) -> stored_as (e_fresh env) r r' -> record_length r' <= record_length r <= big env -> copyable (p, r) -> own depth pos (r_key r) = true -> r_version r <> 0 ->
  wb_data wb' = wb_data wb ++ encode_bytes r' ->
  log_ok (n + 1) depth pos f curr wb' fb (<[r_key r := new_entry curr p r]> m) (<[r_key r := new_entry curr p r]> ct) (add_log L curr (p, r)).
Proof.
  intros Hlog Hc Hab p Hp Hlim Hs Hsm Hcp Hown Hv Hw. pose proof (log_above _ _ _ _ _ _ _ _ _ _ Hlog (proj1 Hc) Hab) as Habove. destruct Hlog. pose proof (blen_nonneg (stream f curr wb fb curr)) as Hp0. fold p in Hp0.
  assert (Hm : p mod 256 = 0) by exact (logged_mod _ 0 _ _ (lo_log0 curr Hc) eq_refl).
  assert (Ha : forall i, i <> curr -> add_log L curr (p, r) i = L i) by (intros i Hi; unfold add_log; by rewrite (proj2 (Z.eqb_neq i curr))).
  assert (Hac : add_log L curr (p, r) curr = L curr ++ [(p, r)]) by (unfold add_log; by rewrite Z.eqb_refl).
  destruct Hcp as [Hck Hnh]. cbn [snd] in Hck, Hnh. constructor.
  - intros i Hi. destruct (decide (i = curr)) as [->|Hne].
    + rewrite Hac. replace (stream f curr wb' fb curr) with (stream f curr wb fb curr ++ (encode_bytes r' ++ [])).
      2: { unfold stream, wb_part. by rewrite Z.eqb_refl, Hw, app_nil_r, <- !app_assoc. }
      apply logged_app; [by apply lo_log0|]. rewrite Z.add_0_l. fold p. constructor; [done|lia|constructor].
    + rewrite Ha by done. replace (stream f curr wb' fb i) with (stream f curr wb fb i); [by apply lo_log0|].
      unfold stream, wb_part. by rewrite (proj2 (Z.eqb_neq curr i)) by done.
  - intros i Hi. destruct (decide (i = curr)) as [->|Hne]; [|rewrite Ha by done; auto]. rewrite Hac. apply Forall_app. split; [auto|].
    constructor; [by split|constructor].
  - rewrite replays_snoc; [|rewrite buckets_256; lia|intros j Hj; rewrite buckets_256 in Hj; apply Habove; lia].
    intros k. specialize (lo_rec0 k). unfold replay. rewrite Hck. destruct (decide (r_key r = k)) as [->|Hne].
    + rewrite lookup_insert_eq. unfold new_entry, log_entry, like. destruct (Z.ltb_spec 0 (r_version r)).
      * rewrite lookup_insert_eq. cbn [fst snd]. split; [done|]. split; [done|lia].
      * rewrite lookup_delete_eq. cbn [fst snd]. lia.
    + rewrite lookup_insert_ne by done. destruct (0 <? r_version r); [rewrite lookup_insert_ne by done|rewrite lookup_delete_ne by done]; done.
  - intros _. rewrite Hac, fold_left_app. cbn [fold_left replay_all]. rewrite Hck. intros k. specialize (lo_cur0 Hc k).
    destruct (decide (r_key r = k)) as [->|Hne]; [|by rewrite !lookup_insert_ne by done]. rewrite !lookup_insert_eq. constructor.
    unfold like_all, like, new_entry, log_entry. cbn [fst snd]. split; [done|]. destruct (Z.ltb_spec 0 (r_version r)); [split; [done|]; split; [done|lia]|lia].
  - intros k e He. apply lookup_insert_Some in He as [[<- <-]|[_ He]].
    + unfold new_entry. cbn [fst snd]. destruct (log_bits curr p) as [-> ->]; [done|done|lia|]. exists r. split; [|done]. rewrite Hac. apply elem_of_app. right. by apply list_elem_of_singleton.
    + destruct (lo_point0 k e He) as (x & Hx & Hk). exists x. split; [|done]. destruct (decide (Z.land e.1.1 0xff = curr)) as [E|E]; [|by rewrite Ha].
      rewrite E, Hac in *. apply elem_of_app. by left.
  - intros i Hi Hi'. rewrite Ha by lia. apply (hint_ok_on _ _ _ _ _ m); auto; [lia|]. intros k e' He' Hb.
    apply lookup_insert_Some in He' as [[<- <-]|[_ He']]; [|eauto with lia]. unfold new_entry in Hb. cbn [fst] in Hb.
    destruct (log_bits curr p) as [Hb' _]; [done|done|lia|]. rewrite Hb' in Hb. lia.
  - intros Hmx i Hi Hi'. rewrite Ha by lia. auto.
  - done.
  - rewrite total_add by (rewrite buckets_256; lia). lia.
  - by apply insert_mono.
  - done.
  - done.
  - by apply resumed_append.
  - intros Hmx i Hi. specialize (Hlim Hmx). destruct (decide (i = curr)) as [->|Hne].
    + unfold p, stream, wb_part in *. rewrite Z.eqb_refl, Hw, !blen_app in *. lia.
    + specialize (lo_limit0 Hmx i Hi). unfold stream, wb_part in *. by rewrite (proj2 (Z.eqb_neq curr i)) in * by done.
  - intros i Hi. destruct (decide (i = curr)) as [->|Hne]; [|rewrite Ha by done; auto]. rewrite Hac. apply Forall_app. split; [auto|]. constructor; [cbn [snd]; lia|constructor].
Qed.

(** ** A new version for the same value *)
(** A live entry is in the log of the bucket it names. *)
Lemma bucket_entry n depth pos f curr wb fb m ct L i k e :
  log_ok n depth pos f curr wb fb m ct L -> 0 <= i < 256 -> (forall j, 0 <= j < 256 -> blen (stream f curr wb fb j) < 2 ^ 32) ->
  m !! k = Some e -> 0 < e.1.2 -> Z.land e.1.1 0xff = i ->
  exists a, fold_left (replay_all i) (L i) ∅ !! k = Some a /\ like a e.
Proof.
  intros [] Hi Hlen He Hv Hb. pose proof (lo_rec0 k) as Hr. rewrite He in Hr. destruct (replays L BUCKETS !! k) as [a|] eqn:Ea; [|lia].
  assert (Hrd : forall j, 0 <= j < 256 -> Forall hint_ready (L j)) by (intros j Hj; eapply (logged_ready _ 0); [by apply lo_log0|lia|done|rewrite Z.add_0_l; auto]).
  exists a. split; [|done]. assert (Hn : Z.of_nat BUCKETS <= 256) by (rewrite buckets_256; lia). revert Hn Ea. generalize BUCKETS as c. intros c. induction c as [|c IH]; intros Hn Ea; cbn [replays] in Ea; [by rewrite lookup_empty in Ea|].
  rewrite replay_agrees in Ea by (auto with lia). destruct (fold_left (replay_all (Z.of_nat c)) (L (Z.of_nat c)) ∅ !! k) as [e1|] eqn:E1; [|apply IH; [lia|done]].
  destruct (replay_all_origin _ _ _ _ _ E1) as [E|(p & r & Hin & -> & _)]; [by rewrite lookup_empty in E|].
  pose proof (proj1 (Forall_forall _ _) (Hrd (Z.of_nat c) ltac:(lia)) _ Hin) as Hx. pose proof (relocated_entry (Z.of_nat c) (p, r) Hx ltac:(lia)) as Hrl. cbn [fst snd] in Hrl. rewrite Hrl in Ea.
  destruct (0 <? r_version r); [|done]. injection Ea as <-. destruct Hr as [Hpos _]. unfold log_entry in Hpos. cbn [fst snd] in Hpos.
  destruct Hx as (Hm & Hp & _). cbn [fst] in Hm, Hp. destruct (log_bits (Z.of_nat c) p) as [Hbits _]; [lia|done|done|]. rewrite Hpos, Hb in Hbits. rewrite Hbits. done.
Qed.

(** The entries of the current tree are of the current bucket. *)
Lemma current_keys n depth pos f curr wb fb m ct L k :
  log_ok n depth pos f curr wb fb m ct L -> 0 <= curr < 256 -> (forall i, 0 <= i < 256 -> blen (stream f curr wb fb i) < 2 ^ 32) ->
  forall e, ct !! k = Some e -> Z.land e.1.1 0xff = curr.
Proof.
  intros [] Hc Hlen e He. specialize (lo_cur0 Hc k). rewrite He in lo_cur0. inversion lo_cur0 as [a b Hl Ea Eb|]; subst b.
  destruct (replay_all_origin _ _ _ _ _ (eq_sym Ea)) as [E|(p & r & Hin & -> & _)]; [by rewrite lookup_empty in E|].
  assert (Hrd : Forall hint_ready (L curr)) by (eapply (logged_ready _ 0); [by apply lo_log0|lia|done|rewrite Z.add_0_l; auto]).
  destruct (proj1 (Forall_forall _ _) Hrd _ Hin) as (Hm & Hp & _). destruct Hl as [Hpos _]. rewrite <- Hpos. unfold log_entry. cbn [fst snd] in *.
  by apply log_bits.
Qed.

Lemma log_bump n depth pos f curr wb fb m ct L k e ver :
  log_ok n depth pos f curr wb fb m ct L -> 0 <= curr < 256 -> above_empty f curr wb fb ->
  (forall i, 0 <= i < 256 -> blen (stream f curr wb fb i) < 2 ^ 32) ->
  m !! k = Some e -> 0 < e.1.2 <= ver ->
  log_ok n depth pos f curr wb fb (<[k := (e.1.1, ver, e.2)]> m) (if Z.land e.1.1 0xff =? curr then <[k := (e.1.1, ver, e.2)]> ct else ct) L.
Proof.
  intros Hlog Hc Hab Hlen He Hv. pose proof (bucket_entry _ _ _ _ _ _ _ _ _ _ curr _ _ Hlog Hc Hlen He ltac:(lia)) as Hcur.
  pose proof (current_keys _ _ _ _ _ _ _ _ _ _ k Hlog Hc Hlen) as Hkeys. destruct Hlog. constructor; auto.
  - intros j. destruct (decide (k = j)) as [<-|Hne]; [|rewrite lookup_insert_ne by done; apply lo_rec0]. specialize (lo_rec0 k). rewrite He in lo_rec0. rewrite lookup_insert_eq.
    destruct (replays L BUCKETS !! k) as [a|]; [|lia]. destruct lo_rec0 as (H1 & H2 & H3). unfold like. cbn [fst snd]. split; [done|]. split; [done|lia].
  - intros Hc'. specialize (lo_cur0 Hc'). destruct (Z.eqb_spec (Z.land e.1.1 0xff) curr) as [E|E]; [|done]. intros j.
    destruct (decide (k = j)) as [<-|Hne]; [|rewrite lookup_insert_ne by done; apply lo_cur0]. destruct (Hcur E) as (a & Ha & H1 & H2 & H3).
    rewrite Ha, lookup_insert_eq. constructor. unfold like_all, like. cbn [fst snd]. split; [done|]. rewrite (proj2 (Z.ltb_lt 0 a.1.2)) by lia. split; [done|]. split; [done|lia].
  - intros j e' Hj. apply lookup_insert_Some in Hj as [[<- <-]|[_ Hj]]; [|auto]. cbn [fst snd]. auto.
  - intros i Hi Hi'. apply (hint_ok_on _ _ _ _ _ m); auto; [lia|]. intros j e' Hj _. apply lookup_insert_Some in Hj as [[<- <-]|[_ Hj]]; [|eauto with lia].
    exists e. cbn [fst snd]. split; [done|]. split; [done|lia].
  - destruct (Z.eqb_spec (Z.land e.1.1 0xff) curr) as [E|E]; [by apply insert_mono|]. apply insert_subseteq_r; [|done].
    destruct (ct !! k) as [e'|] eqn:Ek; [|done]. pose proof (Hkeys e' eq_refl) as Hb. pose proof (lookup_weaken _ _ _ _ Ek lo_sub0) as He'. congruence.
  - by apply resumed_bump.
Qed.

(** ** Finishing a bucket *)
Context (Hfresh : forall n, length (e_fresh env n) = Z.to_nat n /\ bytes_ok (e_fresh env n)).

Lemma build_hint_log depth pos f now (ct : HTree C) i :
  tree_ok ct -> (forall k, is_Some (abs ct !! k) -> own depth pos k = true) -> hintable (abs ct) -> plain f -> blen d <= 230 -> 0 <= i <= 257 ->
  exists f', build_hint (e_fresh env) f now ct (hint i) = Ret f' /\ plain f' /\ same_but [hint i; path d (Tmp HINT_FILE i)] f f' /\ is_Some (f' !! hint i) /\
    forall l m, covers (fold_left (replay_all i) l ∅) (abs ct) -> (forall k e e', abs ct !! k = Some e -> m !! k = Some e' -> e'.1.1 = relocate i e.1.1 -> e.1.2 <= e'.1.2) -> hint_ok depth pos f' i l m.
Proof.
  intros Ht Hown Hm Hf Hd Hi. destruct (collect_tree_spec ct Ht Hm) as (its & Hc & Hnd & Hmap & Hfit & Hkeys).
  destruct (collected_ok ct its Hm Hnd Hmap Hfit Hkeys) as [Hb Hl]. unfold build_hint. rewrite Hc. cbn [mbind outcome_bind].
  pose proof (path_length d (File HINT_FILE i) Hi Hd) as Hpl. fold (hint i) in Hpl.
  destruct (write_hint_plain (e_fresh env) Hfresh f now (flat_map hint_of its) (hint i) Hb Hl) as (f' & -> & Hf' & Hsame & Ho);
    [unfold MAX_PATH_LEN in *; lia|done|].
  assert (Et : hint i ++ lit ".tmp" = path d (Tmp HINT_FILE i)) by (unfold hint, path, join, name; by rewrite <- !app_assoc).
  rewrite Et in Hsame. exists f'. split; [done|]. split; [done|]. split; [done|]. split.
  { specialize (Ho 0). unfold open_hint in Ho. destruct (fs_read f' (hint i)) eqn:Er; [by eapply fs_read_some|done]. }
  intros l m Hcov Hle _. exists its. split; [done|]. split; [done|]. split; [done|].
  assert (Hin : forall x, x ∈ its -> abs ct !! it_key x = Some (ival x)) by (intros x Hx; rewrite <- Hmap; by apply map_in).
  split; [|split; [by rewrite Hmap|]]; apply Forall_forall; intros x Hx.
  - destruct (proj1 (Forall_forall _ _) Hkeys x Hx) as (H1 & H2 & _). split; [done|]. split; [done|]. apply Hown. rewrite Hin by done. eauto.
  - intros e' He' Hp. by apply (Hle _ _ _ (Hin x Hx) He').
Qed.

Lemma log_rotate n depth pos f f' curr wb wb' fb m (ct : HTree C) L :
  log_ok n depth pos f curr wb fb m (abs ct) L -> 0 <= curr <= 256 -> plain f -> plain f' -> wb_data wb = [] -> wb_data wb' = [] -> above_empty f curr wb fb ->
  (forall i, 0 <= i < 256 -> fs_read f' (data d i) = fs_read f (data d i)) ->
  (forall i, 0 <= i <= 257 -> i <> curr -> f' !! hint i = f !! hint i) -> (forall i, 0 <= i <= 257 -> f' !! snap i = f !! snap i) ->
  (forall l, covers (fold_left (replay_all curr) l ∅) (abs ct) -> hint_ok depth pos f' curr l m) ->
  (2 ^ 27 <= e_max_bucket_size env -> curr < 256 -> stream f curr wb fb curr <> []) -> is_Some (f' !! hint curr) ->
  log_ok n depth pos f' (curr + 1) wb' fb m ∅ L.
Proof.
  intros Hlog Hc Hf Hf' Hw Hw' Hab Hdata Hhint Hsnap Hbuilt Hfull Hex. pose proof (log_above _ _ _ _ _ _ _ _ _ _ Hlog (proj1 Hc) Hab) as Habove. destruct Hlog. constructor; auto.
  - intros i Hi. replace (stream f' (curr + 1) wb' fb i) with (stream f curr wb fb i); [auto|].
    unfold stream, wb_part. rewrite Hdata, Hw, Hw' by done. by destruct (curr =? i), (curr + 1 =? i).
  - intros Hc'. rewrite Habove by lia. intros k. cbn [fold_left]. rewrite lookup_empty. constructor.
  - intros i Hi Hi'. destruct (decide (i = curr)) as [->|Hne]; [apply Hbuilt, lo_cur0; lia|]. apply (hint_ok_same _ _ f); auto; [apply Hhint; lia|apply lo_hint0; lia].
  - intros Hmx i Hi Hi'. destruct (decide (i = curr)) as [->|Hne]; [|apply lo_full0; auto; lia]. intros E. apply Hfull; [done|done|].
    specialize (lo_log0 curr ltac:(lia)). rewrite E in lo_log0. by inversion lo_log0.
  - destruct lo_file0 as [H1 H2]. split; [|done]. intros i Hi. rewrite Hdata by done. auto.
  - apply map_empty_subseteq.
  - intros i Hi. rewrite Hhint by lia. apply lo_nohint0. lia.
  - intros i Hi Hi'. destruct (decide (i = curr)) as [->|Hne]; [done|]. rewrite Hhint by lia. apply lo_hinted0; lia.
  - pose proof (rs_last _ _ _ _ _ _ _ lo_resumed0). eapply (resumed_le n _ _ _ curr); [lia|lia|]. eapply (resumed_fs _ _ _ _ f); auto; [lia|]. intros i Hi. apply Hhint; lia.
  - intros Hmx i Hi. specialize (lo_limit0 Hmx i Hi). unfold stream, wb_part in *. rewrite Hdata, Hw' by done. rewrite Hw in lo_limit0. by destruct (curr =? i), (curr + 1 =? i).
Qed.
End Logs.
