(* ===== verification/BitcaskSteps.v ===== *)
(** * The operations of a bitcask preserve its invariant

    Rotation, both halves of a flush and the making of room in the write buffer:
    each returns and keeps the map; the offsets do not wrap around. *)
From Stdlib Require Import ZArith Lia List.
From stdpp Require Import base numbers list gmap strings.
From S2P Require Import Prelude Hash CText Codec CodecFacts HTree HTreeMap HTreeSpec Disk DiskFacts Hint HintFacts Record RecordFacts Scan ScanFacts Buckets BucketsFacts Bitcask BitcaskInv BitcaskLog.

Import Fnv.

(** Compute the fields of an updated bitcask. *)
Ltac bc_simpl :=
  cbn [set_tree set_trees set_updating set_wb set_fb set_fs set_files set_bytes set_snapshot set_curr set_flush_time set_optimize set_rotated
       bc_depth bc_pos bc_before bc_mgr bc_tree bc_updating bc_curr_tree bc_last_snapshot bc_curr bc_bytes bc_curr_bytes bc_wb bc_fb
       bc_last_flush_time bc_optimize_flag bc_buckets bc_fs wb_data wb_size wb_start fb_data fb_start fb_bucket].

(** The numbers of operations and versions the theorems are about. *)
Definition MAX_OPS : Z := 2000000.

Section Steps.
Context {C : Type} {KC : KeyCodec C} {KL : KeyCodecLaws C} {SN : Snaps}.
Context (env : Env) (d : bytes).
Implicit Types (bc : Bitcask C) (M : store).

(** The invariant but for the limits of the write buffer. *)
Record core (n : Z) bc M : Prop := {
  co_mgr : disks (bc_mgr bc) = [d];
  co_up : up_bucket (bc_updating bc) = u32 (-1);
  co_idx : idx_ok n (bc_depth bc) (bc_pos bc) (bc_tree bc) (bc_curr_tree bc);
  co_files : files_ok d (bc_fs bc) (bc_buckets bc) (bc_curr bc);
  co_size : size_ok env (wb_size (bc_wb bc));
  co_chained : chained d (bc_fs bc) (bc_curr bc) (wb_start (bc_wb bc)) (bc_fb bc);
  co_points : points (located env d (bc_fs bc) (bc_curr bc) (bc_wb bc) (bc_fb bc)) (abs (bc_tree bc)) M;
  co_log : exists L, log_ok (C := C) env d n (bc_depth bc) (bc_pos bc) (bc_fs bc) (bc_curr bc) (bc_wb bc) (bc_fb bc)
             (abs (bc_tree bc)) (abs (bc_curr_tree bc)) L;
  co_idle : bc_optimize_flag bc = 0 /\ bc_last_snapshot bc = sn_last;
  co_bytes : bc_curr_bytes bc = wb_start (bc_wb bc)
}.
Definition inv (n : Z) bc M : Prop := core n bc M /\ buf_ok env (bc_wb bc).

Context (Hfresh : forall n, length (e_fresh env n) = Z.to_nat n /\ bytes_ok (e_fresh env n)).
Context (Hd : blen d <= 230).
Context (Hmax : 0 <= e_max_bucket_size env <= 2 ^ 32 - 2 ^ 26).

Lemma land_ff p : 0 <= Z.land p 0xff < 256.
Proof. change 0xff with (Z.ones 8). rewrite Z.land_ones by lia. apply Z.mod_pos_bound. lia. Qed.

Lemma points_located n bc M (L : Z -> Z -> DataRecord -> Prop) :
  core n bc M -> (forall b o r, 0 <= b < 256 -> located env d (bc_fs bc) (bc_curr bc) (bc_wb bc) (bc_fb bc) b o r -> L b o r) ->
  points L (abs (bc_tree bc)) M.
Proof.
  intros Hc H k. pose proof (co_points n bc M Hc k) as Hp. destruct (abs (bc_tree bc) !! k), (M !! k); auto.
  destruct Hp as (Hk & E1 & E2 & Hf & r & ? & ? & ? & HL). split; [done|]. repeat (split; [done|]). exists r.
  repeat (split; [done|]). apply H; [apply land_ff|done].
Qed.

(** The stream of the current bucket ends where the write buffer ends; nothing is
    above it. *)
Definition bc_stream bc (i : Z) : bytes := stream d (bc_fs bc) (bc_curr bc) (bc_wb bc) (bc_fb bc) i.

Lemma stream_above n bc M : core n bc M -> above_empty d (bc_fs bc) (bc_curr bc) (bc_wb bc) (bc_fb bc).
Proof.
  intros [_ _ _ Hf _ Hch _ _ _ _] j Hj. unfold stream, fb_part, wb_part. rewrite fs_read_plain by apply Hf. rewrite (fo_above _ _ _ _ Hf) by lia.
  rewrite (proj2 (Z.eqb_neq (bc_curr bc) j)) by lia. rewrite app_nil_r. cbn [default app]. destruct (bc_fb bc) as [fb|]; [|done].
  destruct Hch as (_ & H2 & _). by rewrite (proj2 (Z.eqb_neq (fb_bucket fb) j)) by lia.
Qed.

Lemma stream_end n bc M : core n bc M -> blen (bc_stream bc (bc_curr bc)) = wb_start (bc_wb bc) + blen (wb_data (bc_wb bc)).
Proof.
  intros [_ _ _ Hf _ Hch _ _ _ _]. unfold bc_stream, stream, fb_part, wb_part. rewrite Z.eqb_refl, !blen_app. fold (flen d (bc_fs bc) (bc_curr bc)).
  destruct (bc_fb bc) as [fb|]; cbn [chained] in Hch; [|change (blen []) with 0; lia]. destruct Hch as (_ & _ & H3 & _ & [[E E']|(E & E' & E'')]).
  - rewrite E, Z.eqb_refl. rewrite <- E, H3. lia.
  - rewrite (proj2 (Z.eqb_neq _ _)) by lia. change (blen []) with 0. lia.
Qed.

Lemma path_of_ok bc ty i : disks (bc_mgr bc) = [d] -> 0 <= i <= 257 -> path_of bc ty i = Ret (path d (File ty i)).
Proof.
  intros Hm Hi. unfold path_of, base, mgr_base. rewrite Hm. change (fetch [d] 0) with (Ret d). cbn [mbind outcome_bind]. by apply gen_path_ok.
Qed.

Lemma dump_ok bc now :
  disks (bc_mgr bc) = [d] -> sizes_fit (bc_buckets bc) -> plain (bc_fs bc) ->
  exists f', dump bc now = Ret (set_fs bc f') /\ keeps d (bc_fs bc) f'.
Proof.
  intros Hm Hb Hf. unfold dump. destruct (dump_keeps d (bc_mgr bc) (bc_buckets bc) (bc_fs bc) now) as (f' & -> & Hk); auto.
  exists f'. done.
Qed.

Lemma sizes_fit_insert b i x : sizes_fit b -> -1 <= x < 2 ^ 63 -> sizes_fit (<[i := x]> b).
Proof.
  intros Hb Hx j Hj. unfold bucket. destruct (decide (i = j)) as [<-|]; [by rewrite lookup_insert_eq|].
  rewrite lookup_insert_ne by done. by apply Hb.
Qed.
Lemma bucket_insert b i x j : bucket (<[i := x]> b) j = if decide (i = j) then x else bucket b j.
Proof. unfold bucket. case_decide; subst; [by rewrite lookup_insert_eq|by rewrite lookup_insert_ne]. Qed.

(** Recording the size of a data file. *)
Lemma files_record f b curr i :
  files_ok d f b curr -> 0 <= i <= 257 -> files_ok d f (<[i := flen d f i]> b) curr.
Proof.
  intros [] Hi. pose proof (flen_nonneg d f i). specialize (fo_size i Hi) as Hs. constructor; auto.
  - apply sizes_fit_insert; [done|]. split; [lia|]. change (2 ^ 32) with 4294967296 in Hs. change (2 ^ 63) with 9223372036854775808. lia.
  - intros j Hj Hf. rewrite bucket_insert. case_decide; [subst; lia|auto].
  - intros j Hj. rewrite bucket_insert. case_decide; [by subst|auto].
Qed.

Lemma stat_flen f i x m : plain f -> stat_reg f (data d i) = Some (x, m) -> blen x = flen d f i.
Proof. intros Hf E. unfold flen, fs_read. by rewrite E. Qed.

Lemma flen_none f i : plain f -> f !! data d i = None -> flen d f i = 0.
Proof. intros Hf E. unfold flen. by rewrite fs_read_plain, E. Qed.

Lemma in_bytes_nil off r : ~ in_bytes (e_fresh env) [] off r.
Proof. intros H. apply in_bytes_range in H. unfold blen in H. simpl in H. lia. Qed.

Lemma rotated_core n bc M f b :
  core n bc M -> wb_data (bc_wb bc) = [] -> bc_curr bc <= 256 -> keeps_data d (bc_fs bc) f -> files_ok d f b (bc_curr bc) ->
  (forall i, 0 <= i <= 257 -> i <> bc_curr bc -> f !! hint d i = bc_fs bc !! hint d i) -> (forall i, 0 <= i <= 257 -> f !! snap d i = bc_fs bc !! snap d i) ->
  (forall l, covers (fold_left (replay_all (bc_curr bc)) l ∅) (abs (bc_curr_tree bc)) ->
     hint_ok (C := C) env d (bc_depth bc) (bc_pos bc) f (bc_curr bc) l (abs (bc_tree bc))) ->
  (2 ^ 27 <= e_max_bucket_size env -> bc_stream bc (bc_curr bc) <> []) -> is_Some (f !! hint d (bc_curr bc)) ->
  core n (set_rotated (set_files bc b f) (ht_new (bc_depth bc) (bc_pos bc) true) (bc_curr bc + 1) 0
            {| wb_data := wb_data (bc_wb bc); wb_size := wb_size (bc_wb bc); wb_start := 0 |} b f) M.
Proof.
  intros Hc Hw Hcu K Hf Hh Hsn Hb Hfull Hex. pose proof Hc as [Hm Hu Hi Hf0 Hs Hch Hp [L HL] Hidle Hby]. pose proof Hf as [Hpl Hfit Hcurr Hk Hpos Hsz Hab].
  assert (H0 : flen d f (bc_curr bc + 1) = 0) by (apply flen_none; [done|apply Hab; lia]).
  constructor; bc_simpl; auto.
  - by eapply idx_new.
  - constructor; auto; [lia|]. intros i Hi1 Hi2. apply Hab; lia.
  - apply (kept_chained d _ f) in Hch; [|apply Hf0|done|lia]. destruct (bc_fb bc) as [fb|]; cbn [chained] in *; [|done].
    destruct Hch as (H1 & H2 & H3 & H4 & H5). split; [done|]. split; [lia|]. split; [done|]. split; [done|]. right. split; [lia|done].
  - apply (points_located n bc); [done|]. intros bk o r Hbk HR.
    apply (kept_located env d _ f) in HR; [|apply Hf0|done|lia]. destruct HR as [[_ HR]|HR]; [|by right].
    rewrite Hw in HR. by apply in_bytes_nil in HR.
  - exists L. destruct (tree_new_ok (C := C) (bc_depth bc) (bc_pos bc) true (io_depth _ _ _ _ _ Hi)) as [_ ->].
    eapply (log_rotate env d _ _ _ (bc_fs bc) f (bc_curr bc) (bc_wb bc)); [exact HL|lia|apply Hf0|done|done|done|by eapply stream_above| |done|done|done|auto|done].
    intros i Hi'. apply (kept_read d); [apply Hf0|done|lia].
Qed.

(** [bc_rotate] with an empty write buffer. *)
Lemma rotate_spec n bc M now :
  core n bc M -> n <= MAX_OPS -> wb_data (bc_wb bc) = [] -> bc_curr bc <= 256 ->
  (2 ^ 27 <= e_max_bucket_size env -> 0 < wb_start (bc_wb bc)) ->
  exists bc', bc_rotate env bc now = Ret bc' /\ inv n bc' M /\ bc_curr bc' = bc_curr bc + 1 /\ bc_fb bc' = bc_fb bc /\
    bc_wb bc' = {| wb_data := []; wb_size := wb_size (bc_wb bc); wb_start := 0 |} /\
    bc_tree bc' = bc_tree bc /\ bc_depth bc' = bc_depth bc /\ bc_pos bc' = bc_pos bc.
Proof.
  intros Hc Hn Hw Hcu Hfull. pose proof Hc as [Hm Hu Hi Hf Hs Hch Hp [L0 HL0] _ _]. pose proof Hf as [Hpl Hfit Hcurr Hk Hpos Hsz Hab].
  unfold bc_rotate. destruct (new_path_plain (e_disk env) (bc_mgr bc) (bc_fs bc) d HINT_FILE (bc_curr bc)) as [_ ->]; [done|done|lia|done|].
  cbn [mbind outcome_bind]. fold (hint d (bc_curr bc)). set (f1 := delete (hint d (bc_curr bc)) (bc_fs bc)).
  destruct (io_cfg' _ _ _ _ _ Hi) as [Hcd Hcp].
  destruct (build_hint_log env d Hfresh (bc_depth bc) (bc_pos bc) f1 now (bc_curr_tree bc) (bc_curr bc)) as (f2 & -> & Hf2 & Hs2 & Hex2 & Hb2);
    [apply Hi| |by eapply idx_hintable|by apply plain_delete|done|lia|].
  { intros k [e He]. unfold own. rewrite (check_bucket_cfg (bc_curr_tree bc)) by done.
    destruct (check_bucket (bc_curr_tree bc) k) eqn:E; [done|]. by rewrite (abs_own _ _ (io_curr _ _ _ _ _ Hi) E) in He. }
  cbn [mbind outcome_bind]. rewrite path_of_ok by (done || lia). cbn [mbind outcome_bind].
  assert (Hsame : forall m, in_range m -> m <> File HINT_FILE (bc_curr bc) -> m <> Tmp HINT_FILE (bc_curr bc) -> f2 !! path d m = bc_fs bc !! path d m).
  { intros m Hr H1 H2. unfold hint in *. rewrite Hs2 by (rewrite !not_elem_of_cons; split; [by apply path_ne|]; split; [by apply path_ne|apply not_elem_of_nil]).
    apply lookup_delete_ne, path_ne; simpl; auto. }
  assert (K : keeps_data d (bc_fs bc) f2) by (split; [done|]; intros i Hi'; by apply (Hsame (File DATA_FILE i))).
  assert (Hst : exists bc3 f3, match stat_reg f2 (data d (bc_curr bc)) with
      | Some (x, _) => dump (set_files bc (<[bc_curr bc := blen x]> (bc_buckets bc)) f2) now
      | None => Ret (set_fs bc f2) end = Ret (set_files bc (bc_buckets bc3) f3) /\ keeps d f2 f3 /\
      files_ok d f3 (bc_buckets bc3) (bc_curr bc)).
  { assert (Hf2' : files_ok d f2 (bc_buckets bc) (bc_curr bc)) by by eapply kept_files.
    destruct (stat_reg f2 (data d (bc_curr bc))) as [[x m]|] eqn:E; [|exists bc, f2; split; [done|]; split; [by apply keeps_refl|done]].
    rewrite (stat_flen f2 _ x m) by done. pose proof (files_record f2 (bc_buckets bc) (bc_curr bc) (bc_curr bc) Hf2' ltac:(lia)) as Hf3.
    destruct (dump_ok (set_files bc (<[bc_curr bc := flen d f2 (bc_curr bc)]> (bc_buckets bc)) f2) now) as (f3 & -> & K3); [done|apply Hf3|done|].
    exists (set_files bc (<[bc_curr bc := flen d f2 (bc_curr bc)]> (bc_buckets bc)) f2), f3. split; [done|]. split; [done|]. eapply kept_files; [by apply keeps_kept|done]. }
  fold (data d (bc_curr bc)). destruct Hst as (bc3 & f3 & -> & K3 & Hf3). cbn [mbind outcome_bind]. eexists. split; [done|]. bc_simpl.
  split; [|rewrite Hw; done]. split.
  - apply (rotated_core n bc); auto.
    + eapply kept_trans; [exact K|by apply keeps_kept].
    + intros i H1 H2. unfold hint. rewrite (keeps_same d f2 f3) by (done || simpl; lia). apply Hsame; [simpl; lia|intros [= E]; lia|done].
    + intros i H1. unfold snap. rewrite (keeps_same d f2 f3) by (done || simpl; lia). apply Hsame; [simpl; lia|done|done].
    + intros l Hl. apply (hint_ok_same env d _ _ f2); auto; [apply K3| |apply Hb2; [done|]].
      2: { intros k e e' He He' _. rewrite (lookup_weaken _ _ _ _ He (lo_sub _ _ _ _ _ _ _ _ _ _ _ _ HL0)) in He'. by injection He' as <-. } apply (keeps_same d); [done|simpl; lia|done].
    + intros Hmx E. specialize (Hfull Hmx). pose proof (stream_end n bc M Hc) as He. rewrite E, Hw in He. change (blen []) with 0 in He. lia.
    + unfold hint. rewrite (keeps_same d f2 f3) by (done || simpl; lia). done.
  - rewrite Hw. destruct Hs as (k & ? & ->). constructor; cbn [wb_data wb_size wb_start]; [apply Z.pow_nonneg; lia|done|done|by right].
Qed.
(** ** Flushing *)
Lemma top_range : 2 ^ 26 <= 2 ^ top env <= 2 ^ 27 /\ 26 <= top env <= 27 /\ e_max_bucket_size env + 2 ^ top env <= 2 ^ 32.
Proof. unfold top. destruct (Z.leb_spec (e_max_bucket_size env) (2 ^ 32 - 2 ^ 27)); lia. Qed.

Lemma size_ok_range s : size_ok env s -> 4096 <= s <= 2 ^ top env.
Proof.
  intros (k & Hk & ->). change 4096 with (2 ^ 12). split; apply Z.pow_le_mono_r; lia.
Qed.

Lemma next_size_ok s : size_ok env s -> size_ok env (next_wbuf_size s) /\ next_wbuf_size s <= 2 ^ 22.
Proof.
  pose proof top_range as (_ & T2 & _). intros (k & Hk & ->). unfold next_wbuf_size, WRITE_BUFFER_SIZE. change (2 * 2 ^ 20) with (2 ^ 21). change (2 ^ 21 * 2) with (2 ^ 22).
  destruct (Z.ltb_spec (2 ^ k) (2 ^ 21)) as [Hlt|Hge].
  - apply Z.pow_lt_mono_r_iff in Hlt; [|lia|lia]. replace (2 ^ k * 2) with (2 ^ (k + 1)) by (rewrite Z.pow_add_r; lia).
    assert (2 ^ (k + 1) <= 2 ^ 22) by (apply Z.pow_le_mono_r; lia). assert (0 < 2 ^ (k + 1)) by (apply Z.pow_pos_nonneg; lia).
    rewrite u32_id by (change (2 ^ 32) with (2 ^ 22 * 1024); lia). split; [exists (k + 1); split; [lia|done]|done].
  - apply Z.pow_le_mono_r_iff in Hge; [|lia|lia]. destruct (Z.ltb_spec (2 ^ 22) (2 ^ k)) as [Hlt|Hle].
    + split; [exists 21; split; [lia|done]|]. by vm_compute.
    + split; [exists k; split; [lia|done]|done].
Qed.

(** The offsets do not wrap around at 32 bits. *)
Lemma wb_bounds wb :
  buf_ok env wb -> size_ok env (wb_size wb) ->
  0 <= wb_start wb < 2 ^ 32 - 2 ^ top env /\ wb_start wb + wb_size wb <= 2 ^ 32 - 2 ^ top env /\ 0 <= blen (wb_data wb) <= wb_size wb /\
  4096 <= wb_size wb <= 2 ^ top env /\ 2 ^ 26 <= 2 ^ top env <= 2 ^ 27.
Proof.
  intros [] Hs. apply size_ok_range in Hs. pose proof top_range as (T1 & T2 & T3). unfold blen in *. lia.
Qed.

Lemma rotate_exact start size max : 0 <= start + size < 2 ^ 32 -> needs_rotate start size max = (max <? start + size).
Proof. intros H. unfold needs_rotate. by rewrite u32_id. Qed.

(** The state after the write buffer has been moved aside, before a rotation. *)
Definition drained bc : Bitcask C :=
  let wb := bc_wb bc in
  set_wb (set_bytes (set_fb bc (Some {| fb_data := wb_data wb; fb_start := wb_start wb; fb_bucket := bc_curr bc |}))
            (u64 (bc_bytes bc + wb_pos bc)) (u64 (bc_curr_bytes bc + wb_pos bc)))
    {| wb_data := []; wb_size := next_wbuf_size (wb_size wb); wb_start := u32 (wb_start wb + wb_pos bc) |}.

Lemma drained_core n bc M :
  inv n bc M -> bc_fb bc = None -> bc_curr bc <= 255 -> wb_data (bc_wb bc) <> [] ->
  core n (drained bc) M /\ wb_start (bc_wb (drained bc)) = wb_start (bc_wb bc) + wb_pos bc.
Proof.
  intros [Hc Hb] Hfb Hcu Hwne. pose proof Hc as [Hm Hu Hi Hf Hs Hch Hp [L HL] Hidle Hby]. pose proof (wb_bounds _ Hb Hs) as (B1 & B2 & B3 & B4).
  fold (wb_pos bc) in B3. assert (Hst : u32 (wb_start (bc_wb bc) + wb_pos bc) = wb_start (bc_wb bc) + wb_pos bc).
  { apply u32_id. change (2 ^ 32) with 4294967296 in *. change (2 ^ 27) with 134217728 in *. lia. }
  rewrite Hfb in Hch. cbn [chained] in Hch. destruct (next_size_ok _ Hs) as [Hns _].
  split; [|exact Hst]. constructor; unfold drained; bc_simpl; auto.
  - cbn [chained fb_bucket fb_start fb_data]. pose proof (fo_curr _ _ _ _ Hf). split; [lia|]. split; [lia|]. split; [done|].
    fold (wb_pos bc). split; [|left; by rewrite Hst]. change (2 ^ 32) with 4294967296 in *. change (2 ^ 27) with 134217728 in *. lia.
  - apply (points_located n bc); [done|]. intros bk o r Hbk [[-> HR]|[(x & E & _)|HR]].
    + right. left. eexists. split; [done|]. split; [done|]. done.
    + congruence.
    + right. by right.
  - exists L. eapply log_streams; [exact HL|apply Hf|apply Hf|apply Hf| |done|split; [apply HL|by intros x [= <-]]]. intros i _. unfold stream, fb_part, wb_part. rewrite Hfb. cbn [fb_bucket fb_data wb_data app].
    by destruct (bc_curr bc =? i); rewrite ?app_nil_r.
  - rewrite Hby, Hst. apply Z.mod_small. change (2 ^ 32) with 4294967296 in *. change (2 ^ 64) with 18446744073709551616. change (2 ^ 27) with 134217728 in *. lia.
Qed.

Lemma flush_begin_eq bc now :
  flush_begin env bc now =
  if needs_rotate (u32 (wb_start (bc_wb bc) + wb_pos bc)) (next_wbuf_size (wb_size (bc_wb bc))) (e_max_bucket_size env)
  then bc_rotate env (drained bc) now else Ret (drained bc).
Proof. reflexivity. Qed.

Lemma flush_begin_spec n bc M now :
  inv n bc M -> n <= MAX_OPS -> bc_fb bc = None -> bc_curr bc <= 255 -> wb_data (bc_wb bc) <> [] ->
  exists bc', flush_begin env bc now = Ret bc' /\ inv n bc' M /\ wb_data (bc_wb bc') = [] /\ is_Some (bc_fb bc') /\
    bc_curr bc <= bc_curr bc' <= bc_curr bc + 1 /\ abs (bc_tree bc') = abs (bc_tree bc) /\
    bc_depth bc' = bc_depth bc /\ bc_pos bc' = bc_pos bc.
Proof.
  intros Hinv Hn Hfb Hcu Hwne. destruct (drained_core n bc M Hinv Hfb Hcu Hwne) as [Hc Hst]. rewrite flush_begin_eq.
  pose proof Hinv as [Hc0 Hb]. pose proof (wb_bounds _ Hb (co_size _ _ _ Hc0)) as (B1 & B2 & B3 & B4). fold (wb_pos bc) in B3.
  destruct (next_size_ok _ (co_size _ _ _ Hc0)) as [Hns Hle]. pose proof (size_ok_range _ Hns) as Hsr.
  assert (Hu : u32 (wb_start (bc_wb bc) + wb_pos bc) = wb_start (bc_wb bc) + wb_pos bc) by exact Hst.
  rewrite Hu, rotate_exact by (change (2 ^ 32) with 4294967296 in *; change (2 ^ 27) with 134217728 in *; change (2 ^ 22) with 4194304 in *; lia).
  destruct (Z.ltb_spec (e_max_bucket_size env) (wb_start (bc_wb bc) + wb_pos bc + next_wbuf_size (wb_size (bc_wb bc)))).
  - destruct (rotate_spec n (drained bc) M now Hc Hn) as (bc' & E & Hi' & H1 & H2 & H3 & H4 & H5 & H6);
      [done|cbn; lia|cbn; rewrite Hu; change (2 ^ 22) with 4194304 in *; change (2 ^ 27) with 134217728; lia|].
    rewrite E. exists bc'. split; [done|]. split; [done|]. rewrite H2, H3, H4, H5, H6, H1. cbn. split; [done|]. split; [by eexists|]. split; [lia|done].
  - exists (drained bc). split; [done|]. split; [split; [done|]|].
    + cbn. rewrite Hu. constructor; cbn [wb_data wb_size wb_start]; [unfold blen; simpl; lia| |lia|lia].
      split; [done|]. destruct Hb as [_ [Hm1 Hm2] _ _]. fold (wb_pos bc) in Hm1. rewrite Z.add_mod, Hm1, Hm2 by lia. done.
    + cbn. split; [done|]. split; [by eexists|]. split; [lia|done].
Qed.
Lemma set_files_id bc : set_files bc (bc_buckets bc) (bc_fs bc) = bc.
Proof. by destruct bc. Qed.

(** [new_data]: the path of a data file, created in the records if it is new. *)
Lemma new_data_spec bc i now :
  disks (bc_mgr bc) = [d] -> files_ok d (bc_fs bc) (bc_buckets bc) (bc_curr bc) -> 0 <= i < 256 ->
  exists b f, new_data env bc i now = Ret (set_files bc b f, data d i) /\ keeps d (bc_fs bc) f /\ files_ok d f b (bc_curr bc).
Proof.
  intros Hm Hf Hi. unfold new_data. rewrite path_of_ok by (done || lia). cbn [mbind outcome_bind]. fold (data d i).
  destruct (Z.leb_spec 0 (bucket (bc_buckets bc) i)) as [Hb|Hb].
  { exists (bc_buckets bc), (bc_fs bc). rewrite set_files_id. split; [done|]. split; [apply keeps_refl, Hf|done]. }
  assert (Hno : bc_fs bc !! data d i = None).
  { destruct (bc_fs bc !! data d i) eqn:E; [|done]. pose proof (fo_known _ _ _ _ Hf i Hi (ex_intro _ _ E)). lia. }
  rewrite file_exists_plain, bool_decide_false by (apply Hf || by rewrite Hno; intros []). 
  assert (Hf0 : files_ok d (bc_fs bc) (<[i := 0]> (bc_buckets bc)) (bc_curr bc)).
  { rewrite <- (flen_none (bc_fs bc) i) by (done || apply Hf). apply files_record; [done|lia]. }
  destruct (dump_ok (set_files bc (<[i := 0]> (bc_buckets bc)) (bc_fs bc)) now) as (f1 & -> & K1); [done|apply Hf0|apply Hf|].
  cbn [mbind outcome_bind set_fs set_files bc_mgr bc_fs] in *.
  destruct (new_path_plain (e_disk env) (bc_mgr bc) f1 d DATA_FILE i) as [-> _]; [done|apply K1|lia|done|].
  cbn [mbind outcome_bind]. exists (<[i := 0]> (bc_buckets bc)), f1. split; [done|]. split; [done|]. eapply kept_files; [by apply keeps_kept|done].
Qed.

(** Appending to a data file. *)
Definition appended (f : fs) (i : Z) (x : bytes) (now : Z) : fs :=
  <[data d i := Reg (default [] (fs_read f (data d i)) ++ x) now]> f.

Lemma appended_read f i x now j :
  plain f -> 0 <= i <= 257 -> 0 <= j <= 257 ->
  fs_read (appended f i x now) (data d j) =
  if decide (i = j) then Some (default [] (fs_read f (data d i)) ++ x) else fs_read f (data d j).
Proof.
  intros Hf Hi Hj. unfold appended. case_decide as E; [subst j|].
  - apply (stored_read _ _ _ now). left. apply lookup_insert_eq.
  - apply fs_read_same; [done|by apply plain_insert|]. apply lookup_insert_ne, path_ne; [done..|]. by intros [= ->].
Qed.

Lemma appended_flen f i x now j :
  plain f -> 0 <= i <= 257 -> 0 <= j <= 257 ->
  flen d (appended f i x now) j = flen d f j + (if decide (i = j) then blen x else 0).
Proof.
  intros Hf Hi Hj. unfold flen. rewrite appended_read by done. case_decide; [subst j; simpl; apply blen_app|lia].
Qed.

Lemma appended_files f b curr i x now :
  files_ok d f b curr -> 0 <= i < 256 -> i <= curr -> flen d f i + blen x < 2 ^ 32 ->
  files_ok d (appended f i x now) (<[i := flen d f i + blen x]> b) curr.
Proof.
  intros [] Hi Hc Hsz. pose proof (flen_nonneg d f i). pose proof (blen_nonneg x). constructor; auto.
  - by apply plain_insert.
  - apply sizes_fit_insert; [done|]. change (2 ^ 63) with 9223372036854775808. change (2 ^ 32) with 4294967296 in *. lia.
  - intros j Hj. rewrite bucket_insert. case_decide as E; [lia|]. unfold appended. rewrite lookup_insert_ne; [by apply fo_known|].
    apply path_ne; [simpl; lia|simpl; lia|]. by intros [= ->].
  - intros j Hj. rewrite bucket_insert, appended_flen by (done || lia). case_decide; [subst; lia|]. rewrite Z.add_0_r. by apply fo_pos.
  - intros j Hj. rewrite appended_flen by (done || lia). specialize (fo_size j Hj). case_decide; [subst; lia|lia].
  - intros j Hj Hj'. unfold appended. rewrite lookup_insert_ne; [auto|]. apply path_ne; [simpl; lia|simpl; lia|]. intros [= ->]. lia.
Qed.
(** The state after the flush buffer has been written. *)
Lemma flushed_core n bc M f b fb now t :
  core n bc M -> bc_fb bc = Some fb -> keeps d (bc_fs bc) f -> files_ok d f b (bc_curr bc) ->
  core n (set_fb (set_flush_time (set_files bc (<[fb_bucket fb := flen d f (fb_bucket fb) + blen (fb_data fb)]> b)
                                   (appended f (fb_bucket fb) (fb_data fb) now)) t) None) M.
Proof.
  intros Hc Hfb K0 Hf. pose proof (keeps_kept d _ _ K0) as K. pose proof Hc as [Hm Hu Hi Hf0 Hs Hch Hp [L HL] Hidle Hby]. rewrite Hfb in Hch. pose proof (fo_curr _ _ _ _ Hf).
  apply (kept_chained d _ f) in Hch; [|apply Hf0|done|lia]. destruct Hch as (H1 & H2 & H3 & H4 & H5).
  assert (Hpl : plain f) by apply Hf.
  constructor; bc_simpl; auto.
  - apply appended_files; [done|lia|done|lia].
  - cbn [chained]. rewrite appended_flen by (done || lia). destruct H5 as [[E E']|(E & E' & E'')]; [rewrite decide_True by done|rewrite decide_False by lia].
    + rewrite <- E. lia.
    + lia.
  - apply (points_located n bc); [done|]. intros bk o r Hbk HR. apply (kept_located env d _ f) in HR; [|apply Hf0|done|lia].
    destruct HR as [HR|[(x & E & -> & HR)|(file & E & HR)]]; [by left| |].
    + rewrite Hfb in E. injection E as <-. right. right. eexists. rewrite appended_read, decide_True by (done || lia). split; [done|].
      apply (in_bytes_prepend _ _ (default [] (fs_read f (data d (fb_bucket fb))))) in HR. fold (flen d f (fb_bucket fb)) in HR.
      rewrite H3 in HR. by replace (fb_start fb + (o - fb_start fb)) with o in HR by lia.
    + right. right. rewrite appended_read by (done || lia). case_decide as Eb; [|by exists file].
      subst bk. rewrite E. eexists. split; [done|]. by apply in_bytes_app.
  - exists L. pose proof (lo_file _ _ _ _ _ _ _ _ _ _ _ _ HL) as [He1 He2]. eapply log_streams; [exact HL|apply Hf0|apply Hf0|by apply plain_insert| | |split; [|done]].
    + intros i Hi'. unfold stream, fb_part. rewrite Hfb, appended_read by (done || lia). rewrite <- !(kept_read d (bc_fs bc) f) by (apply Hf0 || done || lia).
      case_decide as E; [|by rewrite (proj2 (Z.eqb_neq _ _))]. subst i. rewrite Z.eqb_refl. unfold default, id at 1. by rewrite <- app_assoc.
    + intros ty i Hi' Hty. unfold appended. rewrite lookup_insert_ne by (apply path_ne; simpl; lia || (intros [= E]; congruence)). apply (keeps_same d); [done|simpl; lia|done].
    + intros i Hi'. rewrite appended_read by (done || lia). case_decide; [|rewrite (kept_read d (bc_fs bc) f) by (apply Hf0 || done || lia); auto].
      intros [= [_ E]%app_eq_nil]. by apply (He2 fb).
Qed.

Lemma core_keeps n bc M f : core n bc M -> keeps d (bc_fs bc) f -> core n (set_fs bc f) M.
Proof.
  intros Hc K0. pose proof (keeps_kept d _ _ K0) as K. pose proof Hc as [Hm Hu Hi Hf Hs Hch Hp [L HL] Hidle Hby]. pose proof (fo_curr _ _ _ _ Hf).
  constructor; bc_simpl; auto.
  - by eapply kept_files.
  - eapply kept_chained; [apply Hf|done|lia|done].
  - apply (points_located n bc); [done|]. intros bk o r Hbk. apply kept_located; [apply Hf|done|lia].
  - exists L. pose proof (lo_file _ _ _ _ _ _ _ _ _ _ _ _ HL) as [He1 He2]. eapply log_streams; [exact HL|apply Hf|apply Hf|apply K| | |split; [|done]].
    + intros i Hi'. unfold stream. by rewrite (kept_read d (bc_fs bc) f) by (apply Hf || done || lia).
    + intros ty i Hi' Hty. apply (keeps_same d); [done|simpl; lia|done].
    + intros i Hi'. rewrite (kept_read d (bc_fs bc) f) by (apply Hf || done || lia). auto.
Qed.

Lemma flush_end_spec n bc M now :
  inv n bc M -> is_Some (bc_fb bc) ->
  exists bc', flush_end env bc now = Ret bc' /\ inv n bc' M /\ bc_fb bc' = None /\ bc_wb bc' = bc_wb bc /\ bc_curr bc' = bc_curr bc /\
    bc_tree bc' = bc_tree bc /\ bc_depth bc' = bc_depth bc /\ bc_pos bc' = bc_pos bc.
Proof.
  intros [Hc Hb] [fb Hfb]. pose proof Hc as [Hm Hu Hi Hf Hs Hch Hp _ _ _]. unfold flush_end. rewrite Hfb in *.
  pose proof (fo_curr _ _ _ _ Hf). pose proof Hch as (H1 & H2 & H3 & _).
  destruct (new_data_spec bc (fb_bucket fb) now Hm Hf H1) as (b & f & -> & K0 & Hf1). pose proof (keeps_kept d _ _ K0) as K. cbn [mbind outcome_bind set_files bc_fs bc_buckets bc_last_flush_time].
  fold (flen d f (fb_bucket fb)). rewrite (kept_flen d (bc_fs bc) f) by (apply Hf || done || lia). rewrite H3, Z.eqb_refl, andb_false_r.
  assert (Hpl : plain f) by apply Hf1. rewrite fs_append_plain by done. fold (appended f (fb_bucket fb) (fb_data fb) now).
  pose proof (flushed_core n bc M f b fb now now Hc Hfb K0 Hf1) as Hc1. rewrite (kept_flen d (bc_fs bc) f) in Hc1 by (apply Hf || done || lia). rewrite H3 in Hc1.
  match goal with |- context [dump ?x now] => set (bc1 := x) end.
  destruct (_ || _).
  - destruct (dump_ok bc1 now) as (f2 & -> & K2); [done|apply (co_files _ _ _ Hc1)|apply (co_files _ _ _ Hc1)|]. cbn [mbind outcome_bind].
    eexists. split; [done|]. split; [split; [|done]|done]. apply (core_keeps _ _ _ f2) in Hc1; [|done]. exact Hc1.
  - cbn [mbind outcome_bind]. eexists. split; [done|]. split; [split; [|done]|done]. exact Hc1.
Qed.
Lemma flush_due_data bc limit period now : flush_due bc limit period now = true -> wb_data (bc_wb bc) <> [].
Proof.
  unfold flush_due, wb_pos. intros H E. rewrite E in H. change (blen []) with 0 in H. pose proof (u32_range (limit * 1024)).
  rewrite (proj2 (Z.ltb_ge _ _)) in H by lia. by rewrite andb_false_r in H.
Qed.

Lemma flush_spec n bc M limit period now :
  inv n bc M -> n <= MAX_OPS -> bc_fb bc = None -> bc_curr bc <= 255 ->
  exists bc', bc_flush env bc limit period now = Ret bc' /\ inv n bc' M /\ bc_fb bc' = None /\
    bc_curr bc <= bc_curr bc' <= bc_curr bc + 1 /\ abs (bc_tree bc') = abs (bc_tree bc) /\
    bc_depth bc' = bc_depth bc /\ bc_pos bc' = bc_pos bc /\
    (flush_due bc limit period now = true -> wb_data (bc_wb bc') = []) /\
    (flush_due bc limit period now = false -> bc' = bc).
Proof.
  intros Hi Hn Hfb Hcu. unfold bc_flush, MAX_BUCKET_COUNT. destruct (Z.leb_spec 256 (bc_curr bc)); [lia|].
  destruct (flush_due bc limit period now) eqn:Edue; [|exists bc; repeat (split; [done || lia|]); done].
  destruct (flush_begin_spec n bc M now Hi Hn Hfb Hcu (flush_due_data _ _ _ _ Edue)) as (b1 & -> & Hi1 & Hw & Hs & Hc1 & Ht & Hd1 & Hp1). cbn [mbind outcome_bind].
  destruct (flush_end_spec n b1 M now Hi1 Hs) as (b2 & -> & Hi2 & E1 & E2 & E3 & E4 & E5 & E6).
  exists b2. rewrite E2, E3, E4, E5, E6. repeat (split; [done|]). done.
Qed.

(** ** Making room *)
Lemma grow_wbuf_spec fuel k rlen :
  12 <= k <= top env -> 28 - k <= Z.of_nat fuel -> rlen <= 2 ^ top env ->
  exists s, grow_wbuf fuel (2 ^ k) rlen = Ret s /\ size_ok env s /\ rlen <= s.
Proof.
  pose proof top_range as (T1 & T2 & _). revert k. induction fuel as [|fuel IH]; intros k Hk Hf Hr; [lia|]. cbn [grow_wbuf]. destruct (Z.ltb_spec (2 ^ k) rlen) as [Hlt|Hge].
  - destruct (Z.eq_dec k (top env)) as [->|]; [lia|]. replace (2 ^ k * 2) with (2 ^ (k + 1)) by (rewrite Z.pow_add_r; lia).
    assert (2 ^ (k + 1) <= 2 ^ top env) by (apply Z.pow_le_mono_r; lia). assert (0 < 2 ^ (k + 1)) by (apply Z.pow_pos_nonneg; lia).
    rewrite u32_id by (change (2 ^ 32) with (2 ^ 27 * 32); lia). apply IH; lia.
  - exists (2 ^ k). split; [done|]. split; [by exists k|done].
Qed.

Definition resized bc (size : Z) : Bitcask C :=
  set_wb bc {| wb_data := wb_data (bc_wb bc); wb_size := size; wb_start := wb_start (bc_wb bc) |}.

Lemma resized_core n bc M size : core n bc M -> size_ok env size -> core n (resized bc size) M.
Proof.
  intros [] Hs. constructor; auto. destruct co_log0 as [L HL]. exists L. unfold resized. bc_simpl. eapply log_streams; [exact HL|apply co_files0|apply co_files0|apply co_files0| |done|apply HL].
  intros i _. unfold stream, wb_part. by bc_simpl.
Qed.

(** A buffer of no bytes may be enlarged; if the file would then grow too large,
    the next one is begun. *)
Lemma enlarge_spec n bc M size now :
  inv n bc M -> n <= MAX_OPS -> wb_data (bc_wb bc) = [] -> bc_curr bc <= 256 -> size_ok env size ->
  exists bc', (if needs_rotate (wb_start (bc_wb bc)) size (e_max_bucket_size env) then bc_rotate env (resized bc size) now else Ret (resized bc size)) = Ret bc' /\
    inv n bc' M /\ bc_curr bc <= bc_curr bc' <= bc_curr bc + 1 /\ bc_fb bc' = bc_fb bc /\ wb_data (bc_wb bc') = [] /\ wb_size (bc_wb bc') = size /\
    bc_tree bc' = bc_tree bc /\ bc_depth bc' = bc_depth bc /\ bc_pos bc' = bc_pos bc.
Proof.
  intros [Hc Hb] Hn Hw Hcu Hs. pose proof (size_ok_range _ Hs). pose proof (wb_bounds _ Hb (co_size _ _ _ Hc)) as (B1 & B2 & B3 & B4).
  rewrite rotate_exact by lia. pose proof (resized_core n bc M size Hc Hs) as Hc1. destruct (Z.ltb_spec (e_max_bucket_size env) (wb_start (bc_wb bc) + size)).
  - destruct (rotate_spec n (resized bc size) M now Hc1 Hn Hw Hcu ltac:(cbn; lia)) as (bc' & -> & Hi & E1 & E2 & E3 & E4 & E5 & E6).
    exists bc'. split; [done|]. split; [done|]. rewrite E1, E2, E3, E4, E5, E6. cbn. split; [lia|done].
  - exists (resized bc size). split; [done|]. split; [split; [done|]|cbn; split; [lia|done]].
    destruct Hb. constructor; cbn; [rewrite Hw; unfold blen; simpl; lia|done|done|lia].
Qed.

Lemma flush_due_now bc now : flush_due bc 0 0 now = (0 <? wb_pos bc).
Proof. unfold flush_due. change (u32 (0 * 1024)) with 0. by destruct (0 <? wb_pos bc); rewrite ?andb_false_r. Qed.

Lemma wb_empty bc : (0 <? wb_pos bc) = false -> wb_data (bc_wb bc) = [].
Proof. unfold wb_pos, blen. destruct (wb_data (bc_wb bc)); [done|]. intros H%Z.ltb_ge. simpl in H. lia. Qed.

Lemma make_room_spec n bc M rlen now :
  inv n bc M -> n <= MAX_OPS -> bc_curr bc <= 255 -> 0 < rlen <= 2 ^ top env ->
  bc_fb bc = None \/ wb_pos bc + rlen <= wb_size (bc_wb bc) ->
  exists bc', make_room env bc rlen now = Ret bc' /\ inv n bc' M /\ wb_pos bc' + rlen <= wb_size (bc_wb bc') /\
    bc_curr bc <= bc_curr bc' /\ bc_depth bc' = bc_depth bc /\ bc_pos bc' = bc_pos bc /\ (bc_fb bc = None -> bc_fb bc' = None).
Proof.
  intros Hi Hn Hcu Hr Hroom. unfold make_room. pose proof Hi as [Hc Hb]. pose proof (wb_bounds _ Hb (co_size _ _ _ Hc)) as (B1 & B2 & B3 & B4).
  fold (wb_pos bc) in B3. rewrite u32_id by (change (2 ^ 32) with (2 ^ 27 * 32); lia).
  destruct (Z.ltb_spec (wb_size (bc_wb bc)) (wb_pos bc + rlen)) as [Hlt|]; [|exists bc; repeat (split; [done || lia|]); done].
  destruct Hroom as [Hfb|]; [|lia].
  destruct (flush_spec n bc M 0 0 now Hi Hn Hfb Hcu) as (b1 & -> & Hi1 & F1 & F2 & F3 & F4 & F5 & F6 & F7). cbn [mbind outcome_bind].
  assert (Hw : wb_data (bc_wb b1) = []).
  { rewrite flush_due_now in *. destruct (0 <? wb_pos bc) eqn:E; [by apply F6|]. rewrite F7 by done. by apply wb_empty. }
  destruct (co_size _ _ _ (proj1 Hi1)) as (k & Hk & Ek). rewrite Ek.
  destruct (grow_wbuf_spec 32 k rlen) as (size & -> & Hs & Hle); [done|lia|lia|]. cbn [mbind outcome_bind].
  destruct (enlarge_spec n b1 M size now Hi1 Hn Hw ltac:(lia) Hs) as (b2 & E & Hi2 & G1 & G2 & G3 & G4 & G5 & G6 & G7).
  unfold resized in E. cbn [wb_start]. rewrite E. exists b2. unfold wb_pos. rewrite G3, G4, G6, G7, G2. split; [done|]. split; [done|].
  split; [unfold blen; simpl; lia|]. split; [lia|done].
Qed.
End Steps.
