(* ===== verification/BitcaskSpec.v ===== *)
(** * A bitcask is a versioned map

    [bc_get] and [bc_set] against the finite map of the invariant: what each
    returns and that the invariant holds of the map after it. *)
From Stdlib Require Import ZArith Lia List.
From stdpp Require Import base numbers list gmap strings.
From S2P Require Import Prelude Hash CText Codec CodecFacts HTree HTreeMap HTreeSpec QuickLZ Disk DiskFacts Hint HintFacts Record RecordFacts Scan ScanFacts Buckets BucketsFacts Bitcask BitcaskInv BitcaskLog BitcaskSteps.

Import Fnv.

(** The abstract operations. *)
Definition value_of (r : DataRecord) : Z * Z * bytes := (r_version r, r_flag r, r_value r).
Definition spec_get (M : store) (key : bytes) (return_deleted : bool) : option (Z * Z * bytes) :=
  if check_key key then
    match M !! key with
    | Some v => if negb return_deleted && (v.1.1 <? 0) then None else Some v
    | None => None
    end
  else None.

(** What [bc_set] promises: a refused request changes nothing; setting a key to the
    value and flag it has changes at most the version; all else is stored. *)
Definition spec_set (M : store) (key value : bytes) (flag version : Z) : store * bool :=
  if ((version <? 0) && (0 <? blen value)) || (MAX_VALUE_LEN <? blen value) || negb (check_key key) then (M, false)
  else
    match new_version version (match M !! key with Some v => v.1.1 | None => 0 end) with
    | None => (M, false)
    | Some ver =>
        let same := match M !! key with
                    | Some (ov, ofl, oval) => (0 <? ov) && (0 <? ver) && (ofl =? flag) && bool_decide (oval = value)
                    | None => false
                    end in
        (if same && (version =? 0) then M else <[key := (ver, flag, value)]> M, true)
    end.

(** ** Versions *)
Definition vers_ok (N : Z) (M : store) : Prop := map_Forall (fun _ v => v.1.1 <> 0 /\ Z.abs v.1.1 <= N) M.

Lemma new_version_bound version oldv ver N :
  Z.abs version <= 2 ^ 30 -> 2 ^ 30 <= N < 2 ^ 31 - 1 -> Z.abs oldv <= N -> new_version version oldv = Some ver ->
  ver <> 0 /\ Z.abs ver <= N + 1 /\ Z.abs oldv < Z.abs ver /\ (ver < 0 <-> version < 0).
Proof.
  intros Hv HN Ho. unfold new_version. change (2 ^ 30) with 1073741824 in *. change (2 ^ 31) with 2147483648 in *.
  destruct (Z.eqb_spec version 0), (Z.ltb_spec 0 oldv), (Z.leb_spec oldv 0), (Z.ltb_spec version 0), (Z.eqb_spec version (-1)),
    (Z.leb_spec (Z.abs version) (Z.abs oldv)); cbn [andb]; intros [= <-]; try lia; rewrite s32_id by (change (2 ^ 31) with 2147483648; lia); lia.
Qed.

Lemma gen_hash_nil : u16 (gen_hash []) <> 0.
Proof. vm_compute. discriminate. Qed.

(** ** Encoded sizes *)
Lemma s32_range x : int32 (s32 x).
Proof.
  unfold int32, s32, swrap. change (2 ^ (32 - 1)) with 2147483648. change (2 ^ 31) with 2147483648. change (2 ^ 32) with 4294967296.
  pose proof (Z.mod_pos_bound x 4294967296 ltac:(lia)). cbv zeta. destruct (Z.ltb_spec (x mod 4294967296) 2147483648); lia.
Qed.

Section Ops.
Context {C : Type} {KC : KeyCodec C} {KL : KeyCodecLaws C} {SN : Snaps}.
Context (env : Env) (d : bytes).
Context (Hfresh : forall n, length (e_fresh env n) = Z.to_nat n /\ bytes_ok (e_fresh env n)).
Context (Hd : blen d <= 230).
Context (Hmax : 0 <= e_max_bucket_size env <= 2 ^ 32 - 2 ^ 26).
Implicit Types (bc : Bitcask C) (M : store).
Let inv := inv (C := C) env d.

(** Changes of the tree that keep its entries. *)
Lemma inv_tree n bc M t :
  inv n bc M -> tree_ok t -> t_depth t = t_depth (bc_tree bc) -> t_pos t = t_pos (bc_tree bc) -> abs t = abs (bc_tree bc) -> t_root t = t_root (bc_tree bc) ->
  inv n (set_tree bc t) M.
Proof.
  intros [[] Hb] Ht Hdp Hps Ha Hr. split; [|done]. constructor; bc_simpl; auto.
  - eapply idx_tree; [done|done|done|done| |done]. by rewrite Ha.
  - by rewrite Ha.
  - by rewrite Ha.
Qed.

(** ** Reading *)
(** What a reader relies on: the files, the buffers, and a record for every live
    entry. *)
Record readable bc M : Prop := {
  rd_mgr : disks (bc_mgr bc) = [d];
  rd_up : up_bucket (bc_updating bc) = u32 (-1);
  rd_tree : tree_ok (bc_tree bc);
  rd_files : files_ok d (bc_fs bc) (bc_buckets bc) (bc_curr bc);
  rd_size : size_ok env (wb_size (bc_wb bc));
  rd_chained : chained d (bc_fs bc) (bc_curr bc) (wb_start (bc_wb bc)) (bc_fb bc);
  rd_buf : buf_ok env (bc_wb bc);
  rd_entry : forall k, match abs (bc_tree bc) !! k with
                       | Some e => exists v, M !! k = Some v /\ e.1.2 = v.1.1 /\
                           (0 <= v.1.1 -> exists r, r_key r = k /\ r_flag r = v.1.2 /\ r_value r = v.2 /\
                              located env d (bc_fs bc) (bc_curr bc) (bc_wb bc) (bc_fb bc) (Z.land e.1.1 0xff) (Z.land e.1.1 0xffffff00) r)
                       | None => forall v, M !! k = Some v -> v.1.1 < 0
                       end
}.

Lemma inv_readable n bc M : inv n bc M -> readable bc M.
Proof.
  intros [Hc Hb]. pose proof Hc as []. constructor; auto; [apply co_idx|]. intros k. specialize (co_points k). destruct (abs (bc_tree bc) !! k) as [e|], (M !! k) as [v|]; try done.
  destruct co_points as (_ & E & _ & _ & Hr). by exists v.
Qed.

Lemma read_located bc M bkt pos r :
  readable bc M -> 0 <= bkt < 256 -> located env d (bc_fs bc) (bc_curr bc) (bc_wb bc) (bc_fb bc) bkt pos r ->
  read_buffers env bc bkt pos = Ret (Some r) \/
  (read_buffers env bc bkt pos = Ret None /\ exists file, fs_read (bc_fs bc) (data d bkt) = Some file /\ fast_read_record (e_fresh env) file pos true = Ret (Some r)).
Proof.
  intros [_ _ _ Hf Hs Hch Hb _] Hbk HL. pose proof (fo_curr _ _ _ _ Hf) as Hcr. pose proof (wb_bounds env d Hmax _ Hb Hs) as (B1 & B2 & B3 & B4 & B5).
  unfold read_buffers. rewrite (u32_id (bc_curr bc)) by (change (2 ^ 32) with 4294967296; lia).
  destruct HL as [[-> HL]|[(fb & Efb & -> & HL)|(file & Er & HL)]]; pose proof (in_bytes_range _ _ _ _ HL) as HR.
  - left. rewrite Z.eqb_refl, (proj2 (Z.leb_le _ _)) by lia. cbn [andb]. unfold wb_pos.
    rewrite u32_id by (change (2 ^ 32) with (2 ^ 27 * 32); lia). by rewrite (in_bytes_decode _ _ _ r HL).
  - left. rewrite Efb in *. destruct Hch as (H1 & H2 & H3 & H4 & H5).
    assert ((fb_bucket fb =? bc_curr bc) && (wb_start (bc_wb bc) <=? pos) = false) as -> by (apply andb_false_iff; rewrite Z.eqb_neq, Z.leb_gt; lia).
    rewrite Z.eqb_refl, (proj2 (Z.leb_le _ _)) by lia. cbn [andb]. pose proof (flen_nonneg d (bc_fs bc) (fb_bucket fb)).
    rewrite u32_id by lia. by rewrite (in_bytes_decode _ _ _ r HL).
  - right. assert (Hl : blen file = flen d (bc_fs bc) bkt) by (unfold flen; by rewrite Er). rewrite Hl in HR.
    assert (Hbuf : (bkt =? bc_curr bc) && (wb_start (bc_wb bc) <=? pos) = false /\
              (forall fb, bc_fb bc = Some fb -> (bkt =? fb_bucket fb) && (fb_start fb <=? pos) = false)).
    { destruct (bc_fb bc) as [fb|]; cbn [chained] in Hch; [destruct Hch as (H1 & H2 & H3 & H4 & H5)|];
        (split; [|intros ? [= <-] || done]); apply andb_false_iff; rewrite Z.eqb_neq, Z.leb_gt;
        destruct (Z.eq_dec bkt (bc_curr bc)) as [E|]; try (left; lia); try (rewrite E in HR); try lia.
      - right. unfold blen in *. destruct H5 as [[E1 E2]|(E1 & E2 & E3)]; [rewrite E1 in H3; lia|lia].
      - destruct (Z.eq_dec bkt (fb_bucket fb)) as [E'|]; [right; rewrite <- E', E in H3; lia|by left].
      - destruct (Z.eq_dec bkt (fb_bucket fb)) as [E'|]; [right; rewrite E' in HR; lia|by left]. }
    destruct Hbuf as [-> Hfb2]. split; [|exists file; split; [done|by apply in_bytes_read]].
    destruct (bc_fb bc) as [fb|]; [|done]. by rewrite (Hfb2 fb).
Qed.
Lemma points_lookup n bc M key :
  inv n bc M ->
  match abs (bc_tree bc) !! key, M !! key with
  | Some e, Some v => key_fits key /\ points_to (located env d (bc_fs bc) (bc_curr bc) (bc_wb bc) (bc_fb bc)) key e v
  | None, None => True
  | _, _ => False
  end.
Proof. intros [Hc _]. apply (co_points _ _ _ _ _ Hc). Qed.

Lemma read_files_ok bc key bkt pos it file r :
  disks (bc_mgr bc) = [d] -> 0 <= bkt < 256 -> fs_read (bc_fs bc) (data d bkt) = Some file ->
  fast_read_record (e_fresh env) file pos true = Ret (Some r) -> r_key r = key ->
  read_files env bc key bkt pos it false = Ret (bc, Some (set_version r (it_ver it))).
Proof.
  intros Hm Hb Hf Hr Hk. unfold read_files. rewrite (path_of_ok d Hd) by (done || lia). fold (data d bkt). cbn [mbind outcome_bind read_retry]. rewrite Hf, Hr.
  cbn [mbind outcome_bind]. rewrite bool_decide_true by by rewrite Hk. done.
Qed.

(** What [bc_get] leaves alone. *)
Definition same_files bc bc' : Prop :=
  bc_mgr bc' = bc_mgr bc /\ bc_fs bc' = bc_fs bc /\ bc_buckets bc' = bc_buckets bc /\ bc_curr bc' = bc_curr bc /\
  bc_wb bc' = bc_wb bc /\ bc_fb bc' = bc_fb bc /\ bc_depth bc' = bc_depth bc /\ bc_pos bc' = bc_pos bc /\
  abs (bc_tree bc') = abs (bc_tree bc).

Lemma get_spec n bc M key del :
  inv n bc M -> bytes_ok key ->
  exists bc' r p, bc_get env bc key del = Ret (bc', r, p) /\ inv n bc' M /\ same_files bc bc' /\
    value_of <$> r = spec_get M key del.
Proof.
  intros Hi Hk. unfold bc_get, spec_get. destruct (check_key key) eqn:Eck; cbn [negb].
  2: { exists bc, None, None. split; [done|]. split; [done|]. split; [done|]. done. }
  assert (Hfit : key_fits key) by by apply check_key_fits. pose proof (points_lookup n bc M key Hi) as Hp. pose proof Hi as [[] Hb].
  unfold ht_get_maybe_tmp. destruct (ht_get_withbuf_spec (bc_tree bc) key) as (t & it & Eg & Ht & Htd & Htp & Ha & Hit); [apply co_idx|done|]. rewrite Eg. apply get_withbuf_root in Eg.
  cbn [mbind outcome_bind]. rewrite <- Hit in Hp. destruct it as [it|]; cbn [fmap option_fmap option_map] in Hp.
  2: { destruct (M !! key) as [v|]; [done|]. eexists _, None, None. split; [done|]. split; [by apply (inv_tree n bc)|]. split; [|done]. unfold same_files. bc_simpl. done. }
  destruct (M !! key) as [[[ver fl] val]|] eqn:EM; [|done]. destruct Hp as (_ & Hv & Hh & Hf & r & Hrk & Hrf & Hrv & HL). cbn [ival fst snd] in *.
  pose proof (land_ff (it_pos it)) as Hbk. rewrite co_up. assert (u32 (-1) =? Z.land (it_pos it) 0xff = false) as -> by (apply Z.eqb_neq; change (u32 (-1)) with 4294967295; lia).
  cbn [mbind outcome_bind]. set (bc1 := set_updating (set_tree bc t) (bc_updating bc)).
  assert (Hi1 : inv n bc1 M) by (apply (inv_tree n bc M t Hi Ht Htd Htp Ha Eg)).
  assert (Hs1 : same_files bc bc1) by (unfold same_files, bc1; bc_simpl; done). rewrite Hv.
  destruct (negb del && (ver <? 0)); [exists bc1, None, (Some (it_pos it)); done|].
  destruct (located_range env d _ _ _ _ _ _ _ _ co_files (bo_start _ _ Hb) co_chained Hbk HL) as [Hle Hpos]. pose proof (fo_curr _ _ _ _ co_files).
  change (bc_curr bc1) with (bc_curr bc). rewrite (u32_id (bc_curr bc)) by (change (2 ^ 32) with 4294967296; lia).
  rewrite (proj2 (Z.ltb_ge _ _) Hle). exists bc1, (Some (set_version r (it_ver it))), (Some (it_pos it)).
  split; [|split; [done|split; [done|by unfold value_of, set_version; simpl; rewrite Hv, Hrf, Hrv]]].
  destruct (read_located bc1 M _ _ r (inv_readable n bc1 M Hi1) Hbk HL) as [->|(-> & file & Hfile & Hread)]; cbn [mbind outcome_bind]; [by rewrite Hv|].
  by rewrite (read_files_ok bc1 key _ _ it file r).
Qed.

(** Reading live values needs no more than [readable]. *)
Lemma readable_get bc M key :
  readable bc M -> bytes_ok key -> exists bc' r p, bc_get env bc key false = Ret (bc', r, p) /\ readable bc' M /\ value_of <$> r = spec_get M key false.
Proof.
  intros Hrd Hk. unfold bc_get, spec_get. destruct (check_key key) eqn:Eck; cbn [negb]; [|by exists bc, None, None].
  assert (Hfit : key_fits key) by by apply check_key_fits. pose proof Hrd as [Hm Hu Ht Hf Hs Hch Hb He]. specialize (He key).
  unfold ht_get_maybe_tmp. destruct (ht_get_withbuf_spec (bc_tree bc) key) as (t & it & -> & Ht1 & Htd & Htp & Ha & Hit); [done|done|]. cbn [mbind outcome_bind].
  assert (Hrt : readable (set_tree bc t) M) by (constructor; bc_simpl; auto; rewrite Ha; apply Hrd). rewrite <- Hit in He.
  destruct it as [it|]; cbn [fmap option_fmap option_map] in He.
  2: { eexists _, None, None. split; [done|]. split; [exact Hrt|]. destruct (M !! key) as [[[ver fl] val]|]; [|done]. specialize (He _ eq_refl). cbn [fst] in He. cbn [negb andb fst]. by rewrite (proj2 (Z.ltb_lt ver 0)) by done. }
  destruct He as ([[ver fl] val] & -> & Hv & HL). cbn [ival fst snd] in *. pose proof (land_ff (it_pos it)) as Hbk. rewrite Hu.
  assert (u32 (-1) =? Z.land (it_pos it) 0xff = false) as -> by (apply Z.eqb_neq; change (u32 (-1)) with 4294967295; lia).
  cbn [mbind outcome_bind]. set (bc1 := set_updating (set_tree bc t) (bc_updating bc)). assert (Hrd1 : readable bc1 M) by exact Hrt. rewrite Hv. cbn [negb andb].
  destruct (Z.ltb_spec ver 0) as [|Hver]; [by exists bc1, None, (Some (it_pos it))|]. destruct (HL Hver) as (r & Hrk & Hrf & Hrv & Hl).
  destruct (located_range env d _ _ _ _ _ _ _ _ Hf (bo_start _ _ Hb) Hch Hbk Hl) as [Hle Hpos]. pose proof (fo_curr _ _ _ _ Hf).
  change (bc_curr bc1) with (bc_curr bc). rewrite (u32_id (bc_curr bc)) by (change (2 ^ 32) with 4294967296; lia).
  rewrite (proj2 (Z.ltb_ge _ _) Hle). exists bc1, (Some (set_version r (it_ver it))), (Some (it_pos it)).
  split; [|split; [done|by unfold value_of, set_version; simpl; rewrite Hv, Hrf, Hrv]].
  destruct (read_located bc1 M _ _ r Hrd1 Hbk Hl) as [->|(-> & file & Hfile & Hread)]; cbn [mbind outcome_bind]; [by rewrite Hv|].
  by rewrite (read_files_ok bc1 key _ _ it file r).
Qed.

(** ** Writing *)
Lemma idx_add_both n depth pos (t ct : HTree C) k e :
  idx_ok n depth pos t ct -> key_fits k -> check_bucket t k = true -> entry_fits k e ->
  exists ct' t', ht_add2 ct k e.1.1 e.2 e.1.2 = Ret ct' /\ ht_add2 t k e.1.1 e.2 e.1.2 = Ret t' /\
    abs t' = <[k := e]> (abs t) /\ abs ct' = <[k := e]> (abs ct) /\ idx_ok (n + 1) depth pos t' ct'.
Proof.
  intros Hi Hk Hb He. destruct (idx_add_curr n depth pos t ct k e Hi Hk He) as (ct' & E1 & Hac & [_ _ H1 _ H2 H3 H4 _]).
  destruct (idx_add_tree n depth pos t ct k e Hi Hk Hb He) as (t' & E2 & Ha & [H5 H6 _ H7 _ H8 _ H9]).
  assert (Hbc : check_bucket ct k = true) by (rewrite <- Hb; destruct Hi as [_ _ _ [D1 D2] [D3 D4] _ _ _]; apply check_bucket_cfg; congruence). rewrite Hbc in Hac.
  exists ct', t'. split; [done|]. split; [done|]. split; [done|]. split; [done|]. constructor; auto. lia.
Qed.

Definition value_hash (ver : Z) (value : bytes) : Z := if 0 <? ver then u16 (gen_hash value) else 0.
Lemma value_hash_range ver value : 0 <= value_hash ver value < 2 ^ 16.
Proof. unfold value_hash. destruct (0 <? ver); [apply u16_range|done]. Qed.

Lemma append_total n bc M key rbuf hash ver :
  inv n bc M -> key_fits key -> wb_pos bc + blen rbuf <= wb_size (bc_wb bc) ->
  exists bc', append_record bc key rbuf hash ver = Ret bc' /\ bc_curr bc' = bc_curr bc /\ bc_depth bc' = bc_depth bc /\ bc_pos bc' = bc_pos bc /\ bc_fb bc' = bc_fb bc.
Proof.
  intros [[] _] Hk Hr. unfold append_record. destruct (Z.ltb_spec (wb_size (bc_wb bc)) (wb_pos bc + blen rbuf)); [lia|]. bc_simpl.
  destruct (ht_add2_spec (bc_curr_tree bc) key (u32 (Z.lor (u32 (wb_start (bc_wb bc) + wb_pos bc)) (bc_curr bc))) hash ver) as (ct & -> & _); [apply co_idx|done|].
  destruct (ht_add2_spec (bc_tree bc) key (u32 (Z.lor (u32 (wb_start (bc_wb bc) + wb_pos bc)) (bc_curr bc))) hash ver) as (t & -> & _); [apply co_idx|done|].
  cbn [mbind outcome_bind]. eexists. split; [done|]. bc_simpl. done.
Qed.

Lemma append_spec n bc M r r' ver :
  inv n bc M -> bc_curr bc <= 255 -> wb_pos bc + blen (encode_bytes r') <= wb_size (bc_wb bc) ->
  stored_as (e_fresh env) r r' -> key_fits (r_key r) -> check_key (r_key r) = true -> check_bucket (bc_tree bc) (r_key r) = true -> int32 ver ->
  r_version r = ver -> ver <> 0 -> not_hollow r -> record_length r' <= record_length r <= big env ->
  exists bc', append_record bc (r_key r) (encode_bytes r') (value_hash ver (r_value r)) ver = Ret bc' /\
    bc_curr bc' = bc_curr bc /\ bc_depth bc' = bc_depth bc /\ bc_pos bc' = bc_pos bc /\ bc_fb bc' = bc_fb bc /\
    inv (n + 1) bc' (<[r_key r := (ver, r_flag r, r_value r)]> M).
Proof.
  intros [Hcore Hb] Hcu Hr Hs Hk Hck Hbk Hv Hrv Hv0 Hnh Hsm. pose proof Hcore as []. unfold append_record. destruct (Z.ltb_spec (wb_size (bc_wb bc)) (wb_pos bc + blen (encode_bytes r'))); [lia|].
  pose proof (wb_bounds env d Hmax _ Hb co_size) as (B1 & B2 & B3 & B4 & B5). fold (wb_pos bc) in B3. destruct (encode_length (e_fresh env) r') as (Hel & Hem & Hen).
  pose proof (fo_curr _ _ _ _ co_files). rewrite (u32_id (wb_start (bc_wb bc) + wb_pos bc)) by (change (2 ^ 32) with 4294967296 in *; change (2 ^ 27) with 134217728 in *; lia).
  set (p := wb_start (bc_wb bc) + wb_pos bc) in *.
  assert (Hpm : p mod 256 = 0) by (destruct Hb as [_ [] _ _]; unfold p, wb_pos; rewrite Z.add_mod by lia; by replace (wb_start (bc_wb bc) mod 256) with 0; replace (blen (wb_data (bc_wb bc)) mod 256) with 0).
  destruct (pos_bits p (bc_curr bc)) as (Hq & Hq1 & Hq2); [change (2 ^ 32) with 4294967296 in *; change (2 ^ 27) with 134217728 in *; lia|done|lia|].
  set (q := u32 (Z.lor p (bc_curr bc))) in *. bc_simpl.
  set (e := (q, ver, value_hash ver (r_value r)) : entry).
  assert (He : entry_fits (r_key r) e) by (split; [done|]; split; [done|]; split; [done|apply value_hash_range]).
  destruct (idx_add_both n _ _ _ _ (r_key r) e co_idx Hk Hbk He) as (ct & t & E1 & E2 & Ha & Hac & Hi). cbn [fst snd e] in E1, E2. rewrite E1, E2. cbn [mbind outcome_bind].
  eexists. split; [done|]. do 4 (split; [done|]). split.
  - constructor; bc_simpl; auto; [rewrite Ha; apply points_insert; [done| |]|].
    + split; [done|]. split; [done|]. split; [done|]. exists r. repeat (split; [done|]). cbn [fst snd e]. rewrite Hq1, Hq2. left. split; [done|].
      bc_simpl. replace (p - wb_start (bc_wb bc)) with (blen (wb_data (bc_wb bc))) by (unfold p, wb_pos; lia). by apply in_bytes_last.
    + eapply points_mono; [|exact co_points]. intros b o x [[-> HL]|HL]; [left; split; [done|]; bc_simpl; by apply in_bytes_app|by right].
    + destruct co_log as [L HL]. exists (add_log L (bc_curr bc) (p, r)). rewrite Ha, Hac.
      assert (Ep : blen (stream d (bc_fs bc) (bc_curr bc) (bc_wb bc) (bc_fb bc) (bc_curr bc)) = p) by exact (stream_end env d n bc M Hcore).
      assert (Ee : e = new_entry (bc_curr bc) p r).
      { unfold e, q, new_entry, value_hash. rewrite Hrv, u32_id; [done|]. rewrite pos_sum by (done || lia). change (2 ^ 32) with 4294967296 in *. change (2 ^ 27) with 134217728 in *. Z.div_mod_to_equations; lia. }
      rewrite Ee, <- Ep. eapply log_append; [exact HL|lia|by eapply stream_above|rewrite Ep; lia| |exact Hs|done|by split| |congruence|done].
      { rewrite Ep. intros Hmx. destruct (bo_limit _ _ Hb); unfold p; lia. }
      rewrite <- Hbk. unfold own. destruct (io_cfg _ _ _ _ _ co_idx) as [D1 D2]. by apply check_bucket_cfg.
  - destruct Hb as [Hb1 [Hb2 Hb3] Hb4 Hb5]. constructor; bc_simpl; auto; rewrite blen_app.
    + unfold wb_pos in *. lia.
    + split; [|done]. rewrite Hel, Z.add_mod, Hb2, Hem by lia. done.
Qed.

Lemma inv_le n n' bc M : n <= n' -> inv n bc M -> inv n' bc M.
Proof. intros Hn [[] Hb]. split; [|done]. constructor; auto; [by eapply idx_ok_le|]. destruct co_log as [L HL]. exists L. by apply (log_le env d n). Qed.

Lemma own_bucket n n' bc bc' M M' key :
  inv n bc M -> inv n' bc' M' -> bc_depth bc' = bc_depth bc -> bc_pos bc' = bc_pos bc ->
  check_bucket (bc_tree bc') key = check_bucket (bc_tree bc) key.
Proof.
  intros Hi Hi' Hdp Hps. destruct (io_cfg _ _ _ _ _ (co_idx _ _ _ _ _ (proj1 Hi))) as [T1 T2].
  destruct (io_cfg _ _ _ _ _ (co_idx _ _ _ _ _ (proj1 Hi'))) as [T3 T4]. unfold check_bucket. by rewrite T1, T2, T3, T4, Hdp, Hps.
Qed.

(** The record fits the largest write buffer: always so with a file limit of at
    most 3968 MB, and for records of up to 64 MB otherwise. *)
Definition value_fits (key value : bytes) : Prop :=
  blen value <= MAX_VALUE_LEN -> padded (HEADER + blen key + blen value) <= 2 ^ top env.

Lemma any_value_fits key value : e_max_bucket_size env <= 2 ^ 32 - 2 ^ 27 -> blen key <= MAX_KEY_LEN -> value_fits key value.
Proof.
  intros Hm Hk Hv. unfold top. rewrite (proj2 (Z.leb_le _ _) Hm). unfold HEADER, MAX_KEY_LEN, MAX_VALUE_LEN in *.
  pose proof (blen_nonneg key). pose proof (blen_nonneg value). pose proof (padded_bounds (24 + blen key + blen value)). lia.
Qed.
Lemma short_value_fits key value : blen key <= MAX_KEY_LEN -> blen value <= 2 ^ 26 - 1024 -> value_fits key value.
Proof.
  intros Hk Hv _. pose proof (top_range env Hmax) as (T1 & _). unfold HEADER, MAX_KEY_LEN in *.
  pose proof (blen_nonneg key). pose proof (blen_nonneg value). pose proof (padded_bounds (24 + blen key + blen value)). lia.
Qed.

(** Room for a record of this key and value, whether it is compressed or not. *)
Definition room bc (key value : bytes) : Prop :=
  bc_fb bc = None \/ wb_pos bc + padded (HEADER + blen key + blen value) <= wb_size (bc_wb bc).

Lemma store_spec n bc M key value flag ver now :
  let r := {| r_tstamp := s32 now; r_flag := flag; r_version := ver; r_key := key; r_value := value |} in
  inv n bc M -> n <= MAX_OPS -> bc_curr bc <= 255 -> record_ok r -> Z.land flag COMPRESS_FLAG = 0 -> value <> [] \/ blen key <= 232 -> ver <> 0 ->
  check_key key = true -> check_bucket (bc_tree bc) key = true -> room bc key value -> value_fits key value ->
  exists bc', store_record env bc key value flag ver (value_hash ver value) now = Ret (bc', true) /\
    bc_curr bc <= bc_curr bc' /\ bc_depth bc' = bc_depth bc /\ bc_pos bc' = bc_pos bc /\ (bc_fb bc = None -> bc_fb bc' = None) /\
    (bc_curr bc' <= 255 -> inv (n + 1) bc' (<[key := (ver, flag, value)]> M)).
Proof.
  intros r Hi Hn Hcu Hr Hf Hne Hv0 Hck Hbk Hroom Hvf. unfold store_record, encode_record. fold r.
  destruct (compress_record_ok (e_fresh env) Hfresh r Hr Hf Hne) as (r' & E & Hst). rewrite E. cbn [mbind outcome_bind].
  pose proof (compress_shrinks _ _ _ E) as Hshr. destruct (compress_smaller _ _ _ E) as [Hk' Hv']. destruct (encode_length (e_fresh env) r') as (El & Em & E256). rewrite El.
  assert (Z.land (record_length r') 0xff = 0) as -> by (change 0xff with (Z.ones 8); rewrite Z.land_ones by lia; done). cbn [negb Z.eqb].
  pose proof Hr as []. destruct (sizes_range _ _ ro_size (blen_nonneg _) (blen_nonneg _)) as [Bk Bv]. cbn [r r_key r_value] in Bk, Bv, Hk', Hv'.
  assert (Hbig : record_length r <= big env).
  { unfold big, record_length. specialize (Hvf (proj2 Bv)). cbn [r r_key r_value]. apply Z.min_glb; [done|]. change 104858112 with (padded 104857874). apply padded_mono. unfold HEADER. pose proof (blen_nonneg value). lia. }
  pose proof (blen_nonneg (r_value r')). unfold record_length in *. rewrite Hk' in *. unfold room, HEADER in *.
  pose proof (padded_mono (24 + blen key + blen (r_value r')) (24 + blen key + blen value) ltac:(lia)) as Hmono.
  pose proof (padded_bounds (24 + blen key + blen value) ltac:(lia)) as [Hpb _].
  destruct (make_room_spec env d Hfresh Hd Hmax n bc M (padded (24 + blen key + blen (r_value r'))) now Hi Hn Hcu) as (b1 & -> & Hi1 & Hfit & C1 & D1 & P1 & F1);
    [specialize (Hvf (proj2 Bv)); unfold HEADER in Hvf; lia|destruct Hroom as [|Hro]; [by left|right; lia]|]. cbn [mbind outcome_bind].
  assert (Hkf : key_fits key) by by apply check_key_fits. rewrite <- El in Hfit.
  destruct (Z.le_gt_cases (bc_curr b1) 255) as [H255|H255].
  - destruct (append_spec n b1 M r r' ver) as (b2 & E2 & C2 & D2 & P2 & F2 & Hi2); [done|done|done|done|done|done|by rewrite (own_bucket n n bc b1 M M)|done|done|done|done|unfold record_length, HEADER; rewrite Hk'; exact (conj Hshr Hbig)|].
    cbn [r r_key r_value r_flag] in E2, Hi2. rewrite E2. exists b2. rewrite C2, D2, P2, F2. done.
  - destruct (append_total n b1 M key (encode_bytes r') (value_hash ver value) ver Hi1 Hkf Hfit) as (b2 & -> & C2 & D2 & P2 & F2).
    exists b2. rewrite C2, D2, P2, F2. repeat (split; [done|]). lia.
Qed.

(** ** [bc_set] *)
Definition spec_same (M : store) (key value : bytes) (flag ver : Z) : bool :=
  match M !! key with
  | Some (ov, ofl, oval) => (0 <? ov) && (0 <? ver) && (ofl =? flag) && bool_decide (oval = value)
  | None => false
  end.

(** No stream passes 4 GB. *)
Lemma stream_bound n bc M i : inv n bc M -> 0 <= i < 256 -> blen (bc_stream d bc i) < 2 ^ 32.
Proof.
  intros [Hc Hb] Hi. destruct (decide (i = bc_curr bc)) as [->|Hne].
  - rewrite (stream_end env d n bc M Hc). pose proof (wb_bounds env d Hmax _ Hb (co_size _ _ _ _ _ Hc)) as (B1 & B2 & B3 & B4 & B5).
    change (2 ^ 32) with 4294967296 in *. change (2 ^ 26) with 67108864 in *. lia.
  - destruct Hc as [_ _ _ Hf _ Hch _ _]. pose proof (fo_size _ _ _ _ Hf i ltac:(lia)) as Hs. unfold bc_stream, stream, wb_part, fb_part.
    rewrite (proj2 (Z.eqb_neq (bc_curr bc) i)), app_nil_r, blen_app by done. fold (flen d (bc_fs bc) i). destruct (bc_fb bc) as [fb|]; [|change (blen []) with 0; lia].
    destruct (Z.eqb_spec (fb_bucket fb) i) as [<-|]; [|change (blen []) with 0; lia]. destruct Hch as (_ & _ & H3 & H4 & _). lia.
Qed.

(** The new version of an entry whose data stays where it is. *)
Lemma bump_spec n bc M key it ov flag value ver :
  inv n bc M -> ival it = (it_pos it, ov, it_hash it) -> abs (bc_tree bc) !! key = Some (ival it) -> M !! key = Some (ov, flag, value) ->
  key_fits key -> check_bucket (bc_tree bc) key = true -> 0 < ov <= ver -> int32 ver -> bc_curr bc <= 255 ->
  exists ct t, (if Z.land (it_pos it) 0xff =? bc_curr bc then ht_add2 (bc_curr_tree bc) key (it_pos it) (it_hash it) ver else Ret (bc_curr_tree bc)) = Ret ct /\
    ht_add2 (bc_tree bc) key (it_pos it) (it_hash it) ver = Ret t /\ inv (n + 1) (set_trees bc t ct) (<[key := (ver, flag, value)]> M).
Proof.
  intros Hi Hiv Ha HM Hk Hbk Hov Hv32 Hcu. pose proof (points_lookup n bc M key Hi) as Hp. rewrite Ha, HM in Hp. destruct Hp as (_ & Hv & Hh & Hfit & r & Hrk & Hrf & Hrv & HL).
  pose proof Hi as [Hcore Hb]. pose proof Hcore as []. set (e := (it_pos it, ver, it_hash it) : entry).
  assert (He : entry_fits key e) by (destruct Hfit as (F1 & F2 & F3 & F4); rewrite Hiv in *; split; [done|]; split; [done|]; split; done).
  destruct (idx_add_both n _ _ _ _ key e co_idx Hk Hbk He) as (ct & t & E1 & E2 & Hat & Hact & Hi'). cbn [fst snd e] in E1, E2.
  destruct (idx_add_tree n _ _ _ _ key e co_idx Hk Hbk He) as (t2 & E3 & _ & Hi2). cbn [fst snd e] in E3. rewrite E2 in E3. injection E3 as <-.
  assert (Hpts : points (located env d (bc_fs bc) (bc_curr bc) (bc_wb bc) (bc_fb bc)) (abs t) (<[key := (ver, flag, value)]> M)).
  { rewrite Hat. apply points_insert; [done| |done]. rewrite Hiv in *. cbn [fst snd] in *. split; [done|]. split.
    - cbn [fst snd e]. rewrite Hh. by rewrite (proj2 (Z.ltb_lt 0 ver)), (proj2 (Z.ltb_lt 0 ov)) by lia.
    - split; [done|]. by exists r. }
  destruct co_log as [L HLg]. pose proof (fo_curr _ _ _ _ co_files). rewrite Hiv in *.
  pose proof (log_bump env d _ _ _ _ _ _ _ _ _ _ key _ ver HLg ltac:(lia) (stream_above env d n bc M Hcore) (fun i Hi' => stream_bound n bc M i Hi Hi') Ha ltac:(cbn; lia)) as HL'.
  apply (log_le env d n (n + 1)) in HL'; [|lia]. cbn [fst snd] in HL'. fold e in HL'. rewrite <- Hat in HL'.
  destruct (Z.land (it_pos it) 255 =? bc_curr bc); [rewrite <- Hact in HL'|]; eexists _, t; (split; [done|]); (split; [done|]); (split; [|done]); constructor; bc_simpl; eauto.
Qed.

Lemma spec_set_eq M key value flag version ver :
  ((version <? 0) && (0 <? blen value)) || (MAX_VALUE_LEN <? blen value) || negb (check_key key) = false ->
  new_version version (match M !! key with Some v => v.1.1 | None => 0 end) = Some ver ->
  spec_set M key value flag version = (if spec_same M key value flag ver && (version =? 0) then M else <[key := (ver, flag, value)]> M, true).
Proof. intros E1 E2. unfold spec_set. by rewrite E1, E2. Qed.

(** The comparison of hashes and then of the stored value decides equality. *)
Lemma same_agree M key value flag ver ov ofl oval (h : Z) r :
  M !! key = Some (ov, ofl, oval) -> ov <> 0 -> ver <> 0 -> (ver < 0 -> value = []) ->
  h = (if 0 <? ov then u16 (gen_hash oval) else 0) -> value_of <$> r = spec_get M key false -> check_key key = true ->
  spec_same M key value flag ver = (value_hash ver value =? h) && same_value r value flag.
Proof.
  intros HM Hov Hver Hnil -> Hr Hck. unfold spec_get in Hr. unfold spec_same, value_hash. rewrite Hck, HM in Hr. rewrite HM. cbn [fst snd negb andb] in Hr.
  destruct (Z.ltb_spec ov 0), (Z.ltb_spec 0 ov); try lia; cbn [andb].
  { destruct r; [done|]. by rewrite andb_false_r. }
  destruct r as [r|]; [|done]. cbn [fmap option_fmap option_map same_value] in *. injection Hr as Ev Ef Evl. rewrite Ef, Evl.
  destruct (Z.ltb_spec 0 ver) as [|Hneg]; cbn [andb].
  - destruct (bool_decide_reflect (oval = value)) as [->|]; [by rewrite Z.eqb_refl|by rewrite !andb_false_r].
  - symmetry. destruct (bool_decide_reflect (oval = value)) as [->|]; [|by rewrite !andb_false_r]. rewrite Hnil by lia.
    by rewrite (proj2 (Z.eqb_neq 0 _)) by (intros E; symmetry in E; by apply gen_hash_nil in E).
Qed.

Record request_ok (key value : bytes) (flag version : Z) : Prop := {
  rq_key : bytes_ok key;
  rq_value : bytes_ok value;
  rq_long : blen key <= 232;
  rq_flag : int32 flag;
  rq_plain : Z.land flag COMPRESS_FLAG = 0;
  rq_version : Z.abs version <= 2 ^ 30
}.

Lemma set_body_spec n bc M key value flag version ver now it :
  inv n bc M -> n <= MAX_OPS -> bc_curr bc <= 255 -> request_ok key value flag version -> blen value <= MAX_VALUE_LEN ->
  check_key key = true -> check_bucket (bc_tree bc) key = true -> room bc key value -> value_fits key value ->
  ival <$> it = abs (bc_tree bc) !! key -> vers_ok (2 ^ 31) M -> ver <> 0 -> int32 ver -> (ver < 0 -> value = []) ->
  (forall v, M !! key = Some v -> Z.abs v.1.1 < Z.abs ver) ->
  exists bc', (match it with
    | Some it =>
        if value_hash ver value =? it_hash it then
          '(bc, r, _) ← bc_get env bc key false;
          if same_value r value flag then
            if negb (version =? 0) then
              ct ← (if Z.land (it_pos it) 0xff =? bc_curr bc then ht_add2 (bc_curr_tree bc) key (it_pos it) (it_hash it) ver else Ret (bc_curr_tree bc));
              t ← ht_add2 (bc_tree bc) key (it_pos it) (it_hash it) ver;
              Ret (set_trees bc t ct, true)
            else Ret (bc, true)
          else store_record env bc key value flag ver (value_hash ver value) now
        else store_record env bc key value flag ver (value_hash ver value) now
    | None => store_record env bc key value flag ver (value_hash ver value) now
    end) = Ret (bc', true) /\
    bc_curr bc <= bc_curr bc' /\ bc_depth bc' = bc_depth bc /\ bc_pos bc' = bc_pos bc /\ (bc_fb bc = None -> bc_fb bc' = None) /\
    (bc_curr bc' <= 255 -> inv (n + 1) bc' (if spec_same M key value flag ver && (version =? 0) then M else <[key := (ver, flag, value)]> M)).
Proof.
  intros Hi Hn Hcu [] Hvl Hck Hbk Hroom Hvf Hit Hvs Hver Hv32 Hnil Hup. assert (Hkf : key_fits key) by by apply check_key_fits.
  assert (Hr : record_ok {| r_tstamp := s32 now; r_flag := flag; r_version := ver; r_key := key; r_value := value |}).
  { constructor; simpl; auto; [|apply s32_range]. destruct Hkf as [(Hk1 & _) Hk2]. unfold bad_kv_size. pose proof (blen_nonneg value).
    assert (0 < blen key) by (destruct key; [done|unfold blen; simpl; lia]). 
    rewrite (proj2 (Z.ltb_ge _ _) Hk2), (proj2 (Z.ltb_ge _ _) Hvl), (proj2 (Z.eqb_neq _ _)) by lia. done. }
  assert (Hst : forall bc2, inv n bc2 M -> same_files bc bc2 -> spec_same M key value flag ver = false ->
    exists bc', store_record env bc2 key value flag ver (value_hash ver value) now = Ret (bc', true) /\
    bc_curr bc <= bc_curr bc' /\ bc_depth bc' = bc_depth bc /\ bc_pos bc' = bc_pos bc /\ (bc_fb bc = None -> bc_fb bc' = None) /\
    (bc_curr bc' <= 255 -> inv (n + 1) bc' (if spec_same M key value flag ver && (version =? 0) then M else <[key := (ver, flag, value)]> M))).
  { intros bc2 Hi2 (S1 & S2 & S3 & S4 & S5 & S6 & S7 & S8 & S9) Hs. rewrite Hs, <- S4, <- S6, <- S7, <- S8. cbn [andb].
    apply (store_spec n bc2); auto; [by rewrite S4|by rewrite (own_bucket n n bc bc2 M M)|].
    unfold room, wb_pos in *. by rewrite S5, S6. }
  assert (Hsame : same_files bc bc) by done.
  pose proof (points_lookup n bc M key Hi) as Hp. rewrite <- Hit in Hp. destruct it as [it|]; cbn [fmap option_fmap option_map] in Hp, Hit.
  2: { apply Hst; [done|done|]. unfold spec_same. by destruct (M !! key). }
  destruct (M !! key) as [[[ov ofl] oval]|] eqn:EM; [|done]. destruct Hp as (_ & Hv & Hh & _). destruct (Hvs key _ EM) as [Hov _]. specialize (Hup _ eq_refl). cbn [fst snd ival] in *.
  destruct (get_spec n bc M key false Hi rq_key0) as (bc2 & r & p & Eg & Hi2 & Hsf & Hr2).
  pose proof (same_agree M key value flag ver ov ofl oval _ r EM Hov Hver Hnil Hh Hr2 Hck) as Hag.
  destruct (_ =? it_hash it); [|by apply Hst]. rewrite Eg. cbn [mbind outcome_bind andb] in *.
  destruct (same_value r value flag); [|by apply Hst]. rewrite Hag. cbn [andb]. pose proof Hsf as (S1 & S2 & S3 & S4 & S5 & S6 & S7 & S8 & S9).
  destruct (Z.eqb_spec version 0); cbn [negb].
  { exists bc2. rewrite S4, S6, S7, S8. repeat (split; [done || lia|]). intros _. apply (inv_le n); [lia|done]. }
  unfold spec_same in Hag. rewrite EM in Hag. bool_to_prop.
  assert (0 < ov /\ 0 < ver /\ ofl = flag /\ oval = value) as (? & ? & -> & ->) by (repeat split; try lia; by eapply bool_decide_eq_true_1).
  destruct (bump_spec n bc2 M key it ov flag value ver) as (ct & t & E1 & E2 & Hi3); auto; [unfold ival; by rewrite Hv|by rewrite S9|by rewrite (own_bucket n n bc bc2 M M)|lia|by rewrite S4|].
  rewrite E1. cbn [mbind outcome_bind]. rewrite E2. cbn [mbind outcome_bind]. eexists. split; [done|]. bc_simpl. rewrite S4, S6, S7, S8. repeat (split; [done || lia|]). done.
Qed.

Lemma set_spec n N bc M key value flag version now :
  inv n bc M -> n <= MAX_OPS -> bc_curr bc <= 255 -> 2 ^ 30 <= N < 2 ^ 31 - 1 -> vers_ok N M -> request_ok key value flag version ->
  (check_key key = true -> check_bucket (bc_tree bc) key = true) -> room bc key value -> value_fits key value ->
  exists bc', bc_set env bc key value flag version now = Ret (bc', (spec_set M key value flag version).2) /\
    bc_curr bc <= bc_curr bc' /\ bc_depth bc' = bc_depth bc /\ bc_pos bc' = bc_pos bc /\ (bc_fb bc = None -> bc_fb bc' = None) /\
    vers_ok (N + 1) (spec_set M key value flag version).1 /\
    (bc_curr bc' <= 255 -> inv (n + 1) bc' (spec_set M key value flag version).1).
Proof.
  intros Hi Hn Hcu HN Hvs [] Hbk Hroom Hvf. unfold bc_set.
  assert (Hvs' : vers_ok (N + 1) M) by (intros k v Hkv; destruct (Hvs k v Hkv); lia).
  pose proof (inv_le n (n + 1) bc M ltac:(lia) Hi) as Hi'.
  destruct (_ || negb (check_key key)) eqn:Eg.
  { unfold spec_set. rewrite Eg. exists bc. repeat (split; [done || lia|]). done. }
  assert (Hck : check_key key = true) by (destruct (check_key key); [done|by rewrite !orb_true_r in Eg]).
  assert (Hkf : key_fits key) by by apply check_key_fits. specialize (Hbk Hck).
  pose proof Hi as [[] Hb]. destruct (ht_get2_spec (bc_tree bc) key) as (t & it & Egt & Ht & Htd & Htp & Ha & Hit & _); [apply co_idx|done|]. rewrite Egt. apply get_root in Egt.
  cbn [mbind outcome_bind]. set (bc1 := set_tree bc t). assert (Hi1 : inv n bc1 M) by by apply (inv_tree n bc).
  pose proof (points_lookup n bc M key Hi) as Hp. rewrite <- Hit in Hp.
  assert (Hov : (match it with Some it => it_ver it | None => 0 end) = match M !! key with Some v => v.1.1 | None => 0 end).
  { destruct it as [it|], (M !! key); cbn in Hp; try done. by destruct Hp as (_ & Hv & _). }
  rewrite Hov. destruct (new_version version _) as [ver|] eqn:Ev.
  2: { unfold spec_set. rewrite Eg, Ev. exists bc1. repeat (split; [done || lia|]). intros _. by apply (inv_le n); [lia|]. }
  assert (Ho : Z.abs (match M !! key with Some v => v.1.1 | None => 0 end) <= N)
    by (destruct (M !! key) as [v|] eqn:E; [by apply (Hvs key)|simpl; change (2 ^ 30) with 1073741824 in HN; lia]).
  destruct (new_version_bound version _ ver N rq_version0 HN Ho Ev) as (V1 & V2 & Vup & V3).
  change (2 ^ 31) with 2147483648 in *. rewrite (spec_set_eq M key value flag version ver Eg Ev). cbn [fst snd]. fold (value_hash ver value).
  assert (Hvl : blen value <= MAX_VALUE_LEN /\ (ver < 0 -> value = [])).
  { apply orb_false_elim in Eg as [[Eg1 Eg2%Z.ltb_ge]%orb_false_elim _]. split; [done|]. intros Hneg%V3. rewrite (proj2 (Z.ltb_lt version 0) Hneg) in Eg1.
    apply Z.ltb_ge in Eg1. destruct value; [done|]. unfold blen in Eg1. simpl in Eg1. lia. }
  destruct (set_body_spec n bc1 M key value flag version ver now it) as (bc' & E1 & C1 & D1 & P1 & F1 & Hi2); auto.
  - by constructor.
  - apply Hvl.
  - by rewrite (own_bucket n n bc bc1 M M).
  - rewrite Hit. unfold bc1. bc_simpl. by rewrite Ha.
  - intros k v Hkv. destruct (Hvs k v Hkv). change (2 ^ 31) with 2147483648. lia.
  - unfold int32. change (2 ^ 31) with 2147483648. lia.
  - apply Hvl.
  - intros v Hv. by rewrite Hv in Vup.
  - exists bc'. split; [exact E1|]. do 4 (split; [done|]). split; [|done].
    destruct (spec_same M key value flag ver && (version =? 0)); [done|]. apply map_Forall_insert_2; [|done]. simpl. lia.
Qed.
End Ops.
