(* ===== verification/BitcaskLife.v ===== *)
(** * Opening, closing and garbage collection of a bitcask (bitcask.c, ht_save) *)
From Stdlib Require Import ZArith Lia List.
From stdpp Require Import base numbers list gmap strings.
From S2P Require Import Prelude Hash CText Codec HTree HTreeFile QuickLZ Disk Hint Record Scan Buckets Bitcask.

Section Life.
Context {C : Type} {KC : KeyCodec C} (env : Env).
Implicit Types bc : Bitcask C.

(** [ht_save(tree, path)]: [true] for the return value 0. *)
Definition ht_save (f : fs) (now : Z) (t : HTree C) (path : bytes) : outcome (fs * bool) :=
  let f := mgr_unlink f path in
  tmp ← print_path MAX_PATH_LEN (path ++ lit ".tmp");
  r ← ht_save2 (e_addr env) t;
  match r with
  | Some d => f ← mgr_rename (fs_write f tmp d now) tmp path; Ret (f, true)
  | None => Ret (mgr_unlink (fs_write f tmp [] now) tmp, false)
  end.

(** ** Opening *)
Definition bc_open2 (m : Mgr) (f : fs) (depth pos before now : Z) : outcome (Bitcask C) :=
  '(f, b) ← init_buckets (e_autolink env) (e_check_file_size env) (e_readdir env) m f;
  Ret {| bc_depth := depth; bc_pos := pos; bc_before := before; bc_mgr := m;
         bc_tree := ht_new depth pos false; bc_updating := {| up_bucket := u32 (-1); up_tree := None |};
         bc_curr_tree := ht_new depth pos true; bc_last_snapshot := -1; bc_curr := 0;
         bc_bytes := 0; bc_curr_bytes := 0;
         bc_wb := {| wb_data := []; wb_size := 1024 * 4; wb_start := 0 |}; bc_fb := None;
         bc_last_flush_time := now; bc_optimize_flag := 0; bc_buckets := b; bc_fs := f |}.

(** [skip_empty_file]: close the gaps left by empty data files. *)
Fixpoint skip_loop (k : nat) bc (i last : Z) : outcome (Bitcask C) :=
  match k with
  | O => Ret bc
  | S k' =>
      let size := bucket (bc_buckets bc) i in
      opath ← path_of bc DATA_FILE i;
      if 0 <? size then
        bc ← (if negb (i =? last) then
                npath ← path_of bc DATA_FILE last;
                f ← mgr_rename (bc_fs bc) opath npath;
                ohint ← path_of bc HINT_FILE i;
                f ← (if file_exists f ohint
                     then nhint ← path_of bc HINT_FILE last; mgr_rename f ohint nhint else Ret f);
                otree ← path_of bc HTREE_FILE i;
                Ret (set_files bc (<[i := -1]> (<[last := bucket (bc_buckets bc) i]> (bc_buckets bc)))
                       (mgr_unlink f otree))
              else Ret bc);
        skip_loop k' bc (i + 1) (last + 1)
      else if size =? 0 then
        match bc_fs bc !! opath with
        | None => Exit 1
        | Some _ =>
            if match stat_reg (bc_fs bc) opath with Some (d, _) => 0 <? blen d | None => false end
            then Exit 1
            else
              ohint ← path_of bc HINT_FILE i;
              otree ← path_of bc HTREE_FILE i;
              let f := mgr_unlink (mgr_unlink (mgr_unlink (bc_fs bc) opath) ohint) otree in
              skip_loop k' (set_files bc (<[i := -1]> (bc_buckets bc)) f) (i + 1) last
        end
      else skip_loop k' bc (i + 1) last
  end.
Definition skip_empty_file bc : outcome (Bitcask C) := skip_loop 256 bc 0 0.

(** The newest usable snapshot of the tree, from bucket [k - 1] down. *)
Fixpoint load_snapshot (k : nat) bc : outcome (Bitcask C) :=
  match k with
  | O => Ret bc
  | S k' =>
      let i := Z.of_nat k' in
      treepath ← path_of bc HTREE_FILE i;
      hintpath ← path_of bc HINT_FILE i;
      match stat_reg (bc_fs bc) treepath, stat_reg (bc_fs bc) hintpath with
      | Some (d, m), Some (_, hm) =>
          if (hm <=? m) && ((bc_before bc =? 0) || (m <? bc_before bc)) then
            t ← ht_open (bc_depth bc) (bc_pos bc) d;
            match t with
            | Some t => Ret (set_snapshot (set_tree bc t) i)
            | None => load_snapshot k' (set_fs bc (mgr_unlink (bc_fs bc) treepath))
            end
          else load_snapshot k' bc
      | _, _ => load_snapshot k' bc
      end
  end.

(** One data file that the snapshot does not cover. *)
Definition scan_bucket bc (i now : Z) (datapath : bytes) (data_mtime : Z) : outcome (Bitcask C) :=
  hintpath ← path_of bc HINT_FILE i;
  let hint := stat_reg (bc_fs bc) hintpath in
  if bc_before bc =? 0 then
    match hint with
    | Some _ =>
        '(f, t) ← scanHintFile (e_fresh env) (bc_fs bc) now (bc_tree bc) i hintpath None;
        Ret (set_tree (set_fs bc f) t)
    | None =>
        '(f, hp) ← new_path (e_disk env) (bc_mgr bc) (bc_fs bc) HINT_FILE i;
        '(f, t) ← scanDataFile (e_fresh env) f now (bc_tree bc) i datapath hp;
        Ret (set_tree (set_fs bc f) t)
    end
  else
    if match hint with
       | Some (_, hm) => (hm <? bc_before bc) || (data_mtime <? bc_before bc)
       | None => false
       end
    then
      '(f, t) ← scanHintFile (e_fresh env) (bc_fs bc) now (bc_tree bc) i hintpath None;
      Ret (set_tree (set_fs bc f) t)
    else
      t ← scanDataFileBefore (e_fresh env) (bc_fs bc) (bc_tree bc) i datapath (bc_before bc);
      Ret (set_tree bc t).

(** The loop over the data files: the number of the first missing one. *)
Fixpoint scan_buckets (k : nat) bc (i now : Z) : outcome (Bitcask C * Z) :=
  match k with
  | O => Ret (bc, i)
  | S k' =>
      datapath ← path_of bc DATA_FILE i;
      match stat_reg (bc_fs bc) datapath with
      | None => Ret (bc, i)
      | Some (d, m) =>
          let bc := set_bytes bc (u64 (bc_bytes bc + blen d)) (bc_curr_bytes bc) in
          if i <=? bc_last_snapshot bc then scan_buckets k' bc (i + 1) now
          else bc ← scan_bucket bc i now datapath m; scan_buckets k' bc (i + 1) now
      end
  end.

(** Save the tree as the snapshot of bucket [i], and drop the last snapshot. *)
Definition save_snapshot bc (i now : Z) : outcome (Bitcask C * bool) :=
  '(f, path) ← new_path (e_disk env) (bc_mgr bc) (bc_fs bc) HTREE_FILE i;
  '(f, ok) ← ht_save f now (bc_tree bc) path;
  if (ok : bool) then
    old ← path_of bc HTREE_FILE (bc_last_snapshot bc);
    Ret (set_fs bc (mgr_unlink f old), true)
  else Ret (set_fs bc f, false).

Definition bc_scan bc (now : Z) : outcome (Bitcask C) :=
  bc ← skip_empty_file bc;
  bc ← dump bc now;
  bc ← load_snapshot 256 bc;
  '(bc, i) ← scan_buckets 256 bc 0 now;
  bc ← (if SAVE_HTREE_LIMIT <? i - bc_last_snapshot bc then
          '(bc, ok) ← save_snapshot bc (i - 1) now;
          Ret (if (ok : bool) then set_snapshot bc (i - 1) else bc)
        else Ret bc);
  Ret (set_curr bc i).

(** ** Closing: the files left behind.  With [optimize_flag] set the code waits
    for the collecting thread; when there is none, it waits for ever ([Fault]). *)
Definition bc_close bc (now : Z) : outcome fs :=
  if 0 <? bc_optimize_flag bc then Fault else
  bc ← bc_flush env bc 0 0 now;
  datapath ← path_of bc DATA_FILE (bc_curr bc);
  bc ← (match stat_reg (bc_fs bc) datapath with
        | Some (d, _) => dump (set_files bc (<[bc_curr bc := blen d]> (bc_buckets bc)) (bc_fs bc)) now
        | None => Ret bc
        end);
  bc ← (if 0 <? bc_curr_bytes bc then
          '(f, hp) ← new_path (e_disk env) (bc_mgr bc) (bc_fs bc) HINT_FILE (bc_curr bc);
          f ← build_hint (e_fresh env) f now (bc_curr_tree bc) hp;
          Ret (set_fs bc f)
        else Ret bc);
  let curr := if bc_curr_bytes bc =? 0 then bc_curr bc - 1 else bc_curr bc in
  bc ← (if SAVE_HTREE_LIMIT <=? curr - bc_last_snapshot bc
        then '(bc, _) ← save_snapshot bc curr now; Ret bc else Ret bc);
  Ret (bc_fs bc).

(** ** Garbage collection *)
Definition data_file_size bc (i : Z) : outcome Z :=
  p ← path_of bc DATA_FILE i;
  Ret (match stat_reg (bc_fs bc) p with Some (d, _) => blen d | None => 0 end).

(** [update_item_pos]: the visitor that gives the items of one bucket the number
    of another. *)
Definition update_item_pos (index : Z) (it : Item) (t : HTree C) : outcome (HTree C) :=
  '(t, p) ← ht_get2 t (it_key it);
  match p with
  | Some p =>
      if it_pos it =? it_pos p
      then ht_add2 t (it_key p) (Z.lor (Z.land (it_pos it) 0xffffff00) index) (it_hash p) (it_ver p)
      else Ret t
  | None => Ret t
  end.

(** [for (i = 0; i < bc->curr; ++i) mgr_unlink(... HTREE_FILE ...)] *)
Fixpoint drop_snapshots (k : nat) bc (i : Z) : outcome (Bitcask C) :=
  match k with
  | O => Ret bc
  | S k' => p ← path_of bc HTREE_FILE i; drop_snapshots k' (set_fs bc (mgr_unlink (bc_fs bc) p)) (i + 1)
  end.

(** [bc->optimize_flag = 0; return -1;] *)
Definition gc_abort {A} bc : outcome (Bitcask C * option A) := Ret (set_optimize bc 0, None).

(** A recently written file is only renumbered; the result is the new [last],
    [None] for the return value -1. *)
Definition gc_renumber bc (i last now : Z) (datapath hintpath : bytes) : outcome (Bitcask C * option Z) :=
  let last := last + 1 in
  if last =? i then Ret (bc, Some last)
  else if negb (file_exists (bc_fs bc) hintpath) then Ret (bc, Some i)
  else
    npath ← path_of bc DATA_FILE last;
    match fs_symlink (bc_fs bc) datapath npath with
    | None => gc_abort bc
    | Some f =>
        '(f, tree) ← scanHintFile (e_fresh env) f now (ht_new (bc_depth bc) (bc_pos bc) true) i hintpath None;
        t ← ht_visit tree (update_item_pos last) (bc_tree bc);
        f ← mgr_rename (fs_unlink f npath) datapath npath;
        nhint ← path_of bc HINT_FILE last;
        f ← mgr_rename f hintpath nhint;
        bc ← dump (set_files (set_tree bc t)
                     (<[i := -1]> (<[last := bucket (bc_buckets bc) i]> (bc_buckets bc))) f) now;
        Ret (bc, Some last)
    end.

(** [while (last <= last0 + 1)]: collect file [i] into [last], or into the next
    one if it does not fit. *)
Fixpoint gc_into (fuel : nat) bc (i last last0 now : Z) (datapath hintpath : bytes) (skipped : bool)
  : outcome (Bitcask C * option (Z * Z)) :=
  match fuel with
  | O => Fault
  | S k =>
      if last <=? last0 + 1 then
        ldpath ← path_of bc DATA_FILE last;
        if negb (Bool.eqb (0 <=? bucket (bc_buckets bc) last) (bool_decide (is_Some (bc_fs bc !! ldpath))))
        then gc_abort bc
        else
          lhpath ← path_of bc HINT_FILE last;
          '(f, lhreal) ← (match mgr_getrealpath (bc_fs bc) lhpath with
                          | Some p => Ret (bc_fs bc, p)
                          | None => new_path (e_disk env) (bc_mgr bc) (bc_fs bc) HINT_FILE last
                          end);
          let use_tmp := (last =? i) || (negb (last =? i) && (bucket (bc_buckets bc) last <? 0)) in
          '(f, t, deleted, ret) ←
            optimizeDataFile (e_fresh env) (e_disk env) (bc_mgr bc) f now (bc_tree bc) i datapath hintpath last
              ldpath lhreal (e_max_bucket_size env) skipped use_tmp;
          let bc := set_tree (set_fs bc f) t in
          if ret =? 0 then
            match stat_reg (bc_fs bc) ldpath with
            | Some (d, _) =>
                bc ← dump (set_files bc (<[last := blen d]> (<[i := -1]> (bc_buckets bc))) (bc_fs bc)) now;
                Ret (bc, Some (last, deleted))
            | None => gc_abort bc
            end
          else if ret <? 0 then gc_abort bc
          else if last <? i then gc_into k bc i (last + 1) last0 now datapath hintpath skipped
          else gc_abort bc
      else Ret (bc, Some (last, 0))
  end.

(** The loop of [bc_optimize] over the files before the current one, with no
    request to stop.  A lost data file returns -1 with [optimize_flag] still set. *)
Fixpoint gc_files (k : nat) bc (i last limit_time now : Z) (skipped : bool)
  : outcome (Bitcask C * option Z) :=
  match k with
  | O => Ret (bc, Some last)
  | S k' =>
      datapath ← path_of bc DATA_FILE i;
      hintpath ← path_of bc HINT_FILE i;
      if bucket (bc_buckets bc) i <? 0 then gc_files k' bc (i + 1) last limit_time now skipped
      else
        match stat_reg (bc_fs bc) datapath with
        | None => Ret (bc, None)
        | Some (d, mtime) =>
            if limit_time <? mtime then
              '(bc, r) ← gc_renumber bc i last now datapath hintpath;
              match r with
              | None => Ret (bc, None)
              | Some last => gc_files k' bc (i + 1) last limit_time now true
              end
            else
              '(t, deleted, total) ←
                count_deleted_record (e_fresh env) (bc_fs bc) now (bc_tree bc) i hintpath skipped;
              let bc := set_tree bc t in
              let curr_size := u64 (blen d * (total - Z.quot deleted 2)) / (total + 1) in
              last_size ← (if 0 <=? last then data_file_size bc last else Ret (u64 (-1)));
              let last := if (last =? -1) || (e_max_bucket_size env <? u64 (last_size + curr_size))
                          then last + 1 else last in
              '(bc, r) ← gc_into 3 bc i last last now datapath hintpath skipped;
              match r with
              | None => Ret (bc, None)
              | Some (last, deleted) =>
                  gc_files k' (set_bytes bc (u64 (bc_bytes bc - deleted)) (bc_curr_bytes bc))
                    (i + 1) last limit_time now skipped
              end
        end
  end.

(** The end of [bc_optimize]: the current file takes the next free number. *)
Definition gc_current bc (last now : Z) : outcome (Bitcask C) :=
  let last := last + 1 in
  let curr := bc_curr bc in
  if last <? curr then
    opath ← path_of bc DATA_FILE curr;
    npath ← path_of bc DATA_FILE last;
    let has := 0 <? bucket (bc_buckets bc) curr in
    let f := if has then default (bc_fs bc) (fs_symlink (bc_fs bc) opath npath) else bc_fs bc in
    t ← ht_visit (bc_curr_tree bc) (update_item_pos last) (bc_tree bc);
    f ← (if has then mgr_rename (fs_unlink f npath) opath npath else Ret f);
    bc ← dump (set_files (set_tree bc t)
                 (<[curr := -1]> (<[last := bucket (bc_buckets bc) curr]> (bc_buckets bc))) f) now;
    Ret (set_curr bc last)
  else Ret bc.

(** [bc_optimize(bc, limit)]: [true] for the return value 0, [false] for -1. *)
Definition bc_optimize bc (limit now : Z) : outcome (Bitcask C * bool) :=
  bc ← drop_snapshots (Z.to_nat (bc_curr bc)) (set_optimize bc 1) 0;
  let bc := set_snapshot bc (-1) in
  let limit_time := if 3600 * 24 * 365 * 10 <? limit then limit else now - limit in
  '(bc, r) ← gc_files (Z.to_nat (bc_curr bc)) bc 0 (-1) limit_time now false;
  match r with
  | None => Ret (bc, false)
  | Some last => bc ← gc_current bc last now; Ret (set_optimize bc 0, true)
  end.
End Life.
