(* ===== verification/BitcaskHistory.v ===== *)
(** * Histories of a bitcask

    The requests that reach a bitcask and the two halves of a flush, in any order,
    from the opening of an empty directory on: the answers are those of a finite
    map from keys to (version, flag, value). *)
From Stdlib Require Import ZArith Lia List.
From stdpp Require Import base numbers list gmap strings.
From S2P Require Import Prelude Hash CText Codec CodecFacts HTree HTreeMap HTreeSpec HTreeFine QuickLZ Disk DiskFacts Hint HintFacts Record RecordFacts Scan ScanFacts Buckets BucketsFacts Bitcask BitcaskInv BitcaskLog BitcaskSteps BitcaskSpec BitcaskLife.

(** ** Events *)
Inductive event :=
| ESet (key value : bytes) (flag version now : Z)
| EDelete (key : bytes) (now : Z)
| EGet (key : bytes) (return_deleted : bool)
| EFlushBegin (limit period now : Z)
| EFlushEnd (now : Z).

Inductive answer := AStored (ok : bool) | AValue (v : option (Z * Z * bytes)) | ANone.

(** The abstract store. *)
Definition spec_step (M : store) (e : event) : store * answer :=
  match e with
  | ESet key value flag version _ => let r := spec_set M key value flag version in (r.1, AStored r.2)
  | EDelete key _ => let r := spec_set M key [] 0 (-1) in (r.1, AStored r.2)
  | EGet key del => (M, AValue (spec_get M key del))
  | EFlushBegin _ _ _ | EFlushEnd _ => (M, ANone)
  end.
Fixpoint spec_run (M : store) (es : list event) : store * list answer :=
  match es with
  | [] => (M, [])
  | e :: es => let r := spec_step M e in let s := spec_run r.1 es in (s.1, r.2 :: s.2)
  end.

Section History.
Context {C : Type} {KC : KeyCodec C} (env : Env).
Implicit Types bc : Bitcask C.

(** A writer that finds no room calls [bc_flush], which waits for the lock until
    the flush under way has ended. *)
Definition wait_flush bc (key value : bytes) (now : Z) : outcome (Bitcask C) :=
  match bc_fb bc with
  | Some _ =>
      if wb_size (bc_wb bc) <? wb_pos bc + padded (HEADER + blen key + blen value)
      then flush_end env bc now else Ret bc
  | None => Ret bc
  end.

Definition bc_step bc (e : event) : outcome (Bitcask C * answer) :=
  match e with
  | ESet key value flag version now =>
      bc ← wait_flush bc key value now;
      '(bc, ok) ← bc_set env bc key value flag version now; Ret (bc, AStored ok)
  | EDelete key now =>
      bc ← wait_flush bc key [] now;
      '(bc, ok) ← bc_delete env bc key now; Ret (bc, AStored ok)
  | EGet key del => '(bc, r, _) ← bc_get env bc key del; Ret (bc, AValue (value_of <$> r))
  | EFlushBegin limit period now =>
      match bc_fb bc with
      | Some _ => Ret (bc, ANone)
      | None =>
          if MAX_BUCKET_COUNT <=? bc_curr bc then Exit 1
          else if flush_due bc limit period now then bc ← flush_begin env bc now; Ret (bc, ANone)
          else Ret (bc, ANone)
      end
  | EFlushEnd now =>
      match bc_fb bc with
      | Some _ => bc ← flush_end env bc now; Ret (bc, ANone)
      | None => Ret (bc, ANone)
      end
  end.
Fixpoint bc_run bc (es : list event) : outcome (Bitcask C * list answer) :=
  match es with
  | [] => Ret (bc, [])
  | e :: es => '(bc, a) ← bc_step bc e; '(bc, l) ← bc_run bc es; Ret (bc, a :: l)
  end.

(** A bitcask opened on a directory. *)
Definition bc_opened (m : Mgr) (f : fs) (depth pos now : Z) : outcome (Bitcask C) :=
  bc ← bc_open2 env m f depth pos 0 now; bc_scan env bc now.
End History.

(** The requests of a history: keys of this bucket, of at most 232 bytes (an
    empty value under a longer key is compressed to a record that cannot be
    read), flags without the bit that marks compressed values, and values that
    fit the largest write buffer. *)
Definition event_ok {C} (env : Env) (t : HTree C) (e : event) : Prop :=
  let own key := check_key key = true -> check_bucket t key = true in
  match e with
  | ESet key value flag version _ => request_ok key value flag version /\ value_fits env key value /\ own key
  | EDelete key _ => bytes_ok key /\ blen key <= 232 /\ own key
  | EGet key _ => bytes_ok key
  | EFlushBegin _ _ _ | EFlushEnd _ => True
  end.

Section Facts.
Context {C : Type} {KC : KeyCodec C} {KL : KeyCodecLaws C} {SN : Snaps}.
Context (env : Env) (d : bytes).
Context (Hfresh : forall n, length (e_fresh env n) = Z.to_nat n /\ bytes_ok (e_fresh env n)).
Context (Hd : blen d <= 230).
Context (Hmax : 0 <= e_max_bucket_size env <= 2 ^ 32 - 2 ^ 26).
Implicit Types (bc : Bitcask C) (M : store).
Let inv := inv (C := C) env d.

(** ** Opening an empty directory *)
Lemma skip_empty k bc i last :
  disks (bc_mgr bc) = [d] -> bc_buckets bc = ∅ -> 0 <= i -> i + Z.of_nat k <= 257 -> skip_loop k bc i last = Ret bc.
Proof.
  intros Hm Hb. revert i. induction k as [|k IH]; intros i Hi Hk; [done|]. cbn [skip_loop].
  rewrite (path_of_ok d Hd bc DATA_FILE i) by (done || lia). cbn [mbind outcome_bind]. rewrite Hb. unfold bucket. rewrite lookup_empty. cbn [default Z.ltb Z.eqb Z.compare].
  apply IH; lia.
Qed.

Lemma stat_empty p : stat_reg ∅ p = None.
Proof. unfold stat_reg. destruct (real_path MAXSYMLINKS ∅ p); [|done]. by rewrite lookup_empty. Qed.

Lemma no_snapshot k bc :
  disks (bc_mgr bc) = [d] -> bc_fs bc = ∅ -> Z.of_nat k <= 256 -> load_snapshot k bc = Ret bc.
Proof.
  intros Hm Hf. induction k as [|k IH]; intros Hk; [done|]. cbn [load_snapshot].
  rewrite !(path_of_ok d Hd) by (done || lia). cbn [mbind outcome_bind]. rewrite Hf, stat_empty. apply IH. lia.
Qed.

Lemma no_data k bc now :
  disks (bc_mgr bc) = [d] -> bc_fs bc = ∅ -> scan_buckets env (S k) bc 0 now = Ret (bc, 0).
Proof.
  intros Hm Hf. cbn [scan_buckets]. rewrite (path_of_ok d Hd bc DATA_FILE 0) by (done || lia). cbn [mbind outcome_bind].
  by rewrite Hf, stat_empty.
Qed.

Lemma recorded_empty k i : recorded ∅ i k = [].
Proof. revert i. induction k as [|k IH]; intros i; [done|]. rewrite recorded_S, IH. done. Qed.

Definition fresh_bitcask (m : Mgr) (depth pos now : Z) : Bitcask C :=
  {| bc_depth := depth; bc_pos := pos; bc_before := 0; bc_mgr := m;
     bc_tree := ht_new depth pos false; bc_updating := {| up_bucket := u32 (-1); up_tree := None |};
     bc_curr_tree := ht_new depth pos true; bc_last_snapshot := -1; bc_curr := 0;
     bc_bytes := 0; bc_curr_bytes := 0;
     bc_wb := {| wb_data := []; wb_size := 1024 * 4; wb_start := 0 |}; bc_fb := None;
     bc_last_flush_time := now; bc_optimize_flag := 0; bc_buckets := ∅; bc_fs := ∅ |}.

Lemma init_empty m : disks m = [d] -> e_readdir env d = [] ->
  init_buckets (e_autolink env) (e_check_file_size env) (e_readdir env) m ∅ = Ret (∅, ∅).
Proof.
  intros Hm Hrd. unfold init_buckets, check_buckets, mgr_base. rewrite Hm. cbn [check_disks]. rewrite Hrd. cbn [check_dir mbind outcome_bind f_sizes].
  destruct (e_check_file_size env); [|done]. change (fetch [d] 0) with (Ret d). cbn [mbind outcome_bind]. unfold load_buckets.
  change (join d (lit "buckets.txt")) with (path d Sizes).
  rewrite print_path_ok by (pose proof (path_length d Sizes I Hd); unfold MAX_PATH_LEN in *; lia).
  cbn [mbind outcome_bind]. unfold fs_read. rewrite stat_empty. reflexivity.
Qed.

Lemma bind_step {A B} (m : outcome A) (a : A) (k : A -> outcome B) : m = Ret a -> (m ≫= k) = k a.
Proof. by intros ->. Qed.

Lemma scan_nothing bc now :
  skip_empty_file bc = Ret bc -> dump bc now = Ret bc -> load_snapshot 256 bc = Ret bc -> scan_buckets env 256 bc 0 now = Ret (bc, 0) ->
  bc_last_snapshot bc = -1 -> bc_scan env bc now = Ret (set_curr bc 0).
Proof.
  intros E1 E2 E3 E4 E5. unfold bc_scan. rewrite (bind_step _ _ _ E1), (bind_step _ _ _ E2), (bind_step _ _ _ E3), (bind_step _ _ _ E4), E5. reflexivity.
Qed.

Lemma dump_empty bc now : disks (bc_mgr bc) = [d] -> bc_buckets bc = ∅ -> bc_fs bc = ∅ -> dump bc now = Ret (set_fs bc ∅).
Proof.
  intros Hm Hb Hf. unfold dump. rewrite Hb, Hf, (dump_buckets_ok (bc_mgr bc) d).
  - rewrite recorded_empty, delete_empty. reflexivity.
  - unfold mgr_base. by rewrite Hm.
  - done.
  - done.
  - intros t. by rewrite lookup_empty.
Qed.

Lemma scan_fresh m depth pos now :
  disks m = [d] -> bc_scan env (fresh_bitcask m depth pos now) now = Ret (fresh_bitcask m depth pos now).
Proof.
  intros Hm. rewrite (scan_nothing (fresh_bitcask m depth pos now)).
  - reflexivity.
  - apply skip_empty; [done|done|lia|lia].
  - by rewrite dump_empty.
  - apply no_snapshot; [done|done|lia].
  - by apply no_data.
  - done.
Qed.

Lemma open_empty m depth pos now :
  disks m = [d] -> e_readdir env d = [] -> bc_opened env m ∅ depth pos now = Ret (fresh_bitcask m depth pos now).
Proof.
  intros Hm Hrd. unfold bc_opened, bc_open2. rewrite init_empty by done. cbn [mbind outcome_bind]. by apply scan_fresh.
Qed.

Lemma flen_empty i : flen d ∅ i = 0.
Proof. unfold flen, fs_read. by rewrite stat_empty. Qed.

Lemma fresh_inv m depth pos now :
  disks m = [d] -> 0 <= depth <= 7 -> BitcaskSteps.inv (SN := no_snaps) env d 0 (fresh_bitcask m depth pos now) ∅.
Proof.
  intros Hm Hdp. destruct (tree_new_ok (C := C) depth pos false Hdp) as [Ht Ha]. destruct (tree_new_ok (C := C) depth pos true Hdp) as [Hct Hca].
  split; [constructor|constructor]; cbn [fresh_bitcask bc_mgr bc_updating up_bucket bc_depth bc_pos bc_tree bc_curr_tree bc_fs bc_buckets bc_curr bc_wb bc_fb wb_data wb_size wb_start]; auto.
  - constructor; auto; rewrite ?Ha, ?Hca, ?map_size_empty; [lia|apply map_Forall_empty|apply built_new].
  - constructor; [intros p t; by rewrite lookup_empty| |lia| | | |done].
    + intros i Hi. unfold bucket. rewrite lookup_empty. simpl. change (2 ^ 63) with 9223372036854775808. lia.
    + intros i Hi [x Hx]. by rewrite lookup_empty in Hx.
    + intros i Hi. by rewrite flen_empty.
    + intros i Hi. by rewrite flen_empty.
  - exists 12. unfold top. destruct (_ <=? _); done.
  - apply flen_empty.
  - intros k. by rewrite Ha, !lookup_empty.
  - exists (fun _ => []). rewrite Ha, Hca. apply fresh_log; [|done|done|done]. intros p t. by rewrite lookup_empty.
  - by vm_compute.
  - lia.
Qed.

(** ** Steps *)
Lemma wait_spec n bc M key value now :
  inv n bc M -> exists bc', wait_flush env bc key value now = Ret bc' /\ inv n bc' M /\ room bc' key value /\
    bc_curr bc' = bc_curr bc /\ bc_depth bc' = bc_depth bc /\ bc_pos bc' = bc_pos bc.
Proof.
  intros Hi. unfold wait_flush, room. destruct (bc_fb bc) as [fb|] eqn:E; [|exists bc; repeat (split; [done|]); by auto].
  destruct (Z.ltb_spec (wb_size (bc_wb bc)) (wb_pos bc + padded (HEADER + blen key + blen value))).
  - destruct (flush_end_spec env d Hd n bc M now Hi) as (b2 & -> & Hi2 & E1 & E2 & E3 & E4 & E5 & E6); [by rewrite E|].
    exists b2. repeat (split; [done|]). split; [by left|done].
  - exists bc. split; [done|]. split; [done|]. split; [by right|done].
Qed.


(** What holds after [n] events. *)
Record reached (n : Z) bc M : Prop := {
  re_inv : inv n bc M;
  re_vers : vers_ok (2 ^ 30 + n) M;
  re_curr : bc_curr bc <= 255
}.

Lemma request_step n bc M key value flag version now :
  reached n bc M -> 0 <= n < MAX_OPS -> request_ok key value flag version -> value_fits env key value ->
  (check_key key = true -> check_bucket (bc_tree bc) key = true) ->
  exists b1 bc', wait_flush env bc key value now = Ret b1 /\
    bc_set env b1 key value flag version now = Ret (bc', (spec_set M key value flag version).2) /\
    bc_depth bc' = bc_depth bc /\ bc_pos bc' = bc_pos bc /\
    (bc_curr bc' <= 255 -> reached (n + 1) bc' (spec_set M key value flag version).1).
Proof.
  intros [Hi Hv Hc] Hn Hr Hvf Hb. destruct (wait_spec n bc M key value now Hi) as (b1 & -> & Hi1 & Hroom & C1 & D1 & P1).
  destruct (set_spec env d Hfresh Hd Hmax n (2 ^ 30 + n) b1 M key value flag version now) as (b2 & E & C2 & D2 & P2 & _ & Hv2 & Hi2); auto.
  - unfold MAX_OPS in *. lia.
  - lia.
  - unfold MAX_OPS in *. change (2 ^ 30) with 1073741824. change (2 ^ 31) with 2147483648. lia.
  - intros Hck. rewrite (own_bucket env d n n bc b1 M M key); auto.
  - exists b1, b2. rewrite D2, P2. repeat (split; [done|]). intros H255. constructor; [by apply Hi2| |done].
    by replace (2 ^ 30 + (n + 1)) with (2 ^ 30 + n + 1) by lia.
Qed.

Lemma reached_next n bc M bc' :
  reached n bc M -> inv n bc' M -> bc_curr bc' <= 255 -> reached (n + 1) bc' M.
Proof.
  intros [_ Hv _] Hi Hc. constructor; [by apply (inv_le env d n); [lia|]| |done]. intros k v Hk. destruct (Hv k v Hk). lia.
Qed.

Lemma step_spec n bc M e :
  reached n bc M -> 0 <= n < MAX_OPS -> event_ok env (bc_tree bc) e ->
  exists bc', bc_step env bc e = Ret (bc', (spec_step M e).2) /\ bc_depth bc' = bc_depth bc /\ bc_pos bc' = bc_pos bc /\
    (bc_curr bc' <= 255 -> reached (n + 1) bc' (spec_step M e).1).
Proof.
  intros Hre Hn He. pose proof Hre as [Hi Hv Hc]. destruct e as [key value flag version now|key now|key del|limit period now|now]; cbn [bc_step spec_step fst snd event_ok] in *.
  - destruct He as (Hr & Hvf & Hb). destruct (request_step n bc M key value flag version now Hre Hn Hr Hvf Hb) as (b1 & b2 & -> & E & H).
    cbn [mbind outcome_bind]. rewrite E. exists b2. done.
  - destruct He as (H1 & H2 & Hb). assert (Hr : request_ok key [] 0 (-1)) by (constructor; done || constructor).
    assert (Hvf : value_fits env key []) by (apply short_value_fits; [done|unfold MAX_KEY_LEN; lia|done]).
    destruct (request_step n bc M key [] 0 (-1) now Hre Hn Hr Hvf Hb) as (b1 & b2 & -> & E & H). cbn [mbind outcome_bind]. unfold bc_delete. rewrite E. exists b2. done.
  - destruct (get_spec env d Hd Hmax n bc M key del Hi He) as (b1 & r & p & -> & Hi1 & (S1 & S2 & S3 & S4 & S5 & S6 & S7 & S8 & S9) & Hr).
    cbn [mbind outcome_bind]. exists b1. rewrite Hr. repeat (split; [done|]). by apply (reached_next n bc).
  - destruct (bc_fb bc) as [fb|] eqn:E; [exists bc; repeat (split; [done|]); by apply (reached_next n bc)|].
    unfold MAX_BUCKET_COUNT. destruct (Z.leb_spec 256 (bc_curr bc)); [lia|]. destruct (flush_due bc limit period now) eqn:Edue.
    + destruct (flush_begin_spec env d Hfresh Hd Hmax n bc M now Hi) as (b1 & -> & Hi1 & _ & _ & _ & _ & D1 & P1); [unfold MAX_OPS in *; lia|done|done|by eapply flush_due_data|].
      exists b1. repeat (split; [done|]). by apply (reached_next n bc).
    + exists bc. repeat (split; [done|]). by apply (reached_next n bc).
  - destruct (bc_fb bc) as [fb|] eqn:E; [|exists bc; repeat (split; [done|]); by apply (reached_next n bc)].
    destruct (flush_end_spec env d Hd n bc M now Hi) as (b2 & -> & Hi2 & E1 & E2 & E3 & E4 & E5 & E6); [by rewrite E|].
    exists b2. repeat (split; [done|]). by apply (reached_next n bc).
Qed.

Lemma event_ok_own n n' bc bc' M M' e :
  inv n bc M -> inv n' bc' M' -> bc_depth bc' = bc_depth bc -> bc_pos bc' = bc_pos bc -> event_ok env (bc_tree bc) e -> event_ok env (bc_tree bc') e.
Proof.
  intros Hi Hi' Hdp Hps. assert (H : forall key, check_bucket (bc_tree bc') key = check_bucket (bc_tree bc) key) by (intros; by eapply own_bucket).
  destruct e; cbn [event_ok]; auto; by rewrite H.
Qed.

(** The run ends with the right answers, or a part of it used up the bucket
    numbers. *)
Definition refined bc M (es : list event) : Prop :=
  (exists bc', bc_run env bc es = Ret (bc', (spec_run M es).2) /\ bc_curr bc' <= 255) \/
  (exists es1 es2 bc1, es = es1 ++ es2 /\ bc_run env bc es1 = Ret (bc1, (spec_run M es1).2) /\ 256 <= bc_curr bc1).

Lemma run_reached n bc M es :
  reached n bc M -> 0 <= n -> n + Z.of_nat (length es) <= MAX_OPS -> Forall (event_ok env (bc_tree bc)) es ->
  (exists bc', bc_run env bc es = Ret (bc', (spec_run M es).2) /\ reached (n + Z.of_nat (length es)) bc' (spec_run M es).1 /\
     bc_depth bc' = bc_depth bc /\ bc_pos bc' = bc_pos bc) \/
  (exists es1 es2 bc1, es = es1 ++ es2 /\ bc_run env bc es1 = Ret (bc1, (spec_run M es1).2) /\ 256 <= bc_curr bc1).
Proof.
  revert n bc M. induction es as [|e es IH]; intros n bc M Hre Hn Hlen Hes.
  { left. exists bc. cbn [length]. rewrite Z.add_0_r. done. }
  apply Forall_cons in Hes as [He Hes]. cbn [length] in *. destruct (step_spec n bc M e Hre) as (bc' & E & D1 & P1 & Hre'); [lia|done|].
  destruct (Z.le_gt_cases (bc_curr bc') 255) as [H255|H255].
  2: { right. exists [e], es, bc'. split; [done|]. split; [|lia]. cbn [bc_run spec_run]. rewrite E. done. }
  specialize (Hre' H255). destruct (IH (n + 1) bc' (spec_step M e).1) as [(b2 & E2 & H2 & D2 & P2)|(es1 & es2 & b1 & -> & E2 & H2)]; [done|lia|lia| | |].
  - eapply Forall_impl; [exact Hes|]. intros x. eapply event_ok_own; [apply Hre|apply Hre'|done|done].
  - left. exists b2. rewrite D2, P2. split; [|split; [|done]]; cbn [bc_run spec_run]; [rewrite E; cbn [mbind outcome_bind]; rewrite E2; done|].
    cbn [fst]. by replace (n + Z.of_nat (S (length es))) with (n + 1 + Z.of_nat (length es)) by lia.
  - right. exists (e :: es1), es2, b1. split; [done|]. split; [|done]. cbn [bc_run spec_run]. rewrite E. cbn [mbind outcome_bind]. rewrite E2. done.
Qed.

Lemma run_spec n bc M es :
  reached n bc M -> 0 <= n -> n + Z.of_nat (length es) <= MAX_OPS -> Forall (event_ok env (bc_tree bc)) es -> refined bc M es.
Proof.
  intros Hre Hn Hlen Hes. destruct (run_reached n bc M es Hre Hn Hlen Hes) as [(bc' & E & H & _)|H]; [left|by right]. exists bc'. split; [done|apply H].
Qed.

End Facts.

Section Main.
Context {C : Type} {KC : KeyCodec C} {KL : KeyCodecLaws C}.
Context (env : Env) (d : bytes).
Context (Hfresh : forall n, length (e_fresh env n) = Z.to_nat n /\ bytes_ok (e_fresh env n)).
Context (Hd : blen d <= 230).
Context (Hmax : 0 <= e_max_bucket_size env <= 2 ^ 32 - 2 ^ 26).

(** C3. A bitcask is a versioned map.  Opened on an empty directory and given any
    history of sets, deletes and gets, with the two halves of a flush at any
    moments in between, a bitcask answers as a finite map from keys to (version,
    flag, value) does: sets are stored under the next version, refused ones leave
    it alone, gets return the last stored value whether it is in the write
    buffer, in the buffer being flushed or in a data file (compressed or not).
    Nothing faults and nothing exits, up to two million events, until the 256
    bucket numbers are used up.  The limit of a data file is any that the command
    line allows. *)
Theorem bc_history_refines_map m depth pos now es :
  disks m = [d] -> e_readdir env d = [] -> 0 <= depth <= 7 -> Forall (event_ok env (ht_new (C := C) depth pos false)) es ->
  Z.of_nat (length es) <= MAX_OPS ->
  exists bc, bc_opened env m ∅ depth pos now = Ret bc /\ refined env bc ∅ es.
Proof.
  intros Hm Hrd Hdp Hes Hlen. exists (fresh_bitcask m depth pos now). split; [by apply (open_empty env d)|]. apply (run_spec env d Hfresh Hd Hmax 0); [|lia|lia|done].
  constructor; [by apply fresh_inv|apply map_Forall_empty|cbn; lia].
Qed.
End Main.

(** ** Concrete histories *)
Definition demo_env (max : Z) : Env :=
  {| e_max_bucket_size := max; e_check_file_size := true; e_autolink := true;
     e_disk := {| avail := fun _ => 0; coin := fun _ => true |}; e_readdir := fun _ => []; e_fresh := zeros; e_addr := fun _ => 0; e_cwd := lit "/"; e_dir_ok := fun _ => true |}.
Definition demo_mgr : Mgr := {| disks := [lit "/db"] |}.
Definition DEFAULT_MAX : Z := 4000 * 2 ^ 20.

#[export] Instance int32_dec x : Decision (int32 x).
Proof. unfold int32. apply _. Defined.
#[export] Instance request_ok_dec key value flag version : Decision (request_ok key value flag version).
Proof.
  refine (cast_if (decide (bytes_ok key /\ bytes_ok value /\ blen key <= 232 /\ int32 flag /\ Z.land flag COMPRESS_FLAG = 0 /\ Z.abs version <= 2 ^ 30))).
  - abstract (destruct a as (? & ? & ? & ? & ? & ?); by constructor).
  - abstract (intros []; apply n; repeat split; apply rq_flag || done).
Defined.
#[export] Instance event_ok_dec {C} env (t : HTree C) e : Decision (event_ok env t e).
Proof. destruct e; unfold event_ok, value_fits; apply _. Defined.

Definition demo_events : list event :=
  [ESet (lit "photo") (repeat 97 700) 3 0 100; ESet (lit "name") (lit "bean") 0 7 100; EFlushBegin 0 0 101; EGet (lit "photo") false;
   ESet (lit "photo") (repeat 98 300) 3 0 102; EFlushEnd 103; EGet (lit "name") false; EDelete (lit "name") 104; EGet (lit "name") false;
   EGet (lit "name") true; ESet (lit "name") [] 0 7 105; EGet (lit "photo") false].

Lemma bc_history_refines_map_witness :
  exists bc, bc_opened (C := Codec) (demo_env DEFAULT_MAX) demo_mgr ∅ 0 0 99 = Ret bc /\ refined (demo_env DEFAULT_MAX) bc ∅ demo_events.
Proof.
  apply (bc_history_refines_map (demo_env DEFAULT_MAX) (lit "/db")).
  - intros n. apply zeros_ok.
  - vm_compute. discriminate.
  - split; vm_compute; discriminate.
  - reflexivity.
  - reflexivity.
  - lia.
  - by_compute.
  - vm_compute. discriminate.
Defined.

(** The answers to this history. *)
Example demo_answers :
  match bc_opened (C := Codec) (demo_env DEFAULT_MAX) demo_mgr ∅ 0 0 99 with
  | Ret bc => match bc_run (demo_env DEFAULT_MAX) bc demo_events with Ret (_, l) => Some l | _ => None end
  | _ => None
  end =
  Some [AStored true; AStored true; ANone; AValue (Some (1, 3, repeat 97 700)); AStored true; ANone; AValue (Some (7, 0, lit "bean"));
        AStored true; AValue None; AValue (Some (-8, 0, [])); AStored false; AValue (Some (2, 3, repeat 98 300))].
Proof. vm_compute. reflexivity. Qed.

(** ** Limits *)
(** The numbers of data files run out silently.  [bc_flush] looks at
    [MAX_BUCKET_COUNT] only when it begins, so [bc_set] may rotate from file 255 to
    file 256 and go on: the set reports success, but the position it records is
    [offset | 256], which reads as file 0, and the key cannot be read back. *)
Theorem bucket_numbers_exhausted :
  exists b1 b2, bc_rotate (C := Codec) (demo_env DEFAULT_MAX) (set_curr (fresh_bitcask demo_mgr 0 0 99) 255) 100 = Ret b1 /\ bc_curr b1 = 256 /\
    bc_set (demo_env DEFAULT_MAX) b1 (lit "key") (lit "value") 0 0 101 = Ret (b2, true) /\
    Z.land (match ht_get2 (bc_tree b2) (lit "key") with Ret (_, Some it) => it_pos it | _ => -1 end) 0xff = 0 /\
    match bc_get (demo_env DEFAULT_MAX) b2 (lit "key") false with Ret (_, r, _) => r = None | _ => False end.
Proof.
  destruct (bc_rotate (C := Codec) (demo_env DEFAULT_MAX) (set_curr (fresh_bitcask demo_mgr 0 0 99) 255) 100) as [b1| |] eqn:E1; [|by vm_compute in E1|by vm_compute in E1].
  exists b1. destruct (bc_set (demo_env DEFAULT_MAX) b1 (lit "key") (lit "value") 0 0 101) as [[b2 ok]| |] eqn:E2;
    vm_compute in E1; injection E1 as <-; vm_compute in E2; [|discriminate|discriminate]. injection E2 as <- <-.
  eexists. split; [reflexivity|]. split; [reflexivity|]. split; [reflexivity|]. split; vm_compute; reflexivity.
Qed.

(** The limit on a data file is tested in 32 bits.  With the default limit of
    4000 MB and a write buffer that a value over 64 MB has enlarged to 128 MB, the
    test passes for every start above 3968 MB although the buffer ends past the
    limit and past 4 GB, where offsets wrap around to 0. *)
Theorem rotate_test_wraps start :
  2 ^ 32 - 2 ^ 27 < start <= DEFAULT_MAX ->
  needs_rotate start (2 ^ 27) DEFAULT_MAX = false /\ DEFAULT_MAX < start + 2 ^ 27 /\
  exists pos, 0 <= pos < 2 ^ 27 /\ u32 (start + pos) = 0.
Proof.
  unfold DEFAULT_MAX, needs_rotate, u32. intros H. assert (E : (start + 2 ^ 27) mod 2 ^ 32 = start + 2 ^ 27 - 2 ^ 32).
  { symmetry. apply (Z.mod_unique _ _ 1); lia. }
  rewrite E. split; [apply Z.ltb_ge; lia|]. split; [lia|]. exists (2 ^ 32 - start). split; [lia|]. by replace (start + (2 ^ 32 - start)) with (2 ^ 32) by lia.
Qed.

Lemma rotate_test_wraps_witness :
  2 ^ 32 - 2 ^ 27 < 4170000000 <= DEFAULT_MAX /\ needs_rotate 4170000000 (2 ^ 27) DEFAULT_MAX = false /\ DEFAULT_MAX < 4170000000 + 2 ^ 27 /\
  exists pos, 0 <= pos < 2 ^ 27 /\ u32 (4170000000 + pos) = 0.
Proof. split; [unfold DEFAULT_MAX; lia|]. apply (rotate_test_wraps 4170000000). unfold DEFAULT_MAX; lia. Defined.

(** ** Versions *)
(** Whether a set with [version] is taken over a stored version [oldv] (0 if there is
    none, negative if the key was deleted), and the version that it gives. *)
Definition accepts (version oldv : Z) : bool :=
  if version =? 0 then true
  else if version =? -1 then 0 <? oldv
  else (Z.abs oldv <? Z.abs version) && ((0 <? version) || (0 <? oldv)).
Definition next_version (version oldv : Z) : Z :=
  if version =? 0 then Z.abs oldv + 1 else if version =? -1 then - (oldv + 1) else version.

Lemma version_rules version oldv :
  Z.abs version < 2 ^ 31 - 1 -> Z.abs oldv < 2 ^ 31 - 1 ->
  new_version version oldv = (if accepts version oldv then Some (next_version version oldv) else None) /\
  (accepts version oldv = true -> Z.abs oldv < Z.abs (next_version version oldv)).
Proof.
  intros Hv Ho. unfold new_version, accepts, next_version. change (2 ^ 31) with 2147483648 in *.
  assert (S : forall x, Z.abs x < 2147483648 -> s32 x = x) by (intros; apply s32_id; change (2 ^ 31) with 2147483648; lia).
  destruct (Z.eqb_spec version 0), (Z.ltb_spec 0 oldv), (Z.leb_spec oldv 0), (Z.ltb_spec version 0), (Z.ltb_spec 0 version), (Z.eqb_spec version (-1)),
    (Z.leb_spec (Z.abs version) (Z.abs oldv)), (Z.ltb_spec (Z.abs oldv) (Z.abs version)); try lia; cbn [andb orb]; rewrite ?S by lia;
    (split; [f_equal; lia || done|intros; lia || done]).
Qed.

(** What a set leaves under its key. *)
Definition entry_after (old : option (Z * Z * bytes)) (value : bytes) (flag version : Z) : option (Z * Z * bytes) :=
  let oldv := match old with Some v => v.1.1 | None => 0 end in
  if accepts version oldv then
    match old with
    | Some (ov, ofl, oval) =>
        if (version =? 0) && (0 <? ov) && (ofl =? flag) && bool_decide (oval = value) then old
        else Some (next_version version oldv, flag, value)
    | None => Some (next_version version oldv, flag, value)
    end
  else old.

Lemma spec_run_app M es1 es2 :
  spec_run M (es1 ++ es2) = ((spec_run (spec_run M es1).1 es2).1, (spec_run M es1).2 ++ (spec_run (spec_run M es1).1 es2).2).
Proof. revert M. induction es1 as [|e es1 IH]; intros M; cbn [app spec_run fst snd]; [by destruct (spec_run M es2)|]. by rewrite IH. Qed.

Lemma spec_set_entry M N key value flag version :
  vers_ok N M -> N < 2 ^ 31 - 1 -> Z.abs version < 2 ^ 31 - 1 -> check_key key = true -> blen value <= MAX_VALUE_LEN -> (version < 0 -> value = []) ->
  let oldv := match M !! key with Some v => v.1.1 | None => 0 end in
  (spec_set M key value flag version).2 = accepts version oldv /\ (spec_set M key value flag version).1 !! key = entry_after (M !! key) value flag version.
Proof.
  intros HM HN Hv Hck Hvl Hneg oldv. assert (Ho : Z.abs oldv < 2 ^ 31 - 1) by (unfold oldv; destruct (M !! key) as [v|] eqn:E; [destruct (HM key v E); lia|done]).
  unfold spec_set, entry_after. fold oldv. rewrite Hck. assert (E0 : (version <? 0) && (0 <? blen value) = false) by (destruct (Z.ltb_spec version 0) as [H|]; [by rewrite (Hneg H)|done]).
  rewrite E0, (proj2 (Z.ltb_ge _ _) Hvl). cbn [orb negb]. destruct (version_rules version oldv Hv Ho) as [-> Hup]. destruct (accepts version oldv) eqn:Ea; [|done]. specialize (Hup eq_refl). split; [done|]. cbn [fst].
  destruct (M !! key) as [[[ov ofl] oval]|] eqn:EM; cbn [andb]; [|by rewrite lookup_insert_eq]. unfold oldv in *. cbn [fst] in *.
  assert (Hver : version = 0 -> 0 <? next_version version ov = true) by (intros ->; apply Z.ltb_lt; unfold next_version; change (0 =? 0) with true; cbv iota; lia).
  destruct (Z.eqb_spec version 0) as [E|E]; rewrite ?andb_true_r, ?andb_false_r; cbn [andb]; [|by rewrite lookup_insert_eq]. rewrite (Hver E).
  destruct (0 <? ov), (ofl =? flag), (bool_decide (oval = value)); cbn [andb]; by rewrite ?lookup_insert_eq.
Qed.

Section Versions.
Context {C : Type} {KC : KeyCodec C} {KL : KeyCodecLaws C}.
Context (env : Env) (d : bytes).
Context (Hfresh : forall n, length (e_fresh env n) = Z.to_nat n /\ bytes_ok (e_fresh env n)).
Context (Hd : blen d <= 230).
Context (Hmax : 0 <= e_max_bucket_size env <= 2 ^ 32 - 2 ^ 26).

Lemma spec_versions es : forall n M t, vers_ok (2 ^ 30 + n) M -> 0 <= n -> n + Z.of_nat (length es) <= MAX_OPS -> Forall (event_ok (C := C) env t) es ->
  vers_ok (2 ^ 30 + (n + Z.of_nat (length es))) (spec_run M es).1.
Proof.
  assert (Hset : forall n M key value flag version, vers_ok (2 ^ 30 + n) M -> 0 <= n < MAX_OPS -> Z.abs version <= 2 ^ 30 -> vers_ok (2 ^ 30 + (n + 1)) (spec_set M key value flag version).1).
  { intros n M key value flag version HM Hn Hv. assert (HM' : vers_ok (2 ^ 30 + (n + 1)) M) by (intros k v Hk; destruct (HM k v Hk); lia). unfold spec_set. destruct (_ || _); [done|].
    destruct (new_version version _) as [ver|] eqn:Ev; [|done]. destruct (_ && _); [done|]. apply map_Forall_insert_2; [|done].
    assert (Ho : Z.abs (match M !! key with Some v => v.1.1 | None => 0 end) <= 2 ^ 30 + n) by (destruct (M !! key) as [v|] eqn:E; [by destruct (HM key v E)|change (2 ^ 30) with 1073741824; simpl; lia]).
    destruct (new_version_bound version _ ver (2 ^ 30 + n) Hv ltac:(unfold MAX_OPS in Hn; lia) Ho Ev) as (V1 & V2 & _). cbn. lia. }
  induction es as [|e es IH]; intros n M t HM Hn Hlen Hes; cbn [length spec_run fst]; [by rewrite !Z.add_0_r|]. apply Forall_cons in Hes as [He Hes]. cbn [length] in Hlen.
  replace (n + Z.of_nat (S (length es))) with (n + 1 + Z.of_nat (length es)) by lia. apply (IH (n + 1) _ t); [|lia|lia|done].
  assert (HM' : vers_ok (2 ^ 30 + (n + 1)) M) by (intros k v Hk; destruct (HM k v Hk); lia).
  destruct e; cbn [spec_step fst event_ok] in *; try done; apply Hset; try (done || lia). by destruct He as [[] _].
Qed.

(** C33. Which version a set stores.  After any history of a bitcask, as long as the 256
    file numbers last, a set of a valid key (with a value within the size limit, and an
    empty one for a negative version) with version 0 is always taken and gives the next version, except that setting the
    value and flag that the key has leaves its version alone; a deletion (-1) is taken
    only for a live key and gives the next version with the sign turned; any other
    version is taken only if it is ahead of the stored one (a negative one only for a live
    key) and is stored as it is, even over the same value.  A set that is not taken
    reports failure and leaves the entry as it was.  What a following read returns is
    the entry so determined. *)
Theorem set_stores_version m depth pos now es key value flag version t :
  disks m = [d] -> e_readdir env d = [] -> 0 <= depth <= 7 -> Forall (event_ok env (ht_new (C := C) depth pos false)) (es ++ [ESet key value flag version t]) ->
  Z.of_nat (length es) + 2 <= MAX_OPS -> check_key key = true -> blen value <= MAX_VALUE_LEN -> (version < 0 -> value = []) ->
  let old := (spec_run ∅ es).1 !! key in
  let run := es ++ [ESet key value flag version t; EGet key true] in
  exists bc, bc_opened (C := C) env m ∅ depth pos now = Ret bc /\
    ((exists bc', bc_run env bc run =
        Ret (bc', (spec_run ∅ es).2 ++ [AStored (accepts version (match old with Some v => v.1.1 | None => 0 end)); AValue (entry_after old value flag version)])) \/
     (exists es1 es2 bc1, run = es1 ++ es2 /\ bc_run env bc es1 = Ret (bc1, (spec_run ∅ es1).2) /\ 256 <= bc_curr bc1)).
Proof.
  intros Hm Hrd Hdp Hes Hlen Hck Hvl Hneg old run. pose proof Hes as [Hes1 Hes2]%Forall_app. apply Forall_cons in Hes2 as [[Hrq _] _].
  exists (fresh_bitcask m depth pos now). split; [by apply (open_empty env d)|].
  assert (Hspec : (spec_run ∅ run).2 = (spec_run ∅ es).2 ++ [AStored (accepts version (match old with Some v => v.1.1 | None => 0 end)); AValue (entry_after old value flag version)]).
  { assert (HM : vers_ok (2 ^ 30 + (0 + Z.of_nat (length es))) (spec_run ∅ es).1) by (eapply spec_versions; [apply map_Forall_empty|lia|lia|exact Hes1]).
    pose proof (rq_version _ _ _ _ Hrq) as Hv. unfold run. rewrite spec_run_app. cbn [snd spec_run spec_step fst]. f_equal.
    destruct (spec_set_entry (spec_run ∅ es).1 _ key value flag version HM) as [-> E2]; [unfold MAX_OPS in Hlen; lia|lia|done|done|done|].
    unfold spec_get. rewrite Hck, E2. cbn [negb andb]. fold old. by destruct (entry_after old value flag version). }
  destruct (run_spec env d Hfresh Hd Hmax 0 (SN := no_snaps) (fresh_bitcask (C := C) m depth pos now) ∅ run) as [(bc' & E & _)|H]; [| | | |left; exists bc'; by rewrite <- Hspec|by right].
  - constructor; [by apply fresh_inv|apply map_Forall_empty|cbn; lia].
  - lia.
  - unfold run. rewrite length_app. cbn [length]. lia.
  - unfold run. apply Forall_app. split; [done|]. apply Forall_app in Hes as [_ He]. apply Forall_cons in He as [He _]. constructor; [done|]. constructor; [|done]. apply He.
Qed.
End Versions.

(** Three sets of one key: a new one, the same value again, an old version. *)
Lemma set_stores_version_witness :
  let first := [ESet (lit "photo") (lit "bean") 3 0 100] in
  exists bc, bc_opened (C := Codec) (demo_env DEFAULT_MAX) demo_mgr ∅ 0 0 99 = Ret bc /\
    ((exists bc', bc_run (demo_env DEFAULT_MAX) bc (first ++ [ESet (lit "photo") (lit "bean") 3 0 101; EGet (lit "photo") true]) =
        Ret (bc', [AStored true; AStored true; AValue (Some (1, 3, lit "bean"))])) \/
     (exists es1 es2 bc1, first ++ [ESet (lit "photo") (lit "bean") 3 0 101; EGet (lit "photo") true] = es1 ++ es2 /\
        bc_run (demo_env DEFAULT_MAX) bc es1 = Ret (bc1, (spec_run ∅ es1).2) /\ 256 <= bc_curr bc1)).
Proof.
  cbv zeta. apply (set_stores_version (demo_env DEFAULT_MAX) (lit "/db") ltac:(intros n; apply zeros_ok) ltac:(vm_compute; discriminate) ltac:(split; vm_compute; discriminate)
    demo_mgr 0 0 99 [ESet (lit "photo") (lit "bean") 3 0 100] (lit "photo") (lit "bean") 3 0 101);
    first [reflexivity|lia|by_compute|(vm_compute; discriminate)|discriminate].
Defined.
Example demo_versions :
  match bc_opened (C := Codec) (demo_env DEFAULT_MAX) demo_mgr ∅ 0 0 99 with
  | Ret bc =>
      match bc_run (demo_env DEFAULT_MAX) bc
              [ESet (lit "k") (lit "a") 3 0 100; ESet (lit "k") (lit "a") 3 0 101; EGet (lit "k") true; ESet (lit "k") (lit "a") 3 9 102; EGet (lit "k") true;
               ESet (lit "k") (lit "b") 3 5 103; EGet (lit "k") true; ESet (lit "k") [] 0 (-1) 104; EGet (lit "k") true] with
      | Ret (_, l) => Some l
      | _ => None
      end
  | _ => None
  end = Some [AStored true; AStored true; AValue (Some (1, 3, lit "a")); AStored true; AValue (Some (9, 3, lit "a"));
              AStored false; AValue (Some (9, 3, lit "a")); AStored true; AValue (Some (-10, 0, []))].
Proof. vm_compute. reflexivity. Qed.
