(* ===== verification/Collection.v ===== *)
(** * Garbage collection of a whole bitcask

    [bc_optimize] over all the data files: every live key is still read, with its
    version, flag and value, whichever files were collected, into which number,
    and whichever were only renumbered. *)
From Stdlib Require Import ZArith Lia List.
From stdpp Require Import base numbers list gmap strings.
From S2P Require Import Prelude Hash CText Codec CodecFacts HTree HTreeMap HTreeSpec HTreeVisit QuickLZ Disk DiskFacts Hint HintFacts Record RecordFacts Scan ScanFacts GcFacts Buckets BucketsFacts Bitcask BitcaskInv BitcaskLog BitcaskSteps BitcaskSpec BitcaskLife BitcaskHistory.

Import Fnv.

(** A record of a log is where its offset says. *)
Lemma logged_in fresh p l b q r pre :
  logged fresh p l b -> (q, r) ∈ l -> blen pre = p -> in_bytes fresh (pre ++ b) q r.
Proof.
  intros H. revert pre. induction H as [p|p x x' l b Hs Hle Hl IH]; intros pre Hin Hp; [by apply not_elem_of_nil in Hin|].
  apply elem_of_cons in Hin as [[= -> ->]|Hin].
  - exists x', pre, b. done.
  - rewrite app_assoc. apply IH; [done|]. destruct (encode_length fresh x') as (E & _). rewrite blen_app. lia.
Qed.
Lemma in_bytes_inj fresh l off r r' : in_bytes fresh l off r -> in_bytes fresh l off r' -> r = r'.
Proof. intros H%in_bytes_read H'%in_bytes_read. congruence. Qed.

(** A step of the outcome monad, for a rest that must not be evaluated. *)
Lemma ret_bind {A B} (x : A) (F : A -> outcome B) : mbind F (Ret x) = F x.
Proof. reflexivity. Qed.

(** A hint file is read alike wherever its path leads to the same file. *)
Lemma read_direct f f' p : (forall t, f !! p <> Some (Link t)) -> f' !! p = f !! p -> fs_read f' p = fs_read f p.
Proof. intros H E. unfold fs_read, stat_reg. rewrite !real_direct by (rewrite ?E; done). by rewrite E. Qed.
Lemma open_hint_same fresh f f' now p h :
  (forall t, f !! p <> Some (Link t)) -> f' !! p = f !! p -> open_hint fresh f now p None = Ret (f, Some h) -> open_hint fresh f' now p None = Ret (f', Some h).
Proof.
  intros H E. unfold open_hint. rewrite (read_direct f f') by done. destruct (fs_read f p); [|by intros [=]].
  destruct (hint_buf _ _ _); [|done|done]. cbn [mbind outcome_bind]. by intros [= ->].
Qed.

Lemma hint_is_qlz d j : is_qlz (hint d j) = true.
Proof.
  unfold is_qlz. apply bool_decide_eq_true. unfold hint, path, join, name. change (suffix HINT_FILE) with (lit ".hint" ++ lit ".qlz"). rewrite !app_assoc.
  rewrite length_app. change (length (lit ".qlz")) with 4%nat. rewrite Nat.add_sub. apply drop_app_length.
Qed.

(** ** Giving the items of one bucket another number *)
Section Renumber.
Context {C : Type} {KC : KeyCodec C} {KL : KeyCodecLaws C}.
Implicit Types t : HTree C.

(** An entry at [pos] moves to the same offset of bucket [index]. *)
Definition repos (index pos : Z) (e : entry) : entry :=
  if pos =? e.1.1 then (Z.lor (Z.land pos 0xffffff00) index, e.1.2, e.2) else e.

Lemma renumber_one index t it :
  tree_ok t -> key_fits (it_key it) ->
  exists t', update_item_pos index it t = Ret t' /\ tree_ok t' /\ same_cfg t t' /\
    forall k, abs t' !! k = if decide (it_key it = k) then repos index (it_pos it) <$> abs t !! k else abs t !! k.
Proof.
  intros Ht Hk. unfold update_item_pos. destruct (ht_get2_spec t (it_key it) Ht Hk) as (t1 & p & -> & Ht1 & Hd1 & Hp1 & Ha1 & Hg & Hkey). cbn [mbind outcome_bind].
  destruct p as [p|]; cbn [fmap option_fmap option_map] in Hg.
  2: { exists t1. do 3 (split; [done|]). intros k. rewrite Ha1. case_decide; [subst k; by rewrite <- Hg|done]. }
  rewrite (Hkey p eq_refl). assert (Hb : check_bucket t1 (it_key it) = true).
  { rewrite (check_bucket_cfg t t1) by done. destruct (check_bucket t (it_key it)) eqn:E; [done|]. by rewrite abs_own in Hg. }
  unfold repos. destruct (Z.eqb_spec (it_pos it) (it_pos p)) as [E|E].
  - destruct (ht_add2_spec t1 (it_key it) (Z.lor (Z.land (it_pos it) 0xffffff00) index) (it_hash p) (it_ver p) Ht1 Hk) as (t2 & -> & H1 & H2 & H3 & H4). rewrite Hb in H4.
    exists t2. split; [done|]. split; [done|]. split; [split; congruence|]. intros k. rewrite H4, lookup_insert, Ha1. case_decide; [subst k|done].
    rewrite <- Hg. cbn. by rewrite E, Z.eqb_refl.
  - exists t1. do 3 (split; [done|]). intros k. rewrite Ha1. case_decide; [subst k|done]. rewrite <- Hg. cbn. by rewrite (proj2 (Z.eqb_neq _ _) E).
Qed.

Lemma renumber_list index its t :
  tree_ok t -> NoDup (List.map it_key its) -> Forall (fun it => key_fits (it_key it)) its ->
  exists t', visit_list (update_item_pos index) its t = Ret t' /\ tree_ok t' /\ same_cfg t t' /\
    forall k, abs t' !! k = match find_key k its with Some it => repos index (it_pos it) <$> abs t !! k | None => abs t !! k end.
Proof.
  intros Ht Hnd. revert t Ht. induction its as [|it its IH]; intros t Ht Hf; cbn [visit_list]; [exists t; by split; [|split; [|split]]|].
  simpl in Hnd. apply NoDup_cons in Hnd as [Hni Hnd]. apply Forall_cons in Hf as [Hk Hf].
  destruct (renumber_one index t it Ht Hk) as (t1 & -> & Ht1 & Hc1 & Ha1). cbn [mbind outcome_bind].
  destruct (IH Hnd t1 Ht1 Hf) as (t2 & -> & Ht2 & Hc2 & Ha2).
  exists t2. split; [done|]. split; [done|]. split; [destruct Hc1, Hc2; split; congruence|]. intros k. rewrite Ha2, Ha1. unfold find_key at 2. simpl.
  destruct (decide (it_key it = k)) as [<-|Hne].
  - by rewrite bool_decide_true, find_key_none by done.
  - rewrite bool_decide_false by done. by fold (find_key k its).
Qed.

Lemma renumber_visit index ct t :
  tree_ok ct -> tree_ok t ->
  exists t', ht_visit ct (update_item_pos index) t = Ret t' /\ tree_ok t' /\ same_cfg t t' /\
    forall k, abs t' !! k = match abs ct !! k with Some e' => repos index e'.1.1 <$> abs t !! k | None => abs t !! k end.
Proof.
  intros Hct Ht. destruct (ht_visit_list ct Hct) as (its & Hv & Hnd & Hmap & Hk). rewrite Hv.
  destruct (renumber_list index its t Ht Hnd) as (t' & -> & Ht' & Hc & Ha); [eapply Forall_impl; [exact Hk|]; by intros ? [? _]|].
  exists t'. split; [done|]. split; [done|]. split; [done|]. intros k. rewrite Ha, <- Hmap, map_find. by destruct (find_key k its).
Qed.
End Renumber.

(** ** The collection of all the files *)
Section Whole.
Context {C : Type} {KC : KeyCodec C} {KL : KeyCodecLaws C} {SN : Snaps}.
Context (env : Env) (d : bytes).
Context (Hfresh : forall n, length (e_fresh env n) = Z.to_nat n /\ bytes_ok (e_fresh env n)).
Context (Hd : blen d <= 230) (Hmax : 2 ^ 27 <= e_max_bucket_size env <= DEFAULT_MAX).

(** The bitcask when the collection starts, between two flushes. *)
Context (n N : Z) (bc0 : Bitcask C) (M : store) (L : Z -> log).
Let m0 := abs (bc_tree bc0).
Let f0 := bc_fs bc0.
Let curr := bc_curr bc0.
Context (Hcore : core env d n bc0 M) (Hbuf : buf_ok env (bc_wb bc0)) (Hn : n <= MAX_OPS) (Hvers : vers_ok N M) (HN : N < 2 ^ 31).
Context (Hlog : log_ok (C := C) env d n (bc_depth bc0) (bc_pos bc0) f0 curr (bc_wb bc0) (bc_fb bc0) m0 (abs (bc_curr_tree bc0)) L).
Context (Hfb : bc_fb bc0 = None) (Hcurr : curr < 256).
Implicit Types (t : HTree C) (bc : Bitcask C).

Lemma curr_nonneg : 0 <= curr.
Proof. apply (fo_curr _ _ _ _ (co_files _ _ _ _ _ Hcore)). Qed.
Lemma plain0 : plain f0.
Proof. apply (fo_plain _ _ _ _ (co_files _ _ _ _ _ Hcore)). Qed.

(** The file of a bucket before the current one is its log. *)
Lemma source i : 0 <= i < curr -> exists file, fs_read f0 (data d i) = Some file /\ logged (e_fresh env) 0 (L i) file /\ 0 < blen file <= e_max_bucket_size env.
Proof.
  intros Hi. pose proof (lo_log _ _ _ _ _ _ _ _ _ _ _ _ Hlog i ltac:(lia)) as Hl. pose proof (lo_full _ _ _ _ _ _ _ _ _ _ _ _ Hlog ltac:(lia) i Hi ltac:(lia)) as Hne.
  pose proof (lo_limit _ _ _ _ _ _ _ _ _ _ _ _ Hlog ltac:(lia) i ltac:(lia)) as Hsz.
  unfold stream, fb_part, wb_part in Hl, Hsz. rewrite Hfb in Hl, Hsz. rewrite (proj2 (Z.eqb_neq curr i)), !app_nil_r in Hl, Hsz by lia.
  destruct (fs_read f0 (data d i)) as [file|]; cbn [default id from_option] in *; [|by inversion Hl; destruct Hne].
  exists file. split; [done|]. split; [done|]. split; [|done]. apply logged_length in Hl. destruct (L i); [done|]. cbn [length] in Hl. lia.
Qed.

Lemma source_ready i x : 0 <= i < curr -> x ∈ L i -> hint_ready x.
Proof.
  intros Hi Hx. destruct (source i Hi) as (file & _ & Hl & Hs). eapply Forall_forall; [|exact Hx]. eapply (logged_ready _ 0); [exact Hl|lia|done|].
  unfold DEFAULT_MAX in *. lia.
Qed.

(** The entry of a key has the version of the store; in a bucket before the
    current one it points to the record in the log. *)
Lemma orig_value k e : m0 !! k = Some e -> exists v, M !! k = Some v /\ e.1.2 = v.1.1 /\ v.1.1 <> 0 /\ int32 v.1.1.
Proof.
  intros He. pose proof (co_points _ _ _ _ _ Hcore k) as Hp. fold m0 in Hp. rewrite He in Hp. destruct (M !! k) as [v|] eqn:Ev; [|done].
  destruct Hp as (_ & E & _). exists v. destruct (Hvers _ _ Ev) as [H1 H2]. split; [done|]. split; [done|]. split; [done|]. unfold int32. lia.
Qed.

(** A record more than the limit ends before 4 GB. *)
Lemma big_fits : 0 <= big env /\ e_max_bucket_size env + 256 + big env < 2 ^ 32.
Proof. unfold big, top, DEFAULT_MAX in *. destruct (Z.leb_spec (e_max_bucket_size env) (2 ^ 32 - 2 ^ 27)); lia. Qed.

(** Every entry of bucket [i] points to a record of it. *)
Lemma orig_point i k e : 0 <= i < curr -> m0 !! k = Some e -> Z.land e.1.1 0xff = i -> exists p r, (p, r) ∈ L i /\ r_key r = k /\ e.1.1 = Z.lor p i.
Proof.
  intros Hi He Hb. destruct (lo_point _ _ _ _ _ _ _ _ _ _ _ _ Hlog k e He) as (r & Hr & Hk). rewrite Hb in Hr. exists (Z.land e.1.1 0xffffff00), r. split; [done|]. split; [done|].
  pose proof (co_points _ _ _ _ _ Hcore k) as Hp. fold m0 in Hp. rewrite He in Hp. destruct (M !! k) as [v|]; [|done]. destruct Hp as (_ & _ & _ & (_ & Hr32 & _) & _).
  rewrite <- Hb. rewrite <- Z.land_lor_distr_r. change (Z.lor 0xffffff00 0xff) with (Z.ones 32). rewrite Z.land_ones by lia. by rewrite Z.mod_small.
Qed.

(** The record at the entry of [k] has the flag and the value of the store. *)
Definition holds (f : fs) (k : bytes) (e : entry) : Prop :=
  exists v r file, M !! k = Some v /\ r_key r = k /\ r_flag r = v.1.2 /\ r_value r = v.2 /\
    fs_read f (data d (Z.land e.1.1 0xff)) = Some file /\ in_bytes (e_fresh env) file (Z.land e.1.1 0xffffff00) r.

Lemma orig_holds k e : m0 !! k = Some e -> Z.land e.1.1 0xff < curr -> holds f0 k e.
Proof.
  intros He Hb. pose proof (co_points _ _ _ _ _ Hcore k) as Hp. fold m0 in Hp. rewrite He in Hp. destruct (M !! k) as [v|] eqn:Ev; [|done].
  destruct Hp as (_ & _ & _ & _ & r & Hrk & Hrf & Hrv & HL). rewrite Hfb in HL. destruct HL as [[E _]|[(x & E & _)|(file & Hr & Hin)]]; [unfold curr in *; lia|done|].
  exists v, r, file. done.
Qed.

(** A record of the log that the entry points to is the one. *)
Lemma orig_record i k e p r :
  0 <= i < curr -> m0 !! k = Some e -> (p, r) ∈ L i -> e.1.1 = Z.lor p i -> exists v, M !! k = Some v /\ r_flag r = v.1.2 /\ r_value r = v.2.
Proof.
  intros Hi He Hin Hpos. destruct (source_ready i _ Hi Hin) as (Hm & Hp & _). cbn [fst] in *. destruct (log_bits i p ltac:(lia) Hm Hp) as [B1 B2]. rewrite <- Hpos in B1, B2.
  destruct (orig_holds k e He ltac:(lia)) as (v & r' & file & Hv & _ & Hf & Hval & Hr & Hib). rewrite B1 in Hr. rewrite B2 in Hib.
  destruct (source i Hi) as (file' & Hr' & Hl & _). assert (file' = file) as -> by congruence.
  pose proof (logged_in _ _ _ _ p r [] Hl Hin eq_refl) as Hib'. cbn [app] in Hib'. rewrite (in_bytes_inj _ _ _ _ _ Hib' Hib). by exists v.
Qed.
(** ** Between two files *)
(** The files below [i] have been collected, up to number [last]; those from [i] on
    are as they were.  The entries that still name them are those of the start;
    every other live entry points to the record of its key in a file that stays. *)
Record gst (i last : Z) t (f : fs) (b : sizes) : Prop := {
  gs_tree : tree_ok t;
  gs_cfg : same_cfg (bc_tree bc0) t;
  gs_plain : plain f;
  gs_fit : sizes_fit b;
  gs_last : -1 <= last < i;
  gs_rest : forall j, i <= j <= 257 -> f !! data d j = f0 !! data d j /\ f !! hint d j = f0 !! hint d j /\ bucket b j = bucket (bc_buckets bc0) j;
  gs_gap : forall j, last < j < i -> f !! data d j = None /\ bucket b j = -1;
  gs_done : forall j, 0 <= j <= last -> is_Some (f !! data d j) /\ 0 <= bucket b j /\ (0 < flen d f j <-> 0 < bucket b j) /\ flen d f j < 2 ^ 32;
  gs_target : 0 <= last -> flen d f last <= e_max_bucket_size env /\ flen d f last mod 256 = 0 /\
    exists h, bytes_ok h /\ blen h <= total L (Z.to_nat i) * 261 /\ forall now, open_hint (e_fresh env) f now (hint d last) None = Ret (f, Some h);
  gs_entry : forall k, match abs t !! k with
    | Some e => exists e0, m0 !! k = Some e0 /\ e.1.2 = e0.1.2 /\ (i <= Z.land e.1.1 0xff -> e = e0) /\
        (Z.land e.1.1 0xff < i -> 0 < e.1.2 -> Z.land e.1.1 0xff <= last /\ holds f k e)
    | None => forall e0, m0 !! k = Some e0 -> e0.1.2 < 0
    end
}.

Lemma holds_read f f' k e : fs_read f' (data d (Z.land e.1.1 0xff)) = fs_read f (data d (Z.land e.1.1 0xff)) -> holds f k e -> holds f' k e.
Proof. intros E (v & r & file & H). exists v, r, file. by rewrite E. Qed.

Lemma gst_tree i last t t' f b : gst i last t f b -> tree_ok t' -> same_cfg t t' -> abs t' = abs t -> gst i last t' f b.
Proof. intros [] Ht [H1 H2] Ha. destruct gs_cfg0 as [H3 H4]. constructor; auto; [split; congruence|]. by rewrite Ha. Qed.

Lemma gst_fs i last t f f' b :
  gst i last t f b -> i <= 257 -> plain f' -> (forall j, 0 <= j <= last -> fs_read f' (data d j) = fs_read f (data d j)) ->
  (forall j, last < j <= 257 -> f' !! data d j = f !! data d j) -> (forall j, 0 <= j <= 257 -> f' !! hint d j = f !! hint d j) -> gst i last t f' b.
Proof.
  intros [] Hi Hf' Hdone Hrest Hhint. assert (Hfl : forall j, 0 <= j <= last -> flen d f' j = flen d f j) by (intros j Hj; unfold flen; by rewrite Hdone). constructor; auto.
  - intros j Hj. rewrite Hrest, Hhint by lia. auto.
  - intros j Hj. rewrite Hrest by lia. auto.
  - intros j Hj. destruct (gs_done0 j Hj) as (H1 & H2 & H3 & H4). rewrite Hfl by done. split; [|done]. apply (fs_read_some f' _ (default [] (fs_read f (data d j)))); [done|].
    rewrite Hdone by done. destruct (f !! data d j) as [x|] eqn:E; [|by destruct H1]. rewrite fs_read_plain, E by done. destruct x as [|l]; [done|by destruct (gs_plain0 (data d j) l)].
  - intros Hl. destruct (gs_target0 Hl) as (H1 & H2 & h & H3 & H4 & H5). rewrite Hfl by lia. split; [done|]. split; [done|]. exists h. split; [done|]. split; [done|].
    intros now. eapply open_hint_same; [apply gs_plain0|apply Hhint; lia|apply H5].
  - intros k. specialize (gs_entry0 k). destruct (abs t !! k) as [e|]; [|done]. destruct gs_entry0 as (e0 & H1 & H2 & H3 & H4). exists e0. do 3 (split; [done|]).
    intros Hb Hv. destruct (H4 Hb Hv) as [H5 H6]. split; [done|]. eapply holds_read; [|exact H6]. apply Hdone. pose proof (land_ff e.1.1). lia.
Qed.

Lemma gst_keeps i last t f f' b : gst i last t f b -> i <= 257 -> keeps d f f' -> gst i last t f' b.
Proof.
  intros H Hi Hk. pose proof (gs_last _ _ _ _ _ H). apply (gst_fs i last t f); auto; [apply Hk|..]; intros j Hj.
  - apply fs_read_same; [apply H|apply Hk|]. apply (keeps_same d f f' (File DATA_FILE j)); [done|simpl; lia|done].
  - apply (keeps_same d f f' (File DATA_FILE j)); [done|simpl; lia|done].
  - apply (keeps_same d f f' (File HINT_FILE j)); [done|simpl; lia|done].
Qed.

(** The start: only the snapshots are gone. *)
Lemma gst_start f :
  plain f -> (forall j, 0 <= j <= 257 -> f !! data d j = f0 !! data d j) -> (forall j, 0 <= j <= 257 -> f !! hint d j = f0 !! hint d j) ->
  gst 0 (-1) (bc_tree bc0) f (bc_buckets bc0).
Proof.
  intros Hf Hda Hh. constructor; try lia; auto.
  - apply (io_tree _ _ _ _ _ (co_idx _ _ _ _ _ Hcore)).
  - by split.
  - apply (fo_fit _ _ _ _ (co_files _ _ _ _ _ Hcore)).
  - intros k. fold m0. destruct (m0 !! k) as [e|] eqn:E; [|done]. exists e. do 3 (split; [done|]). pose proof (land_ff e.1.1). lia.
Qed.
(** ** One file *)
(** The target [T]: the last file that was written, or a new one, through a
    temporary file. *)
Definition into (last T : Z) (use_tmp : bool) : Prop := if use_tmp then T = last + 1 else T = last /\ 0 <= last.

Lemma tmp_path ty i : path d (File ty i) ++ lit ".tmp" = path d (Tmp ty i).
Proof. unfold path, join, name. by rewrite <- !app_assoc. Qed.

Lemma into_paths i last T ut :
  -1 <= last < i -> i < 256 -> into last T ut -> gc_paths i T (data d i) (hint d i) (data d T) (hint d T) ut.
Proof.
  intros Hl Hi HT. unfold into in HT. assert (HT' : 0 <= T <= i) by (destruct ut; lia). unfold data, hint. constructor; rewrite ?tmp_path, ?not_elem_of_cons; try lia.
  - intros ->. split; [done|]. destruct ut; [done|lia].
  - intros Hne. apply path_ne; [simpl; lia|simpl; lia|]. by intros [= ->].
  - by apply path_ne; [simpl; lia|simpl; lia|].
  - repeat split; try apply not_elem_of_nil; by apply path_ne; [simpl; lia|simpl; lia|].
  - repeat split; try apply not_elem_of_nil; by apply path_ne; [simpl; lia|simpl; lia|].
  - pose proof (path_length d (File HINT_FILE T) ltac:(simpl; lia) Hd). unfold MAX_PATH_LEN in *. lia.
Qed.

Lemma gst_read i last t f b j : gst i last t f b -> 0 <= j <= last -> exists file, fs_read f (data d j) = Some file /\ blen file = flen d f j.
Proof.
  intros [] Hj. destruct (gs_done0 j Hj) as ([x Hx] & _). unfold flen. rewrite fs_read_plain by done. rewrite Hx.
  destruct x as [y|l]; [by exists y|by destruct (gs_plain0 (data d j) l)].
Qed.

Lemma into_target i last t f b T ut :
  gst i last t f b -> into last T ut ->
  exists h, target_ok (e_fresh env) (big env) f (data d T) (hint d T) ut h /\ bytes_ok h /\ blen h <= total L (Z.to_nat i) * 261.
Proof.
  intros Hg HT. unfold into in HT. pose proof (total_nonneg L (Z.to_nat i)). unfold target_ok. destruct ut; [exists []; split; [done|]; split; [constructor|unfold blen; simpl; lia]|].
  destruct HT as [-> Hl]. destruct (gst_read _ _ _ _ _ last Hg ltac:(lia)) as (old & Ho & Hlen). destruct (gs_target _ _ _ _ _ Hg Hl) as (Hs & _ & h & Hb & Hh & Hopen).
  exists (if 0 <? blen old then h else []). split.
  - exists old. split; [done|]. split; [pose proof big_fits; lia|]. by destruct (0 <? blen old).
  - destruct (0 <? blen old); [done|]. split; [constructor|unfold blen; simpl; lia].
Qed.

(** After file [i] went into [T]. *)
Section Collected.
Context (i last T : Z) (ut : bool) (t t' : HTree C) (f f' : fs) (b : sizes) (z bb h : bytes) (kept : log).
Context (Hg : gst i last t f b) (Hi : 0 <= i < curr) (HT : into last T ut) (Hf' : plain f') (Ht' : tree_ok t') (Hcfg : same_cfg t t').
Let new := old_data f (data d T) ut ++ z.
Context (Hnew : fs_read f' (data d T) = Some (new ++ bb)) (Hkept : logged (e_fresh env) (blen new) kept bb).
Context (Hsize : blen (new ++ bb) <= Z.max (blen new) (e_max_bucket_size env)) (Hz : blen (old_data f (data d T) ut) mod 256 = 0 -> z = []).
Context (Hopen : forall now, open_hint (e_fresh env) f' now (hint d T) None = Ret (f', Some h)).
Context (Hh : bytes_ok h /\ blen h <= total L (Z.to_nat (i + 1)) * 261).
Context (Hent : forall k, entry_kept i T (L i) kept k (abs t !! k) (abs t' !! k)).
Context (Hgone : i <> T -> f' !! data d i = None).
Context (Hsame : same_but [data d i; hint d i; data d T; data d T ++ lit ".tmp"; hint d T; hint d T ++ lit ".tmp"] f f').

Lemma target_range : -1 <= last < i /\ 0 <= T <= i /\ last <= T.
Proof. pose proof (gs_last _ _ _ _ _ Hg). unfold into in HT. destruct ut; lia. Qed.

Lemma other_file x : in_range x -> x ∉ [File DATA_FILE i; File HINT_FILE i; File DATA_FILE T; Tmp DATA_FILE T; File HINT_FILE T; Tmp HINT_FILE T] -> f' !! path d x = f !! path d x.
Proof.
  intros Hr Hx. destruct target_range as (H1 & H2 & H3). apply Hsame. unfold data, hint in *. rewrite !tmp_path. rewrite !not_elem_of_cons in *.
  destruct Hx as (X1 & X2 & X3 & X4 & X5 & X6 & _). repeat split; try apply not_elem_of_nil; apply path_ne; auto; simpl; lia.
Qed.
Lemma other_data j : 0 <= j <= 257 -> j <> i -> j <> T -> f' !! data d j = f !! data d j.
Proof. intros Hj H1 H2. apply (other_file (File DATA_FILE j)); [done|]. rewrite !not_elem_of_cons. repeat split; try apply not_elem_of_nil; congruence. Qed.
Lemma other_hint j : 0 <= j <= 257 -> j <> i -> j <> T -> f' !! hint d j = f !! hint d j.
Proof. intros Hj H1 H2. apply (other_file (File HINT_FILE j)); [done|]. rewrite !not_elem_of_cons. repeat split; try apply not_elem_of_nil; congruence. Qed.

(** The target starts with what it held. *)
Lemma target_old : (ut = true /\ new = []) \/ (T = last /\ 0 <= last /\ fs_read f (data d T) = Some new) .
Proof.
  unfold into in HT. unfold new, old_data in *. destruct ut.
  - left. split; [done|]. by rewrite Hz by done.
  - right. destruct HT as [-> Hl]. split; [done|]. split; [done|]. destruct (gst_read _ _ _ _ _ last Hg ltac:(lia)) as (old & Ho & Hlen). destruct (gs_target _ _ _ _ _ Hg Hl) as (_ & Hm & _).
    rewrite Ho in *. cbn [default id from_option] in *. rewrite Hz by congruence. by rewrite app_nil_r.
Qed.
Lemma target_size : blen new <= e_max_bucket_size env /\ blen new mod 256 = 0.
Proof.
  destruct target_old as [[_ ->]|(-> & Hl & E)]; [change (blen []) with 0; split; [lia|done]|]. destruct (gs_target _ _ _ _ _ Hg Hl) as (Hs & Hm & _).
  unfold flen in *. rewrite E in *. done.
Qed.
Lemma collected_size : blen (new ++ bb) <= e_max_bucket_size env /\ blen (new ++ bb) mod 256 = 0 /\ blen (new ++ bb) < 2 ^ 32 /\ Forall hint_ready kept.
Proof.
  destruct target_size as [Hs Hm]. assert (Hle : blen (new ++ bb) <= e_max_bucket_size env) by lia.
  assert (H32 : blen (new ++ bb) < 2 ^ 32) by (unfold DEFAULT_MAX in *; lia).
  split; [done|]. rewrite blen_app in *. split; [by eapply logged_mod|]. split; [done|]. pose proof (blen_nonneg new). eapply logged_ready; [exact Hkept|lia|done|lia].
Qed.

(** The copy of a record, and a record that was in the target before. *)
Lemma copy_holds k e p r np :
  m0 !! k = Some e -> (p, r) ∈ L i -> e.1.1 = Z.lor p i -> r_key r = k -> (np, GcFacts.set_version r e.1.2) ∈ kept ->
  let e' := (Z.lor np T, e.1.2, e.2) in Z.land e'.1.1 0xff = T /\ holds f' k e'.
Proof.
  intros He Hp Hpos Hk Hnp. cbn [fst]. destruct target_range as (H1 & H2 & H3). destruct collected_size as (_ & _ & _ & Hrd).
  destruct (proj1 (Forall_forall _ _) Hrd _ Hnp) as (Hm & Hr & _). cbn [fst] in *. destruct (log_bits T np ltac:(lia) Hm Hr) as [B1 B2].
  split; [done|]. unfold holds. cbn [fst]. rewrite B1, B2. destruct (orig_record i k e p r Hi He Hp Hpos) as (v & Hv & Hfl & Hval).
  exists v, (GcFacts.set_version r e.1.2), (new ++ bb). do 5 (split; [done|]). by eapply logged_in.
Qed.
Lemma old_holds k e : Z.land e.1.1 0xff <= last -> holds f k e -> holds f' k e.
Proof.
  intros Hb H. pose proof (land_ff e.1.1). destruct target_range as (H1 & H2 & H3). destruct (decide (Z.land e.1.1 0xff = T)) as [E|E].
  - destruct H as (v & r & file & Hv & Hk & Hfl & Hval & Hr & Hin). exists v, r, (new ++ bb). do 4 (split; [done|]). rewrite E in *. split; [done|].
    destruct target_old as [[-> _]|(_ & _ & Ho)]; [unfold into in HT; lia|]. apply in_bytes_app. congruence.
  - apply (holds_read f); [|done]. apply fs_read_same; [apply Hg|done|]. apply other_data; lia.
Qed.

Lemma collected_entries k : match abs t' !! k with
  | Some e => exists e0, m0 !! k = Some e0 /\ e.1.2 = e0.1.2 /\ (i + 1 <= Z.land e.1.1 0xff -> e = e0) /\
      (Z.land e.1.1 0xff < i + 1 -> 0 < e.1.2 -> Z.land e.1.1 0xff <= T /\ holds f' k e)
  | None => forall e0, m0 !! k = Some e0 -> e0.1.2 < 0
  end.
Proof.
  pose proof (gs_entry _ _ _ _ _ Hg k) as He. pose proof (Hent k) as Hek. unfold entry_kept in Hek. destruct target_range as (H1 & H2 & H3).
  destruct (abs t !! k) as [e|]; [|by rewrite Hek]. destruct He as (e0 & He0 & Hv & Hsm & Hlo).
  destruct (Z.eqb_spec (Z.land e.1.1 0xff) i) as [Eb|Eb].
  - rewrite (Hsm ltac:(lia)) in *. clear Hv. destruct (orig_value k e0 He0) as (v & _ & Ev & Hne & _). destruct (Z.ltb_spec 0 e0.1.2) as [Hpos|Hneg].
    + destruct Hek as (p & r & np & Hp & Hpos' & Hk & -> & Hnp). destruct (copy_holds k e0 p r np He0 Hp Hpos' Hk Hnp) as [HT1 HT2]. exists e0. split; [done|]. split; [done|].
      split; [intros Hb; lia|]. intros _ _. by rewrite HT1.
    + destruct Hek as [->| ->]; [intros e1 He1; assert (e1 = e0) as -> by congruence; lia|]. exists e0. split; [done|]. split; [done|]. split; [done|intros _ Hp; lia].
  - rewrite Hek. exists e0. split; [done|]. split; [done|]. split; [intros Hb; apply Hsm; lia|]. intros Hb Hp. destruct (Hlo ltac:(lia) Hp) as [Hb' Hh']. split; [lia|]. by apply old_holds.
Qed.

Lemma gst_collected : gst (i + 1) T t' f' (<[T := blen (new ++ bb)]> (<[i := -1]> b)).
Proof.
  destruct target_range as (H1 & H2 & H3). destruct collected_size as (C1 & C2 & C3 & _). assert (Hfl : flen d f' T = blen (new ++ bb)) by (unfold flen; by rewrite Hnew).
  pose proof (blen_nonneg (new ++ bb)). pose proof Hg as [Gt [G1 G2] Gp Gf _ Grest Ggap Gdone _ _]. destruct Hcfg as [K1 K2].
  constructor; auto; try lia; rewrite ?Hfl.
  - split; congruence.
  - do 2 (apply sizes_fit_insert; [|change (2 ^ 63) with 9223372036854775808; change (2 ^ 32) with 4294967296 in *; lia]). done.
  - intros j Hj. rewrite !bucket_insert, !decide_False by lia. rewrite other_data, other_hint by lia. apply Grest. lia.
  - intros j Hj. rewrite bucket_insert, decide_False, bucket_insert by lia. case_decide as E; [subst j; split; [apply Hgone; lia|done]|]. rewrite other_data by lia. apply Ggap. lia.
  - intros j Hj. destruct (decide (j = T)) as [->|Hne].
    + rewrite Hfl, bucket_insert, decide_True by done. split; [by eapply fs_read_some|]. split; [lia|]. done.
    + rewrite !bucket_insert, !decide_False by lia. unfold flen. rewrite (fs_read_same f f') by (done || apply other_data; lia). rewrite other_data by lia. apply Gdone. unfold into in HT. destruct ut; lia.
  - intros _. split; [done|]. split; [done|]. exists h. split; [apply Hh|]. split; [apply Hh|done].
  - intros k. apply collected_entries.
Qed.
End Collected.
(** What the collection of a file finds. *)
Lemma gst_source i last t f b : gst i last t f b -> 0 <= i < curr -> exists file, fs_read f (data d i) = Some file /\ logged (e_fresh env) 0 (L i) file /\ 0 < blen file <= e_max_bucket_size env.
Proof.
  intros Hg Hi. destruct (source i Hi) as (file & Hr & H). exists file. split; [|done]. rewrite <- Hr. apply fs_read_same; [apply plain0|apply Hg|]. apply (gs_rest _ _ _ _ _ Hg). lia.
Qed.
Lemma gst_versions i last t f b : gst i last t f b -> map_Forall (fun _ e => e.1.2 <> 0 /\ int32 e.1.2) (abs t).
Proof.
  intros Hg k e He. pose proof (gs_entry _ _ _ _ _ Hg k) as H. rewrite He in H. destruct H as (e0 & He0 & -> & _). destruct (orig_value k e0 He0) as (v & _ & -> & H). done.
Qed.
Lemma gst_points i last t f b k e :
  gst i last t f b -> 0 <= i < curr -> abs t !! k = Some e -> Z.land e.1.1 0xff = i -> exists p r, (p, r) ∈ L i /\ r_key r = k /\ e.1.1 = Z.lor p i.
Proof.
  intros Hg Hi He Hb. pose proof (gs_entry _ _ _ _ _ Hg k) as H. rewrite He in H. destruct H as (e0 & He0 & _ & Hs & _). specialize (Hs ltac:(lia)). subst e0. by apply (orig_point i k e).
Qed.
Lemma total_next i : 0 <= i < 256 -> total L (Z.to_nat (i + 1)) = total L (Z.to_nat i) + Z.of_nat (length (L i)).
Proof. intros Hi. replace (Z.to_nat (i + 1)) with (S (Z.to_nat i)) by lia. cbn [total]. by rewrite Z2Nat.id by lia. Qed.
Lemma hints_fit i : 0 <= i < 256 -> total L (Z.to_nat (i + 1)) * 261 <= 2 ^ 29.
Proof.
  intros Hi. pose proof (lo_count _ _ _ _ _ _ _ _ _ _ _ _ Hlog). pose proof (total_le L (Z.to_nat (i + 1)) BUCKETS). pose proof buckets_256. unfold MAX_OPS in *. change (2 ^ 29) with 536870912. lia.
Qed.

Lemma collect_round i last t f b T ut now mg skipped :
  gst i last t f b -> 0 <= i < curr -> into last T ut -> disks mg = [d] ->
  exists f' t' deleted ret,
    optimizeDataFile (e_fresh env) (e_disk env) mg f now t i (data d i) (hint d i) T (data d T) (hint d T) (e_max_bucket_size env) skipped ut = Ret (f', t', deleted, ret) /\
    ((ret = 1 /\ ut = false /\ gst i last t' f' b) \/
     (ret = 0 /\ exists x m, stat_reg f' (data d T) = Some (x, m) /\ gst (i + 1) T t' f' (<[T := blen x]> (<[i := -1]> b)))).
Proof.
  intros Hg Hi HT Hmg. destruct (gst_source _ _ _ _ _ Hg Hi) as (file & Hr & Hl & Hs). destruct (into_target _ _ _ _ _ _ _ Hg HT) as (h0 & Htg & Hh0 & Hh1).
  pose proof (into_paths i last T ut (gs_last _ _ _ _ _ Hg) ltac:(lia) HT) as Hpaths. pose proof (hints_fit i ltac:(lia)) as H29. rewrite total_next in H29 by lia.
  pose proof (gs_last _ _ _ _ _ Hg) as Hla. assert (HTi : 0 <= T <= i) by (unfold into in HT; destruct ut; lia).
  destruct (collect_spec (e_fresh env) Hfresh (e_disk env) mg d Hmg f now i T (e_max_bucket_size env) (big env) (data d i) (hint d i) (data d T) (hint d T) skipped ut t (L i) file h0)
    as (f' & t' & del & ret & E & Ht' & Hcf & Hf' & Hres); auto.
  - apply Hg.
  - unfold DEFAULT_MAX in *. lia.
  - apply Forall_and. split; [|apply (lo_small _ _ _ _ _ _ _ _ _ _ _ _ Hlog); lia]. eapply Forall_impl; [apply (lo_good _ _ _ _ _ _ _ _ _ _ _ _ Hlog); lia|]. by intros x [? _].
  - pose proof big_fits. lia.
  - apply big_fits.
  - split; [done|]. lia.
  - apply Hg.
  - by eapply gst_versions.
  - intros k e He Hb. by eapply gst_points.
  - exists f', t', del, ret. split; [done|]. destruct Hres as [(-> & Ha & Hov & Hsb & Hq)|(-> & z & bb & kept & Hnew & Hk & Hsz & Hz & Ho & Hhh & Hent & Hgone & Hsm)]; [left|right]; (split; [done|]).
    + split; [destruct ut; [specialize (Hov eq_refl); lia|done]|]. destruct ut; [specialize (Hov eq_refl); lia|]. destruct HT as [-> Hl0].
      apply (gst_fs i last t' f); try done; [by eapply gst_tree|lia|..]; intros j Hj; unfold data, hint in *; rewrite ?tmp_path in *.
      * apply Hq. by apply path_ne; [simpl; lia|simpl; lia|].
      * apply Hsb. rewrite !not_elem_of_cons. repeat split; try apply not_elem_of_nil; apply path_ne; simpl; try lia; try done. intros [= ->]. lia.
      * apply Hsb. rewrite !not_elem_of_cons. repeat split; try apply not_elem_of_nil; by apply path_ne; [simpl; lia|simpl; lia|].
    + pose proof Hnew as Hst. unfold fs_read in Hst. destruct (stat_reg f' (data d T)) as [[x m]|]; [|done]. cbn in Hst. injection Hst as Hx. exists x, m. split; [done|]. rewrite Hx.
      eapply gst_collected; eauto. split; [apply Hhh|]. rewrite total_next by lia. cbv zeta in Hhh. lia.
Qed.
(** ** The loop *)
(** What the loop does not touch. *)
Definition frame bc : Prop :=
  bc_mgr bc = bc_mgr bc0 /\ bc_updating bc = bc_updating bc0 /\ bc_curr_tree bc = bc_curr_tree bc0 /\ bc_curr bc = bc_curr bc0 /\
  bc_wb bc = bc_wb bc0 /\ bc_fb bc = None /\ bc_depth bc = bc_depth bc0 /\ bc_pos bc = bc_pos bc0.
Definition gbc (i last : Z) bc : Prop := frame bc /\ gst i last (bc_tree bc) (bc_fs bc) (bc_buckets bc).

Lemma frame_mgr bc : frame bc -> disks (bc_mgr bc) = [d].
Proof. intros (-> & _). apply (co_mgr _ _ _ _ _ Hcore). Qed.
Lemma frame_path bc ty i : frame bc -> 0 <= i <= 257 -> path_of bc ty i = Ret (path d (File ty i)).
Proof. intros Hf Hi. apply (path_of_ok d Hd); [by apply frame_mgr|done]. Qed.

Lemma frame_data bc i : frame bc -> 0 <= i <= 257 -> path_of bc DATA_FILE i = Ret (data d i).
Proof. apply frame_path. Qed.
Lemma frame_hint bc i : frame bc -> 0 <= i <= 257 -> path_of bc HINT_FILE i = Ret (hint d i).
Proof. apply frame_path. Qed.

Lemma gbc_dump i last bc now : gbc i last bc -> i <= 257 -> exists bc', dump bc now = Ret bc' /\ gbc i last bc'.
Proof.
  intros [Hf Hg] Hi. destruct (dump_ok d Hd bc now) as (f' & -> & Hk); [by apply frame_mgr|apply Hg|apply Hg|]. exists (set_fs bc f'). split; [done|].
  split; [done|]. bc_simpl. by eapply gst_keeps.
Qed.

(** The check before a file is collected, and the choice of a temporary file. *)
Lemma target_known i last t f b T ut :
  gst i last t f b -> 0 <= i < curr -> into last T ut ->
  Bool.eqb (0 <=? bucket b T) (bool_decide (is_Some (f !! data d T))) = true /\ (T =? i) || (negb (T =? i) && (bucket b T <? 0)) = ut.
Proof.
  intros Hg Hi HT. pose proof (gs_last _ _ _ _ _ Hg). assert (Hk : forall x : bool, (0 <= bucket b T <-> x = true) -> (is_Some (f !! data d T) <-> x = true) -> Bool.eqb (0 <=? bucket b T) (bool_decide (is_Some (f !! data d T))) = true).
  { intros x H1 H2. apply Bool.eqb_true_iff, Bool.eq_true_iff_eq. rewrite Z.leb_le, bool_decide_eq_true. tauto. }
  unfold into in HT. destruct ut; [destruct (decide (T = i)) as [->|Hne]|destruct HT as [-> Hl]].
  - destruct (gst_source _ _ _ _ _ Hg Hi) as (file & Hr & _ & Hs). apply fs_read_some in Hr as Hex; [|apply Hg]. rewrite Z.eqb_refl. split; [|done]. apply (Hk true); [|done].
    destruct (gs_rest _ _ _ _ _ Hg i ltac:(lia)) as (E1 & _ & ->). rewrite E1 in Hex. split; [done|intros _]. apply (fo_known _ _ _ _ (co_files _ _ _ _ _ Hcore)); [lia|done].
  - destruct (gs_gap _ _ _ _ _ Hg T ltac:(lia)) as [E1 E2]. rewrite (proj2 (Z.eqb_neq T i) Hne). split; [|by rewrite E2]. apply (Hk false); [rewrite E2; split; [lia|done]|].
    rewrite E1. split; [by intros [? ?]|done].
  - destruct (gs_done _ _ _ _ _ Hg last ltac:(lia)) as (E1 & E2 & _). rewrite (proj2 (Z.eqb_neq last i)) by lia. split; [by apply (Hk true)|]. cbn [negb andb orb]. lia.
Qed.

Lemma real_hint f mg T :
  plain f -> disks mg = [d] -> 0 <= T <= 257 ->
  match mgr_getrealpath f (hint d T) with Some p => Ret (f, p) | None => new_path (e_disk env) mg f HINT_FILE T end = Ret (f, hint d T).
Proof.
  intros Hf Hm HT. unfold mgr_getrealpath. rewrite stat_plain by done. destruct (f !! hint d T) as [[x m|l]|] eqn:E; [done|by destruct (Hf (hint d T) l)|].
  destruct (new_path_plain (e_disk env) mg f d HINT_FILE T Hm Hf HT Hd) as [_ ->]. fold (hint d T). by rewrite delete_id.
Qed.

(** One round of the search for a target with room. *)
Lemma into_round k i last bc T last0 ut now skipped :
  gbc i last bc -> 0 <= i < curr -> into last T ut -> T <= last0 + 1 ->
  (exists bc' del, gc_into env (S k) bc i T last0 now (data d i) (hint d i) skipped = Ret (bc', Some (T, del)) /\ gbc (i + 1) T bc') \/
  (ut = false /\ exists bc', gbc i last bc' /\
    gc_into env (S k) bc i T last0 now (data d i) (hint d i) skipped = gc_into env k bc' i (T + 1) last0 now (data d i) (hint d i) skipped).
Proof.
  intros [Hfr Hg] Hi HT Hle. pose proof (gs_last _ _ _ _ _ Hg) as Hla. assert (HTi : 0 <= T <= i) by (unfold into in HT; destruct ut; lia).
  cbn [gc_into]. rewrite (proj2 (Z.leb_le _ _) Hle), (frame_data bc T) by (done || lia). cbn [mbind outcome_bind].
  destruct (target_known _ _ _ _ _ _ _ Hg Hi HT) as [-> ->]. cbn [negb]. rewrite (frame_hint bc T) by (done || lia). cbn [mbind outcome_bind].
  rewrite real_hint by (apply Hg || (by apply frame_mgr) || lia). cbn [mbind outcome_bind].
  destruct (collect_round _ _ _ _ _ T ut now (bc_mgr bc) skipped Hg Hi HT (frame_mgr bc Hfr)) as (f' & t' & del & ret & -> & [(-> & -> & Hg')|(-> & x & m & Hst & Hg')]); cbn [mbind outcome_bind Z.eqb Z.ltb Z.compare];
    change (bc_fs (set_tree (set_fs bc f') t')) with f'; change (bc_buckets (set_tree (set_fs bc f') t')) with (bc_buckets bc).
  - right. split; [done|]. destruct HT as [-> Hl0]. rewrite (proj2 (Z.ltb_lt last i)) by lia. eexists. split; [|done]. by split.
  - left. rewrite Hst. destruct (gbc_dump (i + 1) T (set_files (set_tree (set_fs bc f') t') (<[T := blen x]> (<[i := -1]> (bc_buckets bc))) f') now) as (bc' & E & Hb); [by split|lia|].
    rewrite E. cbn [mbind outcome_bind]. eauto.
Qed.

Lemma gc_into_spec i last bc T now skipped :
  gbc i last bc -> 0 <= i < curr -> (T = last /\ 0 <= last) \/ T = last + 1 ->
  exists bc' T' del, gc_into env 3 bc i T T now (data d i) (hint d i) skipped = Ret (bc', Some (T', del)) /\ gbc (i + 1) T' bc'.
Proof.
  intros Hg Hi [HT|HT].
  - destruct (into_round 2 i last bc T T false now skipped Hg Hi HT ltac:(lia)) as [(bc' & del & -> & H)|(_ & bc1 & Hg1 & ->)]; [eauto|]. destruct HT as [-> Hl].
    destruct (into_round 1 i last bc1 (last + 1) last true now skipped Hg1 Hi eq_refl ltac:(lia)) as [(bc' & del & -> & H)|(? & _)]; [eauto|done].
  - destruct (into_round 2 i last bc T T true now skipped Hg Hi HT ltac:(lia)) as [(bc' & del & -> & H)|(? & _)]; [eauto|done].
Qed.
(** ** Renumbering *)
(** The entries [ct] are of bucket [i], and all the live ones are there. *)
Definition roster (i : Z) (ct : gmap bytes entry) : Prop :=
  (forall k e, ct !! k = Some e -> Z.land e.1.1 0xff = i) /\
  forall k e, m0 !! k = Some e -> Z.land e.1.1 0xff = i -> 0 < e.1.2 -> exists e', ct !! k = Some e' /\ e'.1.1 = e.1.1.

(** The position in bucket [T]. *)
Lemma repos_bits T p : 0 <= p < 2 ^ 32 -> 0 <= T < 256 ->
  Z.land (Z.lor (Z.land p 0xffffff00) T) 0xff = T /\ Z.land (Z.lor (Z.land p 0xffffff00) T) 0xffffff00 = Z.land p 0xffffff00.
Proof.
  intros Hp HT. assert (E : Z.land p 0xffffff00 = 256 * (p / 256)).
  { assert (Hs : p = Z.lor (Z.land p 0xffffff00) (Z.land p 0xff)) by (rewrite <- Z.land_lor_distr_r; change (Z.lor 0xffffff00 0xff) with (Z.ones 32); rewrite Z.land_ones by lia; by rewrite Z.mod_small).
    assert (Hm : Z.land p 0xffffff00 mod 256 = 0) by (change 256 with (2 ^ 8); rewrite <- Z.land_ones, <- Z.land_assoc by lia; change (Z.land 0xffffff00 (Z.ones 8)) with 0; apply Z.land_0_r).
    rewrite pos_sum in Hs by (done || apply land_ff). pose proof (land_ff p). Z.div_mod_to_equations; lia. }
  apply log_bits; [done| |]; rewrite E; change (2 ^ 32) with 4294967296 in *; Z.div_mod_to_equations; lia.
Qed.

Lemma renumbered_entry (i T : Z) t (ct : gmap bytes entry) (k : bytes) (e : entry) :
  roster i ct -> abs t !! k = Some e -> (Z.land e.1.1 0xff = i -> m0 !! k = Some e) -> 0 <= T < 256 ->
  exists e', match ct !! k with Some x => repos T x.1.1 <$> abs t !! k | None => abs t !! k end = Some e' /\ e'.1.2 = e.1.2 /\
    if Z.land e.1.1 0xff =? i
    then (Z.land e'.1.1 0xff = T \/ (Z.land e'.1.1 0xff = i /\ e.1.2 <= 0)) /\ (0 < e.1.2 -> Z.land e'.1.1 0xff = T /\ Z.land e'.1.1 0xffffff00 = Z.land e.1.1 0xffffff00)
    else e' = e.
Proof.
  intros [Hct Hlive] He Hm HT. rewrite He. destruct (Z.eqb_spec (Z.land e.1.1 0xff) i) as [Eb|Eb].
  - specialize (Hm Eb). pose proof (co_points _ _ _ _ _ Hcore k) as Hp. fold m0 in Hp. rewrite Hm in Hp. destruct (M !! k) as [v|]; [|done]. destruct Hp as (_ & _ & _ & (_ & Hr32 & _) & _).
    destruct (repos_bits T e.1.1 Hr32 HT) as [B1 B2]. destruct (ct !! k) as [x|] eqn:Ex.
    + cbn [fmap option_fmap option_map]. eexists. split; [done|]. unfold repos. destruct (Z.eqb_spec x.1.1 e.1.1) as [E|E].
      * rewrite E. cbn [fst]. auto.
      * split; [done|]. destruct (Z.le_gt_cases e.1.2 0) as [Hle|Hgt]; [split; [auto|lia]|]. destruct (Hlive k e Hm Eb Hgt) as (x' & Ex' & E'). congruence.
    + exists e. split; [done|]. split; [done|]. destruct (Z.le_gt_cases e.1.2 0) as [Hle|Hgt]; [split; [auto|lia]|]. destruct (Hlive k e Hm Eb Hgt) as (x' & Ex' & E'). congruence.
  - exists e. split; [|done]. destruct (ct !! k) as [x|] eqn:Ex; [|done]. cbn [fmap option_fmap option_map]. unfold repos. specialize (Hct k x Ex).
    rewrite (proj2 (Z.eqb_neq x.1.1 e.1.1)) by congruence. done.
Qed.
Lemma live_logged i k e :
  0 <= i < 256 -> m0 !! k = Some e -> 0 < e.1.2 -> Z.land e.1.1 0xff = i -> exists a, fold_left (replay_all i) (L i) ∅ !! k = Some a /\ like a e.
Proof.
  intros Hi. apply (bucket_entry env d _ _ _ _ _ _ _ _ _ _ _ _ _ Hlog Hi). intros j Hj. apply (stream_bound env d) with (n := n) (M := M); [|by split|done].
  unfold DEFAULT_MAX in *. lia.
Qed.

(** The current tree lists the current bucket, a hint file its own. *)
Lemma current_roster : roster curr (abs (bc_curr_tree bc0)).
Proof.
  pose proof curr_nonneg. split.
  - intros k e. apply (current_keys env d _ _ _ _ _ _ _ _ _ _ k Hlog ltac:(lia)). intros j Hj. apply (stream_bound env d) with (n := n) (M := M); [|by split|done].
    unfold DEFAULT_MAX in *. lia.
  - intros k e He Hb Hv. destruct (live_logged curr k e ltac:(lia) He Hv Hb) as (a & Ha & _). pose proof (lo_cur _ _ _ _ _ _ _ _ _ _ _ _ Hlog ltac:(lia) k) as Hc. rewrite Ha in Hc.
    inversion Hc as [a' e' Hl E1 E2|]. exists e'. split; [done|]. symmetry in E2. pose proof (lookup_weaken _ _ _ _ E2 (lo_sub _ _ _ _ _ _ _ _ _ _ _ _ Hlog)). congruence.
Qed.

Lemma hint_items i :
  0 <= i < curr ->
  exists its, (forall now, open_hint (e_fresh env) f0 now (hint d i) None = Ret (f0, Some (flat_map hint_of its))) /\ is_Some (f0 !! hint d i) /\
    NoDup (List.map it_key its) /\ Forall hint_fits its /\
    Forall (fun it => key_fits (it_key it) /\ check_key (it_key it) = true /\ own (C := C) (bc_depth bc0) (bc_pos bc0) (it_key it) = true) its /\
    covers (fold_left (replay_all i) (L i) ∅) (list_to_map (List.map (fun it => (it_key it, ival it)) its)) /\
    bytes_ok (flat_map hint_of its) /\ blen (flat_map hint_of its) <= Z.of_nat (length (L i)) * 261.
Proof.
  intros Hi. pose proof (lo_hinted _ _ _ _ _ _ _ _ _ _ _ _ Hlog i Hi ltac:(lia)) as Hex.
  destruct (lo_hint _ _ _ _ _ _ _ _ _ _ _ _ Hlog i Hi ltac:(lia) Hex) as (its & Ho & Hnd & Hfit & Hkeys & Hcov & _). exists its. repeat (split; [done|]).
  pose proof (hints_fewer i (L i) its Hnd Hcov). destruct (hints_ok its) as [Hb Hl]; [|split; [done|lia]].
  eapply Forall_impl; [exact Hkeys|]. intros it ([Hk ?] & _). split; [apply Hk|done].
Qed.

Lemma hint_roster i its :
  0 <= i < curr -> NoDup (List.map it_key its) -> covers (fold_left (replay_all i) (L i) ∅) (list_to_map (List.map (fun it => (it_key it, ival it)) its)) ->
  roster i (fold_left (hint_step i) its ∅).
Proof.
  intros Hi Hnd Hcov. split; intros k e; rewrite steps_find by done.
  - destruct (find_key k its) as [it|]; [|by rewrite lookup_empty]. unfold relocated, ival. destruct (0 <? it_ver it); [|done]. intros [= <-]. apply relocate_bucket. lia.
  - intros He Hb Hv. destruct (live_logged i k e ltac:(lia) He Hv Hb) as (a & Ha & Hpos & _ & Hav). specialize (Hcov k). rewrite Ha, map_find in Hcov.
    destruct (find_key k its) as [it|]; cbn [fmap option_fmap option_map] in Hcov; inversion Hcov as [a' b' [Hp Hl] E1 E2|]. subst a' b'.
    destruct (Z.ltb_spec 0 a.1.2); [|lia]. destruct Hl as (_ & _ & Hl). unfold ival, relocated in *. cbn [fst snd] in *. rewrite (proj2 (Z.ltb_lt 0 (it_ver it))) by lia.
    eexists. split; [done|]. cbn [fst]. rewrite <- Hp, Hpos. unfold relocate. rewrite <- Hb. change 0xff with (Z.ones 8). rewrite Z.land_ones by lia. change (2 ^ 8) with 256. Z.div_mod_to_equations; lia.
Qed.

(** A file that was not collected may be the next target. *)
Lemma file_facts i last t f b :
  gst i last t f b -> 0 <= i < curr ->
  exists h, flen d f i <= e_max_bucket_size env /\ flen d f i mod 256 = 0 /\ 0 < flen d f i < 2 ^ 32 /\ 0 < bucket b i /\ is_Some (f !! data d i) /\ is_Some (f !! hint d i) /\
    (forall now, open_hint (e_fresh env) f now (hint d i) None = Ret (f, Some h)) /\ bytes_ok h /\ blen h <= total L (Z.to_nat (i + 1)) * 261.
Proof.
  intros Hg Hi. destruct (gst_source _ _ _ _ _ Hg Hi) as (file & Hr & Hl & Hs). destruct (gs_rest _ _ _ _ _ Hg i ltac:(lia)) as (E1 & E2 & E3). pose proof (gs_plain _ _ _ _ _ Hg) as Hp.
  assert (Hfl : flen d f i = blen file) by (unfold flen; by rewrite Hr). apply fs_read_some in Hr as Hex; [|done].
  destruct (hint_items i Hi) as (its & Ho & Hhx & _ & _ & _ & _ & Hb & Hln). exists (flat_map hint_of its). rewrite Hfl. split; [lia|]. split; [by apply (logged_mod _ 0 _ _ Hl)|].
  split; [unfold DEFAULT_MAX in *; lia|]. split.
  { rewrite E3. apply (fo_pos _ _ _ _ (co_files _ _ _ _ _ Hcore) i ltac:(lia)). fold f0. unfold flen in *. rewrite (fs_read_same f f0 (data d i) Hp plain0) by done. lia. }
  split; [done|]. split; [by rewrite E2|]. split; [intros now; eapply open_hint_same; [apply plain0|done|apply Ho]|]. split; [done|].
  rewrite total_next by lia. pose proof (total_nonneg L (Z.to_nat i)). lia.
Qed.

(** A recent file that already has the next number stays. *)
Lemma gst_stay i t f b : gst i (i - 1) t f b -> 0 <= i < curr -> gst (i + 1) i t f b.
Proof.
  intros Hg Hi. pose proof Hg as []. destruct (file_facts _ _ _ _ _ Hg Hi) as (h & F1 & F2 & F3 & F4 & F5 & F6 & F7 & F8 & F9). constructor; auto; try lia.
  - intros j Hj. apply gs_rest0. lia.
  - intros j Hj. destruct (decide (j = i)) as [->|Hne]; [|apply gs_done0; lia]. split; [done|]. lia.
  - intros _. split; [done|]. split; [done|]. by exists h.
  - intros k. specialize (gs_entry0 k). destruct (abs t !! k) as [e|]; [|done]. destruct gs_entry0 as (e0 & H1 & H2 & H3 & H4). exists e0. split; [done|]. split; [done|]. split; [intros Hb; apply H3; lia|].
    intros Hb Hv. destruct (decide (Z.land e.1.1 0xff = i)) as [E|E]; [|destruct (H4 ltac:(lia) Hv) as [H5 H6]; split; [lia|done]].
    split; [lia|]. specialize (H3 ltac:(lia)). subst e0. eapply holds_read; [|apply orig_holds; [done|lia]]. rewrite E. apply fs_read_same; [apply plain0|done|]. apply gs_rest0. lia.
Qed.

(** A recent file moves down to the next number. *)
Section Renumbered.
Context (i last : Z) (t t' : HTree C) (f f' : fs) (b : sizes) (ct : gmap bytes entry).
Context (Hg : gst i last t f b) (Hi : 0 <= i < curr) (Hlt : last + 1 < i) (Hct : roster i ct).
Context (Hf' : plain f') (Ht' : tree_ok t') (Hcfg : same_cfg t t').
Context (Habs : forall k, abs t' !! k = match ct !! k with Some e' => repos (last + 1) e'.1.1 <$> abs t !! k | None => abs t !! k end).
Context (Hdata : f' !! data d (last + 1) = f !! data d i) (Hgone : f' !! data d i = None) (Hhint : fs_read f' (hint d (last + 1)) = fs_read f (hint d i)).
Context (Hsame : same_but [data d i; hint d i; data d (last + 1); hint d (last + 1)] f f').

Lemma other_path x : in_range x -> x ∉ [File DATA_FILE i; File HINT_FILE i; File DATA_FILE (last + 1); File HINT_FILE (last + 1)] -> f' !! path d x = f !! path d x.
Proof.
  intros Hr Hx. pose proof (gs_last _ _ _ _ _ Hg). apply Hsame. unfold data, hint in *. rewrite !not_elem_of_cons in *.
  destruct Hx as (X1 & X2 & X3 & X4 & _). repeat split; try apply not_elem_of_nil; apply path_ne; auto; simpl; lia.
Qed.
Lemma kept_path ty j : ty = DATA_FILE \/ ty = HINT_FILE -> 0 <= j <= 257 -> j <> i -> j <> last + 1 -> f' !! path d (File ty j) = f !! path d (File ty j).
Proof. intros Hty Hj H1 H2. apply other_path; [done|]. rewrite !not_elem_of_cons. repeat split; try apply not_elem_of_nil; congruence. Qed.

Lemma renumbered_entries k : match abs t' !! k with
  | Some e => exists e0, m0 !! k = Some e0 /\ e.1.2 = e0.1.2 /\ (i + 1 <= Z.land e.1.1 0xff -> e = e0) /\
      (Z.land e.1.1 0xff < i + 1 -> 0 < e.1.2 -> Z.land e.1.1 0xff <= last + 1 /\ holds f' k e)
  | None => forall e0, m0 !! k = Some e0 -> e0.1.2 < 0
  end.
Proof.
  pose proof (gs_entry _ _ _ _ _ Hg k) as He. pose proof (gs_last _ _ _ _ _ Hg). pose proof (gs_plain _ _ _ _ _ Hg) as Hp. rewrite Habs. destruct (abs t !! k) as [e|] eqn:Et; [|by destruct (ct !! k)].
  destruct He as (e0 & He0 & Hv & Hsm & Hlo).
  destruct (renumbered_entry i (last + 1) t ct k e Hct Et) as (e' & E & Hv' & Hpos); [intros Hb; by rewrite (Hsm ltac:(lia)) at 1|lia|].
  rewrite Et in E. rewrite E. exists e0. split; [done|]. split; [congruence|]. destruct (Z.eqb_spec (Z.land e.1.1 0xff) i) as [Eb|Eb].
  - specialize (Hsm ltac:(lia)). subst e0. destruct Hpos as [Hb' Hlive]. split; [lia|]. intros _ Hpv. destruct (Hlive ltac:(lia)) as [B1 B2]. split; [lia|].
    destruct (orig_holds k e He0 ltac:(lia)) as (v & r & file & H1 & H2 & H3 & H4 & H5 & H6). exists v, r, file. do 4 (split; [done|]). rewrite B1, B2. split; [|done].
    rewrite <- H5, Eb, !fs_read_plain by (done || apply plain0). rewrite Hdata. by rewrite (proj1 (gs_rest _ _ _ _ _ Hg i ltac:(lia))).
  - subst e'. split; [intros Hb; apply Hsm; lia|]. intros Hb Hpv. destruct (Hlo ltac:(lia) Hpv) as [H1 H2]. split; [lia|]. apply (holds_read f); [|done].
    pose proof (land_ff e.1.1). apply fs_read_same; [done|done|]. apply (kept_path DATA_FILE); [by left|lia..].
Qed.

Lemma gst_renumbered : gst (i + 1) (last + 1) t' f' (<[i := -1]> (<[last + 1 := bucket b i]> b)).
Proof.
  pose proof Hg as [Gt [G1 G2] Gp Gf Gl Grest Ggap Gdone _ _]. destruct Hcfg as [K1 K2]. destruct (file_facts _ _ _ _ _ Hg Hi) as (h & F1 & F2 & F3 & F4 & F5 & F6 & F7 & F8 & F9).
  assert (Hfl : flen d f' (last + 1) = flen d f i) by (unfold flen; by rewrite !fs_read_plain, Hdata by done). constructor; auto; try lia; rewrite ?Hfl.
  - split; congruence.
  - apply sizes_fit_insert; [|done]. apply sizes_fit_insert; [done|]. apply Gf. lia.
  - intros j Hj. rewrite !bucket_insert, !decide_False by lia. unfold data, hint. rewrite !kept_path by (auto || lia). apply Grest. lia.
  - intros j Hj. rewrite bucket_insert. case_decide as E; [subst j; done|]. rewrite bucket_insert, decide_False by lia. unfold data. rewrite kept_path by (auto || lia). apply Ggap. lia.
  - intros j Hj. rewrite !bucket_insert, decide_False by lia. case_decide as E.
    + subst j. rewrite Hdata, Hfl. split; [done|]. lia.
    + unfold flen, data. rewrite (fs_read_same f f') by (done || apply kept_path; auto || lia). rewrite kept_path by (auto || lia). apply Gdone. lia.
  - intros _. split; [done|]. split; [done|]. exists h. split; [done|]. split; [done|]. intros now. specialize (F7 now). unfold open_hint in *. rewrite Hhint. destruct (fs_read f (hint d i)); [|by injection F7].
    unfold hint_buf in *. replace (is_qlz (hint d (last + 1))) with (is_qlz (hint d i)); [|by rewrite !hint_is_qlz].
    destruct (if is_qlz (hint d i) && _ then _ else _); [|done|done]. cbn [mbind outcome_bind] in *. by injection F7 as ->.
  - intros k. apply renumbered_entries.
Qed.
End Renumbered.
(** The hint file read while the new name is a link to the data file. *)
Lemma scan_roster i last t f b now fl :
  gst i last t f b -> 0 <= i < curr -> fl !! hint d i = f !! hint d i ->
  exists ct, scanHintFile (e_fresh env) fl now (ht_new (C := C) (bc_depth bc0) (bc_pos bc0) true) i (hint d i) None = Ret (fl, ct) /\ tree_ok ct /\ roster i (abs ct).
Proof.
  intros Hg Hi Hfl. destruct (hint_items i Hi) as (its & Ho & Hhx & Hnd & Hfit & Hkeys & Hcov & _). destruct (gs_rest _ _ _ _ _ Hg i ltac:(lia)) as (_ & E2 & _).
  unfold scanHintFile. rewrite (open_hint_same _ f0 fl now (hint d i) (flat_map hint_of its)); [|apply plain0|congruence|apply Ho]. cbn [mbind outcome_bind].
  destruct (tree_new_ok (C := C) (bc_depth bc0) (bc_pos bc0) true (io_depth _ _ _ _ _ (co_idx _ _ _ _ _ Hcore))) as [Hnew Hna].
  destruct (scan_hints_spec i its (ht_new (bc_depth bc0) (bc_pos bc0) true) (length (flat_map hint_of its)) ltac:(lia) Hnew Hfit) as (ct & -> & Hct & Ha & _); [|apply items_shorter|].
  - eapply Forall_impl; [exact Hkeys|]. intros it (H1 & H2 & H3). split; [done|]. split; [done|]. rewrite <- H3. unfold own. by apply check_bucket_cfg.
  - cbn [mbind outcome_bind]. exists ct. split; [done|]. split; [done|]. rewrite Ha, Hna. by apply hint_roster.
Qed.

(** Moving the data file and the hint file. *)
Lemma move_files i T f x y :
  plain f -> 0 <= i < 256 -> 0 <= T < 256 -> T <> i -> f !! data d i = Some x -> f !! hint d i = Some y ->
  exists f1 f2, mgr_rename f (data d i) (data d T) = Ret f1 /\ mgr_rename f1 (hint d i) (hint d T) = Ret f2 /\ plain f2 /\
  f2 !! data d T = Some x /\ f2 !! data d i = None /\ f2 !! hint d T = Some y /\ same_but [data d i; hint d i; data d T; hint d T] f f2.
Proof.
  intros Hf Hi HT Hne Ex Ey. set (f1 := <[data d T := x]> (delete (data d i) f)). set (f2 := <[hint d T := y]> (delete (hint d i) f1)). exists f1, f2. assert (Hdd : data d T <> data d i) by (apply path_ne; simpl; [lia|lia|congruence]).
  assert (Hdh : forall a c, 0 <= a < 256 -> 0 <= c < 256 -> data d a <> hint d c) by (intros a c Ha Hc; by apply path_ne; simpl; [lia|lia|]).
  destruct x as [x mx|lx]; [|by destruct (Hf (data d i) lx)]. destruct y as [y my|ly]; [|by destruct (Hf (hint d i) ly)].
  assert (Hf1 : plain f1) by by apply plain_insert, plain_delete. assert (Ey1 : f1 !! hint d i = Some (Reg y my)) by (unfold f1; rewrite lookup_insert_ne, lookup_delete_ne by (apply Hdh; lia); done).
  split; [by apply mgr_rename_plain|]. split; [by apply mgr_rename_plain|]. split; [by apply plain_insert, plain_delete|]. unfold f2.
  split; [rewrite lookup_insert_ne, lookup_delete_ne by (apply not_eq_sym, Hdh; lia); apply lookup_insert_eq|].
  split; [rewrite lookup_insert_ne, lookup_delete_ne by (apply not_eq_sym, Hdh; lia); unfold f1; rewrite lookup_insert_ne by done; apply lookup_delete_eq|].
  split; [apply lookup_insert_eq|]. intros q Hq. rewrite !not_elem_of_cons in Hq. destruct Hq as (Q1 & Q2 & Q3 & Q4 & _).
  rewrite lookup_insert_ne, lookup_delete_ne by congruence. unfold f1. by rewrite lookup_insert_ne, lookup_delete_ne by congruence.
Qed.

Lemma gc_renumber_spec i last bc now :
  gbc i last bc -> 0 <= i < curr -> exists bc' last', gc_renumber env bc i last now (data d i) (hint d i) = Ret (bc', Some last') /\ gbc (i + 1) last' bc'.
Proof.
  intros [Hfr Hg] Hi. unfold gc_renumber. pose proof (gs_last _ _ _ _ _ Hg) as Hla. destruct (Z.eqb_spec (last + 1) i) as [E|E].
  { exists bc, (last + 1). split; [done|]. split; [done|]. rewrite E. apply gst_stay; [|done]. by replace (i - 1) with last by lia. }
  pose proof (gs_plain _ _ _ _ _ Hg) as Hp. destruct (file_facts _ _ _ _ _ Hg Hi) as (_ & _ & _ & _ & _ & [x Ex] & [y Ey] & _).
  rewrite file_exists_plain, bool_decide_true by (done || by rewrite Ey). cbn [negb]. rewrite (frame_data bc (last + 1)) by (done || lia). cbn [mbind outcome_bind].
  destruct (gs_gap _ _ _ _ _ Hg (last + 1) ltac:(lia)) as [Hnone _]. unfold fs_symlink. rewrite Hnone. set (fl := <[data d (last + 1) := Link (data d i)]> (bc_fs bc)).
  pose proof Hfr as (_ & _ & _ & _ & _ & _ & -> & ->).
  destruct (scan_roster i last (bc_tree bc) (bc_fs bc) (bc_buckets bc) now fl Hg Hi) as (ct & -> & Hct & Hro); [apply lookup_insert_ne; by apply path_ne; simpl; [lia|lia|]|]. cbn [mbind outcome_bind].
  destruct (renumber_visit (last + 1) ct (bc_tree bc) Hct (gs_tree _ _ _ _ _ Hg)) as (t' & -> & Ht' & Hcf & Habs). cbn [mbind outcome_bind].
  assert (fs_unlink fl (data d (last + 1)) = bc_fs bc) as -> by (unfold fs_unlink, fl; by rewrite delete_insert_id).
  destruct (move_files i (last + 1) (bc_fs bc) x y Hp ltac:(lia) ltac:(lia) E Ex Ey) as (f1 & f2 & -> & R2 & Hp2 & D1 & D2 & D3 & Hsb). cbn [mbind outcome_bind].
  rewrite (frame_hint bc (last + 1)) by (done || lia). cbn [mbind outcome_bind]. rewrite R2, ret_bind.
  assert (Hgst : gst (i + 1) (last + 1) t' f2 (<[i := -1]> (<[last + 1 := bucket (bc_buckets bc) i]> (bc_buckets bc)))).
  { apply (gst_renumbered i last (bc_tree bc) t' (bc_fs bc) f2 (bc_buckets bc) (abs ct)); auto; try lia; [by rewrite D1|]. rewrite !fs_read_plain by done. by rewrite D3, Ey. }
  destruct (gbc_dump (i + 1) (last + 1) (set_files (set_tree bc t') (<[i := -1]> (<[last + 1 := bucket (bc_buckets bc) i]> (bc_buckets bc))) f2) now) as (bc' & -> & Hb'); [split; [exact Hfr|exact Hgst]|lia|].
  cbn [mbind outcome_bind]. eauto.
Qed.
(** ** All the files *)
Lemma count_ok i last bc now skipped :
  gbc i last bc -> 0 <= i < curr ->
  exists t' x y, count_deleted_record (e_fresh env) (bc_fs bc) now (bc_tree bc) i (hint d i) skipped = Ret (t', x, y) /\ gbc i last (set_tree bc t').
Proof.
  intros [Hfr Hg] Hi. destruct (hint_items i Hi) as (its & Ho & _ & _ & Hfit & Hkeys & _). destruct (gs_rest _ _ _ _ _ Hg i ltac:(lia)) as (_ & E2 & _). unfold count_deleted_record.
  rewrite (open_hint_same _ f0 (bc_fs bc) now (hint d i) (flat_map hint_of its)) by (apply plain0 || done || apply Ho). cbn [mbind outcome_bind].
  destruct (count_loop_spec i skipped its (bc_tree bc) (length (flat_map hint_of its)) 0 0 (gs_tree _ _ _ _ _ Hg) Hfit) as (t' & x & y & -> & Ht' & Hd' & Hp' & Ha); [|apply items_shorter|].
  - eapply Forall_impl; [exact Hkeys|]. by intros it (? & _).
  - exists t', x, y. split; [done|]. split; [exact Hfr|]. by apply (gst_tree i last (bc_tree bc)).
Qed.

Lemma last_size_ok i last bc : gbc i last bc -> i < 256 -> exists s, (if 0 <=? last then data_file_size bc last else Ret (u64 (-1))) = Ret s.
Proof.
  intros [Hfr Hg] Hi. pose proof (gs_last _ _ _ _ _ Hg). destruct (Z.leb_spec 0 last); [|eauto]. unfold data_file_size. rewrite frame_data by (done || lia). cbn [mbind outcome_bind]. eauto.
Qed.

Lemma gc_files_spec k : forall i last bc limit now skipped,
  gbc i last bc -> 0 <= i -> i + Z.of_nat k = curr ->
  exists bc' last', gc_files env k bc i last limit now skipped = Ret (bc', Some last') /\ gbc curr last' bc'.
Proof.
  induction k as [|k IH]; intros i last bc limit now skipped Hg H0 Hk; [exists bc, last; split; [done|]; by replace curr with i by lia|].
  assert (Hi : 0 <= i < curr) by lia. pose proof Hg as [Hfr Hgs]. cbn [gc_files]. rewrite (frame_data bc i), (frame_hint bc i) by (done || lia). cbn [mbind outcome_bind].
  destruct (file_facts _ _ _ _ _ Hgs Hi) as (_ & _ & _ & _ & Hb & [x Ex] & _). rewrite (proj2 (Z.ltb_ge _ 0)) by lia. pose proof (gs_plain _ _ _ _ _ Hgs) as Hp. pose proof (gs_last _ _ _ _ _ Hgs).
  rewrite stat_plain, Ex by done. destruct x as [x m|l]; [|by destruct (Hp (data d i) l)]. destruct (limit <? m).
  - destruct (gc_renumber_spec i last bc now Hg Hi) as (bc1 & last1 & -> & Hg1). rewrite ret_bind. apply IH; [done|lia|lia].
  - destruct (count_ok i last bc now skipped Hg Hi) as (t1 & del & tot & -> & Hg1). rewrite ret_bind. cbv beta iota zeta.
    destruct (last_size_ok i last (set_tree bc t1) Hg1 ltac:(lia)) as (sz & ->). rewrite ret_bind.
    match goal with |- context [gc_into env 3 _ i ?x ?x now] => set (T := x) end. assert (HT : (T = last /\ 0 <= last) \/ T = last + 1).
    { unfold T. destruct (Z.eqb_spec last (-1)); cbn [orb]; [by right|]. destruct (_ <? _); [by right|left; split; [done|lia]]. }
    clearbody T. destruct (gc_into_spec i last (set_tree bc t1) T now skipped Hg1 Hi HT) as (bc2 & T2 & del2 & -> & Hg2). rewrite ret_bind. cbv beta iota. apply IH; [|lia|lia].
    destruct Hg2 as [Hfr2 Hgs2]. split; [exact Hfr2|exact Hgs2].
Qed.
(** ** The current file *)
Lemma drop_snapshots_spec k : forall i bc,
  frame bc -> plain (bc_fs bc) -> 0 <= i -> i + Z.of_nat k <= 258 ->
  exists f', drop_snapshots k bc i = Ret (set_fs bc f') /\ plain f' /\
    forall ty j, ty <> HTREE_FILE -> 0 <= j <= 257 -> f' !! path d (File ty j) = bc_fs bc !! path d (File ty j).
Proof.
  induction k as [|k IH]; intros i bc Hfr Hp Hi Hk; [exists (bc_fs bc); by destruct bc|]. cbn [drop_snapshots]. rewrite frame_path by (done || lia). rewrite ret_bind, mgr_unlink_plain by done.
  destruct (IH (i + 1) (set_fs bc (delete (path d (File HTREE_FILE i)) (bc_fs bc))) Hfr (plain_delete _ _ Hp) ltac:(lia) ltac:(lia)) as (f' & -> & Hp' & Hsame).
  exists f'. split; [done|]. split; [done|]. intros ty j Hty Hj. rewrite Hsame by done. apply lookup_delete_ne, path_ne; [simpl; lia|done|congruence].
Qed.

(** The current file has become number [T]. *)
Section Ends.
Context (last : Z) (t : HTree C) (f : fs) (b : sizes) (bc' : Bitcask C).
Context (Hg : gst curr last t f b).
Let T := last + 1.
Context (Hsame : bc_mgr bc' = bc_mgr bc0 /\ bc_updating bc' = bc_updating bc0 /\ bc_wb bc' = bc_wb bc0 /\ bc_fb bc' = None /\ bc_curr bc' = T).
Context (Htree : tree_ok (bc_tree bc')) (Hplain : plain (bc_fs bc')) (Hfit : sizes_fit (bc_buckets bc')).
Context (Hlow : forall j, 0 <= j <= last -> bc_fs bc' !! data d j = f !! data d j /\ bucket (bc_buckets bc') j = bucket b j).
Context (Hmid : bc_fs bc' !! data d T = f !! data d curr /\ bucket (bc_buckets bc') T = bucket b curr).
Context (Hhigh : forall j, T < j <= 257 -> bc_fs bc' !! data d j = (if decide (j <= curr) then None else f !! data d j) /\ bucket (bc_buckets bc') j = (if decide (j <= curr) then -1 else bucket b j)).
Context (Hent : forall k, match abs t !! k with
  | None => abs (bc_tree bc') !! k = None
  | Some e => exists e', abs (bc_tree bc') !! k = Some e' /\ e'.1.2 = e.1.2 /\
      if Z.land e.1.1 0xff =? curr then 0 < e.1.2 -> Z.land e'.1.1 0xff = T /\ Z.land e'.1.1 0xffffff00 = Z.land e.1.1 0xffffff00 else e' = e
  end).

Lemma read_moved : fs_read (bc_fs bc') (data d T) = fs_read f0 (data d curr).
Proof.
  rewrite !fs_read_plain by (done || apply plain0). rewrite (proj1 Hmid). pose proof curr_nonneg. by rewrite (proj1 (gs_rest _ _ _ _ _ Hg curr ltac:(lia))).
Qed.

Lemma files_end : files_ok d (bc_fs bc') (bc_buckets bc') T.
Proof.
  pose proof (co_files _ _ _ _ _ Hcore) as F. fold f0 curr in F. pose proof curr_nonneg. pose proof Hg as [Gt _ Gp Gf Gl Grest Ggap Gdone _ _].
  destruct (Grest curr ltac:(lia)) as (R1 & _ & R3). assert (Hcase : forall j, 0 <= j <= 257 -> j <= last \/ j = T \/ (T < j /\ j <= curr) \/ (T < j /\ curr < j)) by (unfold T; lia).
  assert (Hfl : forall j, 0 <= j <= 257 -> bc_fs bc' !! data d j = None -> flen d (bc_fs bc') j = 0) by (intros; by apply flen_none).
  assert (Hup : forall j, T < j <= 257 -> curr < j -> bc_fs bc' !! data d j = None).
  { intros j Hj Hc. rewrite (proj1 (Hhigh j Hj)), decide_False by lia. rewrite (proj1 (Grest j ltac:(lia))). apply (fo_above _ _ _ _ F); lia. }
  assert (Hmv : flen d (bc_fs bc') T = flen d f0 curr) by (unfold flen; by rewrite read_moved).
  assert (Hdn : forall j, 0 <= j <= last -> flen d (bc_fs bc') j = flen d f j) by (intros j Hj; unfold flen; rewrite !fs_read_plain by done; by rewrite (proj1 (Hlow j Hj))).
  constructor; auto; [unfold T; lia| | | |].
  - intros j Hj Hex. destruct (Hcase j ltac:(lia)) as [H1|[->|[[H1 H2]|[H1 H2]]]].
    + rewrite (proj2 (Hlow j ltac:(lia))). apply Gdone. lia.
    + rewrite (proj1 Hmid), R1 in Hex. rewrite (proj2 Hmid), R3. apply (fo_known _ _ _ _ F); [lia|done].
    + rewrite (proj1 (Hhigh j ltac:(lia))), decide_True in Hex by done. by destruct Hex.
    + rewrite Hup in Hex by lia. by destruct Hex.
  - intros j Hj. destruct (Hcase j ltac:(lia)) as [H1|[->|[[H1 H2]|[H1 H2]]]].
    + rewrite (proj2 (Hlow j ltac:(lia))), Hdn by lia. apply Gdone. lia.
    + rewrite (proj2 Hmid), R3, Hmv. apply (fo_pos _ _ _ _ F). lia.
    + rewrite (proj2 (Hhigh j ltac:(lia))), Hfl, decide_True by (done || lia || rewrite (proj1 (Hhigh j ltac:(lia))), decide_True by done; done). lia.
    + rewrite (proj2 (Hhigh j ltac:(lia))), Hfl, decide_False by (lia || apply Hup; lia). rewrite (proj2 (proj2 (Grest j ltac:(lia)))).
      pose proof (fo_pos _ _ _ _ F j Hj) as Hp. rewrite flen_none in Hp by (apply plain0 || apply (fo_above _ _ _ _ F); lia). done.
  - intros j Hj. destruct (Hcase j ltac:(lia)) as [H1|[->|[[H1 H2]|[H1 H2]]]].
    + rewrite Hdn by lia. apply Gdone. lia.
    + rewrite Hmv. apply (fo_size _ _ _ _ F). lia.
    + rewrite Hfl by (done || rewrite (proj1 (Hhigh j ltac:(lia))), decide_True by done; done). done.
    + rewrite Hfl by (lia || apply Hup; lia). done.
  - intros j Hj Hj'. destruct (Z.le_gt_cases j curr); [|apply Hup; unfold T in *; lia]. rewrite (proj1 (Hhigh j ltac:(unfold T in *; lia))), decide_True by done. done.
Qed.

Lemma entries_end k : match abs (bc_tree bc') !! k with
  | Some e => exists v, M !! k = Some v /\ e.1.2 = v.1.1 /\
      (0 <= v.1.1 -> exists r, r_key r = k /\ r_flag r = v.1.2 /\ r_value r = v.2 /\
         located env d (bc_fs bc') (bc_curr bc') (bc_wb bc') (bc_fb bc') (Z.land e.1.1 0xff) (Z.land e.1.1 0xffffff00) r)
  | None => forall v, M !! k = Some v -> v.1.1 < 0
  end.
Proof.
  pose proof (gs_entry _ _ _ _ _ Hg k) as He. pose proof (Hent k) as Hk. pose proof (co_points _ _ _ _ _ Hcore k) as Hp. fold m0 f0 curr in Hp. rewrite Hfb in Hp.
  destruct Hsame as (_ & _ & -> & -> & ->). pose proof (gs_last _ _ _ _ _ Hg). destruct (abs t !! k) as [e|].
  - destruct Hk as (e' & -> & Hv' & Hpos). destruct He as (e0 & He0 & Hv & Hsm & Hlo). destruct (orig_value k e0 He0) as (v & EM & Ev & Hne & _). exists v. split; [done|]. split; [congruence|]. intros H0.
    destruct (Z.eqb_spec (Z.land e.1.1 0xff) curr) as [Eb|Eb].
    + specialize (Hsm ltac:(lia)). subst e0. destruct (Hpos ltac:(lia)) as [B1 B2]. rewrite He0, EM in Hp. destruct Hp as (_ & _ & _ & _ & r & Hrk & Hrf & Hrv & HL). exists r. do 3 (split; [done|]).
      rewrite B1, B2. destruct HL as [[_ HL]|[(x & E & _)|(file & Hr & HL)]]; [by left|done|]. right. right. exists file. by rewrite read_moved, <- Eb.
    + subst e'. destruct (Z.lt_ge_cases (Z.land e.1.1 0xff) curr) as [Hlt|Hge].
      * destruct (Hlo Hlt ltac:(lia)) as [Hb (v' & r & file & EM' & Hrk & Hrf & Hrv & Hr & HL)]. assert (v' = v) as -> by congruence. exists r. do 3 (split; [done|]). right. right. exists file. split; [|done].
        rewrite <- Hr. apply fs_read_same; [apply Hg|done|]. apply Hlow. pose proof (land_ff e.1.1). lia.
      * exfalso. specialize (Hsm ltac:(lia)). subst e0. rewrite He0, EM in Hp. destruct Hp as (_ & _ & _ & _ & r & _ & _ & _ & HL). pose proof Hcore as [_ _ _ F _ Hch _ _ _ _]. fold f0 curr in F, Hch. rewrite Hfb in Hch.
        destruct (located_range env d _ _ _ _ _ _ _ _ F (bo_start _ _ Hbuf) Hch (land_ff e.1.1) HL). lia.
  - rewrite Hk. intros v EM. rewrite EM in Hp. destruct (m0 !! k) as [e0|] eqn:E0; [|done]. specialize (He e0 eq_refl). destruct (orig_value k e0 E0) as (v' & EM' & Ev & _). assert (v' = v) as -> by congruence. lia.
Qed.

Lemma readable_end : readable env d bc' M.
Proof.
  pose proof Hsame as (E1 & E2 & E3 & E4 & E5). pose proof Hcore as [Hm Hu _ F Hs Hch _ _ _ _]. constructor; try done; rewrite ?E1, ?E2, ?E3; try done.
  - rewrite E5. apply files_end.
  - rewrite E4, E5. cbn [chained]. unfold flen. rewrite read_moved. rewrite Hfb in Hch. exact Hch.
  - intros k. pose proof (entries_end k) as He. rewrite E3 in He. exact He.
Qed.
End Ends.
Lemma move_current last t f b :
  gst curr last t f b -> last + 1 < curr ->
  let has := 0 <? bucket b curr in
  let f1 := if has then default f (fs_symlink f (data d curr) (data d (last + 1))) else f in
  exists f', (if has then mgr_rename (fs_unlink f1 (data d (last + 1))) (data d curr) (data d (last + 1)) else Ret f1) = Ret f' /\ plain f' /\
    f' !! data d (last + 1) = f !! data d curr /\ f' !! data d curr = None /\ same_but [data d (last + 1); data d curr] f f'.
Proof.
  intros Hg Hlt. cbv zeta. pose proof (gs_last _ _ _ _ _ Hg). destruct (gs_rest _ _ _ _ _ Hg curr ltac:(lia)) as (R1 & _ & R3). destruct (gs_gap _ _ _ _ _ Hg (last + 1) ltac:(lia)) as [Hnone _].
  pose proof (gs_plain _ _ _ _ _ Hg) as Hp. pose proof (fo_pos _ _ _ _ (co_files _ _ _ _ _ Hcore) curr ltac:(lia)) as Hpos. fold f0 in Hpos. rewrite <- R3 in Hpos.
  assert (Hne : data d (last + 1) <> data d curr) by (apply path_ne; simpl; [lia|lia|intros [= E]; lia]). destruct (Z.ltb_spec 0 (bucket b curr)) as [Hh|Hh].
  - unfold fs_symlink. rewrite Hnone. cbn [default from_option id]. unfold fs_unlink. rewrite delete_insert_id by done.
    assert (exists x m, f !! data d curr = Some (Reg x m)) as (x & m & Ex).
    { rewrite R1. apply Hpos in Hh. unfold flen in Hh. rewrite fs_read_plain in Hh by apply plain0. destruct (f0 !! data d curr) as [[x m|l]|]; [eauto|by unfold blen in Hh; simpl in Hh|by unfold blen in Hh; simpl in Hh]. }
    rewrite (mgr_rename_plain _ _ _ _ Hp Ex). eexists. split; [done|]. split; [by apply plain_insert, plain_delete|]. split; [by rewrite lookup_insert_eq|].
    split; [rewrite lookup_insert_ne by done; apply lookup_delete_eq|]. intros q Hq. rewrite !not_elem_of_cons in Hq. by rewrite lookup_insert_ne, lookup_delete_ne by naive_solver.
  - exists f. split; [done|]. split; [done|]. assert (Hc : f !! data d curr = None).
    { rewrite R1. destruct (lo_file _ _ _ _ _ _ _ _ _ _ _ _ Hlog) as [Hemp _]. specialize (Hemp curr ltac:(lia)). unfold flen in Hpos. rewrite fs_read_plain in Hemp, Hpos by apply plain0.
      destruct (f0 !! data d curr) as [[x m|l]|] eqn:Ex; [|by destruct (plain0 (data d curr) l)|done]. destruct x as [|c x]; [done|]. cbn [default from_option id] in Hpos. unfold blen in Hpos. cbn [length] in Hpos. lia. }
    rewrite Hnone, Hc. by split; [|split].
Qed.

Lemma gc_current_spec last bc now : gbc curr last bc -> exists bc', gc_current bc last now = Ret bc' /\ readable env d bc' M.
Proof.
  intros [Hfr Hg]. pose proof (gs_last _ _ _ _ _ Hg) as Hla. pose proof Hfr as (F1 & F2 & F3 & F4 & F5 & F6 & _). unfold gc_current. rewrite F4. fold curr.
  destruct (Z.ltb_spec (last + 1) curr) as [Hlt|Hge].
  2: { exists bc. split; [done|]. assert (Ec : curr = last + 1) by lia. apply (readable_end last (bc_tree bc) (bc_fs bc) (bc_buckets bc) bc Hg); try apply Hg; try done.
       - rewrite F4. fold curr. auto.
       - by rewrite <- Ec.
       - intros j Hj. rewrite !decide_False by lia. done.
       - intros k. destruct (abs (bc_tree bc) !! k) as [e|]; [|done]. exists e. split; [done|]. split; [done|]. destruct (Z.eqb_spec (Z.land e.1.1 0xff) curr); [|done]. intros _. split; [congruence|done]. }
  rewrite (frame_data bc curr), (frame_data bc (last + 1)) by (done || lia). rewrite !ret_bind.
  destruct (move_current last _ _ _ Hg Hlt) as (f' & Emv & Hp' & M1 & M2 & Hsb). cbv zeta in *.
  destruct (renumber_visit (last + 1) (bc_curr_tree bc) (bc_tree bc)) as (t' & -> & Ht' & _ & Habs); [rewrite F3; apply (io_curr _ _ _ _ _ (co_idx _ _ _ _ _ Hcore))|apply Hg|].
  rewrite ret_bind, Emv, ret_bind. clear Emv. set (b' := <[curr := -1]> (<[last + 1 := bucket (bc_buckets bc) curr]> (bc_buckets bc))).
  assert (Hb' : sizes_fit b') by (do 2 (apply sizes_fit_insert; [|try done; apply (gs_fit _ _ _ _ _ Hg); lia]); apply Hg).
  destruct (dump_ok d Hd (set_files (set_tree bc t') b' f') now) as (f2 & -> & Hk); [by apply frame_mgr|done|done|]. rewrite ret_bind. eexists. split; [done|].
  assert (Hd2 : forall j, 0 <= j <= 257 -> f2 !! data d j = f' !! data d j) by (intros j Hj; apply (keeps_same d f' f2 (File DATA_FILE j) Hk); [simpl; lia|done]).
  assert (Hoth : forall j, 0 <= j <= 257 -> j <> last + 1 -> j <> curr -> f2 !! data d j = bc_fs bc !! data d j).
  { intros j Hj N1 N2. rewrite Hd2 by done. apply Hsb. rewrite !not_elem_of_cons. repeat split; try apply not_elem_of_nil; apply path_ne; simpl; try lia; congruence. }
  apply (readable_end last (bc_tree bc) (bc_fs bc) (bc_buckets bc) _ Hg); bc_simpl; try done; unfold b'; [apply Hk| | | |].
  - intros j Hj. rewrite !bucket_insert, !decide_False by lia. split; [apply Hoth; lia|done].
  - rewrite Hd2 by lia. rewrite bucket_insert, decide_False, bucket_insert, decide_True by lia. done.
  - intros j Hj. case_decide as Ej.
    + destruct (decide (j = curr)) as [->|Hne]; [rewrite Hd2, bucket_insert, decide_True by lia; done|]. destruct (gs_gap _ _ _ _ _ Hg j ltac:(lia)) as [G1 G2].
      rewrite Hoth, G1, !bucket_insert, !decide_False by lia. done.
    + rewrite Hoth, !bucket_insert, !decide_False by lia. done.
  - intros k. rewrite Habs, F3. pose proof (gs_entry _ _ _ _ _ Hg k) as He. destruct (abs (bc_tree bc) !! k) as [e|] eqn:Et; [|by destruct (abs (bc_curr_tree bc0) !! k)].
    destruct He as (e0 & He0 & _ & Hsm & _). destruct (renumbered_entry curr (last + 1) (bc_tree bc) (abs (bc_curr_tree bc0)) k e current_roster Et) as (e' & E & Hv & Hpos); [intros Hb; by rewrite (Hsm ltac:(lia)) at 1|lia|].
    rewrite Et in E. exists e'. split; [done|]. split; [done|]. destruct (_ =? curr); [apply Hpos|done].
Qed.

Lemma optimize_readable limit now : exists bc', bc_optimize env bc0 limit now = Ret (bc', true) /\ readable env d bc' M.
Proof.
  assert (Hfr : frame (set_optimize bc0 1)) by (unfold frame; bc_simpl; auto 10). pose proof curr_nonneg. unfold bc_optimize.
  destruct (drop_snapshots_spec (Z.to_nat curr) 0 (set_optimize bc0 1) Hfr plain0 ltac:(lia) ltac:(lia)) as (f & E & Hp & Hsame). fold curr. rewrite E, ret_bind. clear E. cbv zeta.
  set (bc1 := set_snapshot (set_fs (set_optimize bc0 1) f) (-1)). assert (Hg : gbc 0 (-1) bc1).
  { split; [exact Hfr|]. apply gst_start; [done| |]; intros j Hj; by apply Hsame. }
  change (bc_curr bc1) with curr. destruct (gc_files_spec (Z.to_nat curr) 0 (-1) bc1 (if 3600 * 24 * 365 * 10 <? limit then limit else now - limit) now false Hg ltac:(lia) ltac:(lia)) as (bc2 & last & -> & Hg2). rewrite ret_bind.
  destruct (gc_current_spec last bc2 now Hg2) as (bc3 & -> & Hr). rewrite ret_bind. eexists. split; [done|]. destruct Hr. by constructor.
Qed.

End Whole.

(** ** A collection in the life of a bitcask *)
Section Collected.
Context {C : Type} {KC : KeyCodec C} {KL : KeyCodecLaws C}.
Context (env : Env) (d : bytes).
Context (Hfresh : forall n, length (e_fresh env n) = Z.to_nat n /\ bytes_ok (e_fresh env n)).
Context (Hd : blen d <= 230) (Hmax : 2 ^ 27 <= e_max_bucket_size env <= DEFAULT_MAX).
Implicit Types (bc : Bitcask C) (M : store).

Lemma max_small : 0 <= e_max_bucket_size env <= 2 ^ 32 - 2 ^ 26.
Proof. unfold DEFAULT_MAX in *. lia. Qed.

(** The flush under way is finished first. *)
Lemma collect_spec_reached {SN : Snaps} n bc M limit now1 now2 :
  reached env d n bc M -> 0 <= n <= MAX_OPS ->
  exists b1 b2, bc_step env bc (EFlushEnd now1) = Ret (b1, ANone) /\ bc_optimize env b1 limit now2 = Ret (b2, true) /\ readable env d b2 M.
Proof.
  intros [Hi Hv Hc] Hn. assert (exists b1, bc_step env bc (EFlushEnd now1) = Ret (b1, ANone) /\ inv env d n b1 M /\ bc_fb b1 = None /\ bc_curr b1 = bc_curr bc) as (b1 & E & [Hi1 Hb1] & Hfb & C1).
  { cbn [bc_step]. destruct (bc_fb bc) as [fb|] eqn:Ef; [|by exists bc].
    destruct (flush_end_spec env d Hd n bc M now1 Hi) as (b2 & -> & Hi2 & E1 & _ & E3 & _); [by rewrite Ef|]. by exists b2. }
  pose proof (co_log _ _ _ _ _ Hi1) as [L HL]. destruct (optimize_readable env d Hfresh Hd Hmax n (2 ^ 30 + n) b1 M L) with (limit := limit) (now := now2) as (b2 & E2 & Hr); auto; try lia.
  - unfold MAX_OPS in *. change (2 ^ 30) with 1073741824. change (2 ^ 31) with 2147483648. lia.
  - by exists b1, b2.
Qed.

Definition gets (keys : list bytes) : list event := List.map (fun key => EGet key false) keys.
Lemma readable_gets keys : forall bc M, readable env d bc M -> Forall bytes_ok keys -> exists bc', bc_run env bc (gets keys) = Ret (bc', (spec_run M (gets keys)).2).
Proof.
  induction keys as [|key keys IH]; intros bc M Hr Hk; [by exists bc|]. apply Forall_cons in Hk as [Hk Hks]. cbn [gets List.map bc_run bc_step spec_run spec_step fst snd].
  destruct (readable_get env d Hd max_small bc M key Hr Hk) as (b1 & r & p & -> & Hr1 & Hv). rewrite !ret_bind. destruct (IH b1 M Hr1 Hks) as (b2 & E). fold (gets keys). rewrite E, ret_bind, Hv. by exists b2.
Qed.

(** C9. Collection keeps every value.  A bitcask opened on an empty directory is given
    any history; when the flush under way has ended, [bc_optimize] returns 0,
    whatever part of the files is recent, and then every read is answered with
    the version, flag and value that was there before, deleted keys with nothing.
    (Or a part of the history used up the bucket numbers.  The limit of a data
    file is any from 128 MB to the 4000 MB that the command line allows.) *)
Theorem collection_keeps_values m depth pos now es limit now1 now2 keys :
  disks m = [d] -> e_readdir env d = [] -> 0 <= depth <= 7 -> Forall (event_ok env (ht_new (C := C) depth pos false)) es ->
  Z.of_nat (length es) <= MAX_OPS -> Forall bytes_ok keys ->
  exists bc, bc_opened (C := C) env m ∅ depth pos now = Ret bc /\
    ((exists bc1 bc2 bc3 bc4, bc_run env bc es = Ret (bc1, (spec_run ∅ es).2) /\ bc_step env bc1 (EFlushEnd now1) = Ret (bc2, ANone) /\
        bc_optimize env bc2 limit now2 = Ret (bc3, true) /\
        bc_run env bc3 (gets keys) = Ret (bc4, (spec_run (spec_run ∅ es).1 (gets keys)).2)) \/
     (exists es1 es2 bc1, es = es1 ++ es2 /\ bc_run env bc es1 = Ret (bc1, (spec_run ∅ es1).2) /\ 256 <= bc_curr bc1)).
Proof.
  intros Hm Hrd Hdp Hes Hlen Hk. exists (fresh_bitcask m depth pos now). split; [by apply (open_empty env d)|].
  destruct (run_reached (SN := no_snaps) env d Hfresh Hd max_small 0 (fresh_bitcask m depth pos now) ∅ es) as [(bc1 & E & Hre & _)|H]; auto; try lia; [|left].
  - constructor; [by apply fresh_inv|apply map_Forall_empty|cbn; lia].
  - destruct (collect_spec_reached _ bc1 _ limit now1 now2 Hre) as (b2 & b3 & E2 & E3 & Hr); [lia|].
    destruct (readable_gets keys b3 _ Hr Hk) as (b4 & E4). by exists bc1, b2, b3, b4.
Qed.
End Collected.

Lemma collection_keeps_values_witness :
  exists bc, bc_opened (C := Codec) (demo_env DEFAULT_MAX) demo_mgr ∅ 0 0 99 = Ret bc /\
    ((exists bc1 bc2 bc3 bc4, bc_run (demo_env DEFAULT_MAX) bc demo_events = Ret (bc1, (spec_run ∅ demo_events).2) /\
        bc_step (demo_env DEFAULT_MAX) bc1 (EFlushEnd 200) = Ret (bc2, ANone) /\
        bc_optimize (demo_env DEFAULT_MAX) bc2 100 300 = Ret (bc3, true) /\
        bc_run (demo_env DEFAULT_MAX) bc3 (gets [lit "photo"; lit "name"]) = Ret (bc4, (spec_run (spec_run ∅ demo_events).1 (gets [lit "photo"; lit "name"])).2)) \/
     (exists es1 es2 bc1, demo_events = es1 ++ es2 /\ bc_run (demo_env DEFAULT_MAX) bc es1 = Ret (bc1, (spec_run ∅ es1).2) /\ 256 <= bc_curr bc1)).
Proof.
  apply (collection_keeps_values (demo_env DEFAULT_MAX) (lit "/db")).
  - intros n. apply zeros_ok.
  - vm_compute. discriminate.
  - split; vm_compute; discriminate.
  - reflexivity.
  - reflexivity.
  - lia.
  - by_compute.
  - vm_compute. discriminate.
  - by_compute.
Defined.

(** A collection of small files: four data files with a record each become one with
    two, without the deleted key and the overwritten value; the current file, still
    in the write buffer, takes the next number. *)
Definition collected_session : outcome (list Z * list Z * list answer) :=
  let env := demo_env 1000 in
  let put k v := [ESet k (repeat v 200) 1 0 100; EFlushBegin 0 0 100; EFlushEnd 100] in
  let len bc i := flen (lit "/db") (bc_fs bc) i in
  bc ← bc_opened (C := Codec) env demo_mgr ∅ 0 0 99;
  '(bc, _) ← bc_run env bc (put (lit "a") 97 ++ put (lit "b") 98 ++ put (lit "a") 99 ++ put (lit "c") 100 ++ [EDelete (lit "b") 101; ESet (lit "d") (lit "new") 0 0 102]);
  '(bc', _) ← bc_optimize env bc 100 10000;
  '(_, l) ← bc_run env bc' (gets [lit "a"; lit "b"; lit "c"; lit "d"]);
  Ret ([bc_curr bc; bc_curr bc'], List.map (len bc) [0; 1; 2; 3; 4] ++ List.map (len bc') [0; 1; 2; 3; 4], l).
Example demo_collection :
  collected_session = Ret ([4; 1], [256; 256; 256; 256; 0; 512; 0; 0; 0; 0],
    [AValue (Some (2, 1, repeat 99 200)); AValue None; AValue (Some (1, 1, repeat 100 200)); AValue (Some (1, 0, lit "new"))]).
Proof. vm_compute. reflexivity. Qed.
