(* ===== verification/Reopen.v ===== *)
(** * Opening a directory

    The directory that a bitcask left behind holds the logs of its buckets, none
    of them empty, and their hint files, or some of them.  [bc_open2] and
    [bc_scan] recover the live entries. *)
From Stdlib Require Import ZArith Lia List.
From stdpp Require Import base numbers list list_numbers gmap strings.
From S2P Require Import Prelude Hash CText Codec CodecFacts HTree HTreeMap HTreeSpec HTreeFile HTreeFine Disk DiskFacts Hint HintFacts Record RecordFacts Scan ScanFacts Buckets BucketsFacts Bitcask BitcaskInv BitcaskLog BitcaskSteps BitcaskSpec BitcaskLife BitcaskHistory.

#[export] Instance ftype_eq_dec : EqDecision ftype.
Proof. solve_decision. Defined.

(** ** Listing a directory *)
Section Listing.
Context (d : bytes) (Hd : blen d <= 230).

(** What [get_bucket_by_name] makes of the names of a bitcask. *)
Definition meaning (n : name_id) : option (ftype * Z) :=
  match n with File ty i => if i <=? 255 then Some (ty, i) else None | _ => None end.

Lemma names_meaning : forallb (fun n => bool_decide (get_bucket_by_name [] (name n) = meaning n)) all_names = true.
Proof. vm_compute. reflexivity. Qed.

Lemma bucket_name n : in_range n -> get_bucket_by_name d (name n) = meaning n.
Proof.
  intros Hn. pose proof (proj1 (forallb_forall _ _) names_meaning n (proj1 (list_elem_of_In _ _) (all_names_in n Hn))) as H.
  apply bool_decide_eq_true in H. rewrite <- H. pose proof (name_length n Hn). unfold get_bucket_by_name, MAX_PATH_LEN.
  change (blen []) with 0. destruct (Z.ltb_spec 255 (blen (name n) + 0)), (Z.ltb_spec 255 (blen (name n) + blen d)); [lia|lia|lia|done].
Qed.

(** [names] lists the directory: its own entries, and nothing but the files of
    the bitcask. *)
Definition lists (f : fs) (names : list bytes) : Prop :=
  (forall n, in_range n -> is_Some (f !! path d n) -> name n ∈ names) /\
  (forall x, x ∈ names -> x = lit "." \/ x = lit ".." \/ exists n, in_range n /\ x = name n /\ is_Some (f !! path d n)).

Lemma check_entry_spec al m x f st :
  plain f -> x = lit "." \/ x = lit ".." \/ (exists n, in_range n /\ x = name n /\ is_Some (f !! path d n)) ->
  exists st', check_entry al m 0 d x f st = Ret (Some (f, st')) /\
    forall i, 0 <= i < 256 -> bucket (f_sizes st') i = if decide (x = name (File DATA_FILE i)) then flen d f i else bucket (f_sizes st) i.
Proof.
  intros Hf [->|[->|(n & Hn & -> & [nd Hx])]].
  1-2: exists st; split; [done|]; intros i Hi; rewrite decide_False; [done|]; unfold name; intros E;
    (pose proof (file_name_length DATA_FILE i ltac:(lia)); apply (f_equal length) in E; rewrite length_app in E; cbn in E; lia).
  unfold check_entry. rewrite bucket_name by done. destruct (meaning n) as [[ty b]|] eqn:Em.
  - destruct n as [|ty' b'|]; [done| |done]. cbn [meaning] in Em. destruct (Z.leb_spec b' 255); [|done]. injection Em as -> ->.
    change (join d (name (File ty b))) with (path d (File ty b)). pose proof (path_length d (File ty b) Hn Hd). rewrite print_path_ok by (unfold MAX_PATH_LEN in *; lia).
    cbn [mbind outcome_bind]. change (0 =? 0) with true. cbv iota. rewrite Hx. destruct nd as [x mt|t]; [|by destruct (Hf _ _ Hx)]. cbn [mbind outcome_bind].
    destruct ty; cbn [type_num]; [change (0 =? 0) with true|change (1 =? 0) with false|change (2 =? 0) with false]; cbv iota; eexists; (split; [reflexivity|]); intros i Hi; cbn [f_sizes set_loc].
    + rewrite stat_plain, Hx by done. rewrite bucket_insert. case_decide as E1; [subst i; rewrite decide_True by done|rewrite decide_False; [done|]].
      * unfold flen, data. by rewrite fs_read_plain, Hx.
      * intros E%name_inj; [|done|simpl; lia]. by injection E.
    + rewrite decide_False; [done|]. intros E%name_inj; [done|done|simpl; lia].
    + rewrite decide_False; [done|]. intros E%name_inj; [done|done|simpl; lia].
  - exists st. split; [done|]. intros i Hi. rewrite decide_False; [done|]. intros E%name_inj; [|done|simpl; lia]. subst n. cbn [meaning] in Em.
    destruct (Z.leb_spec i 255); [done|lia].
Qed.

Lemma check_dir_spec al m names f st :
  plain f -> (forall x, x ∈ names -> x = lit "." \/ x = lit ".." \/ exists n, in_range n /\ x = name n /\ is_Some (f !! path d n)) ->
  exists st', check_dir al m 0 d names f st = Ret (Some (f, st')) /\
    forall i, 0 <= i < 256 -> bucket (f_sizes st') i = if decide (name (File DATA_FILE i) ∈ names) then flen d f i else bucket (f_sizes st) i.
Proof.
  intros Hf. revert st. induction names as [|x names IH]; intros st Hs; cbn [check_dir].
  { exists st. split; [done|]. intros i _. rewrite decide_False by apply not_elem_of_nil. done. }
  destruct (check_entry_spec al m x f st Hf (Hs x (list_elem_of_here _ _))) as (st1 & -> & H1). cbn [mbind outcome_bind].
  destruct (IH st1) as (st2 & -> & H2); [intros y Hy; apply Hs; by apply list_elem_of_further|]. exists st2. split; [done|]. intros i Hi. rewrite H2, H1 by done.
  destruct (decide (name (File DATA_FILE i) ∈ names)) as [Hin|Hin]; [rewrite decide_True by (by apply list_elem_of_further); done|].
  case_decide as E; [rewrite decide_True by (subst x; apply list_elem_of_here); done|]. rewrite decide_False; [done|]. rewrite elem_of_cons. by intros [<-|].
Qed.

(** The sizes that [init_buckets] finds. *)
Lemma init_listed al readdir m f :
  disks m = [d] -> plain f -> lists f (readdir d) ->
  exists b, init_buckets al false readdir m f = Ret (f, b) /\
    forall i, 0 <= i < 256 -> bucket b i = if decide (is_Some (f !! data d i)) then flen d f i else -1.
Proof.
  intros Hm Hf [Hall Hsound]. unfold init_buckets, check_buckets. rewrite Hm. cbn [check_disks].
  destruct (check_dir_spec al m (readdir d) f {| f_sizes := ∅; f_locs := ∅ |} Hf Hsound) as (st & -> & H). cbn [mbind outcome_bind].
  exists (f_sizes st). split; [done|]. intros i Hi. rewrite H by done. cbn [f_sizes].
  case_decide as E1; case_decide as E2; [done| | |by unfold bucket; rewrite lookup_empty].
  - exfalso. apply E2. destruct (Hsound _ E1) as [E|[E|(n & Hn & E & Hs)]].
    1-2: unfold name in E; apply (f_equal length) in E; rewrite length_app in E; cbn in E; lia.
    apply name_inj in E; [by subst n|simpl; lia|done].
  - exfalso. apply E1, Hall; [simpl; lia|done].
Qed.
End Listing.

(** ** A directory of logs *)
Section Recover.
Context {C : Type} {KC : KeyCodec C} {KL : KeyCodecLaws C} {SN : Snaps}.
Context (env : Env) (d : bytes).
Context (Hfresh : forall n, length (e_fresh env n) = Z.to_nat n /\ bytes_ok (e_fresh env n)).
Context (Hd : blen d <= 230).
Context (n depth pos N : Z) (m : gmap bytes entry) (L : Z -> log) (f0 : fs).
Let own := own (C := C) depth pos.
Let hint_ok := hint_ok (C := C) env d depth pos.

(** What does not change while the directory is scanned: the data files
    [0 .. N-1] are the logs [L], and no others exist. *)
Record data_ok (f : fs) : Prop := {
  da_plain : plain f;
  da_range : 0 <= N <= 255;
  da_log : forall i, 0 <= i < N -> exists file, fs_read f (data d i) = Some file /\ file <> [] /\ blen file < 2 ^ 32 /\ logged (e_fresh env) 0 (L i) file;
  da_above : forall i, N <= i <= 257 -> f !! data d i = None;
  da_empty : forall i, N <= i < 256 -> L i = [];
  da_good : forall i, 0 <= i < 256 -> Forall (fun x => copyable x /\ own (r_key x.2) = true) (L i);
  da_count : total L BUCKETS <= n;
  da_nohint : forall i, N <= i <= 257 -> f !! hint d i = None;
  da_resumed : resumed (C := C) env d n depth pos N f m L;
  da_same : forall i, 0 <= i <= 257 -> f !! data d i = f0 !! data d i;
  da_limit : 2 ^ 27 <= e_max_bucket_size env -> forall i, 0 <= i < N -> flen d f i <= e_max_bucket_size env;
  da_small : forall i, 0 <= i < 256 -> Forall (fun x => record_length x.2 <= big env) (L i)
}.

(** The entries [t] recovered from the logs before [i]: the versions are at most
    those of the tree [m] of the last session, and a deletion is remembered when
    the snapshot holds it. *)
Definition follows (i : Z) (t : gmap bytes entry) : Prop :=
  forall k, match replays L (Z.to_nat i) !! k, t !! k with
            | Some a, Some b => like a b /\ (b.1.2 <= a.1.2 \/ forall e, m !! k = Some e -> e.1.1 = b.1.1 -> b.1.2 <= e.1.2)
            | None, None => True
            | None, Some b => b.1.2 < 0 /\ sn_tree !! k = Some b /\ ~ touched i L k
            | Some _, None => False
            end.

(** The state of the scan before bucket [i]. *)
Record scanned (i : Z) (t : HTree C) (f : fs) : Prop := {
  sc_tree : tree_ok t;
  sc_cfg : t_depth t = depth /\ t_pos t = pos;
  sc_rel : follows i (abs t);
  sc_data : data_ok f;
  sc_done : forall j, 0 <= j < i -> hint_ok f j (L j) (abs t) /\ is_Some (f !! hint d j);
  sc_todo : forall j, i <= j < N -> hint_ok f j (L j) m;
  sc_built : built (sn_count + (total L (Z.to_nat i) - total L (Z.to_nat (sn_last + 1)))) t;
  sc_behind : behind i L (abs t)
}.

(** Records of a bucket. *)
Lemma replay_all_kept i (l : log) k : forall t, is_Some (t !! k) -> is_Some (fold_left (replay_all i) l t !! k).
Proof.
  induction l as [|[p r] l IH]; intros t Ht; [done|]. cbn [fold_left]. apply IH. unfold replay_all. destruct (check_key (r_key r)); [|done].
  destruct (decide (r_key r = k)) as [E|E]; [rewrite E, lookup_insert_eq; eauto|by rewrite lookup_insert_ne].
Qed.
Lemma in_log_replayed i x (l : log) :
  Forall (fun x => copyable x /\ own (r_key x.2) = true) l -> x ∈ l -> forall t, is_Some (fold_left (replay_all i) l t !! r_key x.2).
Proof.
  induction l as [|[p r] l IH]; intros Hl Hx t; [by apply not_elem_of_nil in Hx|]. apply Forall_cons in Hl as [[[Hck _] _] Hl].
  cbn [fold_left]. apply elem_of_cons in Hx as [->|Hx]; [|by apply IH]. apply replay_all_kept. unfold replay_all. cbn [snd] in *. rewrite Hck, lookup_insert_eq. eauto.
Qed.

Lemma touched_next i k :
  touched (i + 1) L k -> touched i L k \/ exists x, x ∈ L i /\ r_key x.2 = k.
Proof.
  intros (j & p & r & Hj & Hr & Hk). destruct (decide (j = i)) as [->|Hne]; [right; by exists (p, r)|left; exists j, p, r; split; [lia|done]].
Qed.
Lemma touched_mono i j k : i <= j -> touched i L k -> touched j L k.
Proof. intros H (b & p & r & Hb & Hr). exists b, p, r. split; [lia|done]. Qed.

Lemma log_ready f i : data_ok f -> 0 <= i < N -> Forall hint_ready (L i).
Proof. intros Hf Hi. destruct (da_log f Hf i Hi) as (file & _ & _ & Hl & H). by eapply (logged_ready _ 0). Qed.

Lemma logged_entry f i k a :
  data_ok f -> 0 <= i < N -> fold_left (replay_all i) (L i) ∅ !! k = Some a ->
  relocated i a = (if 0 <? a.1.2 then Some a else None) /\ relocate i a.1.1 = a.1.1 /\ Z.land a.1.1 0xff = i.
Proof.
  intros Hf Hi Ha. pose proof (da_range f Hf). destruct (replay_all_origin _ _ _ _ _ Ha) as [E|(p & r & Hin & -> & _)]; [by rewrite lookup_empty in E|].
  pose proof (proj1 (Forall_forall _ _) (log_ready f i Hf Hi) _ Hin) as Hx. pose proof (relocated_entry i (p, r) Hx ltac:(lia)) as Hr. destruct Hx as (Hm & Hp & _).
  cbn [fst snd] in *. split; [done|]. unfold log_entry. cbn [fst]. split; [|by apply log_bits; [lia|done|done]].
  rewrite pos_sum by (done || lia). unfold relocate. Z.div_mod_to_equations; lia.
Qed.

(** The next log, replayed from its records or from its hints. *)
Lemma follows_none f i t k :
  data_ok f -> 0 <= i < N -> follows i t -> fold_left (replay_all i) (L i) ∅ !! k = None ->
  match replays L (Z.to_nat i) !! k, t !! k with
  | Some a, Some b => like a b /\ (b.1.2 <= a.1.2 \/ forall e, m !! k = Some e -> e.1.1 = b.1.1 -> b.1.2 <= e.1.2)
  | None, None => True
  | None, Some b => b.1.2 < 0 /\ sn_tree !! k = Some b /\ ~ touched (i + 1) L k
  | Some _, None => False
  end.
Proof.
  intros Hf Hi H Hk. pose proof (da_range f Hf). specialize (H k). destruct (replays L (Z.to_nat i) !! k); [done|]. destruct (t !! k); [|done]. destruct H as (H1 & H2 & H3). split; [done|]. split; [done|].
  intros [Ht|(x & Hx & <-)]%touched_next; [done|]. destruct (in_log_replayed i x (L i)) with (t := ∅ : gmap bytes entry) as [y Hy]; [apply (da_good f Hf); lia|done|]. congruence.
Qed.

Lemma follows_data f i t :
  data_ok f -> 0 <= i < N -> follows i t -> follows (i + 1) (fold_left (replay i) (L i) t).
Proof.
  intros Hf Hi H k. pose proof (da_range f Hf). replace (Z.to_nat (i + 1)) with (S (Z.to_nat i)) by lia. cbn [replays]. rewrite Z2Nat.id by lia.
  rewrite !replay_agrees by (lia || by eapply log_ready). destruct (fold_left (replay_all i) (L i) ∅ !! k) as [a|] eqn:Ea; [|by eapply follows_none].
  destruct (logged_entry f i k a Hf Hi Ea) as (-> & _). destruct (Z.ltb_spec 0 a.1.2); [|done]. split; [|left; lia]. split; [done|]. split; [done|lia].
Qed.

Lemma follows_hints f i t its :
  data_ok f -> 0 <= i < N -> NoDup (List.map it_key its) ->
  covers (fold_left (replay_all i) (L i) ∅) (list_to_map (List.map (fun it => (it_key it, ival it)) its)) -> not_ahead i m its ->
  follows i t -> follows (i + 1) (fold_left (hint_step i) its t).
Proof.
  intros Hf Hi Hnd Hc Ha H k. pose proof (da_range f Hf). replace (Z.to_nat (i + 1)) with (S (Z.to_nat i)) by lia. cbn [replays]. rewrite Z2Nat.id by lia.
  rewrite replay_agrees, steps_find by (done || lia || by eapply log_ready). specialize (Hc k). rewrite map_find in Hc.
  destruct (fold_left (replay_all i) (L i) ∅ !! k) as [a|] eqn:Ea, (find_key k its) as [it|] eqn:Eit; cbn [fmap option_fmap option_map] in Hc;
    inversion Hc as [a' b' Hl E1 E2|]; [subst a' b'|by eapply follows_none].
  destruct (logged_entry f i k a Hf Hi Ea) as (-> & Hr & _). unfold find_key in Eit. apply List.find_some in Eit as [Hin Hk]. apply bool_decide_eq_true in Hk. subst k.
  pose proof (proj1 (Forall_forall _ _) Ha it (proj2 (list_elem_of_In _ _) Hin)) as Hle. destruct Hl as [Hp Hl]. unfold relocated, ival in *. cbn [fst snd] in *.
  destruct (Z.ltb_spec 0 a.1.2).
  - destruct Hl as (_ & Hh & Hv). cbn [fst snd] in *. destruct (Z.ltb_spec 0 (it_ver it)); [|lia]. split; [|right; cbn [fst snd]; intros e He Ep; by apply Hle].
    split; [cbn [fst snd]; by rewrite <- Hr, Hp|]. split; [done|cbn [fst snd]; lia].
  - destruct (Z.ltb_spec 0 (it_ver it)); [lia|done].
Qed.

(** ** Scanning one bucket *)
Lemma data_same f f' :
  data_ok f -> plain f' -> (forall i, 0 <= i <= 257 -> f' !! data d i = f !! data d i) ->
  (forall i, N <= i <= 257 \/ 0 <= i <= sn_last -> f' !! hint d i = f !! hint d i) -> (forall i, 0 <= i <= 257 -> f' !! snap d i = f !! snap d i) -> data_ok f'.
Proof.
  intros [] Hp Hdata Hhint Hsnap. pose proof (rs_last _ _ _ _ _ _ _ _ _ da_resumed0). constructor; auto.
  - intros j Hj. rewrite (fs_read_same f f') by (done || apply Hdata; lia). auto.
  - intros j Hj. rewrite Hdata by lia. auto.
  - intros j Hj. rewrite Hhint by lia. auto.
  - apply (resumed_fs env d _ _ _ _ f); auto. lia.
  - intros j Hj. rewrite Hdata by lia. auto.
  - intros Hmx j Hj. unfold flen. rewrite (fs_read_same f f') by (done || apply Hdata; lia). by apply da_limit0.
Qed.

Lemma data_keep f f' i :
  data_ok f -> plain f' -> same_but [hint d i; path d (Tmp HINT_FILE i)] f f' -> 0 <= i < N -> sn_last < i -> data_ok f'.
Proof.
  intros Hf Hp Hs Hi HS. pose proof (da_range f Hf). assert (Hsame : forall x, in_range x -> x <> File HINT_FILE i -> x <> Tmp HINT_FILE i -> f' !! path d x = f !! path d x).
  { intros x Hr H1 H2. apply Hs. unfold hint. rewrite !not_elem_of_cons. split; [apply path_ne; simpl; auto; lia|]. split; [apply path_ne; simpl; auto; lia|apply not_elem_of_nil]. }
  apply (data_same f); auto; intros j Hj; apply Hsame; try done; try (simpl; lia). intros [= ->]. lia.
Qed.

(** The entries of the other buckets stay, or go. *)
Lemma moves_other (i j : Z) (X : bytes -> option entry) (t t' : gmap bytes entry) :
  (forall k, t' !! k = match X k with Some e => relocated i e | None => t !! k end) -> 0 <= i < 256 -> j <> i -> moves_on j t t'.
Proof.
  intros H Hi Hne k e' He' Hb. rewrite H in He'. destruct (X k) as [[[p v] h]|]; [|exists e'; split; [done|]; split; [done|lia]].
  unfold relocated in He'. destruct (0 <? v); [|done]. injection He' as <-. cbn [fst] in Hb. rewrite relocate_bucket in Hb by done. by subst.
Qed.

(** Its hint file scanned: the other hint files and the data stay. *)
Lemma scanned_next i t t' f f' (X : bytes -> option entry) :
  scanned i t f -> 0 <= i < N -> sn_last < i -> tree_ok t' -> same_cfg t t' -> follows (i + 1) (abs t') ->
  (forall k, abs t' !! k = match X k with Some e => relocated i e | None => abs t !! k end) ->
  plain f' -> same_but [hint d i; path d (Tmp HINT_FILE i)] f f' -> hint_ok f' i (L i) (abs t') -> grows (length (L i)) t t' ->
  is_Some (f' !! hint d i) -> (forall k e, X k = Some e -> exists p r, (p, r) ∈ L i /\ r_key r = k) -> scanned (i + 1) t' f'.
Proof.
  intros [] Hi HS Ht' [Hc1 Hc2] Hrel HX Hp Hs Hh Hg Hex Hin. pose proof (da_range f sc_data0) as HN.
  assert (Hhint : forall j, 0 <= j <= 257 -> j <> i -> f' !! hint d j = f !! hint d j).
  { intros j Hj Hne. apply Hs. unfold hint. rewrite !not_elem_of_cons. split; [apply path_ne; simpl; [lia|lia|intros [= E]; lia]|]. split; [by apply path_ne; [simpl; lia|simpl; lia|]|apply not_elem_of_nil]. }
  constructor; auto.
  - by rewrite Hc1, Hc2.
  - by eapply data_keep.
  - intros j Hj. destruct (decide (j = i)) as [->|Hne]; [done|]. rewrite Hhint by lia. split; [|apply sc_done0; lia].
    eapply hint_ok_on; [lia|exact (moves_other i j X _ _ HX ltac:(lia) Hne)|]. eapply hint_ok_same; [apply sc_data0|done|apply Hhint; lia|apply sc_done0; lia].
  - intros j Hj. eapply hint_ok_same; [apply sc_data0|done|apply Hhint; lia|apply sc_todo0; lia].
  - replace (Z.to_nat (i + 1)) with (S (Z.to_nat i)) by lia. cbn [total]. rewrite Z2Nat.id by lia.
    pose proof (rs_count _ _ _ _ _ _ _ _ _ (da_resumed f sc_data0)). pose proof (total_le L (Z.to_nat (sn_last + 1)) (Z.to_nat i) ltac:(lia)).
    eapply built_le; [|apply Hg, sc_built0]; lia.
  - intros k b Hb. destruct (sc_behind0 k b Hb) as [H1 H2]. split; [done|]. rewrite HX. destruct (X k) as [[[q v] h]|] eqn:Ex.
    + assert (Ht : touched (i + 1) L k) by (destruct (Hin _ _ Ex) as (p & r & Hr); exists i, p, r; split; [lia|done]).
      unfold relocated. destruct (0 <? v); [|done]. right. cbn [fst]. rewrite relocate_bucket by lia. split; [lia|done].
    + destruct (abs t !! k); [destruct H2 as [H2|[H2 H3]]; [by left|right; split; [done|]]|]; apply (touched_mono i); done || lia.
Qed.

Lemma scan_hint_bucket i t f now :
  scanned i t f -> 0 <= i < N -> sn_last < i -> is_Some (f !! hint d i) ->
  exists t', scanHintFile (e_fresh env) f now t i (hint d i) None = Ret (f, t') /\ scanned (i + 1) t' f.
Proof.
  intros Hsc Hi HS Hex. pose proof Hsc as [Ht [Hc1 Hc2] Hrel Hf Hdone Htodo _ _]. pose proof (da_range f Hf). destruct (Htodo i ltac:(lia) Hex) as (its & Ho & Hnd & Hfit & Hkeys & Hcov & Hna).
  unfold scanHintFile. rewrite Ho. cbn [mbind outcome_bind].
  destruct (scan_hints_spec i its t (length (flat_map hint_of its)) ltac:(lia) Ht Hfit) as (t' & -> & Ht' & Ha' & Hd' & Hp' & Hg); [|apply items_shorter|].
  { eapply Forall_impl; [exact Hkeys|]. intros it (H1 & H2 & H3). split; [done|]. split; [done|]. rewrite <- H3. unfold BitcaskLog.own. by apply check_bucket_cfg. }
  cbn [mbind outcome_bind]. exists t'. split; [done|]. assert (HX : forall k, abs t' !! k = match ival <$> find_key k its with Some e => relocated i e | None => abs t !! k end).
  { intros k. rewrite Ha', steps_find by done. by destruct (find_key k its). }
  eapply (scanned_next i t t' f f _ Hsc); [done|done|done|done| |exact HX|apply Hf|done| |exact (grows_le _ _ _ _ (hints_fewer i (L i) its Hnd Hcov) Hg)|done|].
  - rewrite Ha'. by eapply follows_hints.
  - intros _. exists its. repeat (split; [done|]). apply Forall_forall. intros it Hin e He _. rewrite HX in He.
    assert (E : find_key (it_key it) its = Some it); [|rewrite E in He; unfold ival in He; cbn in He; destruct (0 <? it_ver it); [injection He as <-; cbn; lia|done]].
    pose proof (map_find its (it_key it)) as Hmf. rewrite map_in in Hmf by done. destruct (find_key (it_key it) its) as [it'|] eqn:E; [|done].
    unfold find_key in E. apply List.find_some in E as [Hin' Hk]. apply bool_decide_eq_true in Hk. f_equal. destruct it, it'. unfold ival in Hmf. cbn in *. congruence.
  - intros k e. specialize (Hcov k). rewrite map_find in Hcov. intros E. rewrite E in Hcov. inversion Hcov as [a b Hl Ea Eb|].
    destruct (replay_all_origin _ _ _ _ _ (eq_sym Ea)) as [E'|(p & r & Hr & _ & Hk)]; [by rewrite lookup_empty in E'|eauto].
Qed.

Lemma scan_data_bucket i t f now :
  scanned i t f -> 0 <= i < N -> sn_last < i -> f !! hint d i = None -> n <= 2000000 ->
  exists f' t', scanDataFile (e_fresh env) f now t i (data d i) (hint d i) = Ret (f', t') /\ scanned (i + 1) t' f'.
Proof.
  intros Hsc Hi HS Hex Hn. pose proof Hsc as [Ht [Hc1 Hc2] Hrel Hf Hdone Htodo _ _]. pose proof (da_range f Hf) as HN. destruct (da_log f Hf i Hi) as (file & Hread & _ & Hlen & Hlog).
  unfold scanDataFile. rewrite Hread. destruct (tree_new_ok (C := C) 0 0 true ltac:(lia)) as [Hn0 Hna].
  pose proof (da_good f Hf i ltac:(lia)) as Hgood.
  destruct (scan_loop_log (e_fresh env) (L i) file [] (scan_fuel file) t (ht_new 0 0 true) 0 i) as (t' & ct & E & H1 & H2 & H3 & H4 & H5 & Hg); auto.
  { pose proof (logged_length _ _ _ _ Hlog). unfold scan_fuel, blen in *. lia. }
  { eapply Forall_impl; [exact Hgood|]. intros x [_ Ho] _. rewrite <- Ho. unfold own, BitcaskLog.own. by apply check_bucket_cfg. }
  cbn [app] in E. change (blen []) with 0 in E. rewrite E. cbn [mbind outcome_bind]. rewrite Hna in H5. pose proof (log_ready f i Hf Hi) as Hrd.
  destruct (replay_all_fits i (L i) Hrd ltac:(lia) ∅ (map_Forall_empty _)) as [F1 F2]. rewrite <- H5, map_size_empty in *.
  pose proof (total_one L BUCKETS i ltac:(rewrite buckets_256; lia)) as Htot. pose proof (da_count f Hf) as Hcount.
  destruct (build_hint_log env d Hfresh depth pos f now ct i) as (f' & -> & Hf' & Hs & Hex' & Hh); [done| | |apply Hf|done|lia|].
  { intros k Hk. rewrite H5 in Hk. apply replay_all_keys in Hk as [[? Hk]|(x & Hx & <- & _)]; [by rewrite lookup_empty in Hk|].
    by apply (proj1 (Forall_forall _ _) Hgood). }
  { split; [done|]. change (2 ^ 29) with 536870912. lia. }
  cbn [mbind outcome_bind]. exists f', t'. split; [done|].
  assert (HX : forall k, abs t' !! k = match abs ct !! k with Some e => relocated i e | None => abs t !! k end) by (intros k; rewrite H3, H5; by apply replay_agrees; [|lia]).
  eapply (scanned_next i t t' f f' (fun k => abs ct !! k) Hsc); [done|done|done|done| |exact HX|done|done| |apply Hg; lia|done|].
  - rewrite H3. by eapply follows_data.
  - apply Hh; [rewrite H5; intros k; destruct (fold_left (replay_all i) (L i) ∅ !! k) as [a|] eqn:Ea; constructor|].
    + split; [done|]. destruct (Z.ltb_spec 0 a.1.2); [split; [done|]; split; [done|lia]|done].
    + intros k e e' He He' Hp. rewrite HX, He in He'. destruct (0 <? e.1.2) eqn:E0; destruct e as [[p v] h]; cbn in *; rewrite E0 in He'; [by injection He' as <-|done].
  - intros k e. cbn beta. rewrite H5. intros E'. destruct (replay_all_origin _ _ _ _ _ E') as [E2|(p & r & Hr & _ & Hk)]; [by rewrite lookup_empty in E2|eauto].
Qed.

(** ** Scanning them all *)
Context (Hn : n <= 2000000).
Implicit Types bc : Bitcask C.

Lemma scan_bucket_spec bc i now mt :
  disks (bc_mgr bc) = [d] -> bc_before bc = 0 -> scanned i (bc_tree bc) (bc_fs bc) -> 0 <= i < N -> sn_last < i ->
  exists f' t', scan_bucket env bc i now (data d i) mt = Ret (set_tree (set_fs bc f') t') /\ scanned (i + 1) t' f'.
Proof.
  intros Hm Hb Hsc Hi HS. pose proof (sc_data _ _ _ Hsc) as Hf. pose proof (da_range _ Hf). pose proof (da_plain _ Hf) as Hpl. unfold scan_bucket.
  rewrite (path_of_ok d Hd bc HINT_FILE i) by (done || lia). cbn [mbind outcome_bind]. fold (hint d i). rewrite Hb, stat_plain by done.
  change (0 =? 0) with true. cbv iota. destruct (bc_fs bc !! hint d i) as [[x mx|x]|] eqn:Eh; [|by destruct (Hpl _ _ Eh)|].
  - destruct (scan_hint_bucket i _ _ now Hsc Hi HS) as (t' & -> & H1); [eauto|]. by exists (bc_fs bc), t'.
  - destruct (new_path_plain (e_disk env) (bc_mgr bc) (bc_fs bc) d HINT_FILE i) as [_ ->]; [done|done|lia|done|]. cbn [mbind outcome_bind].
    fold (hint d i). rewrite delete_id by done. destruct (scan_data_bucket i _ _ now Hsc Hi HS Eh Hn) as (f' & t' & -> & H1). by exists f', t'.
Qed.

Lemma scan_buckets_spec k : forall bc i now,
  disks (bc_mgr bc) = [d] -> bc_before bc = 0 -> bc_last_snapshot bc = sn_last -> -1 <= sn_last -> scanned (Z.max i (sn_last + 1)) (bc_tree bc) (bc_fs bc) -> 0 <= i <= N -> N - i < Z.of_nat k ->
  exists t f b, scan_buckets env k bc i now = Ret (set_bytes (set_tree (set_fs bc f) t) b (bc_curr_bytes bc), N) /\ scanned N t f.
Proof.
  induction k as [|k IH]; intros bc i now Hm Hb Hl HS Hsc Hi Hk; [lia|]. pose proof (sc_data _ _ _ Hsc) as Hf. pose proof (da_range _ Hf). pose proof (da_plain _ Hf) as Hpl.
  cbn [scan_buckets]. rewrite (path_of_ok d Hd bc DATA_FILE i) by (done || lia). cbn [mbind outcome_bind]. fold (data d i). rewrite stat_plain by done.
  pose proof (rs_last _ _ _ _ _ _ _ _ _ (da_resumed _ Hf)). destruct (decide (i = N)) as [->|Hne].
  { rewrite (da_above _ Hf) by lia. exists (bc_tree bc), (bc_fs bc), (bc_bytes bc). split; [by destruct bc|]. by rewrite Z.max_l in Hsc by lia. }
  destruct (da_log _ Hf i ltac:(lia)) as (file & Hr & _). rewrite fs_read_plain in Hr by done. destruct (bc_fs bc !! data d i) as [[x mx|x]|]; [|done|done].
  cbn [set_bytes bc_last_snapshot]. rewrite Hl. set (bc1 := set_bytes bc _ _). destruct (Z.leb_spec i sn_last).
  - destruct (IH bc1 (i + 1) now Hm Hb Hl HS) as (t & f & b & -> & H2); [by replace (Z.max (i + 1) (sn_last + 1)) with (Z.max i (sn_last + 1)) by lia|lia|lia|]. exists t, f, b. split; [|done]. reflexivity.
  - rewrite Z.max_l in Hsc by lia. destruct (scan_bucket_spec bc1 i now mx Hm Hb Hsc ltac:(lia) ltac:(lia)) as (f1 & t1 & -> & Hsc1). cbn [mbind outcome_bind].
    destruct (IH (set_tree (set_fs bc1 f1) t1) (i + 1) now Hm Hb Hl HS) as (t & f & b & -> & H2); [rewrite Z.max_l by lia; done|lia|lia|]. exists t, f, b. split; [|done]. reflexivity.
Qed.

(** Nothing to skip, no snapshot. *)
Lemma skip_full k bc i :
  disks (bc_mgr bc) = [d] -> (forall j, 0 <= j < N -> 0 < bucket (bc_buckets bc) j) -> (forall j, N <= j < 256 -> bucket (bc_buckets bc) j = -1) ->
  0 <= i -> i + Z.of_nat k <= 256 -> skip_loop k bc i (Z.min i N) = Ret bc.
Proof.
  intros Hm Hlo Hhi. revert i. induction k as [|k IH]; intros i Hi Hk; [done|]. cbn [skip_loop]. rewrite (path_of_ok d Hd bc DATA_FILE i) by (done || lia). cbn [mbind outcome_bind].
  destruct (Z.lt_ge_cases i N) as [Hlt|Hge].
  - rewrite Z.min_l, (proj2 (Z.ltb_lt 0 _)) by (lia || apply Hlo; lia). rewrite Z.eqb_refl. cbn [negb mbind outcome_bind].
    specialize (IH (i + 1)). rewrite Z.min_l in IH by lia. apply IH; lia.
  - rewrite Hhi by lia. change (0 <? -1) with false. change (-1 =? 0) with false. cbv iota. specialize (IH (i + 1)). rewrite !Z.min_r in * by lia. apply IH; lia.
Qed.

(** ** The snapshot *)
(** The snapshot file, if there is one, is not older than the hint file beside it
    and is read as the tree [t0]. *)
Record snapshot_of (t0 : HTree C) : Prop := {
  so_tree : tree_ok t0;
  so_cfg : t_depth t0 = depth /\ t_pos t0 = pos;
  so_abs : abs t0 = sn_tree;
  so_built : built sn_count t0;
  so_only : forall i, i <> sn_last -> sn_file i = None;
  so_file : (sn_last = -1 /\ t0 = ht_new depth pos false) \/
    (0 <= sn_last /\ exists c mt x hm, sn_file sn_last = Some (Reg c mt) /\ sn_hint = Some (Reg x hm) /\ hm <= mt /\ ht_open depth pos c = Ret (Some t0))
}.
Context (t0 : HTree C) (Ht0 : snapshot_of t0).

Lemma last_range : -1 <= sn_last.
Proof. destruct (so_file _ Ht0) as [[-> _]|[H _]]; lia. Qed.

Lemma load_snapshot_spec k bc :
  disks (bc_mgr bc) = [d] -> data_ok (bc_fs bc) -> Z.of_nat k <= 256 -> sn_last < Z.of_nat k -> bc_before bc = 0 -> bc_depth bc = depth -> bc_pos bc = pos ->
  bc_last_snapshot bc = -1 -> bc_tree bc = ht_new depth pos false -> load_snapshot k bc = Ret (set_snapshot (set_tree bc t0) sn_last).
Proof.
  intros Hm Hf Hk HS Hb Hdp Hps Hl Ht. pose proof (da_resumed _ Hf) as Hr. pose proof (da_plain _ Hf) as Hpl. revert Hk HS. induction k as [|k IH]; intros Hk HS.
  { pose proof last_range. destruct (so_file _ Ht0) as [[E1 E2]|[? _]]; [|lia]. rewrite E1, E2, <- Ht, <- Hl. by destruct bc. }
  cbn [load_snapshot]. rewrite !(path_of_ok d Hd) by (done || lia). cbn [mbind outcome_bind]. rewrite !(stat_plain _ _ Hpl). fold (snap d (Z.of_nat k)) (hint d (Z.of_nat k)).
  rewrite (rs_file _ _ _ _ _ _ _ _ _ Hr) by lia. destruct (decide (Z.of_nat k = sn_last)) as [E|Hne].
  - destruct (so_file _ Ht0) as [[? _]|(H0 & c & mt & x & hm & E1 & E2 & Hle & Eo)]; [lia|]. rewrite E, E1, (rs_shint _ _ _ _ _ _ _ _ _ Hr), E2 by done.
    rewrite (proj2 (Z.leb_le hm mt) Hle), Hb, Hdp, Hps, Eo. done.
  - rewrite (so_only _ Ht0) by done. apply IH; lia.
Qed.

(** ** Opening *)
Context (Hdepth : 0 <= depth <= 7) (Hcheck : e_check_file_size env = false).

Definition reopened (mg : Mgr) (now : Z) (t : HTree C) (f : fs) (b : Z) (sz : sizes) : Bitcask C :=
  {| bc_depth := depth; bc_pos := pos; bc_before := 0; bc_mgr := mg; bc_tree := t; bc_updating := {| up_bucket := u32 (-1); up_tree := None |};
     bc_curr_tree := ht_new depth pos true; bc_last_snapshot := sn_last; bc_curr := N; bc_bytes := b; bc_curr_bytes := 0;
     bc_wb := {| wb_data := []; wb_size := 1024 * 4; wb_start := 0 |}; bc_fb := None;
     bc_last_flush_time := now; bc_optimize_flag := 0; bc_buckets := sz; bc_fs := f |}.

Lemma sizes_found f sz :
  data_ok f -> (forall i, 0 <= i < 256 -> bucket sz i = if decide (is_Some (f !! data d i)) then flen d f i else -1) ->
  (forall j, 0 <= j < N -> 0 < bucket sz j < 2 ^ 32) /\ (forall j, N <= j < 256 -> bucket sz j = -1).
Proof.
  intros Hf Hsz. pose proof (da_range _ Hf). split; intros j Hj; rewrite Hsz by lia.
  - destruct (da_log _ Hf j Hj) as (file & Hr & Hne & Hlen & _). rewrite decide_True by (eapply fs_read_some; [apply Hf|done]). unfold flen. rewrite Hr. cbn [default].
    split; [|done]. destruct file; [done|]. unfold blen. simpl. lia.
  - rewrite (da_above _ Hf) by lia. rewrite decide_False; [done|]. by intros [? ?].
Qed.

(** The first state of the scan: the tree of the snapshot. *)
Lemma scan_start f :
  data_ok f -> (forall i, 0 <= i <= sn_last -> is_Some (f !! hint d i)) -> (forall i, 0 <= i < N -> hint_ok f i (L i) m) -> scanned (sn_last + 1) t0 f.
Proof.
  intros Hf Hex Hh. pose proof last_range. pose proof Ht0 as [H1 H2 H3 H4 _ _]. pose proof (da_resumed _ Hf) as Hr. pose proof (rs_rec _ _ _ _ _ _ _ _ _ Hr) as Hrec.
  constructor; auto; rewrite ?H3.
  - intros k. specialize (Hrec k). destruct (replays L (Z.to_nat (sn_last + 1)) !! k) as [a|] eqn:Ea, (sn_tree !! k) as [b|] eqn:Eb; try done.
    + split; [done|]. right. intros e He Ep. destruct (rs_behind _ _ _ _ _ _ _ _ _ Hr k b Eb) as [Hb Hor]. rewrite He in Hor.
      destruct Hor as [(_ & _ & Hv)|[Hb' _]]; [|rewrite Ep in Hb'; lia]. destruct Hrec as (_ & _ & Hv'). destruct (Z.ltb_spec 0 b.1.2); lia.
    + split; [done|]. split; [done|]. intros (i & p & r & Hi & _). lia.
  - intros j Hj. split; [apply (rs_old _ _ _ _ _ _ _ _ _ Hr); lia|apply Hex; lia].
  - intros j Hj. apply Hh. lia.
  - by rewrite Z.sub_diag, Z.add_0_r.
  - intros k b Hb. destruct (rs_behind _ _ _ _ _ _ _ _ _ Hr k b Hb) as [H5 _]. split; [done|]. rewrite Hb. left. split; [done|]. split; [done|]. destruct (0 <? b.1.2); lia.
Qed.

Lemma open_dir mg f now :
  disks mg = [d] -> data_ok f -> (forall i, 0 <= i < N -> hint_ok f i (L i) m) -> (forall i, 0 <= i <= sn_last -> is_Some (f !! hint d i)) ->
  lists d f (e_readdir env d) -> N - sn_last <= 5 ->
  exists t f' b sz, bc_opened env mg f depth pos now = Ret (reopened mg now t f' b sz) /\ scanned N t f' /\
    (forall j, 0 <= j < N -> 0 < bucket sz j < 2 ^ 32) /\ (forall j, N <= j < 256 -> bucket sz j = -1).
Proof.
  intros Hm Hf Hh Hex Hl HN. unfold bc_opened, bc_open2. rewrite Hcheck. destruct (init_listed d Hd (e_autolink env) (e_readdir env) mg f Hm (da_plain _ Hf) Hl) as (sz & -> & Hsz).
  cbn [mbind outcome_bind]. destruct (sizes_found f sz Hf Hsz) as [Hlo Hhi]. match goal with |- bc_scan env ?x now = _ => set (bc0 := x) | |- context [bc_scan env ?x now] => set (bc0 := x) end. pose proof (da_range _ Hf).
  unfold bc_scan. assert (E1 : skip_empty_file bc0 = Ret bc0).
  { assert (E0 : skip_loop 256 bc0 0 (Z.min 0 N) = Ret bc0) by (apply skip_full; [done|intros j Hj; apply Hlo; lia|done|lia|lia]). rewrite Z.min_l in E0 by lia. exact E0. }
  rewrite (bind_step _ _ _ E1). destruct (dump_ok d Hd bc0 now) as (f1 & E2 & K); [done| |apply Hf|].
  { intros i Hi. cbn [bc0 bc_buckets]. change (2 ^ 63) with 9223372036854775808. change (2 ^ 32) with 4294967296 in *.
    destruct (Z.lt_ge_cases i N); [specialize (Hlo i ltac:(lia)); lia|rewrite Hhi; lia]. }
  rewrite (bind_step _ _ _ E2). cbn [bc0 bc_fs] in K.
  assert (Hsame : forall ty i, 0 <= i <= 257 -> f1 !! path d (File ty i) = f !! path d (File ty i)) by (intros ty i Hi; by apply (keeps_same d f f1)).
  pose proof (rs_last _ _ _ _ _ _ _ _ _ (da_resumed _ Hf)). pose proof last_range.
  assert (Hf1 : data_ok f1) by (apply (data_same f); auto; [apply K|intros; apply Hsame; lia..]).
  rewrite (bind_step _ _ _ (load_snapshot_spec 256 (set_fs bc0 f1) Hm Hf1 ltac:(lia) ltac:(lia) eq_refl eq_refl eq_refl eq_refl eq_refl)).
  destruct (scan_buckets_spec 256 (set_snapshot (set_tree (set_fs bc0 f1) t0) sn_last) 0 now) as (t & f2 & b & E3 & Hsc); [done|done|done|done| |lia|lia|].
  { rewrite Z.max_r by lia. apply scan_start; [done|intros q Hq; unfold hint; rewrite Hsame by lia; by apply Hex|].
    intros q Hq. eapply hint_ok_same; [apply Hf|apply K|apply Hsame; lia|]. apply Hh. lia. }
  rewrite (bind_step _ _ _ E3). cbn [set_snapshot set_bytes set_tree set_fs bc0 bc_last_snapshot]. unfold SAVE_HTREE_LIMIT. destruct (Z.ltb_spec 5 (N - sn_last)); [lia|]. cbn [mbind outcome_bind].
  exists t, f2, b, sz. split; [reflexivity|done].
Qed.

(** ** What was recovered *)
(** The live entries come back with their flags and values; an entry whose last
    change was only one of version may come back with an older version; deletions
    are forgotten, unless the snapshot holds them. *)
Definition recovered (M M' : store) : Prop :=
  forall k, match M !! k, M' !! k with
            | Some v, Some v' => (0 < v'.1.1 <= v.1.1 \/ v'.1.1 = v.1.1) /\ v'.1.2 = v.1.2 /\ v'.2 = v.2
            | Some v, None => v.1.1 < 0
            | None, None => True
            | None, Some _ => False
            end.

Context (M : store) (Hsize : Z.of_nat (size m) <= n) (Hrec : recovers (replays L BUCKETS) m).
Context (Hpt : forall k e, m !! k = Some e -> exists r, (Z.land e.1.1 0xffffff00, r) ∈ L (Z.land e.1.1 0xff) /\ r_key r = k).
Let no_wb := {| wb_data := []; wb_size := 1024 * 4; wb_start := 0 |}.
Context (Hf0 : plain f0) (Hpts : points (located env d f0 N no_wb None) m M).

Definition recovered_store (t : gmap bytes entry) : store := map_zip_with (fun e v => (e.1.2, v.1.2, v.2)) t M.

Lemma replays_all f : data_ok f -> replays L (Z.to_nat N) = replays L BUCKETS.
Proof.
  intros Hf. pose proof (da_range _ Hf). symmetry. apply replays_above; [pose proof buckets_256; lia|].
  intros i Hi. rewrite Z2Nat.id, buckets_256 in Hi by lia. apply (da_empty _ Hf). lia.
Qed.

Lemma touched_all f k : data_ok f -> touched 256 L k -> touched N L k.
Proof.
  intros Hf (i & p & r & Hi & Hr & Hk). exists i, p, r. split; [|done]. split; [lia|]. destruct (Z.lt_ge_cases i N); [done|].
  rewrite (da_empty _ Hf) in Hr by lia. by apply not_elem_of_nil in Hr.
Qed.

(** A recovered entry is that of the last session but for its version. *)
Lemma recovered_entry t f k b :
  scanned N t f -> abs t !! k = Some b ->
  exists e v, m !! k = Some e /\ M !! k = Some v /\ e.1.1 = b.1.1 /\ e.2 = b.2 /\ (0 < b.1.2 <= e.1.2 \/ b.1.2 = e.1.2).
Proof.
  intros Hsc Hb. pose proof (sc_data _ _ _ Hsc) as Hf. pose proof (sc_rel _ _ _ Hsc k) as Hrel. rewrite Hb, (replays_all f Hf) in Hrel.
  assert (H : exists e, m !! k = Some e /\ e.1.1 = b.1.1 /\ e.2 = b.2 /\ (0 < b.1.2 <= e.1.2 \/ b.1.2 = e.1.2)).
  { specialize (Hrec k). destruct (replays L BUCKETS !! k) as [a|].
    - destruct (m !! k) as [e|] eqn:Em; [|done]. destruct Hrel as [(H1 & H2 & H3) Hle], Hrec as (H4 & H5 & H6). exists e. split; [done|]. split; [congruence|]. split; [congruence|]. left.
      destruct Hle as [Hle|Hle]; [lia|]. specialize (Hle e eq_refl ltac:(congruence)). lia.
    - destruct Hrel as (Hv & Hs & Hnt). destruct (rs_behind _ _ _ _ _ _ _ _ _ (da_resumed _ Hf) k b Hs) as [_ Hor].
      assert (Hnt' : ~ touched 256 L k) by (intros Ht; by eapply Hnt, touched_all). destruct (m !! k) as [e|]; [|done]. destruct Hor as [(E1 & E2 & E3)|[_ ?]]; [|done].
      exists e. split; [done|]. split; [done|]. split; [done|]. right. destruct (Z.ltb_spec 0 b.1.2); lia. }
  destruct H as (e & Em & H). specialize (Hpts k). rewrite Em in Hpts. destruct (M !! k) as [v|]; [|done]. by exists e, v.
Qed.

(** Every live entry is recovered. *)
Lemma recovered_all t f : scanned N t f -> recovered M (recovered_store (abs t)).
Proof.
  intros Hsc k. unfold recovered_store. rewrite map_lookup_zip_with. destruct (abs t !! k) as [b|] eqn:Hb; cbn [mbind option_bind].
  - destruct (recovered_entry t f k b Hsc Hb) as (e & v & Em & Ev & _ & _ & H). specialize (Hpts k). rewrite Em, Ev in *. cbn.
    destruct Hpts as (_ & E & _). rewrite <- E. split; [lia|done].
  - pose proof (sc_data _ _ _ Hsc) as Hf. pose proof (sc_rel _ _ _ Hsc k) as Hrel. rewrite Hb, (replays_all f Hf) in Hrel.
    specialize (Hrec k). specialize (Hpts k). destruct (replays L BUCKETS !! k); [done|]. destruct (m !! k) as [e|], (M !! k) as [v|]; try done.
    destruct Hpts as (_ & <- & _). done.
Qed.

Lemma recovered_points t f :
  scanned N t f -> points (located env d f N no_wb None) (abs t) (recovered_store (abs t)).
Proof.
  intros Hsc k. unfold recovered_store. rewrite map_lookup_zip_with. destruct (abs t !! k) as [b|] eqn:Hb; cbn [mbind option_bind]; [|done].
  destruct (recovered_entry t f k b Hsc Hb) as (e & v & Em & Ev & E1 & E2 & H). specialize (Hpts k). rewrite Em, Ev in *. cbn.
  destruct Hpts as (Hk & P1 & P2 & (F1 & F2 & F3 & F4) & r & R1 & R2 & R3 & HL). split; [done|]. split; [done|]. split.
  { cbn [fst snd]. rewrite <- E2, P2. destruct H as [H|H]; [by rewrite (proj2 (Z.ltb_lt 0 _)), (proj2 (Z.ltb_lt 0 b.1.2)) by lia|by rewrite <- P1, H]. }
  split; [split; [done|]; split; [by rewrite <- E1|]; split; [lia|by rewrite <- E2]|]. exists r. cbn [fst snd]. split; [done|]. split; [done|]. split; [done|]. rewrite <- E1.
  pose proof (sc_data _ _ _ Hsc) as Hf. destruct HL as [[_ HL]|[(x & E & _)|(file & Hr & HL)]]; [by apply in_bytes_nil in HL|done|].
  right. right. exists file. split; [|done]. rewrite <- Hr. pose proof (land_ff e.1.1). apply fs_read_same; [done|apply Hf|]. apply (da_same _ Hf). lia.
Qed.

(** The invariant holds again. *)
Lemma reopened_resumed t f : scanned N t f -> resumed (C := C) env d n depth pos N f (abs t) L.
Proof.
  intros Hsc. pose proof (da_resumed _ (sc_data _ _ _ Hsc)) as []. pose proof (sc_data _ _ _ Hsc) as Hf. pose proof (da_range _ Hf). constructor; auto.
  intros k b Hb. destruct (sc_behind _ _ _ Hsc k b Hb) as [H1 H2]. split; [done|]. destruct (abs t !! k); [destruct H2 as [H2|[H2 H3]]; [by left|right; split; [done|]]|]; apply (touched_mono N); done || lia.
Qed.

Lemma reopened_log t f : scanned N t f -> log_ok (C := C) env d n depth pos f N no_wb None (abs t) ∅ L.
Proof.
  intros Hsc. pose proof (reopened_resumed t f Hsc) as Hres. pose proof Hsc as [_ _ Hrel Hf Hdone _ _ _]. pose proof Hf as [].
  assert (Hread : forall i, N <= i < 256 -> fs_read f (data d i) = None) by (intros i Hi; rewrite fs_read_plain, da_above0 by (done || lia); done).
  constructor; auto.
  - intros i Hi. unfold stream, fb_part, wb_part. cbn [no_wb wb_data]. replace (if N =? i then [] else []) with (@nil Z) by by destruct (N =? i). rewrite !app_nil_r.
    destruct (Z.lt_ge_cases i N); [destruct (da_log0 i ltac:(lia)) as (file & -> & _ & _ & H1); done|]. rewrite Hread, da_empty0 by lia. constructor.
  - intros k. specialize (Hrel k). rewrite (replays_all f Hf) in Hrel. destruct (replays L BUCKETS !! k), (abs t !! k); try done; apply Hrel.
  - intros _. rewrite da_empty0 by lia. intros k. cbn [fold_left]. rewrite lookup_empty. constructor.
  - intros k b Hb. destruct (recovered_entry t f k b Hsc Hb) as (e & v & Em & _ & <- & _). by apply Hpt.
  - intros i Hi _. by apply Hdone.
  - intros _ i Hi Hi'. destruct (da_log0 i ltac:(lia)) as (file & _ & Hne & _ & Hl). intros E. rewrite E in Hl. by inversion Hl.
  - split; [|done]. intros i Hi E. destruct (Z.lt_ge_cases i N); [|by rewrite Hread in E by lia]. destruct (da_log0 i ltac:(lia)) as (file & Hr & Hne & _). congruence.
  - apply map_empty_subseteq.
  - intros i Hi _. by apply Hdone.
  - intros Hmx i Hi. unfold stream, fb_part, wb_part. cbn [no_wb wb_data]. replace (if N =? i then [] else []) with (@nil Z) by by destruct (N =? i). rewrite !app_nil_r.
    destruct (Z.lt_ge_cases i N); [apply da_limit0; [done|lia]|]. rewrite Hread by lia. change (blen (default [] None)) with 0. lia.
Qed.

Lemma reopened_size t f : scanned N t f -> Z.of_nat (size (abs t)) <= n.
Proof.
  intros Hsc. assert (Hdom : dom (abs t) ⊆ dom m).
  { intros k. rewrite !elem_of_dom. intros [b Hb]. destruct (recovered_entry t f k b Hsc Hb) as (e & v & Em & _). eauto. }
  apply subseteq_size in Hdom. rewrite !size_dom in Hdom. lia.
Qed.

Lemma reopened_inv mg now t f b sz :
  disks mg = [d] -> scanned N t f -> (forall j, 0 <= j < N -> 0 < bucket sz j < 2 ^ 32) -> (forall j, N <= j < 256 -> bucket sz j = -1) ->
  inv env d n (reopened mg now t f b sz) (recovered_store (abs t)).
Proof.
  intros Hm Hsc Hlo Hhi. pose proof Hsc as [Ht Hc Hrel Hf Hdone _ Hbt _]. pose proof Hf as []. destruct (tree_new_ok (C := C) depth pos true Hdepth) as [Hct Hca].
  assert (Hflen : flen d f N = 0) by (apply flen_none; [done|apply da_above0; lia]).
  split; [constructor|constructor]; cbn [reopened bc_mgr bc_updating up_bucket bc_depth bc_pos bc_tree bc_curr_tree bc_fs bc_buckets bc_curr bc_wb bc_fb bc_optimize_flag bc_last_snapshot wb_data wb_size wb_start]; auto.
  - constructor; auto; rewrite ?Hca; [|apply map_Forall_empty|].
    + rewrite map_size_empty. pose proof (total_nonneg L BUCKETS). split; [by eapply reopened_size|lia].
    + eapply built_le; [|exact Hbt]. pose proof (rs_count _ _ _ _ _ _ _ _ _ da_resumed0). pose proof (total_le L (Z.to_nat N) BUCKETS). pose proof buckets_256. lia.
  - constructor; auto; [|lia| | | |].
    + intros i Hi. change (2 ^ 63) with 9223372036854775808. change (2 ^ 32) with 4294967296 in *.
      destruct (Z.lt_ge_cases i N); [specialize (Hlo i ltac:(lia)); lia|rewrite Hhi; lia].
    + intros i Hi Hs. destruct (Z.lt_ge_cases i N); [specialize (Hlo i ltac:(lia)); lia|]. rewrite da_above0 in Hs by lia. by destruct Hs.
    + intros i Hi. destruct (Z.lt_ge_cases i N) as [HiN|]; [|rewrite Hhi, flen_none by (done || lia || apply da_above0; lia); lia].
      specialize (Hlo i ltac:(lia)). destruct (da_log0 i ltac:(lia)) as (file & Hr & Hne & _). unfold flen. rewrite Hr. change (default [] (Some file)) with file. apply nonempty_blen, Z.ltb_lt in Hne. lia.
    + intros i Hi. destruct (Z.lt_ge_cases i N); [|rewrite flen_none by (done || apply da_above0; lia); done].
      destruct (da_log0 i ltac:(lia)) as (file & Hr & _ & Hlen & _). unfold flen. by rewrite Hr.
    + intros i Hi Hi'. apply da_above0. lia.
  - exists 12. unfold top. destruct (_ <=? _); done.
  - by apply recovered_points.
  - exists L. rewrite Hca. by apply reopened_log.
  - by vm_compute.
  - lia.
Qed.
End Recover.

(** A bitcask that starts without a snapshot. *)
Lemma fresh_snapshot {C} {KC : KeyCodec C} {KL : KeyCodecLaws C} depth pos : 0 <= depth <= 7 -> snapshot_of (SN := no_snaps) (C := C) depth pos (ht_new depth pos false).
Proof.
  intros Hdp. destruct (tree_new_ok (C := C) depth pos false Hdp) as [Ht Ha]. constructor; cbn [sn_last sn_file sn_tree sn_count no_snaps]; auto. apply built_new.
Qed.
