(* ===== verification/Shutdown.v ===== *)
(** * Closing a bitcask

    [bc_close] writes out what is buffered and the hint file of the current data
    file, and saves the tree when five data files or more have come since the last
    snapshot.  What it leaves behind is all that opening needs. *)
From Stdlib Require Import ZArith Lia List.
From stdpp Require Import base numbers list list_numbers gmap strings.
From S2P Require Import Prelude Hash CText Codec CodecFacts HTree HTreeMap HTreeShape HTreeSpec HTreeFile HTreeFine Disk DiskFacts Hint HintFacts Record RecordFacts Scan ScanFacts Buckets BucketsFacts Bitcask BitcaskInv BitcaskLog BitcaskSteps BitcaskSpec BitcaskLife BitcaskHistory Reopen.

(** ** Saving the tree *)
(** The snapshot before the first one, number -1, has a name of its own. *)
Lemma first_name : forallb (fun n => negb (bool_decide (name n = name (File HTREE_FILE (-1))))) all_names = true.
Proof. vm_compute. reflexivity. Qed.

Section Save.
Context {C : Type} {KC : KeyCodec C} {KL : KeyCodecLaws C}.
Context (env : Env) (d : bytes) (Hd : blen d <= 230).
Implicit Types (bc : Bitcask C).

Lemma snap_path bc S : disks (bc_mgr bc) = [d] -> -1 <= S <= 257 -> path_of bc HTREE_FILE S = Ret (snap d S).
Proof.
  intros Hm HS. destruct (decide (S = -1)) as [->|]; [|by apply path_of_ok; [..|lia]]. unfold path_of, base, mgr_base. rewrite Hm. change (fetch [d] 0) with (Ret d). cbn [mbind outcome_bind].
  unfold gen_path. apply print_path_ok. unfold snap, path, join, name, MAX_PATH_LEN. rewrite !blen_app. change (blen [47]) with 1. change (blen (print_03d (-1))) with 3. change (blen (suffix HTREE_FILE)) with 6. lia.
Qed.

Lemma snap_ne S x : -1 <= S <= 257 -> in_range x -> x <> File HTREE_FILE S -> path d x <> snap d S.
Proof.
  intros HS Hx Hne. destruct (decide (S = -1)) as [->|]; [|by apply path_ne; [..|simpl; lia|]]. intros E. unfold path, join in E. apply app_inv_head in E.
  pose proof (proj1 (forallb_forall _ _) first_name x (proj1 (list_elem_of_In _ _) (all_names_in x Hx))) as H. apply negb_true_iff, bool_decide_eq_false in H. apply H. by injection E.
Qed.

Lemma save_spec bc n i now :
  disks (bc_mgr bc) = [d] -> plain (bc_fs bc) -> -1 <= bc_last_snapshot bc < i -> i <= 257 ->
  built n (bc_tree bc) -> n <= 8000000 -> tree_ok (bc_tree bc) -> t_height (bc_tree bc) <= 7 ->
  exists f c t, save_snapshot env bc i now = Ret (set_fs bc f, true) /\ plain f /\
    f !! snap d i = Some (Reg c now) /\ f !! snap d (bc_last_snapshot bc) = None /\
    (forall x, in_range x -> x <> File HTREE_FILE i -> x <> Tmp HTREE_FILE i -> x <> File HTREE_FILE (bc_last_snapshot bc) -> f !! path d x = bc_fs bc !! path d x) /\
    ht_open (t_depth (bc_tree bc)) (t_pos (bc_tree bc)) c = Ret (Some t) /\
    tree_ok t /\ abs t = abs (bc_tree bc) /\ t_depth t = t_depth (bc_tree bc) /\ t_pos t = t_pos (bc_tree bc) /\ built n t.
Proof.
  intros Hm Hpl HS Hi Hb Hn Ht Hh. destruct (built_save (e_addr env) n (bc_tree bc) Hb Hn Ht Hh) as (c & t & E1 & E2 & Ht').
  unfold save_snapshot. destruct (new_path_plain (e_disk env) (bc_mgr bc) (bc_fs bc) d HTREE_FILE i) as [_ ->]; [done|done|lia|done|]. cbn [mbind outcome_bind]. fold (snap d i).
  assert (Hr : in_range (File HTREE_FILE i) /\ in_range (Tmp HTREE_FILE i)) by (simpl; lia). destruct Hr as [Hr1 Hr2].
  pose proof (path_length d (File HTREE_FILE i) Hr1 Hd) as Hl. assert (Et : snap d i ++ lit ".tmp" = path d (Tmp HTREE_FILE i)) by (unfold snap, path, join, name; by rewrite <- !app_assoc).
  assert (Htmp : path d (Tmp HTREE_FILE i) <> snap d i) by (apply path_ne; done).
  unfold ht_save. rewrite Et, print_path_ok by (rewrite <- Et, blen_app; change (blen (lit ".tmp")) with 4; unfold snap; lia). cbn [mbind outcome_bind]. rewrite E1. cbn [mbind outcome_bind].
  assert (Hp1 : plain (delete (snap d i) (delete (snap d i) (bc_fs bc)))) by by repeat apply plain_delete.
  rewrite mgr_unlink_plain, fs_write_plain by (done || by apply plain_delete). rewrite (mgr_rename_plain _ _ _ (Reg c now)); [|by apply plain_insert|apply lookup_insert_eq]. cbn [mbind outcome_bind].
  rewrite snap_path by (done || lia). cbn [mbind outcome_bind]. assert (Hp2 : plain (<[snap d i := Reg c now]> (delete (path d (Tmp HTREE_FILE i)) (<[path d (Tmp HTREE_FILE i) := Reg c now]> (delete (snap d i) (delete (snap d i) (bc_fs bc))))))).
  { by apply plain_insert, plain_delete, plain_insert. }
  rewrite mgr_unlink_plain by done. assert (Hne : snap d i <> snap d (bc_last_snapshot bc)) by (apply snap_ne; [lia|done|intros [= E]; lia]).
  eexists _, c, t. split; [reflexivity|]. split; [by apply plain_delete|]. split; [by rewrite lookup_delete_ne, lookup_insert_eq by done|]. split; [apply lookup_delete_eq|]. split; [|done].
  intros x Hx H1 H2 H3. assert (path d x <> snap d i) by by apply path_ne. assert (path d x <> path d (Tmp HTREE_FILE i)) by by apply path_ne. assert (path d x <> snap d (bc_last_snapshot bc)) by (apply snap_ne; [lia|done|done]).
  by rewrite lookup_delete_ne, lookup_insert_ne, lookup_delete_ne, lookup_insert_ne, !lookup_delete_ne by done.
Qed.
End Save.

(** ** The directory left behind *)
Section Left.
Context {C : Type} {KC : KeyCodec C} {KL : KeyCodecLaws C}.
Context (env : Env) (d : bytes) (Hd : blen d <= 230).

Record left_behind {SN : Snaps} (n depth pos N : Z) (m : gmap bytes entry) (L : Z -> log) (f : fs) (M : store) : Prop := {
  lb_data : data_ok (C := C) env d n depth pos N m L f f;
  lb_hint : forall i, 0 <= i < N -> hint_ok (C := C) env d depth pos f i (L i) m /\ is_Some (f !! hint d i);
  lb_rec : recovers (replays L BUCKETS) m;
  lb_point : forall k e, m !! k = Some e -> exists r, (Z.land e.1.1 0xffffff00, r) ∈ L (Z.land e.1.1 0xff) /\ r_key r = k;
  lb_points : points (located env d f N {| wb_data := []; wb_size := 1024 * 4; wb_start := 0 |} None) m M;
  lb_size : Z.of_nat (size m) <= n
}.

(** The snapshot [c] of the tree [m], saved beside the last data file. *)
Definition saved (n N : Z) (m : gmap bytes entry) (c : bytes) (now : Z) (h : option inode) : Snaps :=
  {| sn_last := N - 1; sn_file := fun i => if i =? N - 1 then Some (Reg c now) else None; sn_hint := h; sn_tree := m; sn_count := n |}.

Lemma saved_resumed (SN : Snaps) n depth pos N m L f M c now f' :
  left_behind (SN := SN) n depth pos N m L f M -> (forall i, i <> sn_last -> sn_file i = None) -> -1 <= sn_last < N - 1 -> plain f' ->
  f' !! snap d (N - 1) = Some (Reg c now) -> f' !! snap d sn_last = None ->
  (forall x, in_range x -> x <> File HTREE_FILE (N - 1) -> x <> Tmp HTREE_FILE (N - 1) -> x <> File HTREE_FILE sn_last -> f' !! path d x = f !! path d x) ->
  resumed (SN := saved n N m c now (f' !! hint d (N - 1))) (C := C) env d n depth pos N f' m L.
Proof.
  intros [[] Hh Hrec Hpt _ _] Hone HS Hpl Hnew Hold Hsame. pose proof buckets_256. pose proof (total_nonneg L BUCKETS).
  assert (Habove : forall i, Z.of_nat (Z.to_nat N) <= i < Z.of_nat BUCKETS -> L i = []) by (intros i Hi; apply da_empty; lia).
  constructor; cbn [saved sn_last sn_file sn_hint sn_tree sn_count]; replace (N - 1 + 1) with N by lia.
  - lia.
  - rewrite (total_above L (Z.to_nat N) BUCKETS) by (done || lia). lia.
  - intros i Hi. destruct (Z.eqb_spec i (N - 1)) as [->|Hne]; [done|]. destruct (decide (i = sn_last)) as [->|Hne']; [done|].
    unfold snap. rewrite Hsame; [|simpl; lia|intros [= E]; lia|done|intros [= E]; lia]. rewrite <- (Hone i Hne'). by apply (rs_file _ _ _ _ _ _ _ _ _ da_resumed).
  - done.
  - intros i Hi. destruct (Hh i ltac:(lia)) as [H1 _]. eapply hint_ok_same; [exact da_plain|done|apply Hsame; [simpl; lia|done|done|done]|done].
  - rewrite <- (replays_above L (Z.to_nat N) BUCKETS) by (done || lia). done.
  - intros k b Hb. cbn [sn_tree saved] in Hb. rewrite Hb. split.
    + cbn [saved sn_last]. destruct (Hpt k b Hb) as (r & Hr & _). pose proof (land_ff b.1.1). destruct (Z.lt_ge_cases (Z.land b.1.1 0xff) N); [lia|].
      rewrite da_empty in Hr by lia. by apply not_elem_of_nil in Hr.
    + left. split; [done|]. split; [done|]. destruct (0 <? b.1.2); lia.
Qed.

Lemma saved_left (SN : Snaps) n depth pos N m L f M c now f' :
  left_behind (SN := SN) n depth pos N m L f M -> (forall i, i <> sn_last -> sn_file i = None) -> -1 <= sn_last < N - 1 -> plain f' ->
  f' !! snap d (N - 1) = Some (Reg c now) -> f' !! snap d sn_last = None ->
  (forall x, in_range x -> x <> File HTREE_FILE (N - 1) -> x <> Tmp HTREE_FILE (N - 1) -> x <> File HTREE_FILE sn_last -> f' !! path d x = f !! path d x) ->
  left_behind (SN := saved n N m c now (f' !! hint d (N - 1))) n depth pos N m L f' M.
Proof.
  intros Hlb Hone HS Hpl Hnew Hold Hsame. pose proof (saved_resumed _ _ _ _ _ _ _ _ _ _ _ _ Hlb Hone HS Hpl Hnew Hold Hsame) as Hres. pose proof Hlb as [[] Hh Hrec Hpt Hpts Hsz].
  assert (Hdata : forall i, 0 <= i <= 257 -> f' !! data d i = f !! data d i) by (intros i Hi; apply Hsame; done).
  assert (Hhint : forall i, 0 <= i <= 257 -> f' !! hint d i = f !! hint d i) by (intros i Hi; apply Hsame; done).
  constructor; auto.
  - constructor; auto.
    + intros i Hi. rewrite (fs_read_same f f') by (done || apply Hdata; lia). auto.
    + intros i Hi. rewrite Hdata by lia. auto.
    + intros i Hi. rewrite Hhint by lia. auto.
    + intros Hmx i Hi. unfold flen. rewrite (fs_read_same f f') by (done || apply Hdata; lia). by apply da_limit.
  - intros i Hi. rewrite Hhint by lia. destruct (Hh i Hi) as [H1 H2]. split; [|done]. eapply hint_ok_same; [exact da_plain|done|apply Hhint; lia|done].
  - intros k. specialize (Hpts k). destruct (m !! k) as [e|], (M !! k) as [v|]; try done. destruct Hpts as (Hk & P1 & P2 & P3 & r & R1 & R2 & R3 & HL).
    do 4 (split; [done|]). exists r. do 3 (split; [done|]). destruct HL as [HL|[HL|(file & Hr & HL)]]; [by left|by right; left|]. right. right. exists file. split; [|done].
    rewrite <- Hr. pose proof (land_ff e.1.1). apply fs_read_same; [done|done|]. apply Hdata. lia.
Qed.
End Left.

(** ** The steps of [bc_close] *)
Section Close.
Context {C : Type} {KC : KeyCodec C} {KL : KeyCodecLaws C} {SN : Snaps}.
Context (env : Env) (d : bytes).
Context (Hfresh : forall n, length (e_fresh env n) = Z.to_nat n /\ bytes_ok (e_fresh env n)).
Context (Hd : blen d <= 230).
Context (Hmax : 2 ^ 27 <= e_max_bucket_size env <= 2 ^ 32 - 2 ^ 26).
Implicit Types (bc : Bitcask C) (M : store).
Let inv := inv (C := C) env d.

(** The number the next session starts with. *)
Definition next_free bc : Z := if 0 <? wb_start (bc_wb bc) then bc_curr bc + 1 else bc_curr bc.

(** The directory of a bitcask with empty buffers. *)
Lemma closed_dir n bc M L f :
  inv n bc M -> bc_fb bc = None -> wb_data (bc_wb bc) = [] -> bc_curr bc <= 254 ->
  log_ok (C := C) env d n (bc_depth bc) (bc_pos bc) (bc_fs bc) (bc_curr bc) (bc_wb bc) None (abs (bc_tree bc)) (abs (bc_curr_tree bc)) L ->
  plain f -> (forall i, 0 <= i <= 257 -> f !! data d i = bc_fs bc !! data d i) ->
  (forall i, 0 <= i <= 257 -> i <> bc_curr bc \/ wb_start (bc_wb bc) = 0 -> f !! hint d i = bc_fs bc !! hint d i) ->
  (forall i, 0 <= i <= 257 -> f !! snap d i = bc_fs bc !! snap d i) ->
  data_ok (C := C) env d n (bc_depth bc) (bc_pos bc) (next_free bc) (abs (bc_tree bc)) L f f.
Proof.
  intros [Hc Hb] Hfb Hw Hcu [] Hpl Hdata Hhint Hsnap. pose proof (co_files _ _ _ _ _ Hc) as Hf. pose proof Hf as []. pose proof (co_chained _ _ _ _ _ Hc) as Hch. rewrite Hfb in Hch. cbn [chained] in Hch.
  assert (Hstart : 0 <= wb_start (bc_wb bc)) by apply Hb.
  assert (Hread : forall i, 0 <= i <= 257 -> fs_read f (data d i) = fs_read (bc_fs bc) (data d i)) by (intros i Hi; by apply fs_read_same, Hdata).
  assert (Hst : forall i, stream d (bc_fs bc) (bc_curr bc) (bc_wb bc) None i = default [] (fs_read (bc_fs bc) (data d i)))
    by (intros i; unfold stream, fb_part, wb_part; rewrite Hw; destruct (bc_curr bc =? i); by rewrite !app_nil_r).
  assert (HN : bc_curr bc <= next_free bc <= bc_curr bc + 1) by (unfold next_free; destruct (0 <? wb_start (bc_wb bc)); lia).
  assert (Hnone : forall i, next_free bc <= i <= 257 -> bc_fs bc !! data d i = None).
  { intros i Hi. destruct (decide (i = bc_curr bc)) as [->|]; [|apply fo_above; lia]. unfold next_free in Hi. destruct (Z.ltb_spec 0 (wb_start (bc_wb bc))); [lia|].
    destruct lo_file as [He _]. specialize (He (bc_curr bc) ltac:(lia)). rewrite fs_read_plain in He by done. unfold flen in Hch. rewrite fs_read_plain in Hch by done.
    destruct (bc_fs bc !! data d (bc_curr bc)) as [[x mx|x]|] eqn:E; [|by destruct (fo_plain _ _ E)|done]. cbn in Hch. destruct x; [done|]. unfold blen in Hch. simpl in Hch. lia. }
  constructor; auto.
  - lia.
  - intros i Hi. rewrite Hread by lia. specialize (lo_log i ltac:(lia)). rewrite Hst in lo_log. specialize (fo_size i ltac:(lia)). unfold flen in *.
    assert (Hne : default [] (fs_read (bc_fs bc) (data d i)) <> []).
    { intros E. destruct (decide (i = bc_curr bc)) as [->|Hne].
      - rewrite E in Hch. unfold next_free in Hi. rewrite (proj2 (Z.ltb_ge _ _)) in Hi by (rewrite <- Hch; done). lia.
      - apply (lo_full ltac:(lia) i ltac:(lia) ltac:(lia)). rewrite E in lo_log. by eapply logged_nil_inv. }
    destruct (fs_read (bc_fs bc) (data d i)) as [file|]; [|done]. cbn [default] in *. by exists file.
  - intros i Hi. rewrite Hdata by lia. by apply Hnone.
  - intros i Hi. specialize (lo_log i ltac:(lia)). rewrite Hst, fs_read_plain, Hnone in lo_log by (done || lia). by eapply logged_nil_inv.
  - intros i Hi. rewrite Hhint; [apply lo_nohint; lia|lia|]. unfold next_free in Hi. destruct (Z.ltb_spec 0 (wb_start (bc_wb bc))); [left; lia|right; lia].
  - pose proof (rs_last _ _ _ _ _ _ _ _ _ lo_resumed). eapply (resumed_le env d n _ _ _ (bc_curr bc)); [lia|lia|]. eapply (resumed_fs env d _ _ _ _ (bc_fs bc)); auto; [lia|].
    intros i Hi. apply Hhint; [lia|left; lia].
  - intros Hmx i Hi. specialize (lo_limit Hmx i ltac:(lia)). rewrite Hst in lo_limit. unfold flen. by rewrite Hread by lia.
Qed.

(** The two parts of [bc_close] after the flush: the sizes, then the hint file. *)
Lemma close_sizes n bc M now :
  inv n bc M -> bc_curr bc <= 254 ->
  exists b f, match stat_reg (bc_fs bc) (data d (bc_curr bc)) with
              | Some (x, _) => dump (set_files bc (<[bc_curr bc := blen x]> (bc_buckets bc)) (bc_fs bc)) now
              | None => Ret bc
              end = Ret (set_files bc b f) /\ keeps d (bc_fs bc) f.
Proof.
  intros [Hc _] Hcu. pose proof (co_files _ _ _ _ _ Hc) as Hf. pose proof (fo_curr _ _ _ _ Hf). destruct (stat_reg (bc_fs bc) (data d (bc_curr bc))) as [[x mx]|] eqn:E.
  - rewrite (stat_flen d _ _ x mx) by (apply Hf || done). pose proof (files_record d _ _ _ (bc_curr bc) Hf ltac:(lia)) as Hf1.
    destruct (dump_ok d Hd (set_files bc (<[bc_curr bc := flen d (bc_fs bc) (bc_curr bc)]> (bc_buckets bc)) (bc_fs bc)) now) as (f1 & -> & K); [apply Hc|apply Hf1|apply Hf|].
    by eexists _, f1.
  - exists (bc_buckets bc), (bc_fs bc). rewrite set_files_id. split; [done|]. apply keeps_refl, Hf.
Qed.

Lemma close_hint n bc M b f0 L now :
  inv n bc M -> n <= MAX_OPS -> bc_fb bc = None -> bc_curr bc <= 254 -> keeps d (bc_fs bc) f0 ->
  log_ok (C := C) env d n (bc_depth bc) (bc_pos bc) (bc_fs bc) (bc_curr bc) (bc_wb bc) None (abs (bc_tree bc)) (abs (bc_curr_tree bc)) L ->
  exists f1, (if 0 <? bc_curr_bytes bc then
                '(f, hp) ← new_path (e_disk env) (bc_mgr bc) f0 HINT_FILE (bc_curr bc);
                f ← build_hint (e_fresh env) f now (bc_curr_tree bc) hp; Ret (set_fs (set_files bc b f0) f)
              else Ret (set_files bc b f0)) = Ret (set_files bc b f1) /\ plain f1 /\
    (forall x, in_range x -> x <> Sizes -> x <> Tmp HINT_FILE (bc_curr bc) -> x <> File HINT_FILE (bc_curr bc) \/ wb_start (bc_wb bc) = 0 -> f1 !! path d x = bc_fs bc !! path d x) /\
    (0 < wb_start (bc_wb bc) -> is_Some (f1 !! hint d (bc_curr bc)) /\ hint_ok (C := C) env d (bc_depth bc) (bc_pos bc) f1 (bc_curr bc) (L (bc_curr bc)) (abs (bc_tree bc))).
Proof.
  intros [Hc Hb] Hn Hfb Hcu K HL. pose proof (co_idx _ _ _ _ _ Hc) as Hi. pose proof (fo_curr _ _ _ _ (co_files _ _ _ _ _ Hc)). rewrite (co_bytes _ _ _ _ _ Hc).
  destruct (Z.ltb_spec 0 (wb_start (bc_wb bc))) as [Hs|Hs].
  2: { exists f0. split; [done|]. split; [apply K|]. split; [|lia]. intros x Hx Hne _ _. by apply (keeps_same d). }
  destruct (new_path_plain (e_disk env) (bc_mgr bc) f0 d HINT_FILE (bc_curr bc)) as [_ ->]; [apply Hc|apply K|lia|done|]. cbn [mbind outcome_bind]. fold (hint d (bc_curr bc)).
  destruct (build_hint_log env d Hfresh (bc_depth bc) (bc_pos bc) (delete (hint d (bc_curr bc)) f0) now (bc_curr_tree bc) (bc_curr bc)) as (f1 & -> & Hf1 & Hs1 & Hex1 & Hb1);
    [apply Hi| |by eapply idx_hintable|apply plain_delete, K|done|lia|].
  { intros k [e He]. destruct (io_cfg' _ _ _ _ _ Hi) as [Hcd Hcp]. unfold own. rewrite (check_bucket_cfg (bc_curr_tree bc)) by done.
    destruct (check_bucket (bc_curr_tree bc) k) eqn:E; [done|]. by rewrite (abs_own _ _ (io_curr _ _ _ _ _ Hi) E) in He. }
  cbn [mbind outcome_bind]. exists f1. split; [done|]. split; [done|]. split.
  - intros x Hx Hne Ht [Hh|]; [|lia]. rewrite Hs1 by (unfold hint; rewrite !not_elem_of_cons; split; [by apply path_ne; simpl; lia || done|]; split; [by apply path_ne; simpl; lia || done|apply not_elem_of_nil]).
    unfold hint. rewrite lookup_delete_ne by (apply path_ne; simpl; lia || done). by apply (keeps_same d).
  - intros _. split; [done|]. apply Hb1; [apply HL; lia|]. intros k e e' He He' _. rewrite (lookup_weaken _ _ _ _ He (lo_sub _ _ _ _ _ _ _ _ _ _ _ _ HL)) in He'. by injection He' as <-.
Qed.

(** All but the snapshot. *)
Lemma close_files n bc M now :
  inv n bc M -> n <= MAX_OPS -> bc_fb bc = None -> bc_curr bc <= 253 ->
  exists bc1 b f1 L, bc_close env bc now =
      (bc ← (if SAVE_HTREE_LIMIT <=? next_free bc1 - 1 - sn_last
             then '(bc, _) ← save_snapshot env (set_files bc1 b f1) (next_free bc1 - 1) now; Ret bc else Ret (set_files bc1 b f1)); Ret (bc_fs bc)) /\
    inv n bc1 M /\ bc_depth bc1 = bc_depth bc /\ bc_pos bc1 = bc_pos bc /\ next_free bc1 <= bc_curr bc + 2 /\
    left_behind (C := C) env d n (bc_depth bc) (bc_pos bc) (next_free bc1) (abs (bc_tree bc1)) L f1 M.
Proof.
  intros Hi Hn Hfb Hcu. destruct (co_idle _ _ _ _ _ (proj1 Hi)) as [Ho _]. unfold bc_close. rewrite Ho. change (0 <? 0) with false. cbv iota.
  assert (Hmax0 : 0 <= e_max_bucket_size env <= 2 ^ 32 - 2 ^ 26) by lia.
  destruct (flush_spec env d Hfresh Hd Hmax0 n bc M 0 0 now Hi Hn Hfb ltac:(lia)) as (bc1 & -> & Hi1 & Hfb1 & Hc1 & _ & D1 & P1 & Hdue & Hno). cbn [mbind outcome_bind].
  assert (Hw : wb_data (bc_wb bc1) = []).
  { rewrite flush_due_now in *. destruct (0 <? wb_pos bc) eqn:E; [by apply Hdue|]. rewrite Hno by done. by apply wb_empty. }
  pose proof Hi1 as [Hco Hb]. destruct (co_log _ _ _ _ _ Hco) as [L HL]. rewrite Hfb1 in HL. pose proof (fo_curr _ _ _ _ (co_files _ _ _ _ _ Hco)).
  rewrite (path_of_ok d Hd bc1 DATA_FILE) by (apply Hco || lia). cbn [mbind outcome_bind]. fold (data d (bc_curr bc1)).
  destruct (close_sizes n bc1 M now Hi1 ltac:(lia)) as (b & f & -> & K). cbn [mbind outcome_bind set_files bc_curr_bytes bc_mgr bc_fs bc_curr bc_curr_tree].
  destruct (close_hint n bc1 M b f L now Hi1 Hn Hfb1 ltac:(lia) K HL) as (f1 & E1 & Hf1 & Hsame & Hh). rewrite E1. cbn [mbind outcome_bind set_files bc_curr_bytes bc_curr bc_last_snapshot bc_fs].
  destruct (co_idle _ _ _ _ _ Hco) as [_ Hl]. rewrite Hl. assert (Hst : 0 <= wb_start (bc_wb bc1)) by apply Hb. pose proof (co_bytes _ _ _ _ _ Hco) as Hby.
  exists bc1, b, f1, L. replace (if bc_curr_bytes bc1 =? 0 then bc_curr bc1 - 1 else bc_curr bc1) with (next_free bc1 - 1)
    by (unfold next_free; rewrite Hby; destruct (Z.ltb_spec 0 (wb_start (bc_wb bc1))), (Z.eqb_spec (wb_start (bc_wb bc1)) 0); lia).
  assert (HN : bc_curr bc1 <= next_free bc1 <= bc_curr bc1 + 1) by (unfold next_free; destruct (0 <? wb_start (bc_wb bc1)); lia).
  split; [done|]. split; [done|]. split; [done|]. split; [done|]. split; [lia|]. rewrite <- D1, <- P1.
  assert (Hdata : forall i, 0 <= i <= 257 -> f1 !! data d i = bc_fs bc1 !! data d i) by (intros i Hx; apply Hsame; [done|done|done|by left]).
  assert (Hhint : forall i, 0 <= i <= 257 -> i <> bc_curr bc1 \/ wb_start (bc_wb bc1) = 0 -> f1 !! hint d i = bc_fs bc1 !! hint d i)
    by (intros i Hx Hor; apply Hsame; [done|done|done|]; destruct Hor; [left; intros [= E]; lia|by right]).
  constructor; [| |apply HL|apply HL| |apply (co_idx _ _ _ _ _ Hco)].
  - apply (closed_dir n bc1 M); auto; [lia|]. intros i Hx. apply Hsame; [done|done|done|by left].
  - intros i Hx. destruct (decide (i = bc_curr bc1)) as [->|Hne]; [split; apply Hh; unfold next_free in Hx; destruct (Z.ltb_spec 0 (wb_start (bc_wb bc1))); lia|].
    rewrite Hhint by (lia || by left). split; [|apply (lo_hinted _ _ _ _ _ _ _ _ _ _ _ _ HL); lia].
    eapply hint_ok_same; [apply (co_files _ _ _ _ _ Hco)|done|apply Hhint; [lia|by left]|]. apply (lo_hint _ _ _ _ _ _ _ _ _ _ _ _ HL); lia.
  - apply (points_located env d n bc1); [done|]. intros bk o r Hbk [[_ HR]|[(x & E & _)|(file & HR & HR')]]; [rewrite Hw in HR; by apply in_bytes_nil in HR|congruence|].
    right. right. exists file. split; [|done]. rewrite <- HR. apply fs_read_same; [apply (co_files _ _ _ _ _ Hco)|done|]. apply Hdata. lia.
Qed.

(** No hint file is newer than [now]. *)
Definition settled (f : fs) (now : Z) : Prop := forall i x mt, 0 <= i <= 257 -> f !! hint d i = Some (Reg x mt) -> mt <= now.

Lemma close_spec n bc M t0 now :
  inv n bc M -> snapshot_of (C := C) (bc_depth bc) (bc_pos bc) t0 -> n <= MAX_OPS -> bc_fb bc = None -> bc_curr bc <= 253 -> 1 <= bc_depth bc \/ bc_curr bc <= 2 ->
  exists f N m L (SN2 : Snaps) t, bc_close env bc now = Ret f /\ N - sn_last (Snaps := SN2) <= 5 /\
    left_behind (SN := SN2) (C := C) env d n (bc_depth bc) (bc_pos bc) N m L f M /\ (settled f now -> snapshot_of (SN := SN2) (bc_depth bc) (bc_pos bc) t).
Proof.
  intros Hi Ht0 Hn Hfb Hcu Hdep. destruct (close_files n bc M now Hi Hn Hfb Hcu) as (bc1 & b & f1 & L & -> & Hi1 & D1 & P1 & HN & Hlb). pose proof (last_range _ _ _ Ht0) as Hlast.
  pose proof (da_range _ _ _ _ _ _ _ _ _ _ (lb_data _ _ _ _ _ _ _ _ _ _ Hlb)) as HNr. unfold SAVE_HTREE_LIMIT. destruct (Z.leb_spec 5 (next_free bc1 - 1 - sn_last)) as [H5|H5].
  2: { cbn [mbind outcome_bind set_files bc_fs]. exists f1, (next_free bc1), (abs (bc_tree bc1)), L, SN, t0. split; [done|]. split; [lia|]. split; [done|]. done. }
  pose proof Hi1 as [Hco _]. pose proof (co_idx _ _ _ _ _ Hco) as Hix. destruct (io_cfg _ _ _ _ _ Hix) as [T1 T2]. destruct (co_idle _ _ _ _ _ Hco) as [_ Hl].
  pose proof (io_tree _ _ _ _ _ Hix) as Htree. assert (Hh : t_height (bc_tree bc1) <= 7) by (destruct Htree as [(_ & _ & H8 & _) _]; lia).
  destruct (save_spec env d Hd (set_files bc1 b f1) n (next_free bc1 - 1) now) as (f2 & c & t & -> & Hpl & S1 & S2 & Hsame & Eo & Ht & Ha & T3 & T4 & Hbt);
    cbn [set_files bc_mgr bc_fs bc_last_snapshot bc_tree] in *; rewrite ?Hl in *; [apply Hco|apply Hlb|lia|lia|apply Hix|unfold MAX_OPS in *; lia|done|done|].
  cbn [mbind outcome_bind set_fs bc_fs]. exists f2, (next_free bc1), (abs (bc_tree bc1)), L, (saved n (next_free bc1) (abs (bc_tree bc1)) c now (f2 !! hint d (next_free bc1 - 1))), t. split; [done|].
  split; [|split; [eapply (saved_left env d SN); [exact Hlb|apply Ht0|lia|done|exact S1|done|done]|]]; [cbn; lia|]. intros Hset.
  rewrite T1, T2, D1, P1 in *. constructor; cbn [saved sn_last sn_file sn_hint sn_tree sn_count]; auto.
  - intros i Hne. by rewrite (proj2 (Z.eqb_neq _ _) Hne).
  - right. split; [lia|]. destruct (lb_hint _ _ _ _ _ _ _ _ _ _ Hlb (next_free bc1 - 1) ltac:(lia)) as [_ [[x hm|x] Hx]].
    + rewrite Z.eqb_refl. unfold hint in *. rewrite Hsame, Hx by (simpl; done || lia). exists c, now, x, hm. do 2 (split; [done|]). split; [|done].
      apply (Hset (next_free bc1 - 1) x); [lia|]. unfold hint. by rewrite Hsame, Hx by (simpl; done || lia).
    + by destruct (da_plain _ _ _ _ _ _ _ _ _ _ (lb_data _ _ _ _ _ _ _ _ _ _ Hlb) _ _ Hx).
Qed.
End Close.
