(* ===== verification/Restart.v ===== *)
(** * Closing and opening again

    [bc_close] leaves behind a directory of logs with their hint files, and
    sometimes a snapshot of the tree; opening it gives a bitcask with the same live
    entries, session after session. *)
From Stdlib Require Import ZArith Lia List.
From stdpp Require Import base numbers list list_numbers gmap strings.
From S2P Require Import Prelude Hash CText Codec CodecFacts HTree HTreeMap HTreeSpec HTreeFile HTreeFine Disk DiskFacts Hint HintFacts Record RecordFacts Scan ScanFacts Buckets BucketsFacts Bitcask BitcaskInv BitcaskLog BitcaskSteps BitcaskSpec BitcaskLife BitcaskHistory Reopen Shutdown.

(** The environment of the next process: the directories as they are then. *)
Definition with_listing (env : Env) (names : bytes -> list bytes) : Env :=
  {| e_max_bucket_size := e_max_bucket_size env; e_check_file_size := e_check_file_size env; e_autolink := e_autolink env;
     e_disk := e_disk env; e_readdir := names; e_fresh := e_fresh env; e_addr := e_addr env; e_cwd := e_cwd env; e_dir_ok := e_dir_ok env |}.

(** [bc_close], which waits for a flush that is under way. *)
Definition bc_shutdown {C} {KC : KeyCodec C} (env : Env) (bc : Bitcask C) (now : Z) : outcome fs :=
  bc ← (match bc_fb bc with Some _ => flush_end env bc now | None => Ret bc end);
  bc_close env bc now.

(** ** A restart *)
Section Restart.
Context {C : Type} {KC : KeyCodec C} {KL : KeyCodecLaws C}.
Context (env : Env) (d : bytes).
Context (Hfresh : forall n, length (e_fresh env n) = Z.to_nat n /\ bytes_ok (e_fresh env n)).
Context (Hd : blen d <= 230).
Context (Hmax : 2 ^ 27 <= e_max_bucket_size env <= 2 ^ 32 - 2 ^ 26).
Context (Hcheck : e_check_file_size env = false).
Implicit Types (bc : Bitcask C) (M : store).

Lemma max_range : 0 <= e_max_bucket_size env <= 2 ^ 32 - 2 ^ 26.
Proof. lia. Qed.

(** The invariants do not depend on the listing. *)
Lemma data_listing {SN : Snaps} n depth pos N m L f0 f names :
  data_ok (C := C) env d n depth pos N m L f0 f -> data_ok (C := C) (with_listing env names) d n depth pos N m L f0 f.
Proof. intros []. constructor; auto. destruct da_resumed. constructor; auto. Qed.
Lemma inv_listing {SN : Snaps} n bc M names : inv (with_listing env names) d n bc M -> inv env d n bc M.
Proof.
  intros [[] []]. split; [|by constructor]. constructor; auto. destruct co_log as [L []]. exists L. constructor; auto. destruct lo_resumed. constructor; auto.
Qed.

(** The flush under way at the end. *)
Lemma wait_close {SN : Snaps} n bc M now :
  inv env d n bc M -> exists bc1, match bc_fb bc with Some _ => flush_end env bc now | None => Ret bc end = Ret bc1 /\ inv env d n bc1 M /\
    bc_fb bc1 = None /\ bc_curr bc1 = bc_curr bc /\ bc_depth bc1 = bc_depth bc /\ bc_pos bc1 = bc_pos bc.
Proof.
  intros Hi. destruct (bc_fb bc) as [fb|] eqn:E; [|by exists bc]. destruct (flush_end_spec env d Hd n bc M now Hi) as (b2 & -> & Hi2 & E1 & E2 & E3 & E4 & E5 & E6); [by rewrite E|]. by exists b2.
Qed.

Lemma opens_again {SN : Snaps} n depth pos mg N m L f M t names now' :
  disks mg = [d] -> 0 <= depth <= 7 -> n <= MAX_OPS -> N - sn_last <= 5 -> left_behind (C := C) env d n depth pos N m L f M -> snapshot_of (C := C) depth pos t -> lists d f (names d) ->
  exists bc' M', bc_opened (with_listing env names) mg f depth pos now' = Ret bc' /\ inv env d n bc' M' /\
    recovered M M' /\ bc_fb bc' = None /\ bc_depth bc' = depth /\ bc_pos bc' = pos /\ bc_curr bc' <= 255.
Proof.
  intros Hmg Hdep Hn HN [Hdat Hhint Hrec Hpt Hpts Hsz] Hsn Hl. apply (data_listing _ _ _ _ _ _ _ _ names) in Hdat. pose proof (da_plain _ _ _ _ _ _ _ _ _ _ Hdat) as Hpl. pose proof (da_range _ _ _ _ _ _ _ _ _ _ Hdat).
  pose proof (rs_last _ _ _ _ _ _ _ _ _ (da_resumed _ _ _ _ _ _ _ _ _ _ Hdat)).
  destruct (open_dir (with_listing env names) d Hfresh Hd n depth pos N m L f Hn t Hsn Hcheck mg f now') as (t1 & f' & b & sz & E' & Hsc & Hlo & Hhi);
    [done|done|intros i Hx; by apply Hhint|intros i Hx; apply Hhint; lia|done|done|].
  rewrite E'. eexists _, _. split; [done|]. split; [eapply inv_listing, (reopened_inv (with_listing env names) d n depth pos N m L f); eauto|].
  split; [by eapply (recovered_all (with_listing env names) d n depth pos N m L f); eauto|]. cbn. do 3 (split; [done|]). lia.
Qed.

Lemma restart_spec {SN : Snaps} n bc M t0 now :
  inv env d n bc M -> snapshot_of (C := C) (bc_depth bc) (bc_pos bc) t0 -> n <= MAX_OPS -> bc_curr bc <= 253 -> 1 <= bc_depth bc \/ bc_curr bc <= 2 ->
  exists f, bc_shutdown env bc now = Ret f /\
    forall names now', lists d f (names d) -> settled d f now ->
      exists bc' M' (SN' : Snaps) t, bc_opened (with_listing env names) (bc_mgr bc) f (bc_depth bc) (bc_pos bc) now' = Ret bc' /\
        inv (SN := SN') env d n bc' M' /\ snapshot_of (SN := SN') (C := C) (bc_depth bc) (bc_pos bc) t /\
        recovered M M' /\ bc_depth bc' = bc_depth bc /\ bc_pos bc' = bc_pos bc /\ bc_curr bc' <= 255.
Proof.
  intros Hi Ht0 Hn Hcu Hdp. destruct (wait_close n bc M now Hi) as (bc1 & E & Hi1 & Hfb1 & C1 & D1 & P1). unfold bc_shutdown. rewrite E. cbn [mbind outcome_bind]. rewrite <- C1, <- D1, <- P1 in *.
  destruct (close_spec env d Hfresh Hd Hmax n bc1 M t0 now Hi1 Ht0 Hn Hfb1 Hcu Hdp) as (f & N & m & L & SN' & t & -> & HN & Hlb & Hsn).
  exists f. split; [done|]. intros names now' Hl Hset. specialize (Hsn Hset). pose proof (io_depth _ _ _ _ _ (co_idx _ _ _ _ _ (proj1 Hi1))) as Hdep. pose proof (co_mgr _ _ _ _ _ (proj1 Hi)) as Hmg.
  destruct (opens_again (SN := SN') n (bc_depth bc1) (bc_pos bc1) (bc_mgr bc) N m L f M t names now') as (bc' & M' & E' & Hi' & Hr & _ & H); auto.
  exists bc', M', SN', t. done.
Qed.

Lemma recovered_vers N M M' : recovered M M' -> vers_ok N M -> vers_ok N M'.
Proof.
  intros Hr Hv k v' Hk. specialize (Hr k). rewrite Hk in Hr. destruct (M !! k) as [v|] eqn:E; [|done]. destruct (Hv k v E) as [Hz Hb]. destruct Hr as [[Hr|Hr] _]; split; lia.
Qed.

(** A session: its requests and flushes, the time it closes, the time of the next
    start. *)
Record session := { s_events : list event; s_close : Z; s_open : Z }.

(** What a bitcask with the store [M] promises for the sessions [ss]: it answers as
    a map; then it closes, and opened again on what it left behind, whatever the
    order in which the kernel lists it, it holds the live entries and goes on.
    (Until the bucket numbers run out; a tree of the whole key space, depth 0, may
    be too deep to be saved.) *)
Fixpoint sessions_ok (m : Mgr) (depth pos : Z) bc M (ss : list session) : Prop :=
  match ss with
  | [] => True
  | s :: ss =>
      (exists bc1, bc_run env bc (s_events s) = Ret (bc1, (spec_run M (s_events s)).2) /\
         (bc_curr bc1 <= 253 -> 1 <= depth \/ bc_curr bc1 <= 2 ->
          exists f, bc_shutdown env bc1 (s_close s) = Ret f /\
            forall names, lists d f (names d) -> settled d f (s_close s) ->
              exists bc' M', bc_opened (with_listing env names) m f depth pos (s_open s) = Ret bc' /\
                recovered (spec_run M (s_events s)).1 M' /\ sessions_ok m depth pos bc' M' ss)) \/
      (exists es1 es2 bc1, s_events s = es1 ++ es2 /\ bc_run env bc es1 = Ret (bc1, (spec_run M es1).2) /\ 256 <= bc_curr bc1)
  end.

Lemma sessions_spec m depth pos ss : forall (SN : Snaps) t0 n bc M,
  disks m = [d] -> reached env d n bc M -> snapshot_of (C := C) depth pos t0 -> bc_depth bc = depth -> bc_pos bc = pos ->
  Forall (fun s => Forall (event_ok env (ht_new (C := C) depth pos false)) (s_events s)) ss ->
  0 <= n -> n + Z.of_nat (length (flat_map s_events ss)) <= MAX_OPS -> sessions_ok m depth pos bc M ss.
Proof.
  induction ss as [|s ss IH]; intros SN t0 n bc M Hm Hre Ht0 D P Hes Hn Hlen; [done|]. apply Forall_cons in Hes as [He Hes]. cbn [sessions_ok flat_map] in *. rewrite length_app in Hlen.
  pose proof (io_cfg _ _ _ _ _ (co_idx _ _ _ _ _ (proj1 (re_inv _ _ _ _ _ Hre)))) as [T1 T2].
  destruct (run_reached env d Hfresh Hd max_range n bc M (s_events s) Hre Hn ltac:(lia)) as [(bc1 & E & Hre1 & D1 & P1)|H]; [| |by right].
  { eapply Forall_impl; [exact He|]. intros e. unfold event_ok. destruct e; rewrite ?(check_bucket_cfg (ht_new depth pos false) (bc_tree bc)) by (cbn; congruence); done. }
  left. exists bc1. split; [done|]. intros Hcu Hdp. rewrite D in D1. rewrite P in P1. pose proof Hre1 as [Hi1 Hv1 _].
  destruct (restart_spec _ bc1 _ t0 (s_close s) Hi1) as (f & Ef & Hopen); [by rewrite D1, P1|lia|done|by rewrite D1|]. exists f. split; [done|]. intros names Hl Hset.
  destruct (Hopen names (s_open s) Hl Hset) as (bc' & M' & SN' & t' & E' & Hi' & Ht' & Hr & D' & P' & Hc'). pose proof (co_mgr _ _ _ _ _ (proj1 Hi1)) as Hmg.
  assert (Em : bc_mgr bc1 = m) by (destruct m as [l], (bc_mgr bc1) as [l']; cbn in Hm, Hmg; by subst). rewrite Em, D1, P1 in *. exists bc', M'. split; [done|]. split; [done|].
  apply (IH SN' t' (n + Z.of_nat (length (s_events s)))); [done| |done|done|done|done|lia|lia]. constructor; [done|by eapply recovered_vers|done].
Qed.

(** C8. Restarts keep the data.  A bitcask that was opened on an empty directory
    goes through any number of sessions: in each it answers as a map, then closes,
    and opened again on the files it left behind, in whatever order the kernel
    lists them, it holds every live entry with its flag and value.  Whether the
    tree comes from the hint files or from a saved snapshot and the hint files
    written since does not matter.  Deletions may be forgotten, and an entry whose
    last change was a new version of equal data may fall back to an older version.
    (File limit of 128 MB or more; when the bitcask closes no hint file may be
    newer than the clock.) *)
Theorem restart_recovers m depth pos now ss :
  disks m = [d] -> e_readdir env d = [] -> 0 <= depth <= 7 ->
  Forall (fun s => Forall (event_ok env (ht_new (C := C) depth pos false)) (s_events s)) ss ->
  Z.of_nat (length (flat_map s_events ss)) <= MAX_OPS ->
  exists bc, bc_opened env m ∅ depth pos now = Ret bc /\ sessions_ok m depth pos bc ∅ ss.
Proof.
  intros Hm Hrd Hdp Hes Hlen. exists (fresh_bitcask m depth pos now). split; [by eapply open_empty|].
  apply (sessions_spec m depth pos ss no_snaps (ht_new depth pos false) 0); [done| | |done|done|done|lia|lia].
  - constructor; [by apply fresh_inv|apply map_Forall_empty|cbn; lia].
  - by apply fresh_snapshot.
Qed.
End Restart.

(** ** Concrete restarts *)
Definition quiet_env (max : Z) : Env :=
  {| e_max_bucket_size := max; e_check_file_size := false; e_autolink := true;
     e_disk := {| avail := fun _ => 0; coin := fun _ => true |}; e_readdir := fun _ => []; e_fresh := zeros; e_addr := fun _ => 0; e_cwd := lit "/"; e_dir_ok := fun _ => true |}.

(** A listing of the files of a bitcask. *)
Definition listing (d : bytes) (f : fs) : list bytes := List.map name (List.filter (fun n => bool_decide (is_Some (f !! path d n))) all_names).
Lemma listing_lists d f : (forall n, n ∈ all_names -> in_range n) -> lists d f (lit "." :: lit ".." :: listing d f).
Proof.
  intros Hall. split.
  - intros n Hn Hs. do 2 apply list_elem_of_further. apply list_elem_of_In, List.in_map, filter_In. split; [by apply list_elem_of_In, all_names_in|]. by apply bool_decide_eq_true.
  - intros x Hx. apply elem_of_cons in Hx as [->|Hx]; [by left|]. apply elem_of_cons in Hx as [->|Hx]; [by right; left|]. right. right.
    apply list_elem_of_In, in_map_iff in Hx as (n & <- & Hf). apply filter_In in Hf as [Hin Hs]. apply bool_decide_eq_true in Hs. exists n. split; [by apply Hall, list_elem_of_In|done].
Qed.

(** Two sessions. *)
Definition demo_sessions : list session :=
  [{| s_events := demo_events; s_close := 200; s_open := 300 |};
   {| s_events := [EGet (lit "photo") false; EDelete (lit "photo") 301; ESet (lit "name") (lit "new") 0 0 302]; s_close := 400; s_open := 500 |}].

Lemma restart_recovers_witness :
  exists bc, bc_opened (C := Codec) (quiet_env DEFAULT_MAX) demo_mgr ∅ 0 0 99 = Ret bc /\
    sessions_ok (quiet_env DEFAULT_MAX) (lit "/db") demo_mgr 0 0 bc ∅ demo_sessions.
Proof.
  apply (restart_recovers (quiet_env DEFAULT_MAX) (lit "/db")).
  - intros n. apply zeros_ok.
  - vm_compute. discriminate.
  - split; vm_compute; discriminate.
  - reflexivity.
  - reflexivity.
  - reflexivity.
  - lia.
  - by_compute.
  - vm_compute. discriminate.
Defined.

(** This history restarted: the answers of the next session. *)
Definition restarted (env : Env) (es es2 : list event) : outcome (list answer) :=
  bc ← bc_opened (C := Codec) env demo_mgr ∅ 0 0 99;
  '(bc, _) ← bc_run env bc es;
  f ← bc_shutdown env bc 200;
  bc ← bc_opened (with_listing env (fun _ => listing (lit "/db") f)) demo_mgr f 0 0 300;
  '(_, l) ← bc_run env bc es2; Ret l.

Example demo_restart :
  restarted (quiet_env DEFAULT_MAX) demo_events
    [EGet (lit "photo") false; EGet (lit "name") true; ESet (lit "name") (lit "new") 0 0 301; EGet (lit "name") false] =
  Ret [AValue (Some (2, 3, repeat 98 300)); AValue None; AStored true; AValue (Some (1, 0, lit "new"))].
Proof. vm_compute. reflexivity. Qed.

(** With small data files: seven of them fill up, so that closing saves the tree,
    and the next session starts from this snapshot and remembers the deletion. *)
Definition filling : list event :=
  List.concat (List.map (fun i => [ESet [107; 48 + Z.of_nat i] (repeat (65 + Z.of_nat i) 200) 1 0 100; EFlushBegin 0 0 100; EFlushEnd 100]) (seq 0 7)) ++ [EDelete [107; 50] 101].
Definition resumed_session : outcome (list Z * list answer) :=
  let env := quiet_env 1000 in
  bc ← bc_opened (C := Codec) env demo_mgr ∅ 0 0 99;
  '(bc, _) ← bc_run env bc filling;
  f ← bc_shutdown env bc 200;
  bc ← bc_opened (with_listing env (fun _ => listing (lit "/db") f)) demo_mgr f 0 0 300;
  '(bc1, l) ← bc_run env bc [EGet [107; 49] false; EGet [107; 50] true; EGet [107; 54] false; ESet [107; 55] (lit "x") 0 0 301];
  Ret ([bc_last_snapshot bc; bc_curr bc], l).
Example demo_snapshot :
  resumed_session = Ret ([7; 8], [AValue (Some (1, 1, repeat 66 200)); AValue (Some (-2, 0, [])); AValue (Some (1, 1, repeat 71 200)); AStored true]).
Proof. vm_compute. reflexivity. Qed.

(** ** A crash between the two halves of a flush *)
(** The first write is flushed; the second is moved aside by a flush that also
    begins a new data file, so the hint file of the old one is written before the
    data; then the process dies. *)
Definition crash_env : Env := quiet_env 10000.
Definition crashed : outcome (fs * fs * list answer * option DataRecord) :=
  bc ← bc_opened (C := Codec) crash_env demo_mgr ∅ 0 0 99;
  '(bc, _) ← bc_run crash_env bc [ESet (lit "key") (lit "first") 0 0 100; EFlushBegin 0 0 101; EFlushEnd 101];
  let flushed := bc_fs bc in
  '(bc, l) ← bc_run crash_env bc [ESet (lit "key") (lit "second") 0 0 102; EFlushBegin 0 0 103];
  let f := bc_fs bc in
  bc ← bc_opened (C := Codec) (with_listing crash_env (fun _ => listing (lit "/db") f)) demo_mgr f 0 0 200;
  '(_, r, _) ← bc_get crash_env bc (lit "key") false;
  Ret (flushed, f, l, r).

(** A crash can lose data that was on disk.  [bc_rotate] starts the thread that
    writes the hint file of the data file before [bc_flush] has written the last
    buffer to that file.  If the process dies in between, the next start takes the
    hint file at its word: the key points past the end of the data file, reading
    it fails, and the value that an earlier flush had written to the same file,
    and that is still there, is not found. *)
Theorem crash_after_rotate :
  match crashed with
  | Ret (flushed, f, l, r) =>
      r = None /\ fs_read f (data (lit "/db") 0) = fs_read flushed (data (lit "/db") 0) /\
      match fast_read_record zeros (default [] (fs_read f (data (lit "/db") 0))) 0 true with
      | Ret (Some old) => r_key old = lit "key" /\ r_value old = lit "first"
      | _ => False
      end
  | _ => False
  end.
Proof. vm_compute. repeat split. Qed.
