(* ===== verification/HStore.v ===== *)
(** * The store (hstore.c)

    A store of height [h] has 16^h bitcasks; the first [h] hex digits of the key
    hash choose one.  Keys starting with [@] list the tree, keys starting with
    [?] ask for the metadata of a record.  Each bitcask has its own directories,
    hence its own file system.  The worker threads of the scan and of the
    collection are run at once; the per-key locks of append and incr are the
    boundaries of these functions. *)
From Stdlib Require Import ZArith Lia List.
From stdpp Require Import base numbers list gmap strings.
From S2P Require Import Prelude Hash CText Codec HTree HTreeFile QuickLZ Disk Hint Record Scan Buckets Bitcask BitcaskLife.

Import Fnv.

Definition MAX_PATHS : Z := 20.
Definition MAX_HOME_PATH_LEN : Z := 240.
Definition META_BUF_SIZE : Z := 256.
Definition APPEND_FLAG : Z := 0x00000100.
Definition INCR_FLAG : Z := 0x00000204.

Record HStore (C : Type) := {
  hs_height : Z;
  hs_before : Z;
  hs_op_start : Z;
  hs_op_end : Z;
  hs_op_laststat : Z;
  hs_op_limit : Z;
  hs_bitcasks : list (Bitcask C)
}.
Arguments hs_height {C}.
Arguments hs_before {C}.
Arguments hs_op_start {C}.
Arguments hs_op_end {C}.
Arguments hs_op_laststat {C}.
Arguments hs_op_limit {C}.
Arguments hs_bitcasks {C}.

(** [strsep(&rpath, ",:")] until it returns NULL. *)
Fixpoint strsep_all (acc p : bytes) : list bytes :=
  match p with
  | [] => [acc]
  | c :: r => if (c =? 44) || (c =? 58) then acc :: strsep_all [] r else strsep_all (acc ++ [c]) r
  end.

(** The directory of bitcask [i] under a home path. *)
Definition bitcask_dir (height : Z) (path : bytes) (i : Z) : outcome bytes :=
  let d := if height =? 0 then path
           else if height =? 1 then join path (print_x i)
           else if height =? 2 then join (join path (print_x (Z.shiftr i 4))) (print_x (Z.land i 0xf))
           else join (join (join path (print_x (Z.shiftr i 8))) (print_x (Z.land (Z.shiftr i 4) 0xf)))
                  (print_x (Z.land i 0xf)) in
  print_path MAX_PATH_LEN d.

(** [tree2range]: the bitcasks [start, end) that a tree position names. *)
Definition tree2range (tree : bytes) (height : Z) : option (Z * Z) :=
  let count := Z.shiftl 1 (height * 4) in
  let len := blen tree in
  let shift := (height - (len - 1)) * 4 in
  if (len <? 1) || negb (match tree with 64 :: _ => true | _ => false end) || (shift <? 0) then None
  else if 1 <? len then
    match safe_strtol (drop 1 tree) 16 with
    | None => None
    | Some n =>
        if (count - 1 <? n) || (n <? 0) then None
        else
          let s := s32 (Z.shiftl n shift) in
          let e := s32 (Z.shiftl (n + 1) shift) in
          if (s <? 0) || (count <? s) || (e <? 0) || (count <? e) then None else Some (s, e)
    end
  else Some (0, count).

Section HStore.
Context {C : Type} {KC : KeyCodec C} (env : Env).
Implicit Types s : HStore C.

Definition get_index s (key : bytes) : Z :=
  if hs_height s =? 0 then 0 else Z.shiftr (fnv1a key) ((8 - hs_height s) * 4).

Definition bitcask_at s (i : Z) : outcome (Bitcask C) := fetch (hs_bitcasks s) i.
Definition set_bitcask s (i : Z) (bc : Bitcask C) : HStore C :=
  {| hs_height := hs_height s; hs_before := hs_before s; hs_op_start := hs_op_start s;
     hs_op_end := hs_op_end s; hs_op_laststat := hs_op_laststat s; hs_op_limit := hs_op_limit s;
     hs_bitcasks := <[Z.to_nat i := bc]> (hs_bitcasks s) |}.
Definition set_op s (start end_ laststat limit : Z) : HStore C :=
  {| hs_height := hs_height s; hs_before := hs_before s; hs_op_start := start; hs_op_end := end_;
     hs_op_laststat := laststat; hs_op_limit := limit; hs_bitcasks := hs_bitcasks s |}.

(** ** Opening and closing *)
Fixpoint dirs_of (height : Z) (paths : list bytes) (i : Z) : outcome (list bytes) :=
  match paths with
  | [] => Ret []
  | p :: r => d ← bitcask_dir height p i; ds ← dirs_of height r i; Ret (d :: ds)
  end.
Fixpoint open_bitcasks (k : nat) (fss : Z -> fs) (height before now : Z) (paths : list bytes) (i : Z)
  : outcome (option (list (Bitcask C))) :=
  match k with
  | O => Ret (Some [])
  | S k' =>
      ds ← dirs_of height paths i;
      match mgr_create (e_cwd env) (e_dir_ok env) ds with
      | None => Ret None
      | Some mgr =>
          bc ← bc_open2 env mgr (fss i) height i before now;
          r ← open_bitcasks k' fss height before now paths (i + 1);
          Ret ((fun l => bc :: l) <$> r)
      end
  end.
Fixpoint each_bitcask (f : Bitcask C -> outcome (Bitcask C)) (l : list (Bitcask C)) : outcome (list (Bitcask C)) :=
  match l with [] => Ret [] | bc :: r => bc ← f bc; r ← each_bitcask f r; Ret (bc :: r) end.

(** [hs_open(path, height, before, scan_threads)], [fss i] being what is in the
    directories of bitcask [i].  The array of paths has room for [MAX_PATHS], but the
    terminating NULL is stored too. *)
Definition hs_open (fss : Z -> fs) (path : bytes) (height before now : Z) : outcome (option (HStore C)) :=
  if (height <? 0) || (3 <? height) then Ret None
  else if before <? 0 then Ret None
  else
    let paths := strsep_all [] path in
    if existsb (fun p => (MAX_HOME_PATH_LEN <? blen p) || negb (e_dir_ok env p)) (take 20 paths) then Ret None
    else if MAX_PATHS <=? Z.of_nat (length paths) then Fault
    else
      bcs ← open_bitcasks (Z.to_nat (Z.shiftl 1 (height * 4))) fss height before now paths 0;
      match bcs with
      | None => Ret None
      | Some bcs =>
          bcs ← each_bitcask (fun bc => bc_scan env bc now) bcs;
          Ret (Some {| hs_height := height; hs_before := before; hs_op_start := 0; hs_op_end := 0;
                       hs_op_laststat := 0; hs_op_limit := 0; hs_bitcasks := bcs |})
      end.

Definition hs_flush s (limit period now : Z) : outcome (HStore C) :=
  if 0 <? hs_before s then Ret s
  else
    bcs ← each_bitcask (fun bc => bc_flush env bc limit period now) (hs_bitcasks s);
    Ret {| hs_height := hs_height s; hs_before := hs_before s; hs_op_start := hs_op_start s;
           hs_op_end := hs_op_end s; hs_op_laststat := hs_op_laststat s; hs_op_limit := hs_op_limit s;
           hs_bitcasks := bcs |}.

(** [hs_close]: the file systems left behind. *)
Fixpoint close_all (l : list (Bitcask C)) (now : Z) : outcome (list fs) :=
  match l with [] => Ret [] | bc :: r => f ← bc_close env bc now; fr ← close_all r now; Ret (f :: fr) end.
Definition hs_close s (now : Z) : outcome (list fs) := close_all (hs_bitcasks s) now.

(** ** Hashes and listings *)
(** The sixteen children of a position above the bitcasks. *)
Fixpoint sum_hashes (get : HStore C -> bytes -> outcome (HStore C * Z * Z)) (k : nat) s (pos : bytes)
    (i hash count : Z) : outcome (HStore C * Z * Z) :=
  match k with
  | O => Ret (s, hash, count)
  | S k' =>
      p ← print_path 255 (pos ++ print_x i);
      '(s, h, c) ← get s p;
      sum_hashes get k' s pos (i + 1) (u16 (u16 (hash * 97) + h)) (u32 (count + c))
  end.
(** [hs_get_hash]: one level per round, so the height is enough fuel. *)
Fixpoint hs_get_hash (fuel : nat) s (pos : bytes) : outcome (HStore C * Z * Z) :=
  match fuel with
  | O => Fault
  | S k =>
      if hs_height s <=? blen pos then
        let index := s32 (fst (strtol 16 (take (Z.to_nat (hs_height s)) pos))) in
        bc ← bitcask_at s index;
        '(bc, h, n) ← bc_get_hash bc [64];
        Ret (set_bitcask s index bc, h, n)
      else sum_hashes (hs_get_hash k) 16 s pos 0 0 0
  end.

Fixpoint list_buckets (k : nat) s (pos : bytes) (i : Z) (buf : bytes) : outcome (HStore C * bytes) :=
  match k with
  | O => Ret (s, buf)
  | S k' =>
      d ← buf_print (255 - blen pos) [] (print_x i);
      '(s, h, c) ← hs_get_hash 4 s (pos ++ d);
      buf ← buf_print 1024 buf (print_x i ++ [47; 32] ++ print_u (Z.land h 0xffff) ++ [32] ++ print_u c ++ [10]);
      list_buckets k' s pos (i + 1) buf
  end.

(** The position before the first colon, and the prefix after it. *)
Fixpoint split_colon (key : bytes) : bytes * option bytes :=
  match key with
  | [] => ([], None)
  | c :: r => if c =? 58 then ([], Some r) else let '(p, x) := split_colon r in (c :: p, x)
  end.

Definition hs_list s (key : bytes) : outcome (HStore C * option bytes) :=
  let '(pos, prefix) := split_colon key in
  if 8 <? blen pos then Ret (s, None)
  else if hs_height s <=? blen pos then
    b ← safe_memcpy 20 (take (Z.to_nat (hs_height s)) key);
    let index := s32 (fst (strtol 16 b)) in
    bc ← bitcask_at s index;
    '(bc, r) ← bc_list bc (drop (Z.to_nat (hs_height s)) pos) prefix;
    Ret (set_bitcask s index bc, r)
  else
    '(s, b) ← list_buckets 16 s pos 0 []; Ret (s, Some b).

(** ** Reading and writing *)
(** The metadata line of [?key] and [??key]. *)
Definition meta_line (full : bool) (r : DataRecord) (ret_pos : Z) : bytes :=
  let hash := if 0 <? r_version r then u16 (gen_hash (r_value r)) else 0 in
  let sp := [32] in
  print_d (r_version r) ++ sp ++ print_u hash ++ sp ++ print_u (u32 (r_flag r)) ++ sp ++
  print_u (blen (r_value r)) ++ sp ++ print_u (u32 (r_tstamp r)) ++
  (if full then sp ++ print_u (Z.land ret_pos 0xff) ++ sp ++ print_u (Z.land ret_pos 0xffffff00) else []).

(** [hs_get(store, key, &vlen, &flag)]: the value and the flag. *)
Definition hs_get s (key : bytes) : outcome (HStore C * option (bytes * Z)) :=
  match key with
  | 64 :: dir =>
      '(s, r) ← hs_list s dir; Ret (s, match r with Some b => Some (cstr b, 0) | None => None end)
  | _ =>
      let info := match key with 63 :: 63 :: _ => 2%nat | 63 :: _ => 1%nat | _ => 0%nat end in
      let key := drop info key in
      let index := get_index s key in
      bc ← bitcask_at s index;
      '(bc, r, ret_pos) ← bc_get env bc key true;
      let s := set_bitcask s index bc in
      match r with
      | None => Ret (s, None)
      | Some r =>
          match info with
          | O => Ret (s, if 0 <? r_version r then Some (r_value r, u32 (r_flag r)) else None)
          | _ =>
              b ← print_path META_BUF_SIZE (meta_line (info =? 2)%nat r (default 0 ret_pos));
              Ret (s, Some (b, 0))
          end
      end
  end.

Definition hs_set s (key value : bytes) (flag ver now : Z) : outcome (HStore C * bool) :=
  if match key with 64 :: _ => true | _ => false end then Ret (s, false)
  else if 0 <? hs_before s then Ret (s, false)
  else
    let index := get_index s key in
    bc ← bitcask_at s index;
    '(bc, ok) ← bc_set env bc key value (s32 flag) ver now;
    Ret (set_bitcask s index bc, ok).

Definition hs_append s (key value : bytes) (now : Z) : outcome (HStore C * bool) :=
  if match key with 64 :: _ => true | _ => false end then Ret (s, false)
  else if 0 <? hs_before s then Ret (s, false)
  else
    '(s, r) ← hs_get s key;
    match r with
    | Some (body, flag) =>
        if negb (flag =? APPEND_FLAG) then Ret (s, false)
        else hs_set s key (body ++ value) flag 0 now
    | None => hs_set s key value APPEND_FLAG 0 now
    end.

(** [hs_incr]; [einval] says whether an earlier call left [errno == EINVAL]. *)
Definition hs_incr s (key : bytes) (value : Z) (einval : bool) (now : Z) : outcome (HStore C * Z) :=
  if match key with 64 :: _ => true | _ => false end then Ret (s, 0)
  else if 0 <? hs_before s then Ret (s, 0)
  else
    '(s, r) ← hs_get s key;
    let old := match r with
               | Some (body, flag) =>
                   if negb (flag =? INCR_FLAG) || (22 <? blen body) then None
                   else
                     let v := fst (strtol 10 (cstr body)) in
                     if (v =? 0) && einval then None else Some v
               | None => Some 0
               end in
    match old with
    | None => Ret (s, 0)
    | Some old =>
        let sum := s64 (old + value) in
        let result := if sum <? 0 then 0 else sum in
        buf ← print_path 25 (print_d result);
        '(s, ok) ← hs_set s key buf INCR_FLAG 0 now;
        Ret (s, if (ok : bool) then result else 0)
    end.

Definition hs_delete s (key : bytes) (now : Z) : outcome (HStore C * bool) :=
  if 0 <? hs_before s then Ret (s, false)
  else
    let index := get_index s key in
    bc ← bitcask_at s index;
    '(bc, ok) ← bc_delete env bc key now;
    Ret (set_bitcask s index bc, ok).

(** ** Garbage collection *)
(** The loop of [do_optimize]: collect the bitcasks from [op_start] up to
    [op_end], until one fails. *)
Fixpoint optimize_loop (k : nat) s (now : Z) : outcome (HStore C) :=
  match k with
  | O => Fault
  | S k' =>
      if (hs_op_start s <? hs_op_end s) && (hs_op_laststat s =? 0) then
        bc ← bitcask_at s (hs_op_start s);
        '(bc, ok) ← bc_optimize env bc (hs_op_limit s) now;
        let s := set_bitcask s (hs_op_start s) bc in
        optimize_loop k' (set_op s (hs_op_start s + 1) (hs_op_end s) (if (ok : bool) then 0 else -1) (hs_op_limit s)) now
      else Ret (set_op s 0 0 (hs_op_laststat s) (hs_op_limit s))
  end.
Definition do_optimize s (now : Z) : outcome (HStore C) :=
  optimize_loop (S (Z.to_nat (hs_op_end s - hs_op_start s)))
    (set_op s (hs_op_start s) (hs_op_end s) 0 (hs_op_limit s)) now.

(** [hs_optimize]: the return value; the collection itself runs in a thread. *)
Definition hs_optimize s (limit : Z) (tree : bytes) : HStore C * Z :=
  if 0 <? hs_before s then (s, -1)
  else if hs_op_start s <? hs_op_end s then (s, -2)
  else match tree2range tree (hs_height s) with
       | None => (s, -3)
       | Some (start, end_) => (set_op s start end_ (hs_op_laststat s) (s32 limit), 0)
       end.

Definition hs_optimize_stat s : Z :=
  if hs_op_start s <? hs_op_end s then hs_op_start s else hs_op_laststat s - 1.

(** ** Counting *)
Fixpoint count_all (l : list (Bitcask C)) (total curr : Z) : outcome (list (Bitcask C) * Z * Z) :=
  match l with
  | [] => Ret ([], total, curr)
  | bc :: r =>
      '(bc, n, c) ← bc_count bc;
      '(r, total, curr) ← count_all r (u64 (total + n)) (u64 (curr + c));
      Ret (bc :: r, total, curr)
  end.
Definition hs_count s : outcome (HStore C * Z * Z) :=
  '(bcs, total, curr) ← count_all (hs_bitcasks s) 0 0;
  Ret ({| hs_height := hs_height s; hs_before := hs_before s; hs_op_start := hs_op_start s;
          hs_op_end := hs_op_end s; hs_op_laststat := hs_op_laststat s; hs_op_limit := hs_op_limit s;
          hs_bitcasks := bcs |}, total, curr).
Definition hs_stat s : Z := fold_left (fun a bc => u64 (a + bc_stat bc)) (hs_bitcasks s) 0.
End HStore.
