(* ===== verification/Parallel.v ===== *)
(** * The threads that scan and close the bitcasks (hstore.c)

    [parallelize] starts [scan_threads] threads; thread [index] runs a function on
    the bitcasks whose number is [index] modulo [scan_threads].  Each run of the
    function is one event; the events of the threads interleave in any order, and
    [parallelize] returns when every thread has counted itself in. *)
From Stdlib Require Import ZArith Lia List.
From stdpp Require Import base numbers list.
From S2P Require Import Prelude Codec Disk Bitcask BitcaskLife BitcaskHistory HStore.

(** ** One thread *)
(** The bitcasks that [scan_thread] visits, in its order. *)
Definition scan_thread (count scan_threads index : nat) : list nat :=
  List.filter (fun i => Nat.modulo i scan_threads =? index)%nat (seq 0 count).

(** ** All threads *)
(** [interleave ls t]: [t] is an execution of the threads [ls], each in its order. *)
Inductive interleave {A} : list (list A) -> list A -> Prop :=
| ILDone ls : Forall (fun l => l = []) ls -> interleave ls []
| ILStep ls i x l t : ls !! i = Some (x :: l) -> interleave (<[i := l]> ls) t -> interleave ls (x :: t).

Definition threads (count scan_threads : nat) : list (list nat) :=
  List.map (scan_thread count scan_threads) (seq 0 scan_threads).

Section Parallel.
Context {C : Type} (f : Bitcask C -> outcome (Bitcask C)).

(** [args->func(store->bitcasks[i])] *)
Definition run_one (i : nat) (bcs : list (Bitcask C)) : outcome (list (Bitcask C)) :=
  match bcs !! i with
  | Some bc => bc' ← f bc; Ret (<[i := bc']> bcs)
  | None => Fault
  end.
Fixpoint run_all (t : list nat) (bcs : list (Bitcask C)) : outcome (list (Bitcask C)) :=
  match t with [] => Ret bcs | i :: t' => bcs' ← run_one i bcs; run_all t' bcs' end.

(** [parallelize(store, func)] with the events in the order [t]. *)
Definition parallelize (scan_threads : nat) (bcs : list (Bitcask C)) (t : list nat) (r : outcome (list (Bitcask C))) : Prop :=
  interleave (threads (length bcs) scan_threads) t /\ r = run_all t bcs.

(** ** What the order of the events changes: nothing *)
(** The bitcasks named by [t] went through [f], the others are as they were. *)
Definition ran (t : list nat) (bcs r : list (Bitcask C)) : Prop :=
  length r = length bcs /\
  forall i bc, bcs !! i = Some bc -> exists bc', r !! i = Some bc' /\ if decide (i ∈ t) then f bc = Ret bc' else bc' = bc.

Lemma run_all_ran t bcs r : NoDup t -> Forall (fun i => i < length bcs)%nat t -> run_all t bcs = Ret r <-> ran t bcs r.
Proof.
  intros Hn. revert bcs. induction Hn as [|i t Hi Hn IH]; intros bcs Hl; cbn [run_all].
  - split.
    + intros [= <-]. split; [done|]. intros i bc Hbc. exists bc. case_decide as E; [by apply not_elem_of_nil in E|done].
    + intros [He Ha]. f_equal. apply list_eq_same_length with (length bcs); [done|done|]. intros i x y _ Hx Hy. destruct (Ha i x Hx) as (y' & Hy' & Hd). case_decide as E; [by apply not_elem_of_nil in E|congruence].
  - inversion_clear Hl as [|? ? Hlt Hl']. destruct (lookup_lt_is_Some_2 _ _ Hlt) as [bc Hbc]. unfold run_one. rewrite Hbc. destruct (f bc) as [bc'|?|] eqn:Hf; cbn [mbind outcome_bind].
    2-3: split; [done|]; intros [_ Ha]; destruct (Ha i bc Hbc) as (b' & _ & Hd); rewrite decide_True in Hd by apply list_elem_of_here; congruence.
    rewrite IH by (by rewrite length_insert). unfold ran. rewrite length_insert. split; intros [He Ha]; (split; [done|]); intros j b Hb.
    + destruct (decide (j = i)) as [->|Hne].
      * destruct (Ha i bc') as (b' & Hb' & Hd); [by apply list_lookup_insert_eq|]. exists b'. split; [done|]. rewrite decide_False in Hd by done. rewrite decide_True by apply list_elem_of_here. congruence.
      * destruct (Ha j b) as (b' & Hb' & Hd); [by rewrite list_lookup_insert_ne|]. exists b'. split; [done|]. destruct (decide (j ∈ t)); [rewrite decide_True by (by apply list_elem_of_further)|rewrite decide_False by (by rewrite elem_of_cons; intros [|])]; done.
    + destruct (decide (j = i)) as [->|Hne].
      * rewrite list_lookup_insert_eq in Hb by done. simplify_eq. destruct (Ha i bc Hbc) as (b' & Hb' & Hd). rewrite decide_True in Hd by apply list_elem_of_here. exists b'. split; [done|]. rewrite decide_False by done. congruence.
      * rewrite list_lookup_insert_ne in Hb by done. destruct (Ha j b Hb) as (b' & Hb' & Hd). exists b'. split; [done|]. destruct (decide (j ∈ t)); [rewrite decide_True in Hd by (by apply list_elem_of_further)|rewrite decide_False in Hd by (by rewrite elem_of_cons; intros [|])]; done.
Qed.

Lemma each_ran bcs r : each_bitcask f bcs = Ret r <-> Forall2 (fun bc bc' => f bc = Ret bc') bcs r.
Proof.
  revert r. induction bcs as [|bc bcs IH]; intros r; cbn [each_bitcask].
  - split; [by intros [= <-]|by inversion 1].
  - destruct (f bc) as [bc'|?|] eqn:Hf; cbn [mbind outcome_bind]; [|split; [done|inversion 1; congruence]..].
    destruct (each_bitcask f bcs) as [r'|?|] eqn:He; cbn [mbind outcome_bind]; (split; [|inversion 1; subst; simplify_eq]); try done; try (by apply IH in H4).
    + intros [= <-]. constructor; [done|by apply IH].
    + apply IH in H4. congruence.
Qed.

Lemma ran_each t bcs r : t ≡ₚ seq 0 (length bcs) -> ran t bcs r <-> Forall2 (fun bc bc' => f bc = Ret bc') bcs r.
Proof.
  intros Hp. assert (Hin : forall i bc, bcs !! i = Some bc -> i ∈ t) by (intros i bc Hi; rewrite Hp; apply elem_of_seq; apply lookup_lt_Some in Hi; lia).
  rewrite Forall2_same_length_lookup. unfold ran. split; intros [He Ha]; (split; [done|]).
  - intros i bc bc' Hbc Hbc'. destruct (Ha i bc Hbc) as (b & Hb & Hd). rewrite decide_True in Hd by eauto. congruence.
  - intros i bc Hbc. destruct (lookup_lt_is_Some_2 r i) as [bc' Hbc']; [rewrite <- He; by eapply lookup_lt_Some|]. exists bc'. split; [done|]. rewrite decide_True by eauto. eauto.
Qed.
End Parallel.

(** ** The threads share the bitcasks out *)
Lemma interleave_perm {A} (ls : list (list A)) t : interleave ls t -> t ≡ₚ concat ls.
Proof.
  induction 1 as [ls H|ls i x l t Hi _ IH].
  - induction H as [|l ls -> _ IH]; [done|]. by cbn.
  - rewrite IH. clear IH t. revert i Hi. induction ls as [|k ls IH]; intros [|i] Hi; [done|done| |].
    + injection Hi as ->. done.
    + cbn. rewrite <- IH by done. by rewrite Permutation_middle.
Qed.

Lemma threads_perm count n : (0 < n)%nat -> concat (threads count n) ≡ₚ seq 0 count.
Proof.
  intros Hn. unfold threads, scan_thread. generalize (seq 0 count) as l. intros l.
  assert (H : forall m, (m <= n)%nat -> concat (List.map (fun index => List.filter (fun i => Nat.modulo i n =? index)%nat l) (seq 0 m)) ≡ₚ List.filter (fun i => Nat.modulo i n <? m)%nat l).
  { induction m as [|m IH]; intros Hm; [cbn; induction l as [|x l IHl]; [done|]; cbn; apply IHl; lia|]. rewrite seq_S, List.map_app, concat_app, IH by lia. cbn [List.map concat]. rewrite app_nil_r. clear. cbn [Nat.add].
    induction l as [|x l IH]; [done|]. cbn [List.filter]. destruct (Nat.ltb_spec (x `mod` n) m), (Nat.ltb_spec (x `mod` n) (S m)), (Nat.eqb_spec (x `mod` n) m); try lia; rewrite <- IH; cbn [app]; [done|by rewrite Permutation_middle|done]. }
  rewrite H by done. clear H. induction l as [|x l IH]; [done|]. cbn [List.filter]. destruct (Nat.ltb_spec (x `mod` n) n) as [|E]; [by rewrite IH|]. pose proof (Nat.mod_upper_bound x n). lia.
Qed.

(** C14. Whatever the order in which the threads of [parallelize] run, every bitcask
    goes through the function exactly once: with at least one thread, the array after
    [parallelize] is the array after the sequential loop, and one ends without an
    error when the other does. *)
Theorem parallelize_sequential {C} (f : Bitcask C -> outcome (Bitcask C)) scan_threads bcs t res :
  (0 < scan_threads)%nat -> parallelize f scan_threads bcs t res ->
  forall r, res = Ret r <-> each_bitcask f bcs = Ret r.
Proof.
  intros Hn [Hi ->] r. apply interleave_perm in Hi. rewrite threads_perm in Hi by done.
  rewrite run_all_ran, each_ran; [by apply ran_each| |].
  - rewrite Hi. apply NoDup_seq.
  - rewrite Hi. apply Forall_forall. intros i Hx%elem_of_seq. lia.
Qed.

(** Two threads scan three bitcasks, the second thread first. *)
Definition demo_bitcasks : list (Bitcask Codec) := List.map (fun i => fresh_bitcask demo_mgr 1 i 99) [0; 1; 2].
Definition demo_scan (bc : Bitcask Codec) : outcome (Bitcask Codec) := bc_scan (demo_env DEFAULT_MAX) bc 99.
Lemma parallelize_sequential_witness :
  is_ret (each_bitcask demo_scan demo_bitcasks) = true /\
  forall r, run_all demo_scan [1; 0; 2]%nat demo_bitcasks = Ret r <-> each_bitcask demo_scan demo_bitcasks = Ret r.
Proof.
  split; [vm_compute; reflexivity|].
  apply (parallelize_sequential demo_scan 2 demo_bitcasks [1; 0; 2]%nat); [lia|]. split; [|reflexivity].
  apply (ILStep _ 1%nat 1%nat []); [reflexivity|]. apply (ILStep _ 0%nat 0%nat [2%nat]); [reflexivity|].
  apply (ILStep _ 0%nat 2%nat []); [reflexivity|]. apply ILDone. by repeat constructor.
Defined.
