(* ===== verification/HStoreFacts.v ===== *)
(** * A store is a versioned map

    The bitcasks of a store partition the keys by their hash; each holds its part
    of one map.  The operations of hstore.c act on that map: set, append, incr,
    delete and get go to the one bitcask that owns the key. *)
From Stdlib Require Import ZArith Lia List.
From stdpp Require Import base numbers list gmap strings fin_maps.
From S2P Require Import Prelude Hash CText Codec CodecFacts HTree HTreeMap HTreeSpec QuickLZ Disk DiskFacts Hint HintFacts Record RecordFacts Scan Buckets BucketsFacts Bitcask BitcaskInv BitcaskLog BitcaskSteps BitcaskSpec BitcaskLife BitcaskHistory HStore Reopen.

Import Fnv FnvFacts.

(** ** Partition of the keys *)
Definition index_of (h : Z) (key : bytes) : Z := if h =? 0 then 0 else Z.shiftr (fnv1a key) ((8 - h) * 4).
Definition part (h i : Z) (M : store) : store := filter (fun kv => index_of h kv.1 = i) M.

Lemma index_range h key : 0 <= h <= 3 -> 0 <= index_of h key < 16 ^ h.
Proof.
  intros Hh. unfold index_of. destruct (Z.eqb_spec h 0) as [->|]; [done|]. pose proof (fnv1a_range key). rewrite Z.shiftr_div_pow2 by lia.
  split; [apply Z.div_pos; lia|]. apply Z.div_lt_upper_bound; [lia|]. change 16 with (2 ^ 4). rewrite <- Z.pow_mul_r, <- Z.pow_add_r by lia.
  replace ((8 - h) * 4 + 4 * h) with 32 by lia. lia.
Qed.

Lemma part_lookup h i M key : index_of h key = i -> part h i M !! key = M !! key.
Proof.
  intros Hi. unfold part. destruct (M !! key) as [v|] eqn:E.
  - by apply map_lookup_filter_Some.
  - apply map_lookup_filter_None. by left.
Qed.
Lemma part_insert h i M key v : index_of h key = i -> part h i (<[key := v]> M) = <[key := v]> (part h i M).
Proof. intros Hi. unfold part. by rewrite map_filter_insert_True. Qed.
Lemma part_insert_ne h i M key v : index_of h key <> i -> part h i (<[key := v]> M) = part h i M.
Proof.
  intros Hi. apply map_eq. intros k. apply option_eq. intros x. unfold part. rewrite !map_lookup_filter_Some. cbn [fst].
  destruct (decide (key = k)) as [<-|]; [naive_solver|]. by rewrite lookup_insert_ne.
Qed.

Lemma spec_set_part h i M key value flag version :
  index_of h key = i ->
  spec_set (part h i M) key value flag version = (part h i (spec_set M key value flag version).1, (spec_set M key value flag version).2) /\
  forall j, j <> i -> part h j (spec_set M key value flag version).1 = part h j M.
Proof.
  intros Hi. unfold spec_set. rewrite part_lookup by done. destruct (_ || negb _); [done|]. destruct (new_version version _) as [ver|]; [|done].
  destruct (_ && (version =? 0)); [done|]. cbn [fst snd]. rewrite part_insert by done. split; [done|]. intros j Hj. apply part_insert_ne. congruence.
Qed.

Lemma spec_get_part h i M key del : index_of h key = i -> spec_get (part h i M) key del = spec_get M key del.
Proof. intros Hi. unfold spec_get. by rewrite part_lookup. Qed.

(** ** The operations on the map *)
Definition starts (c : Z) (key : bytes) : bool := match key with x :: _ => x =? c | [] => false end.

Lemma starts_at (key : bytes) : (match key with 64 :: _ => true | _ => false end) = starts 64 key.
Proof.
  destruct key as [|c r]; [reflexivity|]. cbn [starts]. destruct c as [|p|p]; [reflexivity| |reflexivity].
  do 7 (destruct p as [p|p|]; try reflexivity).
Qed.

Definition spec_hget (M : store) (key : bytes) : option (bytes * Z) :=
  match spec_get M key true with
  | Some (v, f, x) => if 0 <? v then Some (x, u32 f) else None
  | None => None
  end.
Definition spec_hset (M : store) (key value : bytes) (flag version : Z) : store * bool :=
  if starts 64 key then (M, false) else spec_set M key value (s32 flag) version.
Definition spec_append (M : store) (key value : bytes) : store * bool :=
  match spec_hget M key with
  | Some (body, flag) => if flag =? APPEND_FLAG then spec_hset M key (body ++ value) APPEND_FLAG 0 else (M, false)
  | None => spec_hset M key value APPEND_FLAG 0
  end.
(** The number that [hs_incr] adds to: [None] if it refuses, since the value is not a
    counter, or since it is the counter 0 and [errno] is [EINVAL] from before. *)
Definition counter_value (M : store) (key : bytes) (einval : bool) : option Z :=
  match spec_hget M key with
  | Some (body, flag) =>
      if (flag =? INCR_FLAG) && (blen body <=? 22) then
        let v := fst (strtol 10 (cstr body)) in if (v =? 0) && einval then None else Some v
      else None
  | None => Some 0
  end.
Definition spec_incr (M : store) (key : bytes) (delta : Z) (einval : bool) : store * Z :=
  match counter_value M key einval with
  | Some old =>
      let new := Z.max 0 (s64 (old + delta)) in
      let r := spec_hset M key (print_d new) INCR_FLAG 0 in (r.1, if r.2 then new else 0)
  | None => (M, 0)
  end.

(** Printed numbers. *)
Lemma print_d_chars x : 0 <= x -> Forall (fun c => 48 <= c <= 57) (print_d x).
Proof.
  intros Hx. unfold print_d. destruct (Z.ltb_spec x 0); [lia|]. unfold print_u. apply Forall_map.
  eapply Forall_impl; [exact (digits_ok_digits 10 x ltac:(lia) ltac:(lia))|]. intros c Hc. cbv beta in Hc. unfold digit_char. destruct (Z.ltb_spec c 10); lia.
Qed.
Lemma print_d_bytes x : 0 <= x -> bytes_ok (print_d x).
Proof. intros Hx. eapply Forall_impl; [by apply print_d_chars|]. unfold byte_ok. intros. simpl in *. lia. Qed.
Lemma s64_range x : - 2 ^ 63 <= s64 x < 2 ^ 63.
Proof.
  unfold s64, swrap. change (2 ^ (64 - 1)) with 9223372036854775808. change (2 ^ 63) with 9223372036854775808. change (2 ^ 64) with 18446744073709551616.
  pose proof (Z.mod_pos_bound x 18446744073709551616 ltac:(lia)). cbv zeta. destruct (Z.ltb_spec (x mod 18446744073709551616) 9223372036854775808); lia.
Qed.
Lemma s64_id x : - 2 ^ 63 <= x < 2 ^ 63 -> s64 x = x.
Proof.
  intros H. unfold s64, swrap. change (2 ^ (64 - 1)) with 9223372036854775808. change (2 ^ 63) with 9223372036854775808 in H. change (2 ^ 64) with 18446744073709551616.
  cbv zeta. destruct (Z.ltb_spec (x mod 18446744073709551616) 9223372036854775808); Z.div_mod_to_equations; lia.
Qed.
Lemma print_d_short x : 0 <= x < 2 ^ 63 -> blen (print_d x) <= 19.
Proof.
  intros Hx. pose proof (print_d_length x 18) as H. change (10 ^ Z.of_nat 19) with 10000000000000000000 in H. change (2 ^ 63) with 9223372036854775808 in Hx.
  unfold blen. lia.
Qed.

Section Store.
Context {C : Type} {KC : KeyCodec C} {KL : KeyCodecLaws C}.
Context (env : Env).
Context (Hfresh : forall n, length (e_fresh env n) = Z.to_nat n /\ bytes_ok (e_fresh env n)).
Context (Hmax : 0 <= e_max_bucket_size env <= 2 ^ 32 - 2 ^ 27).
(** The directories of the bitcasks. *)
Context (dir : Z -> bytes) (Hdir : forall i, blen (dir i) <= 230).
Implicit Types (bc : Bitcask C) (M : store) (s : HStore C).

Let Hmax' : 0 <= e_max_bucket_size env <= 2 ^ 32 - 2 ^ 26.
Proof. lia. Qed.

(** The invariant of a bitcask, whatever snapshot its session started from. *)
Definition upright (d : bytes) (n h i : Z) bc M : Prop :=
  exists (SN : Snaps) t0, BitcaskSteps.inv env d n bc M /\ snapshot_of (C := C) h i t0.
Definition good (h n : Z) (M : store) (i : Z) bc : Prop :=
  upright (dir i) n h i bc (part h i M) /\ bc_fb bc = None /\ bc_depth bc = h /\ bc_pos bc = i /\ bc_curr bc <= 255.

Record hinv (n : Z) s M : Prop := {
  hi_height : 0 <= hs_height s <= 3;
  hi_before : hs_before s = 0;
  hi_length : Z.of_nat (length (hs_bitcasks s)) = 16 ^ hs_height s;
  hi_each : forall i bc, hs_bitcasks s !! i = Some bc -> good (hs_height s) n M (Z.of_nat i) bc;
  hi_vers : vers_ok (2 ^ 30 + n) M;
  hi_bytes : map_Forall (fun _ v => bytes_ok v.2) M
}.

(** The bitcask of a key. *)
Lemma at_key n s M key :
  hinv n s M -> exists bc, bitcask_at s (get_index s key) = Ret bc /\ hs_bitcasks s !! Z.to_nat (get_index s key) = Some bc /\
    0 <= get_index s key /\ good (hs_height s) n M (get_index s key) bc /\ check_bucket (bc_tree bc) key = true.
Proof.
  intros []. pose proof (index_range (hs_height s) key hi_height0) as Hr. change (get_index s key) with (index_of (hs_height s) key).
  destruct (lookup_lt_is_Some_2 (hs_bitcasks s) (Z.to_nat (index_of (hs_height s) key)) ltac:(lia)) as [bc E].
  pose proof (hi_each0 _ _ E) as Hg. rewrite Z2Nat.id in Hg by lia. exists bc. unfold bitcask_at, fetch. destruct (Z.ltb_spec (index_of (hs_height s) key) 0); [lia|].
  rewrite E. do 4 (split; [done || lia|]). destruct Hg as ((SN & t0 & Hi & _) & _ & Hdp & Hps & _). destruct (io_cfg _ _ _ _ _ (co_idx _ _ _ _ _ (proj1 Hi))) as [T1 T2].
  unfold check_bucket. rewrite T1, T2, Hdp, Hps. destruct (Z.ltb_spec 0 (hs_height s)); [|done]. cbn [andb].
  assert (16 ^ hs_height s <= 16 ^ 3) by (apply Z.pow_le_mono_r; lia). rewrite u32_id by lia.
  unfold index_of, keyhash. rewrite (proj2 (Z.eqb_neq (hs_height s) 0)) by lia. by rewrite Z.eqb_refl.
Qed.

Lemma upright_mono n h i bc d M : upright d n h i bc M -> upright d (n + 1) h i bc M.
Proof. intros (SN & t0 & H & Ht). exists SN, t0. split; [|done]. eapply inv_le; [|exact H]. lia. Qed.

(** A bitcask after an operation on its part. *)
Lemma hinv_update n s M M' i bc' :
  hinv n s M -> 0 <= i -> good (hs_height s) (n + 1) M' i bc' -> (forall j, j <> i -> part (hs_height s) j M' = part (hs_height s) j M) ->
  vers_ok (2 ^ 30 + (n + 1)) M' -> map_Forall (fun _ v => bytes_ok v.2) M' ->
  hinv (n + 1) (set_bitcask s i bc') M'.
Proof.
  intros [] Hi Hg Hp Hv Hb. constructor; cbn [set_bitcask hs_height hs_before hs_bitcasks]; auto.
  - by rewrite length_insert.
  - intros j bc. destruct (decide (j = Z.to_nat i)) as [->|Hne].
    + intros E. rewrite Z2Nat.id by lia. assert (bc = bc') as -> by (apply list_lookup_insert_Some in E; naive_solver). done.
    + rewrite list_lookup_insert_ne by done. intros E. destruct (hi_each0 _ _ E) as (H1 & H2). split; [|done]. rewrite Hp by lia. by apply upright_mono.
Qed.

(** ** Reading and writing *)
Lemma hs_get_plain s key :
  starts 64 key = false -> starts 63 key = false ->
  hs_get env s key =
  (bc ← bitcask_at s (get_index s key);
   '(bc, r, ret_pos) ← bc_get env bc key true;
   let s := set_bitcask s (get_index s key) bc in
   match r with
   | None => Ret (s, None)
   | Some r => Ret (s, if 0 <? r_version r then Some (r_value r, u32 (r_flag r)) else None)
   end).
Proof.
  intros H1 H2. destruct key as [|c r]; [reflexivity|]. cbn [starts] in *. unfold hs_get.
  destruct c as [|p|p]; [reflexivity| |reflexivity]. do 7 (destruct p as [p|p|]; try discriminate; try reflexivity).
Qed.

Lemma hget_spec n s M key :
  hinv n s M -> bytes_ok key -> starts 64 key = false -> starts 63 key = false ->
  exists s', hs_get env s key = Ret (s', spec_hget M key) /\ hinv n s' M /\ hs_height s' = hs_height s.
Proof.
  intros Hh Hk H1 H2. rewrite hs_get_plain by done. destruct (at_key n s M key Hh) as (bc & -> & El & Hi & ((SN & t0 & Hinv & Hsn) & Hfb & Hdp & Hps & Hcu) & Hbk). cbn [mbind outcome_bind].
  destruct (get_spec env (dir (get_index s key)) (Hdir _) Hmax' n bc (part (hs_height s) (get_index s key) M) key true Hinv Hk)
    as (bc' & r & p & -> & Hi1 & (S1 & S2 & S3 & S4 & S5 & S6 & S7 & S8 & S9) & Hr). cbn [mbind outcome_bind].
  rewrite spec_get_part in Hr by done. exists (set_bitcask s (get_index s key) bc'). split.
  - unfold spec_hget. rewrite <- Hr. by destruct r as [r|].
  - split; [|done]. pose proof Hh as []. constructor; cbn [set_bitcask hs_height hs_before hs_bitcasks]; auto; [by rewrite length_insert|].
    intros j b. destruct (decide (j = Z.to_nat (get_index s key))) as [->|Hne].
    + intros E. rewrite Z2Nat.id by lia. assert (b = bc') as -> by (apply list_lookup_insert_Some in E; naive_solver).
      split; [by exists SN, t0|]. by rewrite S4, S6, S7, S8.
    + rewrite list_lookup_insert_ne by done. apply hi_each0.
Qed.

(** Some bitcask has used up its bucket numbers. *)
Definition exhausted s : Prop := Exists (fun bc => 256 <= bc_curr bc) (hs_bitcasks s).

Definition hrequest_ok (key value : bytes) : Prop := bytes_ok key /\ bytes_ok value /\ blen key <= 232.

Lemma exhausted_update s i bc' bc : hs_bitcasks s !! Z.to_nat i = Some bc -> 256 <= bc_curr bc' -> exhausted (set_bitcask s i bc').
Proof.
  intros E H. apply Exists_exists. exists bc'. split; [|done]. cbn [set_bitcask hs_bitcasks]. apply list_elem_of_lookup. exists (Z.to_nat i).
  apply list_lookup_insert_eq. by eapply lookup_lt_Some.
Qed.

Lemma spec_set_bytes M key value flag version :
  bytes_ok value -> map_Forall (fun _ v => bytes_ok v.2) M -> map_Forall (fun _ v => bytes_ok v.2) (spec_set M key value flag version).1.
Proof.
  intros Hv HM. unfold spec_set. destruct (_ || negb _); [done|]. destruct (new_version version _) as [ver|]; [|done]. destruct (_ && _); [done|].
  by apply map_Forall_insert_2.
Qed.

(** A write to the bitcask of the key. *)
Lemma write_spec n s M key value flag version now :
  hinv n s M -> 0 <= n < MAX_OPS -> request_ok key value flag version ->
  exists bc bc', bitcask_at s (get_index s key) = Ret bc /\
    bc_set env bc key value flag version now = Ret (bc', (spec_set M key value flag version).2) /\
    (exhausted (set_bitcask s (get_index s key) bc') \/ hinv (n + 1) (set_bitcask s (get_index s key) bc') (spec_set M key value flag version).1).
Proof.
  intros Hh Hn Hr. destruct (at_key n s M key Hh) as (bc & E & El & Hi & ((SN & t0 & Hinv & Hsn) & Hfb & Hdp & Hps & Hcu) & Hbk). pose proof Hh as []. pose proof Hr as [].
  destruct (spec_set_part (hs_height s) (get_index s key) M key value flag version eq_refl) as [Es Ep].
  destruct (set_spec env (dir (get_index s key)) Hfresh (Hdir _) Hmax' n (2 ^ 30 + n) bc (part (hs_height s) (get_index s key) M) key value flag version now)
    as (bc' & Eset & C2 & D2 & P2 & F2 & Hv2 & Hi2); auto.
  - unfold MAX_OPS in *. lia.
  - unfold MAX_OPS in *. change (2 ^ 30) with 1073741824. change (2 ^ 31) with 2147483648. lia.
  - intros k v Hk. apply map_lookup_filter_Some in Hk as [Hk _]. by apply (hi_vers0 k).
  - by left.
  - apply any_value_fits; [lia|]. unfold MAX_KEY_LEN. lia.
  - exists bc, bc'. rewrite Es in Eset, Hi2, Hv2. split; [done|]. split; [done|]. destruct (Z.le_gt_cases (bc_curr bc') 255) as [H255|H255].
    + right. apply (hinv_update n s M); auto.
      * split; [exists SN, t0; split; [by apply Hi2|done]|]. split; [auto|]. split; [congruence|]. split; [congruence|done].
      * intros k v Hk. destruct (decide (index_of (hs_height s) k = get_index s key)) as [Ek|Ek].
        { replace (2 ^ 30 + (n + 1)) with (2 ^ 30 + n + 1) by lia. apply (Hv2 k). cbn [fst]. by rewrite part_lookup. }
        { assert (Hk' : part (hs_height s) (index_of (hs_height s) k) M !! k = Some v) by (rewrite <- Ep, part_lookup; done).
          rewrite part_lookup in Hk' by done. destruct (hi_vers0 k v Hk'). lia. }
      * by apply spec_set_bytes.
    + left. eapply exhausted_update; [exact El|lia].
Qed.

Definition after (n : Z) s M : Prop := exhausted s \/ hinv (n + 1) s M.

Lemma hinv_next n s M : hinv n s M -> hinv (n + 1) s M.
Proof.
  intros []. constructor; auto.
  - intros i bc E. destruct (hi_each0 i bc E) as [H1 H2]. split; [by apply upright_mono|done].
  - intros k v Hk. destruct (hi_vers0 k v Hk). lia.
Qed.

Lemma hset_spec n s M key value flag version now :
  hinv n s M -> 0 <= n < MAX_OPS -> hrequest_ok key value -> Z.land (s32 flag) COMPRESS_FLAG = 0 -> Z.abs version <= 2 ^ 30 ->
  exists s', hs_set env s key value flag version now = Ret (s', (spec_hset M key value flag version).2) /\ after n s' (spec_hset M key value flag version).1.
Proof.
  intros Hh Hn (H1 & H2 & H3) Hf Hv. unfold hs_set, spec_hset, after. rewrite starts_at, (hi_before _ _ _ Hh).
  destruct (starts 64 key); [exists s; split; [done|]; right; by apply hinv_next|]. cbn [Z.ltb Z.compare].
  destruct (write_spec n s M key value (s32 flag) version now Hh Hn) as (bc & bc' & -> & E & Ha); [constructor; auto; apply s32_range|].
  cbn [mbind outcome_bind]. rewrite E. cbn [mbind outcome_bind]. eexists. split; [done|]. done.
Qed.

Lemma hdelete_spec n s M key now :
  hinv n s M -> 0 <= n < MAX_OPS -> hrequest_ok key [] ->
  exists s', hs_delete env s key now = Ret (s', (spec_set M key [] 0 (-1)).2) /\ after n s' (spec_set M key [] 0 (-1)).1.
Proof.
  intros Hh Hn (H1 & H2 & H3). unfold hs_delete, bc_delete, after. rewrite (hi_before _ _ _ Hh). cbn [Z.ltb Z.compare].
  destruct (write_spec n s M key [] 0 (-1) now Hh Hn) as (bc & bc' & -> & E & Ha); [by constructor|].
  cbn [mbind outcome_bind]. rewrite E. cbn [mbind outcome_bind]. eexists. split; [done|]. done.
Qed.

(** What a get returns is a string of bytes. *)
Lemma hget_bytes n s M key body flag : hinv n s M -> spec_hget M key = Some (body, flag) -> bytes_ok body.
Proof.
  intros Hh. unfold spec_hget, spec_get. destruct (check_key key); [|done]. destruct (M !! key) as [[[v f] x]|] eqn:E; [|done]. cbn [negb andb].
  destruct (0 <? v); [|done]. intros [= <- _]. apply (hi_bytes _ _ _ Hh key _ E).
Qed.

Lemma happend_spec n s M key value now :
  hinv n s M -> 0 <= n < MAX_OPS -> hrequest_ok key value -> starts 64 key = false -> starts 63 key = false ->
  exists s', hs_append env s key value now = Ret (s', (spec_append M key value).2) /\ after n s' (spec_append M key value).1.
Proof.
  intros Hh Hn (H1 & H2 & H3) K1 K2. unfold hs_append, spec_append. rewrite starts_at, K1, (hi_before _ _ _ Hh). cbn [Z.ltb Z.compare].
  destruct (hget_spec n s M key Hh H1 K1 K2) as (s1 & -> & Hh1 & _). cbn [mbind outcome_bind].
  destruct (spec_hget M key) as [[body flag]|] eqn:E; [|by apply (hset_spec n s1 M)].
  destruct (Z.eqb_spec flag APPEND_FLAG) as [->|]; cbn [negb].
  - apply (hset_spec n s1 M); [done|done| |done|done]. split; [done|]. split; [|done]. apply Forall_app. split; [by eapply hget_bytes|done].
  - exists s1. split; [done|]. right. by apply hinv_next.
Qed.

Lemma hincr_spec n s M key delta einval now :
  hinv n s M -> 0 <= n < MAX_OPS -> hrequest_ok key [] -> starts 64 key = false -> starts 63 key = false ->
  exists s', hs_incr env s key delta einval now = Ret (s', (spec_incr M key delta einval).2) /\ after n s' (spec_incr M key delta einval).1.
Proof.
  intros Hh Hn (H1 & H2 & H3) K1 K2. unfold hs_incr, spec_incr, counter_value. rewrite starts_at, K1, (hi_before _ _ _ Hh). cbn [Z.ltb Z.compare].
  destruct (hget_spec n s M key Hh H1 K1 K2) as (s1 & -> & Hh1 & _). cbn [mbind outcome_bind].
  assert (Hset : forall old, exists s', (let sum := s64 (old + delta) in let result := if sum <? 0 then 0 else sum in
      buf ← print_path 25 (print_d result); '(s, ok) ← hs_set env s1 key buf INCR_FLAG 0 now; Ret (s, if (ok : bool) then result else 0)) =
      Ret (s', (let new := Z.max 0 (s64 (old + delta)) in let r := spec_hset M key (print_d new) INCR_FLAG 0 in (r.1, if r.2 then new else 0)).2) /\
      after n s' (let new := Z.max 0 (s64 (old + delta)) in let r := spec_hset M key (print_d new) INCR_FLAG 0 in (r.1, if r.2 then new else 0)).1).
  { intros old. cbv zeta. set (sum := s64 (old + delta)). replace (if sum <? 0 then 0 else sum) with (Z.max 0 sum) by (destruct (Z.ltb_spec sum 0); lia).
    pose proof (s64_range (old + delta)) as Hs. fold sum in Hs. pose proof (print_d_short (Z.max 0 sum) ltac:(lia)). rewrite print_path_ok by lia. cbn [mbind outcome_bind].
    destruct (hset_spec n s1 M key (print_d (Z.max 0 sum)) INCR_FLAG 0 now Hh1 Hn) as (s2 & -> & Ha);
      [split; [done|]; split; [apply print_d_bytes; lia|done]|done|done|]. cbn [mbind outcome_bind fst snd]. exists s2. done. }
  destruct (spec_hget M key) as [[body flag]|]; [|apply Hset]. rewrite (Z.ltb_antisym (blen body) 22), <- negb_andb.
  destruct ((flag =? INCR_FLAG) && _); cbn [negb]; [cbv zeta; destruct (_ && einval); [|apply Hset]|]; exists s1; (split; [done|]); right; by apply hinv_next.
Qed.

(** A refused increment only reads. *)
Lemma hincr_refused n s M key delta einval now :
  hinv n s M -> hrequest_ok key [] -> starts 64 key = false -> starts 63 key = false -> counter_value M key einval = None ->
  exists s', hs_incr env s key delta einval now = Ret (s', 0) /\ hinv n s' M.
Proof.
  intros Hh (H1 & _) K1 K2 Hc. unfold hs_incr, counter_value in *. rewrite starts_at, K1, (hi_before _ _ _ Hh). cbn [Z.ltb Z.compare].
  destruct (hget_spec n s M key Hh H1 K1 K2) as (s1 & -> & Hh1 & _). cbn [mbind outcome_bind]. exists s1. split; [|done].
  destruct (spec_hget M key) as [[body flag]|]; [|done]. rewrite (Z.ltb_antisym (blen body) 22), <- negb_andb. destruct ((flag =? INCR_FLAG) && _); cbn [negb]; [|done].
  cbv zeta in *. by destruct (_ && einval).
Qed.

(** ** Flushing *)
Lemma flush_all h n M limit period now l k :
  n <= MAX_OPS -> (forall i bc, l !! i = Some bc -> good h n M (k + Z.of_nat i) bc) ->
  exists l', each_bitcask (fun bc => bc_flush env bc limit period now) l = Ret l' /\ length l' = length l /\
    (Exists (fun bc => 256 <= bc_curr bc) l' \/ forall i bc, l' !! i = Some bc -> good h n M (k + Z.of_nat i) bc).
Proof.
  intros Hn. revert k. induction l as [|bc l IH]; intros k Hl; cbn [each_bitcask].
  { exists []. split; [done|]. split; [done|]. right. done. }
  destruct (Hl 0%nat bc eq_refl) as ((SN & t0 & Hinv & Hsn) & Hfb & Hdp & Hps & Hcu).
  destruct (flush_spec env (dir (k + Z.of_nat 0)) Hfresh (Hdir _) Hmax' n bc _ limit period now Hinv Hn Hfb Hcu) as (b1 & -> & Hi1 & F1 & F2 & _ & D1 & P1 & _).
  cbn [mbind outcome_bind]. destruct (IH (k + 1)) as (l' & -> & Hlen & Hl').
  { intros i b Hi. replace (k + 1 + Z.of_nat i) with (k + Z.of_nat (S i)) by lia. by apply Hl. }
  cbn [mbind outcome_bind]. exists (b1 :: l'). split; [done|]. split; [simpl; congruence|].
  destruct (Z.le_gt_cases (bc_curr b1) 255) as [H255|H255]; [|left; apply Exists_cons_hd; lia]. destruct Hl' as [Hex|Hl']; [left; by apply Exists_cons_tl|].
  right. intros [|i] b; cbn [lookup list_lookup].
  - intros [= <-]. split; [by exists SN, t0|]. split; [done|]. split; [congruence|]. split; [congruence|done].
  - intros Hi. replace (k + Z.of_nat (S i)) with (k + 1 + Z.of_nat i) by lia. by apply Hl'.
Qed.

Lemma hflush_spec n s M limit period now :
  hinv n s M -> 0 <= n < MAX_OPS -> exists s', hs_flush env s limit period now = Ret s' /\ after n s' M.
Proof.
  intros Hh Hn. unfold hs_flush. rewrite (hi_before _ _ _ Hh). cbn [Z.ltb Z.compare]. pose proof Hh as [].
  destruct (flush_all (hs_height s) n M limit period now (hs_bitcasks s) 0) as (l' & -> & Hlen & Hl'); [unfold MAX_OPS in *; lia|exact hi_each0|].
  cbn [mbind outcome_bind]. eexists. split; [done|]. destruct Hl' as [Hex|Hl']; [by left|]. right. apply hinv_next.
  constructor; cbn [hs_height hs_before hs_bitcasks]; auto. by rewrite Hlen.
Qed.
End Store.

(** ** Histories *)
Inductive hreq :=
| HSet (key value : bytes) (flag version now : Z)
| HAppend (key value : bytes) (now : Z)
| HIncr (key : bytes) (delta now : Z)
| HDelete (key : bytes) (now : Z)
| HGet (key : bytes)
| HFlush (limit period now : Z).
Inductive hans := HStored (ok : bool) | HCount (n : Z) | HValue (v : option (bytes * Z)) | HFlushed.

(** [hs_incr] is called with [errno] clear: on its way from a client's line
    ([process_arithmetic_command]) [safe_strtoull] has cleared it. *)
Definition hs_step {C} {KC : KeyCodec C} (env : Env) (s : HStore C) (r : hreq) : outcome (HStore C * hans) :=
  match r with
  | HSet key value flag version now => '(s, ok) ← hs_set env s key value flag version now; Ret (s, HStored ok)
  | HAppend key value now => '(s, ok) ← hs_append env s key value now; Ret (s, HStored ok)
  | HIncr key delta now => '(s, n) ← hs_incr env s key delta false now; Ret (s, HCount n)
  | HDelete key now => '(s, ok) ← hs_delete env s key now; Ret (s, HStored ok)
  | HGet key => '(s, v) ← hs_get env s key; Ret (s, HValue v)
  | HFlush limit period now => s ← hs_flush env s limit period now; Ret (s, HFlushed)
  end.
Fixpoint hs_run {C} {KC : KeyCodec C} (env : Env) (s : HStore C) (rs : list hreq) : outcome (HStore C * list hans) :=
  match rs with
  | [] => Ret (s, [])
  | r :: rs => '(s, a) ← hs_step env s r; '(s, l) ← hs_run env s rs; Ret (s, a :: l)
  end.

Definition spec_hstep (M : store) (r : hreq) : store * hans :=
  match r with
  | HSet key value flag version _ => let x := spec_hset M key value flag version in (x.1, HStored x.2)
  | HAppend key value _ => let x := spec_append M key value in (x.1, HStored x.2)
  | HIncr key delta _ => let x := spec_incr M key delta false in (x.1, HCount x.2)
  | HDelete key _ => let x := spec_set M key [] 0 (-1) in (x.1, HStored x.2)
  | HGet key => (M, HValue (spec_hget M key))
  | HFlush _ _ _ => (M, HFlushed)
  end.
Fixpoint spec_hrun (M : store) (rs : list hreq) : store * list hans :=
  match rs with
  | [] => (M, [])
  | r :: rs => let x := spec_hstep M r in let y := spec_hrun x.1 rs in (y.1, x.2 :: y.2)
  end.

(** Keys of at most 232 bytes; the keys read are not directory or metadata queries. *)
Definition hreq_ok (r : hreq) : Prop :=
  match r with
  | HSet key value flag version _ => hrequest_ok key value /\ Z.land (s32 flag) COMPRESS_FLAG = 0 /\ Z.abs version <= 2 ^ 30
  | HAppend key value _ => hrequest_ok key value /\ starts 64 key = false /\ starts 63 key = false
  | HIncr key _ _ => hrequest_ok key [] /\ starts 64 key = false /\ starts 63 key = false
  | HDelete key _ => hrequest_ok key []
  | HGet key => bytes_ok key /\ starts 64 key = false /\ starts 63 key = false
  | HFlush _ _ _ => True
  end.

Section StoreHistory.
Context {C : Type} {KC : KeyCodec C} {KL : KeyCodecLaws C}.
Context (env : Env).
Context (Hfresh : forall n, length (e_fresh env n) = Z.to_nat n /\ bytes_ok (e_fresh env n)).
Context (Hmax : 0 <= e_max_bucket_size env <= 2 ^ 32 - 2 ^ 27).
Implicit Types (bc : Bitcask C) (M : store) (s : HStore C).

Definition hrefined s M (rs : list hreq) : Prop :=
  (exists s', hs_run env s rs = Ret (s', (spec_hrun M rs).2)) \/
  (exists rs1 rs2 s1, rs = rs1 ++ rs2 /\ hs_run env s rs1 = Ret (s1, (spec_hrun M rs1).2) /\ exhausted s1).

Section Dirs.
Context (dir : Z -> bytes) (Hdir : forall i, blen (dir i) <= 230).

Lemma hstep_spec n s M r :
  hinv env dir n s M -> 0 <= n < MAX_OPS -> hreq_ok r ->
  exists s', hs_step env s r = Ret (s', (spec_hstep M r).2) /\ after env dir n s' (spec_hstep M r).1.
Proof.
  intros Hh Hn Hr. destruct r as [key value flag version now|key value now|key delta now|key now|key|limit period now]; cbn [hs_step spec_hstep fst snd hreq_ok] in *.
  - destruct Hr as (H1 & H2 & H3). destruct (hset_spec env Hfresh Hmax dir Hdir n s M key value flag version now) as (s' & -> & H); auto. by exists s'.
  - destruct Hr as (H1 & H2 & H3). destruct (happend_spec env Hfresh Hmax dir Hdir n s M key value now) as (s' & -> & H); auto. by exists s'.
  - destruct Hr as (H1 & H2 & H3). destruct (hincr_spec env Hfresh Hmax dir Hdir n s M key delta false now) as (s' & -> & H); auto. by exists s'.
  - destruct (hdelete_spec env Hfresh Hmax dir Hdir n s M key now) as (s' & -> & H); auto. by exists s'.
  - destruct Hr as (H1 & H2 & H3). destruct (hget_spec env Hfresh Hmax dir Hdir n s M key) as (s' & -> & H & _); auto. exists s'. split; [done|]. right. by apply hinv_next.
  - destruct (hflush_spec env Hfresh Hmax dir Hdir n s M limit period now) as (s' & -> & H); auto. by exists s'.
Qed.

(** The run ends with the right answers, or some bitcask has run out of numbers. *)
Lemma hrun_reached n s M rs :
  hinv env dir n s M -> 0 <= n -> n + Z.of_nat (length rs) <= MAX_OPS -> Forall hreq_ok rs ->
  (exists s', hs_run env s rs = Ret (s', (spec_hrun M rs).2) /\ hinv env dir (n + Z.of_nat (length rs)) s' (spec_hrun M rs).1) \/
  (exists rs1 rs2 s1, rs = rs1 ++ rs2 /\ hs_run env s rs1 = Ret (s1, (spec_hrun M rs1).2) /\ exhausted s1).
Proof.
  revert n s M. induction rs as [|r rs IH]; intros n s M Hh Hn Hlen Hrs; [left; exists s; cbn [length]; by rewrite Z.add_0_r|].
  apply Forall_cons in Hrs as [Hr Hrs]. simpl in Hlen. destruct (hstep_spec n s M r Hh ltac:(lia) Hr) as (s1 & E & [Hf|Hh1]).
  { right. exists [r], rs, s1. split; [done|]. split; [|done]. cbn [hs_run spec_hrun]. by rewrite E. }
  destruct (IH (n + 1) s1 (spec_hstep M r).1 Hh1 ltac:(lia) ltac:(lia) Hrs) as [(s2 & E2 & H2)|(rs1 & rs2 & s2 & -> & E2 & Hf)].
  - left. exists s2. cbn [hs_run spec_hrun length]. rewrite E. cbn [mbind outcome_bind]. rewrite E2. split; [done|]. by replace (n + Z.of_nat (S (length rs))) with (n + 1 + Z.of_nat (length rs)) by lia.
  - right. exists (r :: rs1), rs2, s2. split; [done|]. split; [|done]. cbn [hs_run spec_hrun]. rewrite E. cbn [mbind outcome_bind]. by rewrite E2.
Qed.

Lemma hrun_spec n s M rs :
  hinv env dir n s M -> 0 <= n -> n + Z.of_nat (length rs) <= MAX_OPS -> Forall hreq_ok rs -> hrefined s M rs.
Proof. intros Hh Hn Hlen Hrs. destruct (hrun_reached n s M rs Hh Hn Hlen Hrs) as [(s' & E & _)|H]; [left; by exists s'|by right]. Qed.
End Dirs.

(** ** Opening an empty store *)
(** The directory of bitcask [i]. *)
Definition dir_of (h : Z) (path : bytes) (i : Z) : bytes :=
  match bitcask_dir h path i with Ret d => if blen d <=? 230 then d else [] | _ => [] end.
Lemma dir_of_short h path i : blen (dir_of h path i) <= 230.
Proof. unfold dir_of. destruct (bitcask_dir h path i) as [d| |]; [|done|done]. by destruct (Z.leb_spec (blen d) 230). Qed.

Lemma print_x_digit x : 0 <= x < 16 -> blen (print_x x) = 1.
Proof.
  intros Hx. unfold print_x, blen. rewrite length_map. unfold digits. cbn [digits_aux]. by rewrite (proj2 (Z.ltb_lt x 16)) by lia.
Qed.
Lemma join_length p q : blen (join p q) = blen p + 1 + blen q.
Proof. unfold join. rewrite !blen_app. change (blen [47]) with 1. lia. Qed.

Lemma nibble x : 0 <= Z.land x 0xf < 16.
Proof. change 0xf with (Z.ones 4). rewrite Z.land_ones by lia. apply Z.mod_pos_bound. lia. Qed.

Lemma bitcask_dir_ok h path i : 0 <= h <= 3 -> 0 <= i < 16 ^ h -> blen path <= 224 -> bitcask_dir h path i = Ret (dir_of h path i).
Proof.
  intros Hh Hi Hp. assert (E : exists d, bitcask_dir h path i = Ret d /\ blen d <= 230).
  { unfold bitcask_dir. pose proof (nibble i). pose proof (nibble (Z.shiftr i 4)). pose proof (Z.shiftr_div_pow2 i 4 ltac:(lia)) as E4.
    pose proof (Z.shiftr_div_pow2 i 8 ltac:(lia)) as E8. change (2 ^ 4) with 16 in E4. change (2 ^ 8) with 256 in E8.
    assert (HL : forall d, blen d <= 230 -> exists d', print_path MAX_PATH_LEN d = Ret d' /\ blen d' <= 230)
      by (intros d Hd; exists d; rewrite print_path_ok by (unfold MAX_PATH_LEN; lia); done). apply HL.
    assert (h = 0 \/ h = 1 \/ h = 2 \/ h = 3) as [->|[->|[->| ->]]] by lia; cbn [Z.eqb Pos.eqb]; rewrite ?join_length, ?print_x_digit; try lia;
      rewrite ?E4, ?E8; change (16 ^ 2) with 256 in *; change (16 ^ 3) with 4096 in *; Z.div_mod_to_equations; lia. }
  destruct E as (d & E & Hd). unfold dir_of. by rewrite E, (proj2 (Z.leb_le _ _) Hd).
Qed.

Lemma dir_suffix h i : exists t, forall p, bitcask_dir h p i = print_path MAX_PATH_LEN (p ++ t).
Proof.
  unfold bitcask_dir, join. destruct (h =? 0); [exists []; intros p; by rewrite app_nil_r|]. destruct (h =? 1); [by eexists|]. destruct (h =? 2); eexists; intros p; rewrite <- !app_assoc; reflexivity.
Qed.
Lemma absolute_dir h cwd path i :
  0 <= h <= 3 -> 0 <= i < 16 ^ h -> path <> [] -> blen (absolute cwd path) <= 224 ->
  exists d, bitcask_dir h path i = Ret d /\ absolute cwd d = dir_of h (absolute cwd path) i.
Proof.
  intros Hh Hi Hne Hp. assert (Hp' : blen path <= 224) by (unfold absolute in Hp; repeat case_match; try done; rewrite join_length in Hp; pose proof (blen_nonneg cwd); lia).
  exists (dir_of h path i). split; [by apply bitcask_dir_ok|]. pose proof (bitcask_dir_ok h path i Hh Hi Hp') as E1. pose proof (bitcask_dir_ok h (absolute cwd path) i Hh Hi Hp) as E2.
  destruct (dir_suffix h i) as [t Ht]. rewrite Ht in E1, E2. unfold print_path in E1, E2. repeat case_match; simplify_eq. rewrite <- E1, <- E2.
  destruct path as [|c p]; [done|]. unfold absolute, join. cbn [app]. repeat case_match; simplify_eq; rewrite <- ?app_assoc; done.
Qed.

Definition single (path : bytes) : Prop := Forall (fun c => c <> 44 /\ c <> 58) path.
Lemma strsep_single acc path : single path -> strsep_all acc path = [acc ++ path].
Proof.
  intros H. revert acc. induction H as [|c r [H1 H2] _ IH]; intros acc; cbn [strsep_all]; [by rewrite app_nil_r|].
  rewrite (proj2 (Z.eqb_neq c 44)), (proj2 (Z.eqb_neq c 58)) by done. cbn [orb]. rewrite IH, <- app_assoc. done.
Qed.

(** The home directory, as the managers of the bitcasks see it. *)
Definition home (path : bytes) : bytes := absolute (e_cwd env) path.

Definition empty_bitcasks (h : Z) (path : bytes) (now i : Z) (k : nat) : list (Bitcask C) :=
  (fun j => fresh_bitcask {| disks := [dir_of h path j] |} h j now) <$> seqZ i (Z.of_nat k).

Lemma open_all h path now k i :
  0 <= h <= 3 -> 0 <= i -> i + Z.of_nat k <= 16 ^ h -> path <> [] -> blen (home path) <= 224 -> (forall d, e_readdir env d = []) -> (forall d, e_dir_ok env d = true) ->
  open_bitcasks env k (fun _ => ∅) h 0 now [path] i = Ret (Some (empty_bitcasks h (home path) now i k)).
Proof.
  intros Hh Hi Hk Hne Hp Hrd Hok. revert i Hi Hk. induction k as [|k IH]; intros i Hi Hk; [done|]. cbn [open_bitcasks dirs_of].
  destruct (absolute_dir h (e_cwd env) path i) as (d & -> & Ed); [lia|lia|done|done|]. cbn [mbind outcome_bind]. unfold mgr_create. cbn [forallb List.map]. rewrite Hok, Ed. cbn [andb]. fold (home path). unfold bc_open2.
  rewrite (init_empty env (dir_of h (home path) i) (dir_of_short h (home path) i)) by done. cbn [mbind outcome_bind]. rewrite IH by lia. cbn [mbind outcome_bind].
  unfold empty_bitcasks. rewrite (seqZ_cons i) by lia. replace (Z.pred (Z.of_nat (S k))) with (Z.of_nat k) by lia. replace (Z.succ i) with (i + 1) by lia. done.
Qed.

Lemma scan_all h path now k i :
  (forall d, e_readdir env d = []) ->
  each_bitcask (fun bc => bc_scan env bc now) (empty_bitcasks h path now i k) = Ret (empty_bitcasks h path now i k).
Proof.
  intros Hrd. revert i. induction k as [|k IH]; intros i; [done|]. unfold empty_bitcasks. rewrite (seqZ_cons i) by lia.
  replace (Z.pred (Z.of_nat (S k))) with (Z.of_nat k) by lia. replace (Z.succ i) with (i + 1) by lia. cbn [fmap list_fmap each_bitcask].
  rewrite (scan_fresh env (dir_of h path i) (dir_of_short h path i)) by done. cbn [mbind outcome_bind]. fold (empty_bitcasks h path now (i + 1) k). rewrite IH. done.
Qed.

Definition empty_store (h : Z) (path : bytes) (now : Z) : HStore C :=
  {| hs_height := h; hs_before := 0; hs_op_start := 0; hs_op_end := 0; hs_op_laststat := 0; hs_op_limit := 0;
     hs_bitcasks := empty_bitcasks h path now 0 (Z.to_nat (16 ^ h)) |}.

(** One home directory: every bitcask is opened in its own directory there. *)
Lemma hs_open_one h path fss now :
  0 <= h <= 3 -> single path -> blen (home path) <= 224 -> (forall d, e_dir_ok env d = true) ->
  hs_open env fss path h 0 now =
  (bcs ← open_bitcasks env (Z.to_nat (16 ^ h)) fss h 0 now [path] 0;
   match bcs with
   | None => Ret None
   | Some bcs =>
       bcs ← each_bitcask (fun bc : Bitcask C => bc_scan env bc now) bcs;
       Ret (Some {| hs_height := h; hs_before := 0; hs_op_start := 0; hs_op_end := 0; hs_op_laststat := 0; hs_op_limit := 0; hs_bitcasks := bcs |})
   end).
Proof.
  intros Hh Hs Hp Hok. assert (Hp' : blen path <= 224).
  { unfold home, absolute in Hp. pose proof (blen_nonneg (e_cwd env)). repeat case_match; try done; rewrite join_length in Hp; lia. }
  unfold hs_open. destruct (Z.ltb_spec h 0), (Z.ltb_spec 3 h); try lia. cbn [orb Z.ltb Z.compare].
  rewrite strsep_single by done. cbn [app]. cbv zeta. change (take 20 [path]) with [path]. cbn [existsb]. unfold MAX_HOME_PATH_LEN.
  rewrite (proj2 (Z.ltb_ge 240 (blen path))), Hok by lia. cbn [orb negb]. change (MAX_PATHS <=? Z.of_nat (length [path])) with false. cbv iota.
  by replace (Z.shiftl 1 (h * 4)) with (16 ^ h) by (rewrite Z.shiftl_mul_pow2, Z.mul_1_l, Z.mul_comm, Z.pow_mul_r by lia; done).
Qed.

Lemma open_store h path now :
  0 <= h <= 3 -> single path -> path <> [] -> blen (home path) <= 224 -> (forall d, e_readdir env d = []) -> (forall d, e_dir_ok env d = true) ->
  hs_open env (fun _ => ∅) path h 0 now = Ret (Some (empty_store h (home path) now)).
Proof.
  intros Hh Hs Hne Hp Hrd Hok. rewrite hs_open_one by done. assert (0 < 16 ^ h) by (apply Z.pow_pos_nonneg; lia).
  rewrite open_all by (done || lia). cbn [mbind outcome_bind]. rewrite scan_all by done. done.
Qed.

Lemma empty_hinv h path now : 0 <= h <= 3 -> hinv env (dir_of h path) 0 (empty_store h path now) ∅.
Proof.
  intros Hh. assert (0 < 16 ^ h) by (apply Z.pow_pos_nonneg; lia). constructor; cbn [empty_store hs_height hs_before hs_bitcasks].
  - done.
  - done.
  - unfold empty_bitcasks. rewrite length_fmap, length_seqZ. lia.
  - intros i bc E. unfold empty_bitcasks in E. rewrite list_lookup_fmap in E. destruct (seqZ 0 (Z.of_nat (Z.to_nat (16 ^ h))) !! i) as [j|] eqn:Ej; [|done].
    apply lookup_seqZ in Ej as [-> _]. injection E as <-. rewrite Z.add_0_l. split; [|done].
    exists no_snaps, (ht_new h (Z.of_nat i) false). split; [|apply fresh_snapshot; lia]. unfold part. rewrite map_filter_empty. by apply (fresh_inv env (dir_of h path (Z.of_nat i))); [|lia].
  - apply map_Forall_empty.
  - apply map_Forall_empty.
Qed.

(** C2. The store is a versioned map.  Opened on empty directories, with any of
    1, 16, 256 or 4096 bitcasks, a store answers any history of set, append, incr,
    delete, get and flush as one finite map from keys to (version, flag, value)
    does, whichever bitcasks the keys fall to: appends concatenate, increments
    count, deleted keys are gone, refused requests change nothing.  Nothing faults
    and nothing exits, up to two million requests, until some bitcask has used up
    its 256 bucket numbers. *)
Theorem hs_history_refines_map h path now rs :
  0 <= h <= 3 -> single path -> path <> [] -> blen (home path) <= 224 -> (forall d, e_readdir env d = []) -> (forall d, e_dir_ok env d = true) ->
  Forall hreq_ok rs -> Z.of_nat (length rs) <= MAX_OPS ->
  exists s, hs_open env (fun _ => ∅) path h 0 now = Ret (Some s) /\ hrefined s ∅ rs.
Proof.
  intros Hh Hs Hne Hp Hrd Hok Hrs Hlen. exists (empty_store h (home path) now). split; [by apply open_store|].
  apply (hrun_spec (dir_of h (home path)) (dir_of_short h (home path)) 0); [by apply empty_hinv|lia|lia|done].
Qed.

(** C31. Every key has one bitcask.  The index [get_index] computes is the number
    of one of the 16^h bitcasks, and of all bitcasks of the store its tree alone
    accepts the key. *)
Theorem key_has_one_bitcask n s M dir key i bc :
  hinv env dir n s M -> hs_bitcasks s !! i = Some bc ->
  0 <= get_index s key < 16 ^ hs_height s /\ check_bucket (bc_tree bc) key = bool_decide (Z.of_nat i = get_index s key).
Proof.
  intros [] E. pose proof (index_range (hs_height s) key hi_height0) as Hr. change (get_index s key) with (index_of (hs_height s) key). split; [done|].
  destruct (hi_each0 i bc E) as ((SN & t0 & Hi & _) & _ & Hdp & Hps & _). destruct (io_cfg _ _ _ _ _ (co_idx _ _ _ _ _ (proj1 Hi))) as [T1 T2].
  apply lookup_lt_Some in E. assert (16 ^ hs_height s <= 16 ^ 3) by (apply Z.pow_le_mono_r; lia). unfold check_bucket. rewrite T1, T2, Hdp, Hps, u32_id by lia.
  unfold index_of, keyhash in *. destruct (Z.eqb_spec (hs_height s) 0) as [E0|].
  - rewrite E0 in *. cbn [Z.ltb Z.compare andb negb]. symmetry. apply bool_decide_eq_true. simpl in hi_length0. lia.
  - rewrite (proj2 (Z.ltb_lt 0 (hs_height s))) by lia. cbn [andb]. rewrite negb_involutive. rewrite Z.eqb_sym. apply Bool.eq_iff_eq_true. by rewrite bool_decide_eq_true, Z.eqb_eq.
Qed.

(** A value just stored is the value read. *)
Lemma spec_set_get M N key value flag :
  vers_ok N M -> N < 2 ^ 31 - 1 -> check_key key = true -> starts 64 key = false -> blen value <= MAX_VALUE_LEN ->
  (spec_hset M key value flag 0).2 = true /\ spec_hget (spec_hset M key value flag 0).1 key = Some (value, u32 (s32 flag)).
Proof.
  intros HM HN Hck H64 Hvl. unfold spec_hset, spec_set, spec_hget, spec_get. rewrite H64, Hck, (proj2 (Z.ltb_ge _ _) Hvl). cbn [Z.ltb Z.compare andb orb negb].
  set (ov := match M !! key with Some v => v.1.1 | None => 0 end).
  assert (Hv : exists ver, new_version 0 ov = Some ver /\ 0 < ver).
  { assert (Ho : Z.abs ov < 2 ^ 31 - 1) by (unfold ov; destruct (M !! key) as [v|] eqn:E; [destruct (HM key v E); lia|done]). change (2 ^ 31) with 2147483648 in *.
    unfold new_version. destruct (Z.ltb_spec 0 ov); cbn [Z.eqb andb]; [|rewrite (proj2 (Z.leb_le ov 0)) by lia]; (eexists; split; [done|]); rewrite s32_id by (change (2 ^ 31) with 2147483648; lia); lia. }
  destruct Hv as (ver & -> & Hver). split; [done|]. cbn [fst]. destruct (M !! key) as [[[o f] x]|] eqn:E.
  - destruct ((0 <? o) && (0 <? ver) && (f =? s32 flag) && bool_decide (x = value)) eqn:Es; cbn [andb Z.eqb].
    + bool_to_prop. rewrite E. apply bool_decide_eq_true in H0. subst x. rewrite H. f_equal. f_equal. by apply Z.eqb_eq in H1 as ->.
    + rewrite lookup_insert_eq. by rewrite (proj2 (Z.ltb_lt 0 ver) Hver).
  - cbn [andb]. rewrite lookup_insert_eq. by rewrite (proj2 (Z.ltb_lt 0 ver) Hver).
Qed.

(** C32. Counters count.  [hs_incr] of an absent key, or of one that holds a counter,
    returns the sum, or 0 in place of a negative sum, as long as the sum fits 64 bits,
    and a get then returns its decimal digits with the flag of counters.  In all other
    cases (the value is not a counter; or it is the counter 0 and [errno] is [EINVAL]
    from an earlier call, which [hs_incr] does not clear) it returns 0 and changes
    nothing. *)
Theorem incr_counts n s M dir key delta einval now :
  (forall i, blen (dir i) <= 230) -> hinv env dir n s M -> 0 <= n < MAX_OPS -> hrequest_ok key [] -> check_key key = true ->
  starts 64 key = false -> starts 63 key = false ->
  match counter_value M key einval with
  | Some old =>
      - 2 ^ 63 <= old + delta < 2 ^ 63 ->
      exists s', hs_incr env s key delta einval now = Ret (s', Z.max 0 (old + delta)) /\
        (exhausted s' \/ exists s'', hs_get env s' key = Ret (s'', Some (print_d (Z.max 0 (old + delta)), INCR_FLAG)))
  | None => exists s', hs_incr env s key delta einval now = Ret (s', 0) /\ hinv env dir n s' M
  end.
Proof.
  intros Hdir Hh Hn Hr Hck K1 K2. destruct (counter_value M key einval) as [old|] eqn:Hc; [|by eapply hincr_refused]. intros Hs.
  destruct (hincr_spec env Hfresh Hmax dir Hdir n s M key delta einval now Hh Hn Hr K1 K2) as (s' & -> & Ha). unfold spec_incr in *. rewrite Hc in *. cbv zeta in *.
  assert (Hsum : s64 (old + delta) = old + delta) by by apply s64_id. rewrite Hsum in *. cbn [fst snd] in *. set (new := Z.max 0 (old + delta)) in *.
  assert (HN : 2 ^ 30 + n < 2 ^ 31 - 1) by (unfold MAX_OPS in *; lia).
  pose proof (print_d_short new ltac:(lia)) as Hps.
  destruct (spec_set_get M (2 ^ 30 + n) key (print_d new) INCR_FLAG (hi_vers _ _ _ _ _ Hh) HN Hck K1) as [E1 E2]; [unfold MAX_VALUE_LEN; lia|].
  rewrite E1. exists s'. split; [done|]. destruct Ha as [Hf|Hh']; [by left|]. right.
  destruct (hget_spec env Hfresh Hmax dir Hdir (n + 1) s' _ key Hh' (proj1 Hr) K1 K2) as (s2 & -> & _). rewrite E2. by exists s2.
Qed.
End StoreHistory.

(** ** Concrete stores *)
Definition small_env : Env := demo_env (100 * 2 ^ 20).

#[export] Instance hrequest_ok_dec key value : Decision (hrequest_ok key value).
Proof. unfold hrequest_ok. apply _. Defined.
#[export] Instance hreq_ok_dec r : Decision (hreq_ok r).
Proof. destruct r; unfold hreq_ok; apply _. Defined.

Definition demo_requests : list hreq :=
  [HSet (lit "photo") (repeat 97 700) 3 0 100; HIncr (lit "hits") 5 100; HAppend (lit "log") (lit "one,") 101; HFlush 0 0 102;
   HAppend (lit "log") (lit "two") 103; HIncr (lit "hits") 37 103; HGet (lit "log"); HGet (lit "hits"); HDelete (lit "log") 104;
   HGet (lit "log"); HSet (lit "@0") (lit "x") 0 0 105; HGet (lit "photo")].

Lemma hs_history_refines_map_witness :
  exists s, hs_open (C := Codec) small_env (fun _ => ∅) (lit "/db") 1 0 99 = Ret (Some s) /\ hrefined small_env s ∅ demo_requests.
Proof.
  apply (hs_history_refines_map small_env).
  - intros n. apply zeros_ok.
  - split; vm_compute; discriminate.
  - lia.
  - by_compute.
  - discriminate.
  - vm_compute. discriminate.
  - reflexivity.
  - reflexivity.
  - by_compute.
  - vm_compute. discriminate.
Defined.

Example demo_store_answers :
  match hs_open (C := Codec) small_env (fun _ => ∅) (lit "/db") 1 0 99 with
  | Ret (Some s) => match hs_run small_env s demo_requests with Ret (_, l) => Some l | _ => None end
  | _ => None
  end =
  Some [HStored true; HCount 5; HStored true; HFlushed; HStored true; HCount 42; HValue (Some (lit "one,two", APPEND_FLAG));
        HValue (Some (lit "42", INCR_FLAG)); HStored true; HValue None; HStored false; HValue (Some (repeat 97 700, 3))].
Proof. vm_compute. reflexivity. Qed.

Definition demo_store : HStore Codec := empty_store 1 (lit "/db") 99.

Lemma key_has_one_bitcask_witness :
  0 <= get_index demo_store (lit "photo") < 16 ^ 1 /\
  check_bucket (bc_tree (fresh_bitcask (C := Codec) {| disks := [dir_of 1 (lit "/db") 3] |} 1 3 99)) (lit "photo") =
  bool_decide (3 = get_index demo_store (lit "photo")).
Proof.
  apply (key_has_one_bitcask small_env 0 demo_store ∅ (dir_of 1 (lit "/db")) (lit "photo") 3).
  - apply empty_hinv. lia.
  - vm_compute. reflexivity.
Defined.

Lemma incr_counts_witness :
  (exists s', hs_incr small_env demo_store (lit "hits") 42 true 100 = Ret (s', 42) /\
     (exhausted s' \/ exists s'', hs_get small_env s' (lit "hits") = Ret (s'', Some (lit "42", INCR_FLAG)))) /\
  exists s', hs_incr small_env demo_store (lit "hits") (-7) false 100 = Ret (s', 0) /\
     (exhausted s' \/ exists s'', hs_get small_env s' (lit "hits") = Ret (s'', Some (lit "0", INCR_FLAG))).
Proof.
  assert (Hk : hrequest_ok (lit "hits") []) by by_compute. assert (Hm : 0 <= 0 < MAX_OPS) by (unfold MAX_OPS; lia).
  pose proof (fun delta einval => incr_counts small_env (fun n => zeros_ok n) ltac:(split; vm_compute; discriminate) 0 demo_store ∅ (dir_of 1 (lit "/db")) (lit "hits") delta einval 100
    (dir_of_short 1 (lit "/db")) (empty_hinv small_env 1 (lit "/db") 99 ltac:(lia)) Hm Hk eq_refl eq_refl eq_refl) as H.
  split; [exact (H 42 true ltac:(lia))|exact (H (-7) false ltac:(lia))].
Defined.
