(* ===== verification/Dirs.v ===== *)
(** * The directories of a store (hstore.c, diskmgr.c)

    [mkdir] makes one directory in a directory that exists.  [hs_open] makes the
    home directories; with a height above 1 it first opens, and closes, a store of
    the next lower height in each of them, which makes the directories above those
    of the bitcasks; then [mgr_create] makes the directory of each bitcask.  This
    file follows the set of existing directories through these calls. *)
From Stdlib Require Import ZArith Lia List.
From stdpp Require Import base numbers list gmap strings.
From S2P Require Import Prelude CText Disk BucketsFacts HStore HStoreFacts.

Section Dirs.
(** Whether permissions and space allow a directory to be made. *)
Context (allowed : bytes -> bool).
Implicit Types (D : gset bytes) (p path : bytes) (ps : list bytes).

(** [0 != access(p, F_OK) && 0 != mkdir(p, 0755)], negated. *)
Definition make_dir D p : gset bytes * bool :=
  if bool_decide (p ∈ D) then (D, true)
  else if negb (bool_decide (p = [])) && allowed p && bool_decide (dirname p ∈ D) then ({[p]} ∪ D, true)
  else (D, false).

(** What [mgr_create] makes: it stops at the first failure. *)
Fixpoint make_dirs D ps : gset bytes * bool :=
  match ps with
  | [] => (D, true)
  | p :: r => let '(D, ok) := make_dir D p in if ok then make_dirs D r else (D, false)
  end.

(** The loop over the bitcasks. *)
Fixpoint bitcask_dirs (k : nat) D (height : Z) ps (i : Z) : outcome (gset bytes * bool) :=
  match k with
  | O => Ret (D, true)
  | S k' =>
      ds ← dirs_of height ps i;
      let '(D, ok) := make_dirs D ds in
      if ok then bitcask_dirs k' D height ps (i + 1) else Ret (D, false)
  end.

(** The loop over the home directories; [inner] is the store of the next lower height. *)
Fixpoint home_dirs (inner : gset bytes -> bytes -> outcome (gset bytes * bool)) D ps : outcome (gset bytes * bool) :=
  match ps with
  | [] => Ret (D, true)
  | p :: r =>
      if MAX_HOME_PATH_LEN <? blen p then Ret (D, false)
      else
        let '(D, ok) := make_dir D p in
        if negb ok then Ret (D, false)
        else '(D, ok) ← inner D p; if ok : bool then home_dirs inner D r else Ret (D, false)
  end.

(** What [hs_open(path, height, ...)] makes; [false] when it returns NULL. *)
Fixpoint open_dirs (height : nat) D path : outcome (gset bytes * bool) :=
  let ps := strsep_all [] path in
  '(D, ok) ← home_dirs (fun D p => match height with S (S _ as h') => open_dirs h' D p | _ => Ret (D, true) end) D (take 20 ps);
  if negb ok then Ret (D, false)
  else if MAX_PATHS <=? Z.of_nat (length ps) then Fault
  else
    let '(D, ok) := make_dirs D ps in
    if ok then bitcask_dirs (Z.to_nat (16 ^ Z.of_nat height)) D (Z.of_nat height) ps 0 else Ret (D, false).

(** ** Names *)
Lemma strsep_components path : forall acc, single acc -> Forall single (strsep_all acc path).
Proof.
  induction path as [|c r IH]; intros acc Ha; cbn [strsep_all]; [by constructor|]. destruct ((c =? 44) || (c =? 58)) eqn:E.
  - constructor; [done|]. apply IH. constructor.
  - apply IH, Forall_app. split; [done|]. apply orb_false_elim in E as [E1%Z.eqb_neq E2%Z.eqb_neq]. by repeat constructor.
Qed.

Lemma split_none b : 47 ∉ b -> split_dir b = None.
Proof.
  induction b as [|c b IH]; [done|]. intros [Hc Hb]%not_elem_of_cons. cbn [split_dir]. rewrite (IH Hb). by rewrite (proj2 (Z.eqb_neq c 47)) by congruence.
Qed.
Lemma dirname_join a b : a <> [] -> 47 ∉ b -> dirname (join a b) = a.
Proof.
  intros Ha Hb. unfold dirname. assert (E : split_dir (join a b) = Some (a, b)); [|rewrite E; by destruct a]. clear Ha. unfold join.
  induction a as [|c a IH]; cbn [app split_dir] in *; [by rewrite (split_none b Hb)|]. by rewrite IH.
Qed.
Lemma hex_no_slash x : 0 <= x < 16 -> 47 ∉ print_x x.
Proof.
  intros Hx. unfold print_x, digits. cbn [digits_aux]. rewrite (proj2 (Z.ltb_lt x 16)) by lia. cbn [List.map]. rewrite list_elem_of_singleton. unfold digit_char. case_match; lia.
Qed.

Lemma dir_nonempty h p i : 0 <= h <= 3 -> 0 <= i < 16 ^ h -> p <> [] -> blen p <= 224 -> dir_of h p i <> [].
Proof.
  intros Hh Hi Hne Hp. pose proof (bitcask_dir_ok h p i Hh Hi Hp) as E. destruct (dir_suffix h i) as [t Ht]. rewrite Ht in E. unfold print_path in E. case_match; [done|].
  injection E as <-. by destruct p.
Qed.

(** The directory above that of a bitcask is that of a bitcask of the lower store. *)
Lemma dir_above h p i :
  0 <= h < 3 -> 0 <= i < 16 ^ (h + 1) -> p <> [] -> blen p <= 224 -> dirname (dir_of (h + 1) p i) = dir_of h p (Z.shiftr i 4).
Proof.
  intros Hh Hi Hne Hp. pose proof (Z.shiftr_div_pow2 i 4 ltac:(lia)) as E4. change (2 ^ 4) with 16 in E4. assert (Hi' : 0 <= Z.shiftr i 4 < 16 ^ h).
  { rewrite Z.pow_add_r in Hi by lia. change (16 ^ 1) with 16 in Hi. rewrite E4. split; [apply Z.div_pos; lia|apply Z.div_lt_upper_bound; lia]. }
  pose proof (bitcask_dir_ok (h + 1) p i ltac:(lia) Hi Hp) as E1. pose proof (bitcask_dir_ok h p (Z.shiftr i 4) ltac:(lia) Hi' Hp) as E2.
  assert (h = 0 \/ h = 1 \/ h = 2) as [->|[->| ->]] by lia; unfold bitcask_dir, print_path in E1, E2; cbn [Z.add Z.eqb Pos.eqb Pos.add Pos.succ] in E1, E2; repeat case_match; simplify_eq; rewrite <- E1, <- E2.
  - apply dirname_join; [done|]. apply hex_no_slash. done.
  - apply dirname_join; [by destruct p|]. apply hex_no_slash, nibble.
  - rewrite Z.shiftr_shiftr by lia. apply dirname_join; [by destruct p|]. apply hex_no_slash, nibble.
Qed.

(** ** What is made *)
Context (Hall : forall d, allowed d = true).

Definition makable D p : Prop := p <> [] /\ (p ∈ D \/ dirname p ∈ D).
Lemma makable_more D D' p : D ⊆ D' -> makable D p -> makable D' p.
Proof. intros Hs [Hne [H|H]]; split; auto. Qed.

Lemma make_dir_spec D p : makable D p -> exists D', make_dir D p = (D', true) /\ D ⊆ D' /\ p ∈ D'.
Proof.
  intros [Hne H]. unfold make_dir. case_bool_decide as E; [by exists D|]. rewrite (bool_decide_eq_false_2 _ Hne), Hall. destruct H as [H|H]; [done|]. rewrite (bool_decide_eq_true_2 _ H).
  exists ({[p]} ∪ D). split; [done|]. set_solver.
Qed.

Lemma make_dirs_spec ps : forall D, Forall (makable D) ps -> exists D', make_dirs D ps = (D', true) /\ D ⊆ D' /\ Forall (fun p => p ∈ D') ps.
Proof.
  induction ps as [|p ps IH]; intros D H; cbn [make_dirs]; [by exists D|]. apply Forall_cons in H as [Hp H]. destruct (make_dir_spec D p Hp) as (D1 & -> & Hs & Hin).
  destruct (IH D1) as (D2 & -> & Hs2 & Hin2); [eapply Forall_impl; [exact H|]; intros x; by apply makable_more|]. exists D2. split; [done|]. split; [set_solver|]. constructor; [set_solver|done].
Qed.

Lemma dirs_of_spec h ps i : 0 <= h <= 3 -> 0 <= i < 16 ^ h -> Forall (fun p => blen p <= 224) ps -> dirs_of h ps i = Ret (List.map (fun p => dir_of h p i) ps).
Proof.
  intros Hh Hi H. induction H as [|p ps Hp H IH]; cbn [dirs_of List.map]; [done|]. rewrite (bitcask_dir_ok h p i Hh Hi Hp). cbn [mbind outcome_bind]. by rewrite IH.
Qed.

Lemma bitcask_dirs_spec h ps k : forall i D,
  0 <= h <= 3 -> 0 <= i -> i + Z.of_nat k <= 16 ^ h -> Forall (fun p => blen p <= 224) ps ->
  (forall j p, 0 <= j < 16 ^ h -> p ∈ ps -> makable D (dir_of h p j)) ->
  exists D', bitcask_dirs k D h ps i = Ret (D', true) /\ D ⊆ D' /\ forall j p, i <= j < i + Z.of_nat k -> p ∈ ps -> dir_of h p j ∈ D'.
Proof.
  induction k as [|k IH]; intros i D Hh Hi Hk Hps Hm; cbn [bitcask_dirs]; [exists D; repeat split; try done; lia|]. rewrite dirs_of_spec by (done || lia). cbn [mbind outcome_bind].
  destruct (make_dirs_spec (List.map (fun p => dir_of h p i) ps) D) as (D1 & -> & Hs & Hin).
  { apply Forall_forall. intros d Hd%list_elem_of_In%in_map_iff. destruct Hd as (p & <- & Hp%list_elem_of_In). apply Hm; [lia|done]. }
  destruct (IH (i + 1) D1) as (D2 & -> & Hs2 & Hin2); [done|lia|lia|done|intros j p Hj Hp; eapply makable_more; [exact Hs|by apply Hm]|]. exists D2. split; [done|]. split; [set_solver|].
  intros j p Hj Hp. destruct (decide (j = i)) as [->|Hne]; [|apply Hin2; [lia|done]]. apply Hs2. rewrite Forall_forall in Hin. apply Hin, list_elem_of_In, in_map_iff. exists p. split; [done|by apply list_elem_of_In].
Qed.

(** What holds after a store of height [h] in [p] was opened. *)
Definition has_dirs (h : Z) D p : Prop := p ∈ D /\ forall i, 0 <= i < 16 ^ h -> dir_of h p i ∈ D.

Lemma home_dirs_spec (inner : gset bytes -> bytes -> outcome (gset bytes * bool)) (Q : gset bytes -> bytes -> Prop) ps : forall D,
  (forall D p, p <> [] -> p ∈ D -> blen p <= 224 -> single p -> exists D', inner D p = Ret (D', true) /\ D ⊆ D' /\ Q D' p) ->
  (forall D D' p, D ⊆ D' -> Q D p -> Q D' p) ->
  Forall (fun p => blen p <= 224 /\ single p /\ makable D p) ps ->
  exists D', home_dirs inner D ps = Ret (D', true) /\ D ⊆ D' /\ Forall (fun p => p ∈ D' /\ Q D' p) ps.
Proof.
  induction ps as [|p ps IH]; intros D Hin Hmono H; cbn [home_dirs]; [by exists D|]. apply Forall_cons in H as [(Hl & Hsg & Hm) H].
  rewrite (proj2 (Z.ltb_ge _ _)) by (unfold MAX_HOME_PATH_LEN; lia). destruct (make_dir_spec D p Hm) as (D1 & -> & Hs1 & Hp1). cbn [negb].
  destruct (Hin D1 p) as (D2 & -> & Hs2 & HQ); [apply Hm|done|done|done|]. cbn [mbind outcome_bind].
  destruct (IH D2 Hin Hmono) as (D3 & -> & Hs3 & Hall3); [eapply Forall_impl; [exact H|]; intros x (?&?&?); split; [done|]; split; [done|]; eapply makable_more; [|done]; set_solver|].
  exists D3. split; [done|]. split; [set_solver|]. constructor; [|done]. split; [set_solver|]. eapply Hmono; [exact Hs3|done].
Qed.

(** The directories of the bitcasks, once those above them exist. *)
Lemma leaf_dirs_spec h ps D :
  0 <= h <= 3 -> Forall (fun p => blen p <= 224) ps -> Forall (fun p => p <> [] /\ p ∈ D) ps -> (forall j p, 0 <= j < 16 ^ h -> p ∈ ps -> makable D (dir_of h p j)) ->
  exists D', (let '(D, ok) := make_dirs D ps in if ok then bitcask_dirs (Z.to_nat (16 ^ h)) D h ps 0 else Ret (D, false)) = Ret (D', true) /\ D ⊆ D' /\ Forall (has_dirs h D') ps.
Proof.
  intros Hh Hlen Hps Hm. assert (0 < 16 ^ h) by (apply Z.pow_pos_nonneg; lia). destruct (make_dirs_spec ps D) as (D1 & -> & Hs1 & H1); [eapply Forall_impl; [exact Hps|]; intros p [??]; split; auto|].
  destruct (bitcask_dirs_spec h ps (Z.to_nat (16 ^ h)) 0 D1) as (D2 & -> & Hs2 & H2); [done|lia|lia|done|intros j p Hj Hp; eapply makable_more; [exact Hs1|by apply Hm]|].
  exists D2. split; [done|]. split; [set_solver|]. rewrite Forall_forall in H1. apply Forall_forall. intros p Hp. split; [by apply Hs2, H1|]. intros i Hi. apply H2; [lia|done].
Qed.

Lemma dir_zero p : blen p <= 224 -> dir_of 0 p 0 = p.
Proof. intros Hp. unfold dir_of, bitcask_dir. cbn [Z.eqb]. rewrite print_path_ok by (unfold MAX_PATH_LEN; lia). by rewrite (proj2 (Z.leb_le _ _)) by lia. Qed.
Lemma has_dirs_zero D p : blen p <= 224 -> p ∈ D -> has_dirs 0 D p.
Proof. intros Hl Hp. split; [done|]. intros i Hi. change (16 ^ 0) with 1 in Hi. replace i with 0 by lia. by rewrite dir_zero. Qed.

(** What a store of height [h] needs before the directories of its bitcasks are made. *)
Definition above_dirs (h : nat) D p : Prop := match h with O => True | S h' => has_dirs (Z.of_nat h') D p end.

Lemma above_makable h D p j :
  (h <= 3)%nat -> blen p <= 224 -> p <> [] -> p ∈ D -> above_dirs h D p -> 0 <= j < 16 ^ Z.of_nat h -> makable D (dir_of (Z.of_nat h) p j).
Proof.
  intros Hh Hl Hne Hin Ha Hj. split; [apply dir_nonempty; (done || lia)|]. destruct h as [|h].
  - left. change (16 ^ Z.of_nat 0) with 1 in Hj. replace j with 0 by lia. by rewrite dir_zero.
  - right. replace (Z.of_nat (S h)) with (Z.of_nat h + 1) in * by lia. rewrite dir_above by (done || lia). apply Ha. rewrite Z.pow_add_r in Hj by lia. change (16 ^ 1) with 16 in Hj.
    rewrite Z.shiftr_div_pow2 by lia. change (2 ^ 4) with 16. split; [apply Z.div_pos; lia|apply Z.div_lt_upper_bound; lia].
Qed.

Lemma open_dirs_spec h : forall D path, (h <= 3)%nat -> Z.of_nat (length (strsep_all [] path)) < MAX_PATHS ->
  Forall (fun p => blen p <= 224 /\ makable D p) (strsep_all [] path) ->
  exists D', open_dirs h D path = Ret (D', true) /\ D ⊆ D' /\ Forall (has_dirs (Z.of_nat h) D') (strsep_all [] path).
Proof.
  induction h as [h IH] using lt_wf_ind. intros D path Hh Hn Hps. pose proof (strsep_components path [] ltac:(constructor)) as Hsg.
  destruct (home_dirs_spec (fun D p => match h with S (S _ as h') => open_dirs h' D p | _ => Ret (D, true) end) (above_dirs h) (strsep_all [] path) D) as (D1 & E1 & Hs1 & H1).
  - intros D0 p Hne Hin Hl Hp. destruct h as [|[|h]]; [by exists D0|exists D0; repeat split; try done; by apply has_dirs_zero|].
    destruct (IH (S h) ltac:(lia) D0 p) as (D' & -> & Hs & Hd); rewrite ?strsep_single in * by done; cbn [app length] in *; [lia|unfold MAX_PATHS; lia|repeat constructor; auto|].
    exists D'. split; [done|]. split; [done|]. by inversion_clear Hd.
  - intros Da Db p Hs. unfold above_dirs. destruct h; [done|]. intros [Hp Hd]. split; auto.
  - rewrite Forall_forall in *. intros p Hp. destruct (Hps p Hp). auto.
  - destruct (leaf_dirs_spec (Z.of_nat h) (strsep_all [] path) D1) as (D2 & E2 & Hs2 & H2).
    + lia.
    + eapply Forall_impl; [exact Hps|]. by intros p [? _].
    + rewrite Forall_forall in *. intros p Hp. split; [by apply Hps|by apply H1].
    + intros j p Hj Hp. rewrite Forall_forall in *. destruct (Hps p Hp) as [Hl [Hne _]]. destruct (H1 p Hp). by apply above_makable.
    + exists D2. split; [|split; [set_solver|done]]. destruct h; cbn [open_dirs]; rewrite take_ge by (unfold MAX_PATHS in Hn; lia); rewrite E1; cbn [mbind outcome_bind negb];
        rewrite (proj2 (Z.leb_gt _ _)) by done; exact E2.
Qed.
End Dirs.

(** C39. Opening a store makes its directories: with a height from 0 to 3 and fewer than
    20 home directories of at most 224 characters, each of which exists or has a parent
    that exists, [hs_open] finds or makes the directory of every bitcask in every
    home, for height 2 and 3 by way of the stores of lower height that it opens
    first, and removes none. *)
Theorem hs_open_makes_dirs (h : nat) (D : gset bytes) (path : bytes) :
  (h <= 3)%nat -> Z.of_nat (length (strsep_all [] path)) < MAX_PATHS ->
  Forall (fun p => blen p <= 224 /\ p <> [] /\ (p ∈ D \/ dirname p ∈ D)) (strsep_all [] path) ->
  exists D', open_dirs (fun _ => true) h D path = Ret (D', true) /\ D ⊆ D' /\
    Forall (fun p => p ∈ D' /\ forall i, 0 <= i < 16 ^ Z.of_nat h -> exists d, bitcask_dir (Z.of_nat h) p i = Ret d /\ d ∈ D') (strsep_all [] path).
Proof.
  intros Hh Hn Hps. destruct (open_dirs_spec (fun _ => true) (fun _ => eq_refl) h D path Hh Hn Hps) as (D' & E & Hs & Hd). exists D'. split; [done|]. split; [done|].
  rewrite Forall_forall in *. intros p Hp. destruct (Hd p Hp) as [Hin Hi]. split; [done|]. intros i Hr. exists (dir_of (Z.of_nat h) p i). split; [|by apply Hi]. apply bitcask_dir_ok; [lia|done|by apply Hps].
Qed.

(** Two homes of height 2 in a directory that exists. *)
Lemma hs_open_makes_dirs_witness :
  exists D', open_dirs (fun _ => true) 2 {[lit "/data"]} (lit "/data/a:/data/b") = Ret (D', true) /\ lit "/data" ∈ D' /\
    exists d, bitcask_dir 2 (lit "/data/b") 0x3f = Ret d /\ d ∈ D'.
Proof.
  destruct (hs_open_makes_dirs 2 {[lit "/data"]} (lit "/data/a:/data/b")) as (D' & E & Hs & H); [lia|by_compute|by_compute|].
  exists D'. split; [done|]. split; [apply Hs; by apply elem_of_singleton|]. rewrite Forall_forall in H. apply (H (lit "/data/b")); [by_compute|by_compute].
Defined.
(** A home of height 1; the directories of height 2 cannot be made without those above
    them, and a home not without its parent. *)
Example demo_dirs :
  (match open_dirs (fun _ => true) 1 {[lit "/d"]} (lit "/d/a") with Ret (D, ok) => (size D, ok, bool_decide (lit "/d/a/f" ∈ D)) | _ => (0%nat, false, false) end) = (18%nat, true, true) /\
  (match bitcask_dirs (fun _ => true) 256 {[lit "/d"; lit "/d/a"]} 2 [lit "/d/a"] 0 with Ret (D, ok) => (size D, ok) | _ => (0%nat, true) end) = (2%nat, false) /\
  (match open_dirs (fun _ => true) 1 {[lit "/d"]} (lit "/missing/a") with Ret (D, ok) => (size D, ok) | _ => (0%nat, true) end) = (1%nat, false).
Proof. vm_compute. repeat split. Qed.

(** ** The space on the disks *)
(** [statvfs]: [f_blocks], [f_bavail] and [f_frsize].  [get_disk_avail] returns the
    free bytes and stores the size; when [statvfs] fails it stores nothing. *)
Definition get_disk_avail (statvfs : bytes -> option (Z * Z * Z)) (path : bytes) : Z * option Z :=
  match statvfs path with
  | None => (0, None)
  | Some (blocks, bavail, frsize) => (u64 (bavail * frsize), Some (u64 (blocks * frsize)))
  end.

(** [mgr_stat]: the size of every disk is added, also one that was not stored. *)
Fixpoint mgr_stat (statvfs : bytes -> option (Z * Z * Z)) (ds : list bytes) (total avail : Z) : outcome (Z * Z) :=
  match ds with
  | [] => Ret (total, avail)
  | d :: r =>
      let '(a, t) := get_disk_avail statvfs d in
      match t with
      | None => Fault
      | Some t => mgr_stat statvfs r (u64 (total + t)) (u64 (avail + a))
      end
  end.

(** The sizes of the disks together. *)
Definition sum_of (f : bytes -> Z) (ds : list bytes) : Z := fold_right (fun d a => f d + a) 0 ds.

Lemma sum_of_nonneg f ds : Forall (fun d => 0 <= f d) ds -> 0 <= sum_of f ds.
Proof. induction 1 as [|d ds Hd _ IH]; cbn [sum_of fold_right]; [done|]. fold (sum_of f ds). lia. Qed.

(** The totals are the sums, while they fit 64 bits; a disk that [statvfs] does not
    know makes [mgr_stat] read a variable that was never set. *)
Lemma mgr_stat_sums statvfs size free ds : forall t a,
  Forall (fun d => exists b x f, statvfs d = Some (b, x, f) /\ size d = b * f /\ free d = x * f) ds ->
  Forall (fun d => 0 <= size d) ds -> Forall (fun d => 0 <= free d) ds -> 0 <= t -> 0 <= a ->
  t + sum_of size ds < 2 ^ 64 -> a + sum_of free ds < 2 ^ 64 -> mgr_stat statvfs ds t a = Ret (t + sum_of size ds, a + sum_of free ds).
Proof.
  induction ds as [|d ds IH]; intros t a Hd Hs Hf Ht Ha Hts Haf; cbn [mgr_stat sum_of fold_right] in *; [by rewrite !Z.add_0_r|]. fold (sum_of size ds) (sum_of free ds) in *.
  apply Forall_cons in Hd as [(b & x & f & E & Es & Ef) Hd]. apply Forall_cons in Hs as [Hs1 Hs]. apply Forall_cons in Hf as [Hf1 Hf].
  pose proof (sum_of_nonneg _ _ Hs). pose proof (sum_of_nonneg _ _ Hf). unfold get_disk_avail. rewrite E, <- Es, <- Ef. unfold u64.
  rewrite (Z.mod_small (size d)), (Z.mod_small (free d)), (Z.mod_small (t + size d)), (Z.mod_small (a + free d)) by lia. rewrite IH by (done || lia). f_equal. f_equal; lia.
Qed.
Example mgr_stat_unset : mgr_stat (fun _ => None) [lit "/db"] 0 0 = Fault.
Proof. reflexivity. Qed.
