(* ===== verification/StoreRestart.v ===== *)
(** * Sessions of a store

    [hs_close] closes the bitcasks one after the other; [hs_open] opens them again.
    What each of them recovers is put together to one map. *)
From Stdlib Require Import ZArith Lia List.
From stdpp Require Import base numbers list list_numbers gmap strings.
From S2P Require Import Prelude Hash CText Codec CodecFacts HTree HTreeMap HTreeSpec Disk DiskFacts Record RecordFacts Buckets BucketsFacts Bitcask BitcaskInv BitcaskLog BitcaskSteps BitcaskSpec BitcaskLife BitcaskHistory Reopen Shutdown Restart HStore HStoreFacts.

(** ** The height of a store never changes *)
Section Height.
Context {C : Type} {KC : KeyCodec C} (env : Env).
Implicit Types (s : HStore C).

Ltac steps :=
  repeat match goal with
         | H : _ ≫= _ = Ret _ |- _ => let E := fresh "E" in apply bind_ret in H as (? & E & H); cbn beta iota in H
         | H : (match ?x with _ => _ end) = Ret _ |- _ => destruct x eqn:?
         | H : Ret _ = Ret _ |- _ => injection H as <- <- || injection H as <-
         end; simplify_eq.

Lemma set_height s key value flag ver now s' ok : hs_set env s key value flag ver now = Ret (s', ok) -> hs_height s' = hs_height s.
Proof. unfold hs_set. intros H. cbv zeta in H. steps; done. Qed.
Lemma get_height s key s' r : starts 64 key = false -> starts 63 key = false -> hs_get env s key = Ret (s', r) -> hs_height s' = hs_height s.
Proof. intros H1 H2 H. rewrite hs_get_plain in H by done. cbv zeta in H. steps; done. Qed.

Ltac heights :=
  repeat match goal with
         | E : hs_get _ _ _ = Ret _ |- _ => apply get_height in E; [|done|done]
         | E : hs_set _ _ _ _ _ _ _ = Ret _ |- _ => apply set_height in E
         end; congruence.
Lemma step_height s r s' a : hreq_ok r -> hs_step env s r = Ret (s', a) -> hs_height s' = hs_height s.
Proof.
  intros Hr H. destruct r as [key value flag version now|key value now|key delta now|key now|key|limit period now]; cbn [hs_step hreq_ok] in *.
  - steps. by eapply set_height.
  - destruct Hr as (_ & K1 & K2). unfold hs_append in H. steps; heights.
  - destruct Hr as (_ & K1 & K2). unfold hs_incr in H. cbv zeta in H. steps; heights.
  - unfold hs_delete in H. cbv zeta in H. steps; done.
  - steps. destruct Hr as (_ & K1 & K2). by eapply get_height.
  - unfold hs_flush in H. steps; done.
Qed.

Lemma run_height rs : forall s s' l, Forall hreq_ok rs -> hs_run env s rs = Ret (s', l) -> hs_height s' = hs_height s.
Proof.
  induction rs as [|r rs IH]; intros s s' l Hrs H; cbn [hs_run] in H; [by injection H as <- _|]. apply Forall_cons in Hrs as [Hr Hrs]. steps.
  transitivity (hs_height h); [by eapply IH|by eapply step_height].
Qed.
End Height.

(** ** Putting the parts together *)
Section Parts.
Context (h : Z) (Hh : 0 <= h <= 3) (M : store) (F : Z -> store).

Definition merged : store := map_imap (fun k _ => F (index_of h k) !! k) M.
Context (HF : forall i, 0 <= i < 16 ^ h -> recovered (part h i M) (F i)).

Lemma merged_lookup k : merged !! k = F (index_of h k) !! k.
Proof.
  unfold merged. rewrite map_lookup_imap. pose proof (HF (index_of h k) (index_range h k Hh) k) as H. rewrite part_lookup in H by done.
  destruct (M !! k); [done|]. by destruct (F (index_of h k) !! k).
Qed.

Lemma merged_part i : 0 <= i < 16 ^ h -> part h i merged = F i.
Proof.
  intros Hi. apply map_eq. intros k. destruct (decide (index_of h k = i)) as [<-|Hne]; [rewrite part_lookup by done; apply merged_lookup|].
  pose proof (HF i Hi k) as H. unfold part in *. rewrite map_lookup_filter_None_2 by (right; intros x _; done). rewrite map_lookup_filter_None_2 in H by (right; intros x _; done).
  by destruct (F i !! k).
Qed.

Lemma merged_recovered : recovered M merged.
Proof.
  intros k. rewrite merged_lookup. pose proof (HF (index_of h k) (index_range h k Hh) k) as H. by rewrite part_lookup in H.
Qed.
End Parts.

Lemma recovered_bytes M M' : recovered M M' -> map_Forall (fun _ v => bytes_ok v.2) M -> map_Forall (fun _ v => bytes_ok v.2) M'.
Proof.
  intros Hr H k v' Hk. specialize (Hr k). rewrite Hk in Hr. destruct (M !! k) as [v|] eqn:E; [|done]. destruct Hr as (_ & _ & ->). by apply (H k).
Qed.

(** ** Closing and opening all bitcasks *)
Section Restarts.
Context {C : Type} {KC : KeyCodec C} {KL : KeyCodecLaws C}.
Context (env : Env).
Context (Hfresh : forall n, length (e_fresh env n) = Z.to_nat n /\ bytes_ok (e_fresh env n)).
Context (Hmax : 2 ^ 27 <= e_max_bucket_size env <= 2 ^ 32 - 2 ^ 27).
Context (Hcheck : e_check_file_size env = false).
Context (path : bytes) (h : Z) (Hh : 0 <= h <= 3) (Hone : single path) (Hne : path <> []) (Hp : blen (home env path) <= 224).
Context (Hok : forall d, e_dir_ok env d = true).
Implicit Types (bc : Bitcask C) (M : store) (s : HStore C).

(** The directory of bitcask [i]. *)
Definition bdir (i : Z) : bytes := dir_of h (home env path) i.
Lemma bdir_short i : blen (bdir i) <= 230.
Proof. apply dir_of_short. Qed.
Let Hmax1 : 2 ^ 27 <= e_max_bucket_size env <= 2 ^ 32 - 2 ^ 26.
Proof. lia. Qed.
Let Hmax0 : 0 <= e_max_bucket_size env <= 2 ^ 32 - 2 ^ 27.
Proof. lia. Qed.

(** A bitcask that can be closed: numbers are left, and its tree can be saved. *)
Definition closable bc : Prop := bc_curr bc <= 253 /\ (1 <= h \/ bc_curr bc <= 2).

(** What closing bitcask [i] leaves behind. *)
Definition leaves (n now i : Z) M (f : fs) : Prop :=
  exists (SN : Snaps) N m L t, N - sn_last <= 5 /\ left_behind (C := C) env (bdir i) n h i N m L f M /\ (settled (bdir i) f now -> snapshot_of (C := C) h i t).

Lemma close_all_spec n M now l : forall k,
  n <= MAX_OPS -> (forall i bc, l !! i = Some bc -> good env bdir h n M (k + Z.of_nat i) bc) -> Forall closable l ->
  exists fl, close_all env l now = Ret fl /\ length fl = length l /\ forall i f, fl !! i = Some f -> leaves n now (k + Z.of_nat i) (part h (k + Z.of_nat i) M) f.
Proof.
  induction l as [|bc l IH]; intros k Hn Hl Hc; [by exists []|]. apply Forall_cons in Hc as [[Hc1 Hc2] Hc]. cbn [close_all].
  destruct (Hl 0%nat bc eq_refl) as ((SN & t0 & Hi & Hsn) & Hfb & Hdp & Hps & _). rewrite Z.add_0_r in *.
  destruct (close_spec env (bdir k) Hfresh (bdir_short k) Hmax1 n bc (part h k M) t0 now) as (f & N & m & L & SN2 & t & -> & HN & Hlb & Ht); rewrite ?Hdp, ?Hps; auto.
  cbn [mbind outcome_bind]. destruct (IH (k + 1)) as (fl & -> & Hlen & Hfl); [done| |done|].
  { intros i b Hb. replace (k + 1 + Z.of_nat i) with (k + Z.of_nat (S i)) by lia. by apply Hl. }
  cbn [mbind outcome_bind]. exists (f :: fl). split; [done|]. split; [simpl; congruence|]. intros [|i] g; cbn [lookup list_lookup].
  - intros [= <-]. rewrite Z.add_0_r. rewrite Hdp, Hps in *. by exists SN2, N, m, L, t.
  - intros Hg. replace (k + Z.of_nat (S i)) with (k + 1 + Z.of_nat i) by lia. by apply Hfl.
Qed.

(** Bitcask [i] opened again: the bitcask before and after its scan. *)
Lemma reopen_one n now M i f names now' :
  n <= MAX_OPS -> 0 <= i < 16 ^ h -> leaves n now i M f -> lists (bdir i) f (names (bdir i)) -> settled (bdir i) f now ->
  exists b0 bc M', bc_open2 (with_listing env names) {| disks := [bdir i] |} f h i 0 now' = Ret b0 /\ bc_scan (with_listing env names) b0 now' = Ret bc /\
    recovered M M' /\ upright env (bdir i) n h i bc M' /\ bc_fb bc = None /\ bc_depth bc = h /\ bc_pos bc = i /\ bc_curr bc <= 255.
Proof.
  intros Hn Hi (SN & N & m & L & t & HN & Hlb & Ht) Hl Hs.
  destruct (opens_again env (bdir i) Hfresh (bdir_short i) Hcheck n h i {| disks := [bdir i] |} N m L f M t names now') as (bc & M' & E & Hinv & Hr & H); [done|lia|done|done|done|by apply Ht|done|].
  unfold bc_opened in E. apply bind_ret in E as (b0 & E1 & E2). exists b0, bc, M'. split; [done|]. split; [done|]. split; [done|]. split; [|done]. exists SN, t. split; [done|by apply Ht].
Qed.

Lemma reopen_all n now M fss names now' k : forall i,
  n <= MAX_OPS -> 0 <= i -> i + Z.of_nat k <= 16 ^ h ->
  (forall j, i <= j < i + Z.of_nat k -> leaves n now j (part h j M) (fss j) /\ lists (bdir j) (fss j) (names (bdir j)) /\ settled (bdir j) (fss j) now) ->
  exists l0 l (F : Z -> store), open_bitcasks (with_listing env names) k fss h 0 now' [path] i = Ret (Some l0) /\
    each_bitcask (fun bc => bc_scan (with_listing env names) bc now') l0 = Ret l /\ length l = k /\
    forall j bc, l !! j = Some bc -> recovered (part h (i + Z.of_nat j) M) (F (i + Z.of_nat j)) /\
      upright env (bdir (i + Z.of_nat j)) n h (i + Z.of_nat j) bc (F (i + Z.of_nat j)) /\ bc_fb bc = None /\ bc_depth bc = h /\ bc_pos bc = i + Z.of_nat j /\ bc_curr bc <= 255.
Proof.
  induction k as [|k IH]; intros i Hn Hi Hk Hall; [by exists [], [], (fun _ => ∅)|]. destruct (Hall i ltac:(lia)) as (Hlv & Hls & Hst). cbn [open_bitcasks dirs_of].
  destruct (absolute_dir h (e_cwd env) path i Hh ltac:(lia) Hne Hp) as (d & -> & Ed). cbn [mbind outcome_bind]. unfold mgr_create. cbn [forallb List.map with_listing e_dir_ok e_cwd]. rewrite Hok, Ed. cbn [andb].
  change (dir_of h (absolute (e_cwd env) path) i) with (bdir i). destruct (reopen_one n now (part h i M) i (fss i) names now' Hn ltac:(lia) Hlv Hls Hst) as (b0 & bc & M0 & -> & E2 & Hr & H). cbn [mbind outcome_bind].
  destruct (IH (i + 1)) as (l0 & l & F & -> & E3 & Hlen & HF); [done|lia|lia|intros j Hj; apply Hall; lia|]. cbn [mbind outcome_bind fmap option_fmap option_map].
  exists (b0 :: l0), (bc :: l), (fun j => if j =? i then M0 else F j). split; [done|]. cbn [each_bitcask]. rewrite E2. cbn [mbind outcome_bind]. rewrite E3. split; [done|]. split; [simpl; congruence|].
  intros [|j] b; cbn [lookup list_lookup].
  - intros [= <-]. rewrite Z.add_0_r, Z.eqb_refl. done.
  - intros Hb. replace (i + Z.of_nat (S j)) with (i + 1 + Z.of_nat j) by lia. rewrite (proj2 (Z.eqb_neq _ i)) by lia. by apply HF.
Qed.

Lemma reopen_store n now s M fl names now' :
  n <= MAX_OPS -> hinv env bdir n s M -> hs_height s = h -> Z.of_nat (length fl) = 16 ^ h ->
  (forall i f, fl !! i = Some f -> leaves n now (Z.of_nat i) (part h (Z.of_nat i) M) f /\ lists (bdir (Z.of_nat i)) f (names (bdir (Z.of_nat i))) /\ settled (bdir (Z.of_nat i)) f now) ->
  exists s' M', hs_open (with_listing env names) (fun i => default ∅ (fl !! Z.to_nat i)) path h 0 now' = Ret (Some s') /\ recovered M M' /\ hinv env bdir n s' M' /\ hs_height s' = h.
Proof.
  intros Hn Hi Hht Hlen Hfl. assert (Hpow : 0 < 16 ^ h) by (apply Z.pow_pos_nonneg; lia). rewrite (hs_open_one (with_listing env names)) by done.
  destruct (reopen_all n now M (fun i => default ∅ (fl !! Z.to_nat i)) names now' (Z.to_nat (16 ^ h)) 0) as (l0 & l & F & -> & E2 & Hl & HF); [done|done|lia| |].
  { intros j Hj. destruct (lookup_lt_is_Some_2 fl (Z.to_nat j) ltac:(lia)) as [f Hf]. rewrite Hf. cbn [default]. specialize (Hfl _ _ Hf). by rewrite Z2Nat.id in Hfl by lia. }
  cbn [mbind outcome_bind]. rewrite E2. cbn [mbind outcome_bind]. assert (HF' : forall i, 0 <= i < 16 ^ h -> recovered (part h i M) (F i)).
  { intros i Hi'. destruct (lookup_lt_is_Some_2 l (Z.to_nat i) ltac:(lia)) as [bc Hb]. destruct (HF _ _ Hb) as [Hr _]. by rewrite Z.add_0_l, Z2Nat.id in Hr by lia. }
  pose proof (merged_recovered h Hh M F HF') as Hrec. eexists _, (merged h M F). split; [done|]. split; [done|]. split; [|done].
  constructor; cbn [hs_height hs_before hs_bitcasks]; auto; [lia| |eapply recovered_vers; [exact Hrec|apply Hi]|eapply recovered_bytes; [exact Hrec|apply Hi]].
  intros i bc Hb. destruct (HF i bc Hb) as (_ & Hu & H). rewrite Z.add_0_l in *. split; [|done]. rewrite merged_part; [done|done|done|]. apply lookup_lt_Some in Hb. lia.
Qed.

(** ** Sessions *)
Record hsession := { hss_requests : list hreq; hss_close : Z; hss_open : Z }.

Fixpoint hsessions_ok s M (ss : list hsession) : Prop :=
  match ss with
  | [] => True
  | x :: ss =>
      (exists s1, hs_run env s (hss_requests x) = Ret (s1, (spec_hrun M (hss_requests x)).2) /\
         (Forall closable (hs_bitcasks s1) ->
          exists fl, hs_close env s1 (hss_close x) = Ret fl /\
            forall names, (forall i f, fl !! i = Some f -> lists (bdir (Z.of_nat i)) f (names (bdir (Z.of_nat i))) /\ settled (bdir (Z.of_nat i)) f (hss_close x)) ->
              exists s' M', hs_open (with_listing env names) (fun i => default ∅ (fl !! Z.to_nat i)) path h 0 (hss_open x) = Ret (Some s') /\
                recovered (spec_hrun M (hss_requests x)).1 M' /\ hsessions_ok s' M' ss)) \/
      (exists rs1 rs2 s1, hss_requests x = rs1 ++ rs2 /\ hs_run env s rs1 = Ret (s1, (spec_hrun M rs1).2) /\ exhausted s1)
  end.

Lemma hsessions_spec ss : forall n s M,
  hinv env bdir n s M -> hs_height s = h -> Forall (fun x => Forall hreq_ok (hss_requests x)) ss ->
  0 <= n -> n + Z.of_nat (length (flat_map hss_requests ss)) <= MAX_OPS -> hsessions_ok s M ss.
Proof.
  induction ss as [|x ss IH]; intros n s M Hi Hht Hrs Hn Hlen; [done|]. apply Forall_cons in Hrs as [Hr Hrs]. cbn [hsessions_ok flat_map] in *. rewrite length_app in Hlen.
  destruct (hrun_reached env Hfresh Hmax0 bdir bdir_short n s M (hss_requests x) Hi Hn ltac:(lia) Hr) as [(s1 & E & Hi1)|H]; [|by right].
  left. exists s1. split; [done|]. intros Hcl. pose proof (run_height env _ _ _ _ Hr E) as H1. rewrite Hht in H1. pose proof Hi1 as []. rewrite H1 in *.
  destruct (close_all_spec (n + Z.of_nat (length (hss_requests x))) (spec_hrun M (hss_requests x)).1 (hss_close x) (hs_bitcasks s1) 0) as (fl & Ef & Hfl & Hlv); [lia|exact hi_each|done|].
  exists fl. split; [done|]. intros names Hn'. destruct (reopen_store (n + Z.of_nat (length (hss_requests x))) (hss_close x) s1 (spec_hrun M (hss_requests x)).1 fl names (hss_open x)) as (s' & M' & Eo & Hrec & Hi' & Hht');
    [lia|done|done|by rewrite Hfl|intros i f Hf; split; [by apply (Hlv i)|by apply Hn']|].
  exists s', M'. split; [done|]. split; [done|]. apply (IH (n + Z.of_nat (length (hss_requests x)))); [done|done|done|lia|lia].
Qed.

(** C7. Restarts keep the data of a store.  A store of 1, 16, 256 or 4096 bitcasks
    that was opened on empty directories goes through any number of sessions: in
    each it answers as one map, then all its bitcasks are closed, and opened again
    on the files they left behind, in whatever order the kernel lists them, they
    hold together every live entry with its flag and value. *)
Theorem store_survives_restarts now ss :
  (forall d, e_readdir env d = []) -> Forall (fun x => Forall hreq_ok (hss_requests x)) ss -> Z.of_nat (length (flat_map hss_requests ss)) <= MAX_OPS ->
  exists s, hs_open (C := C) env (fun _ => ∅) path h 0 now = Ret (Some s) /\ hsessions_ok s ∅ ss.
Proof.
  intros Hrd Hrs Hlen. exists (empty_store h (home env path) now). split; [by apply open_store|].
  apply (hsessions_spec ss 0); [by apply empty_hinv|done|done|lia|lia].
Qed.
End Restarts.

(** Two sessions of a store of 16 bitcasks. *)
Definition demo_hsessions : list hsession :=
  [{| hss_requests := demo_requests; hss_close := 200; hss_open := 300 |};
   {| hss_requests := [HGet (lit "photo"); HIncr (lit "hits") 1 301; HAppend (lit "log") (lit "three") 302]; hss_close := 400; hss_open := 500 |}].

Lemma store_survives_restarts_witness :
  exists s, hs_open (C := Codec) (quiet_env (2 ^ 28)) (fun _ => ∅) (lit "/db") 1 0 99 = Ret (Some s) /\
    hsessions_ok (quiet_env (2 ^ 28)) (lit "/db") 1 s ∅ demo_hsessions.
Proof.
  apply (store_survives_restarts (quiet_env (2 ^ 28))).
  - intros n. apply zeros_ok.
  - split; vm_compute; discriminate.
  - reflexivity.
  - lia.
  - by_compute.
  - discriminate.
  - vm_compute. discriminate.
  - reflexivity.
  - reflexivity.
  - by_compute.
  - vm_compute. discriminate.
Defined.

(** The answers of the second session. *)
Definition restarted_store : outcome (list hans) :=
  let env := quiet_env (2 ^ 28) in
  s ← hs_open (C := Codec) env (fun _ => ∅) (lit "/db") 1 0 99;
  match s with
  | None => Fault
  | Some s =>
      '(s, _) ← hs_run env s demo_requests;
      fl ← hs_close env s 200;
      let names d := List.concat (List.map (fun i => let x := dir_of 1 (lit "/db") i in if bool_decide (x = d) then listing x (default ∅ (fl !! Z.to_nat i)) else []) (seqZ 0 16)) in
      s ← hs_open (with_listing env names) (fun i => default ∅ (fl !! Z.to_nat i)) (lit "/db") 1 0 300;
      match s with
      | None => Fault
      | Some s => '(_, l) ← hs_run env s [HGet (lit "photo"); HGet (lit "log"); HIncr (lit "hits") 1 301]; Ret l
      end
  end.
Example demo_restarted_store : restarted_store = Ret [HValue (Some (repeat 97 700, 3)); HValue None; HCount 43].
Proof. vm_compute. reflexivity. Qed.
