(* ===== verification/Protocol.v ===== *)
(** * The server's connections (beansdb.c, item.c)

    A connection is a state machine driven by what the socket delivers and
    accepts.  This file models the parsing of command lines, every command but
    the figures of [stats], the building of replies as lists of buffers, their
    transmission in pieces, and [drive_machine] (for accepted connections).  The
    socket is a list of results of the [read] and [sendmsg] calls to come. *)
From Stdlib Require Import ZArith Lia List.
From stdpp Require Import base numbers list gmap strings.
From S2P Require Import Prelude Hash CText Codec HTree Disk Record Bitcask HStore.

Definition DATA_BUFFER_SIZE : Z := 2048.
Definition MAX_PAYLOAD_SIZE : Z := 1400.
Definition READ_BUFFER_HIGHWAT : Z := 8192.
Definition IOV_MAX : Z := 1024.
Definition INCR_MAX_STORAGE_LEN : Z := 24.
Definition MAX_VERBOSITY_LEVEL : Z := 2.
Definition MAX_TOKENS : Z := 8.
Definition crlf : bytes := [13; 10].

(** ** Items *)
(** [struct _stritem]: the data is what was read or copied so far. *)
Record item := { i_ver : Z; i_flag : Z; i_nbytes : Z; i_key : bytes; i_suffix : bytes; i_data : bytes }.

(** [" %d %d\r\n"] *)
Definition item_suffix (flags nbytes : Z) : bytes :=
  [32] ++ print_d (s32 flags) ++ [32] ++ print_d (s32 (nbytes - 2)) ++ crlf.
(** [item_make_header]: [sizeof(item)] is 16; the sum is a [size_t]. *)
Definition item_ntotal (nkey flags nbytes : Z) : Z :=
  u64 (16 + u8 (nkey + 1) + blen (item_suffix flags nbytes) + nbytes).

(** [item_alloc1]: [None] when there is no memory of that size. *)
Definition item_alloc1 (malloc_ok : Z -> bool) (item_buf_size : Z) (key : bytes) (flags nbytes : Z)
  : outcome (option item) :=
  suffix ← print_path 40 (item_suffix flags nbytes);
  let ntotal := item_ntotal (blen key) flags nbytes in
  if malloc_ok (Z.max ntotal item_buf_size)
  then Ret (Some {| i_ver := 0; i_flag := 0; i_nbytes := nbytes; i_key := key; i_suffix := suffix; i_data := [] |})
  else Ret None.

(** ** Tokens *)
(** [tokenize_command] on a C string: [s] is the token being collected, [n] the
    number of tokens still allowed.  The result is the tokens before the terminal
    one, and the unprocessed rest ([None] is the null pointer). *)
Fixpoint tokenize (n : nat) (s e : bytes) : list bytes * option bytes :=
  match n with
  | O => ([], match e with [] => None | _ => Some e end)
  | S n' =>
      match e with
      | [] => (match s with [] => [] | _ => [s] end, None)
      | c :: e' =>
          if c =? 32 then
            match s with
            | [] => tokenize n [] e'
            | _ => let '(ts, rest) := tokenize n' [] e' in (s :: ts, rest)
            end
          else tokenize n (s ++ [c]) e'
      end
  end.
Definition tokenize_command (command : bytes) : list bytes * option bytes :=
  tokenize (Z.to_nat (MAX_TOKENS - 1)) [] command.

(** [safe_strtoull] *)
Definition safe_strtoull (str : bytes) : option Z :=
  let '(l, erange) := strtoul 10 str in
  if erange then None else
  let n := st_used (strto_scan 10 str) in
  match str !! n with
  | Some c => if isspace c then Some l else None
  | None => if (n =? 0)%nat then None else Some l
  end.

(** ** Connections *)
Inductive conn_state := conn_read | conn_write | conn_nread | conn_swallow | conn_closing | conn_mwrite.
#[export] Instance conn_state_eq_dec : EqDecision conn_state.
Proof. solve_decision. Defined.

Inductive nread_comm := NREAD_SET | NREAD_APPEND.

(** [c_rbuf] is what was read and not yet used ([rcurr], [rbytes]); [c_msgs] the
    messages to send, each a list of buffers, from [msgcurr] on; [c_iovused] is
    only ever tested against 0. *)
Record conn := {
  c_state : conn_state;
  c_rbuf : bytes;
  c_rsize : Z;
  c_wbuf : bytes;
  c_write_and_go : conn_state;
  c_noreply : bool;
  c_item : option item;
  c_item_comm : nread_comm;
  c_rlbytes : Z;
  c_sbytes : Z;
  c_msgs : list (list bytes);
  c_msgbytes : Z;
  c_iovused : Z
}.

Record Stats := {
  get_cmds : Z; set_cmds : Z; delete_cmds : Z; get_hits : Z; get_misses : Z;
  bytes_read : Z; bytes_written : Z
}.

Record Server (C : Type) := { sv_store : HStore C; sv_verbose : Z; sv_stats : Stats; sv_quit : bool }.
Arguments sv_store {C}.
Arguments sv_verbose {C}.
Arguments sv_stats {C}.
Arguments sv_quit {C}.

(** [conn_new(sfd, conn_read, DATA_BUFFER_SIZE)] *)
Definition conn_new : conn :=
  {| c_state := conn_read; c_rbuf := []; c_rsize := DATA_BUFFER_SIZE; c_wbuf := [];
     c_write_and_go := conn_read; c_noreply := false; c_item := None; c_item_comm := NREAD_SET;
     c_rlbytes := 0; c_sbytes := 0; c_msgs := []; c_msgbytes := 0; c_iovused := 0 |}.

(** [conn_set_state] with the part of [conn_shrink] about the read buffer. *)
Definition conn_set_state (c : conn) (st : conn_state) : conn :=
  let rsize := if bool_decide (st <> c_state c) && bool_decide (st = conn_read)
                  && (READ_BUFFER_HIGHWAT <? c_rsize c) && (blen (c_rbuf c) <? DATA_BUFFER_SIZE)
               then DATA_BUFFER_SIZE else c_rsize c in
  {| c_state := st; c_rbuf := c_rbuf c; c_rsize := rsize; c_wbuf := c_wbuf c;
     c_write_and_go := c_write_and_go c; c_noreply := c_noreply c; c_item := c_item c;
     c_item_comm := c_item_comm c; c_rlbytes := c_rlbytes c; c_sbytes := c_sbytes c;
     c_msgs := c_msgs c; c_msgbytes := c_msgbytes c; c_iovused := c_iovused c |}.

Definition with_rbuf (c : conn) (b : bytes) (rsize : Z) : conn :=
  {| c_state := c_state c; c_rbuf := b; c_rsize := rsize; c_wbuf := c_wbuf c;
     c_write_and_go := c_write_and_go c; c_noreply := c_noreply c; c_item := c_item c;
     c_item_comm := c_item_comm c; c_rlbytes := c_rlbytes c; c_sbytes := c_sbytes c;
     c_msgs := c_msgs c; c_msgbytes := c_msgbytes c; c_iovused := c_iovused c |}.
Definition with_noreply (c : conn) (b : bool) : conn :=
  {| c_state := c_state c; c_rbuf := c_rbuf c; c_rsize := c_rsize c; c_wbuf := c_wbuf c;
     c_write_and_go := c_write_and_go c; c_noreply := b; c_item := c_item c;
     c_item_comm := c_item_comm c; c_rlbytes := c_rlbytes c; c_sbytes := c_sbytes c;
     c_msgs := c_msgs c; c_msgbytes := c_msgbytes c; c_iovused := c_iovused c |}.
Definition with_wbuf (c : conn) (b : bytes) (go : conn_state) : conn :=
  {| c_state := c_state c; c_rbuf := c_rbuf c; c_rsize := c_rsize c; c_wbuf := b;
     c_write_and_go := go; c_noreply := c_noreply c; c_item := c_item c;
     c_item_comm := c_item_comm c; c_rlbytes := c_rlbytes c; c_sbytes := c_sbytes c;
     c_msgs := c_msgs c; c_msgbytes := c_msgbytes c; c_iovused := c_iovused c |}.
Definition with_item (c : conn) (it : option item) (comm : nread_comm) (rl : Z) : conn :=
  {| c_state := c_state c; c_rbuf := c_rbuf c; c_rsize := c_rsize c; c_wbuf := c_wbuf c;
     c_write_and_go := c_write_and_go c; c_noreply := c_noreply c; c_item := it;
     c_item_comm := comm; c_rlbytes := rl; c_sbytes := c_sbytes c;
     c_msgs := c_msgs c; c_msgbytes := c_msgbytes c; c_iovused := c_iovused c |}.
Definition with_sbytes (c : conn) (n : Z) : conn :=
  {| c_state := c_state c; c_rbuf := c_rbuf c; c_rsize := c_rsize c; c_wbuf := c_wbuf c;
     c_write_and_go := c_write_and_go c; c_noreply := c_noreply c; c_item := c_item c;
     c_item_comm := c_item_comm c; c_rlbytes := c_rlbytes c; c_sbytes := n;
     c_msgs := c_msgs c; c_msgbytes := c_msgbytes c; c_iovused := c_iovused c |}.
Definition with_msgs (c : conn) (m : list (list bytes)) (mb iu : Z) : conn :=
  {| c_state := c_state c; c_rbuf := c_rbuf c; c_rsize := c_rsize c; c_wbuf := c_wbuf c;
     c_write_and_go := c_write_and_go c; c_noreply := c_noreply c; c_item := c_item c;
     c_item_comm := c_item_comm c; c_rlbytes := c_rlbytes c; c_sbytes := c_sbytes c;
     c_msgs := m; c_msgbytes := mb; c_iovused := iu |}.

(** ** Replies *)
(** [add_msghdr] *)
Definition add_msghdr (c : conn) : conn := with_msgs c (c_msgs c ++ [[]]) 0 (c_iovused c).

(** Append a buffer to the last message. *)
Fixpoint push_iov (m : list (list bytes)) (b : bytes) : list (list bytes) :=
  match m with
  | [] => []
  | [l] => [l ++ [b]]
  | l :: r => l :: push_iov r b
  end.

(** [add_iov(c, buf, len)]: the first message is limited to [MAX_PAYLOAD_SIZE]
    bytes; every round but the last fills it up. *)
Fixpoint add_iov (fuel : nat) (c : conn) (buf : bytes) : outcome conn :=
  match fuel with
  | O => Fault
  | S k =>
      match last (c_msgs c) with
      | None => Fault
      | Some m =>
          let limit_to_mtu := (length (c_msgs c) =? 1)%nat in
          let c := if (Z.of_nat (length m) =? IOV_MAX)
                      || (limit_to_mtu && (MAX_PAYLOAD_SIZE <=? c_msgbytes c))
                   then add_msghdr c else c in
          let len := blen buf in
          let leftover := if limit_to_mtu && (MAX_PAYLOAD_SIZE <? len + c_msgbytes c)
                          then len + c_msgbytes c - MAX_PAYLOAD_SIZE else 0 in
          let n := len - leftover in
          let c := with_msgs c (push_iov (c_msgs c) (take (Z.to_nat n) buf)) (c_msgbytes c + n)
                     (c_iovused c + 1) in
          if 0 <? leftover then add_iov k c (drop (Z.to_nat n) buf) else Ret c
      end
  end.
Definition IOV_FUEL : nat := 3.

(** [out_string(c, str)] *)
Definition out_string (c : conn) (str : bytes) : outcome conn :=
  if c_noreply c then Ret (conn_set_state (with_noreply c false) conn_read)
  else
    let str := if DATA_BUFFER_SIZE <? blen str + 2 then lit "SERVER_ERROR output line too long" else str in
    Ret (with_wbuf (conn_set_state c conn_write) (str ++ crlf) conn_read).

(** [set_noreply_maybe]: is the last token [noreply]? *)
Definition set_noreply_maybe (c : conn) (tokens : list bytes) : conn :=
  match last tokens with
  | Some t => if bool_decide (t = lit "noreply") then with_noreply c true else c
  | None => c
  end.

Definition bad_line : bytes := lit "CLIENT_ERROR bad command line format".

(** [strtol] and the like set [errno] to [ERANGE]; nothing here sets [EINVAL]. *)
Definition erange (base : Z) (signed : bool) (t : bytes) : bool :=
  snd (if signed then strtol base t else strtoul base t).

(** What the server takes from its environment beyond the store's: which sizes
    [malloc] can serve, the size of pooled items, the text of [stats], the
    version string, whether [stopme] is allowed, and [errno] left by others. *)
Record ServerEnv := {
  se_env : Env;
  se_malloc_ok : Z -> bool;
  se_item_buf_size : Z;
  se_stats_text : Stats -> Z -> Z -> Z -> bytes;
  se_version : bytes;
  se_stopme : bool;
  se_einval : bool
}.

Section Server.
Context {C : Type} {KC : KeyCodec C} (se : ServerEnv).
Implicit Types sv : Server C.

Definition with_store sv (s : HStore C) : Server C :=
  {| sv_store := s; sv_verbose := sv_verbose sv; sv_stats := sv_stats sv; sv_quit := sv_quit sv |}.
Definition with_stats sv (x : Stats) : Server C :=
  {| sv_store := sv_store sv; sv_verbose := sv_verbose sv; sv_stats := x; sv_quit := sv_quit sv |}.

(** The counters of commands. *)
Definition count_get sv (cmds hits misses : Z) : Server C :=
  let x := sv_stats sv in
  with_stats sv {| get_cmds := u64 (get_cmds x + cmds); set_cmds := set_cmds x; delete_cmds := delete_cmds x;
                   get_hits := u64 (get_hits x + hits); get_misses := u64 (get_misses x + misses);
                   bytes_read := bytes_read x; bytes_written := bytes_written x |}.
Definition count_set sv : Server C :=
  let x := sv_stats sv in
  with_stats sv {| get_cmds := get_cmds x; set_cmds := u64 (set_cmds x + 1); delete_cmds := delete_cmds x;
                   get_hits := get_hits x; get_misses := get_misses x;
                   bytes_read := bytes_read x; bytes_written := bytes_written x |}.
Definition count_delete sv : Server C :=
  let x := sv_stats sv in
  with_stats sv {| get_cmds := get_cmds x; set_cmds := set_cmds x; delete_cmds := u64 (delete_cmds x + 1);
                   get_hits := get_hits x; get_misses := get_misses x;
                   bytes_read := bytes_read x; bytes_written := bytes_written x |}.
Definition count_io sv (rd wr : Z) : Server C :=
  let x := sv_stats sv in
  with_stats sv {| get_cmds := get_cmds x; set_cmds := set_cmds x; delete_cmds := delete_cmds x;
                   get_hits := get_hits x; get_misses := get_misses x;
                   bytes_read := u64 (bytes_read x + rd); bytes_written := u64 (bytes_written x + wr) |}.
Definition stats_reset sv : Server C :=
  with_stats sv {| get_cmds := 0; set_cmds := 0; delete_cmds := 0; get_hits := 0; get_misses := 0;
                   bytes_read := 0; bytes_written := 0 |}.

(** [item_get] *)
Definition item_get sv (key : bytes) : outcome (Server C * option item) :=
  '(s, r) ← hs_get (se_env se) (sv_store sv) key;
  match r with
  | None => Ret (with_store sv s, None)
  | Some (value, flag) =>
      it ← item_alloc1 (se_malloc_ok se) (se_item_buf_size se) key flag (s32 (blen value + 2));
      Ret (with_store sv s,
           match it with
           | Some it => Some {| i_ver := i_ver it; i_flag := i_flag it; i_nbytes := i_nbytes it;
                                i_key := i_key it; i_suffix := i_suffix it; i_data := value ++ crlf |}
           | None => None
           end)
  end.

(** The three buffers of one value. *)
Definition add_value (c : conn) (it : item) : outcome conn :=
  c ← add_iov IOV_FUEL c (lit "VALUE ");
  c ← add_iov IOV_FUEL c (i_key it);
  add_iov IOV_FUEL c (i_suffix it ++ i_data it).

(** How a run over keys ends: at a key that is too long, or at the end. *)
Fixpoint get_keys sv (c : conn) (keys : list bytes) (cmds hits misses : Z)
  : outcome (Server C * conn * bool * (Z * Z * Z)) :=
  match keys with
  | [] => Ret (sv, c, true, (cmds, hits, misses))
  | key :: r =>
      if MAX_KEY_LEN <? blen key then Ret (sv, c, false, (cmds, hits, misses))
      else
        '(sv, it) ← item_get sv key;
        match it with
        | Some it => c ← add_value c it; get_keys sv c r (cmds + 1) (hits + 1) misses
        | None => get_keys sv c r (cmds + 1) hits (misses + 1)
        end
  end.

(** [process_get_command]: the keys of this set of tokens, then of the next ones. *)
Fixpoint get_tokens (fuel : nat) sv (c : conn) (keys : list bytes) (rest : option bytes) (cmds hits misses : Z)
  : outcome (Server C * conn) :=
  match fuel with
  | O => Fault
  | S k =>
      '(sv, c, ok, n) ← get_keys sv c keys cmds hits misses;
      let '(cmds, hits, misses) := n in
      if negb ok then
        c ← out_string c bad_line; Ret (count_get sv cmds hits misses, c)
      else
        match rest with
        | Some rest =>
            let '(keys, rest) := tokenize_command rest in get_tokens k sv c keys rest cmds hits misses
        | None =>
            c ← add_iov IOV_FUEL c (lit "END" ++ crlf);
            Ret (count_get sv cmds hits misses, conn_set_state c conn_mwrite)
        end
  end.
Definition process_get_command sv (c : conn) (tokens : list bytes) (rest : option bytes)
  : outcome (Server C * conn) :=
  get_tokens (S (length (default [] rest))) sv c (drop 1 tokens) rest 0 0 0.

(** [process_update_command]: the item is dereferenced before it is tested. *)
Definition process_update_command sv (c : conn) (tokens : list bytes) (comm : nread_comm)
  : outcome (Server C * conn) :=
  let c := set_noreply_maybe c tokens in
  key ← fetch tokens 1;
  if MAX_KEY_LEN <? blen key then c ← out_string c bad_line; Ret (sv, c)
  else
    tf ← fetch tokens 2; te ← fetch tokens 3; tv ← fetch tokens 4;
    let flags := s32 (fst (strtoul 10 tf)) in
    let exptime := fst (strtol 10 te) in
    let vlen := s32 (fst (strtol 10 tv)) in
    if erange 10 false tf || erange 10 true te || erange 10 true tv || (vlen <? 0) then
      c ← out_string c bad_line; Ret (sv, c)
    else
      let nbytes := s32 (vlen + 2) in
      it ← item_alloc1 (se_malloc_ok se) (se_item_buf_size se) key flags nbytes;
      match it with
      | None => Fault
      | Some it =>
          let it := {| i_ver := s32 exptime; i_flag := u32 flags; i_nbytes := i_nbytes it;
                       i_key := i_key it; i_suffix := i_suffix it; i_data := [] |} in
          Ret (sv, conn_set_state (with_item c (Some it) comm nbytes) conn_nread)
      end.

Definition store_item sv (it : item) (comm : nread_comm) (now : Z) : outcome (Server C * bool) :=
  let data := take (Z.to_nat (i_nbytes it - 2)) (i_data it) in
  '(s, ok) ← (match comm with
              | NREAD_SET => hs_set (se_env se) (sv_store sv) (i_key it) data (i_flag it) (i_ver it) now
              | NREAD_APPEND => hs_append (se_env se) (sv_store sv) (i_key it) data now
              end);
  Ret (with_store sv s, ok).

(** [complete_nread] *)
Definition complete_nread sv (c : conn) (now : Z) : outcome (Server C * conn) :=
  match c_item c with
  | None => Fault
  | Some it =>
      let sv := count_set sv in
      '(sv, c) ←
        (if negb (bool_decide (drop (Z.to_nat (i_nbytes it - 2)) (i_data it) = crlf)) then
           c ← out_string c (lit "CLIENT_ERROR bad data chunk"); Ret (sv, c)
         else
           '(sv, ok) ← store_item sv it (c_item_comm c) now;
           c ← out_string c (if (ok : bool) then lit "STORED" else lit "NOT_STORED"); Ret (sv, c));
      Ret (sv, with_item c None (c_item_comm c) (c_rlbytes c))
  end.

(** [process_arithmetic_command] with [add_delta] *)
Definition process_arithmetic_command sv (c : conn) (tokens : list bytes) (now : Z) : outcome (Server C * conn) :=
  let c := set_noreply_maybe c tokens in
  let sv := count_set sv in
  key ← fetch tokens 1;
  if MAX_KEY_LEN <? blen key then c ← out_string c bad_line; Ret (sv, c)
  else
    td ← fetch tokens 2;
    match safe_strtoull td with
    | None => c ← out_string c (lit "CLIENT_ERROR invalid numeric delta argument"); Ret (sv, c)
    | Some delta =>
        '(s, v) ← hs_incr (se_env se) (sv_store sv) key (s64 delta) (se_einval se) now;
        b ← print_path INCR_MAX_STORAGE_LEN (print_u (u64 v));
        c ← out_string c b; Ret (with_store sv s, c)
    end.

Definition process_delete_command sv (c : conn) (tokens : list bytes) (now : Z) : outcome (Server C * conn) :=
  let c := set_noreply_maybe c tokens in
  let sv := count_delete sv in
  key ← fetch tokens 1;
  if MAX_KEY_LEN <? blen key then c ← out_string c bad_line; Ret (sv, c)
  else
    '(s, ok) ← hs_delete (se_env se) (sv_store sv) key now;
    c ← out_string c (if (ok : bool) then lit "DELETED" else lit "NOT_FOUND");
    Ret (with_store sv s, c).

Definition process_stat sv (c : conn) (tokens : list bytes) : outcome (Server C * conn) :=
  match tokens with
  | [_] =>
      '(s, total, curr) ← hs_count (sv_store sv);
      let sv := with_store sv s in
      c ← out_string c (se_stats_text se (sv_stats sv) total curr (hs_stat s)); Ret (sv, c)
  | _ :: sub :: _ =>
      if bool_decide (sub = lit "reset") then c ← out_string c (lit "RESET"); Ret (stats_reset sv, c)
      else c ← out_string c (lit "ERROR"); Ret (sv, c)
  | [] => c ← out_string c (lit "CLIENT_ERROR bad command line"); Ret (sv, c)
  end.

Definition process_verbosity_command sv (c : conn) (tokens : list bytes) : outcome (Server C * conn) :=
  let c := set_noreply_maybe c tokens in
  t ← fetch tokens 1;
  if erange 10 false t then c ← out_string c bad_line; Ret (sv, c)
  else
    let level := u32 (fst (strtoul 10 t)) in
    c ← out_string c (lit "OK");
    Ret ({| sv_store := sv_store sv; sv_verbose := Z.min level MAX_VERBOSITY_LEVEL;
            sv_stats := sv_stats sv; sv_quit := sv_quit sv |}, c).

(** The command [flush_all]: start a garbage collection. *)
Definition process_flush_all sv (c : conn) (tokens : list bytes) : outcome (Server C * conn) :=
  let c := set_noreply_maybe c tokens in
  let n := Z.of_nat (length tokens) + 1 - b2z (c_noreply c) in
  limit ← (if 3 <=? n then t ← fetch tokens 1; Ret (safe_strtol t 10) else Ret (Some 10000));
  match limit with
  | None => c ← out_string c bad_line; Ret (sv, c)
  | Some limit =>
      tree ← (if 4 <=? n then fetch tokens 2 else Ret [64]);
      let '(s, ret) := hs_optimize (sv_store sv) limit tree in
      c ← out_string c (if ret =? 0 then lit "OK" else if ret =? -1 then lit "ERROR READ_ONLY"
                        else if ret =? -2 then lit "ERROR OPTIMIZE_RUNNING" else bad_line);
      Ret (with_store sv s, c)
  end.

Definition process_optimize_stat sv (c : conn) : outcome (Server C * conn) :=
  let ret := hs_optimize_stat (sv_store sv) in
  c ← out_string c (if 0 <=? ret then lit "running bitcast 0x" ++ print_x ret
                    else if ret =? -1 then lit "success" else lit "fail");
  Ret (sv, c).

(** [process_command(c, command)]; [n] counts the terminal token. *)
Definition process_command sv (c : conn) (command : bytes) (now : Z) : outcome (Server C * conn) :=
  let c := add_msghdr (with_msgs c [] (c_msgbytes c) 0) in
  let '(tokens, rest) := tokenize_command command in
  let n := Z.of_nat (length tokens) + 1 in
  let cmd s := bool_decide (head tokens = Some (lit s)) in
  if (3 <=? n) && cmd "get" then process_get_command sv c tokens rest
  else if ((n =? 6) || (n =? 7)) && cmd "set" then process_update_command sv c tokens NREAD_SET
  else if ((n =? 6) || (n =? 7)) && cmd "append" then process_update_command sv c tokens NREAD_APPEND
  else if ((n =? 4) || (n =? 5)) && cmd "incr" then process_arithmetic_command sv c tokens now
  else if (3 <=? n) && (n <=? 4) && cmd "delete" then process_delete_command sv c tokens now
  else if (2 <=? n) && cmd "stats" then process_stat sv c tokens
  else if (n =? 2) && cmd "version" then
    c ← out_string c (lit "VERSION " ++ se_version se); Ret (sv, c)
  else if (n =? 2) && cmd "quit" then Ret (sv, conn_set_state c conn_closing)
  else if (n =? 3) && cmd "verbosity" then process_verbosity_command sv c tokens
  else if (n =? 2) && cmd "optimize_stat" then process_optimize_stat sv c
  else if (2 <=? n) && (n <=? 4) && cmd "flush_all" then process_flush_all sv c tokens
  else if se_stopme se && (n =? 2) && cmd "stopme" then
    Ret ({| sv_store := sv_store sv; sv_verbose := sv_verbose sv; sv_stats := sv_stats sv; sv_quit := true |}, c)
  else c ← out_string c (lit "ERROR"); Ret (sv, c).

(** ** The socket *)
Inductive rd_result := RData (b : bytes) | REof | RAgain | RErr.
Inductive wr_result := WSent (n : Z) | WAgain | WErr.
(** The results to come, and what was sent. *)
Record Sock := { s_in : list rd_result; s_out : list wr_result; s_sent : bytes }.

(** [read(fd, buf, n)]: data longer than asked for stays in the socket; nothing
    left is EAGAIN. *)
Definition sock_read (k : Sock) (n : Z) : rd_result * Sock :=
  match s_in k with
  | [] => (RAgain, k)
  | RData b :: r =>
      if blen b <=? n then (RData b, {| s_in := r; s_out := s_out k; s_sent := s_sent k |})
      else (RData (take (Z.to_nat n) b),
            {| s_in := RData (drop (Z.to_nat n) b) :: r; s_out := s_out k; s_sent := s_sent k |})
  | e :: r => (e, {| s_in := r; s_out := s_out k; s_sent := s_sent k |})
  end.
Definition sock_write (k : Sock) : wr_result * list wr_result :=
  match s_out k with [] => (WAgain, []) | e :: r => (e, r) end.

(** [try_read_command]: the line before the first newline, without a carriage
    return; [None] if there is no complete line. *)
Fixpoint split_line (b : bytes) : option (bytes * bytes) :=
  match b with
  | [] => None
  | c :: r => if c =? 10 then Some ([], r)
              else match split_line r with Some (l, r') => Some (c :: l, r') | None => None end
  end.
Definition strip_cr (l : bytes) : bytes :=
  if (1 <? blen l) && bool_decide (last l = Some 13) then take (length l - 1) l else l.
Definition try_read_command sv (c : conn) (now : Z) : outcome (option (Server C * conn)) :=
  match split_line (c_rbuf c) with
  | None => Ret None
  | Some (l, r) =>
      '(sv, c) ← process_command sv (with_rbuf c r (c_rsize c)) (cstr (strip_cr l)) now;
      Ret (Some (sv, c))
  end.

(** [try_read_network]: read until the socket has less than the buffer holds;
    the buffer doubles when it is full (that [try_realloc] fails is not modelled). *)
Fixpoint try_read_network (fuel : nat) sv (c : conn) (k : Sock) (got : bool)
  : outcome (Server C * conn * Sock * bool) :=
  match fuel with
  | O => Fault
  | S f =>
      let rsize := if c_rsize c <=? blen (c_rbuf c) then c_rsize c * 2 else c_rsize c in
      let c := with_rbuf c (c_rbuf c) rsize in
      let avail := rsize - blen (c_rbuf c) in
      let '(r, k) := sock_read k avail in
      match r with
      | RData [] | REof => Ret (sv, conn_set_state c conn_closing, k, true)
      | RData b =>
          let sv := count_io sv (blen b) 0 in
          let c := with_rbuf c (c_rbuf c ++ b) rsize in
          if blen b =? avail then try_read_network f sv c k true else Ret (sv, c, k, true)
      | RAgain => Ret (sv, c, k, got)
      | RErr => Ret (sv, conn_set_state c conn_closing, k, true)
      end
  end.

(** ** Sending *)
Inductive transmit_result := TRANSMIT_COMPLETE | TRANSMIT_INCOMPLETE | TRANSMIT_SOFT_ERROR | TRANSMIT_HARD_ERROR.

(** Drop [res] sent bytes from the buffers of a message. *)
Fixpoint consume_iov (l : list bytes) (res : Z) : list bytes :=
  match l with
  | [] => []
  | b :: r => if blen b <=? res then consume_iov r (res - blen b)
              else if 0 <? res then drop (Z.to_nat res) b :: r else l
  end.

Definition transmit sv (c : conn) (k : Sock) : Server C * conn * Sock * transmit_result :=
  let msgs := match c_msgs c with [] :: r => r | m => m end in
  let c := with_msgs c msgs (c_msgbytes c) (c_iovused c) in
  match msgs with
  | [] => (sv, c, k, TRANSMIT_COMPLETE)
  | m :: r =>
      let '(w, ws) := sock_write k in
      let k := {| s_in := s_in k; s_out := ws; s_sent := s_sent k |} in
      match w with
      | WSent n =>
          if 0 <? n then
            let n := Z.min n (blen (concat m)) in
            let k := {| s_in := s_in k; s_out := ws; s_sent := s_sent k ++ take (Z.to_nat n) (concat m) |} in
            (count_io sv 0 n, with_msgs c (consume_iov m n :: r) (c_msgbytes c) (c_iovused c), k, TRANSMIT_INCOMPLETE)
          else (sv, conn_set_state c conn_closing, k, TRANSMIT_HARD_ERROR)
      | WAgain => (sv, c, k, TRANSMIT_SOFT_ERROR)
      | WErr => (sv, conn_set_state c conn_closing, k, TRANSMIT_HARD_ERROR)
      end
  end.

(** ** The state machine *)
Inductive verdict := Continue | Stop | Closed.

(** Data for the item being read. *)
Definition item_feed (c : conn) (b : bytes) : conn :=
  match c_item c with
  | Some it =>
      with_item c (Some {| i_ver := i_ver it; i_flag := i_flag it; i_nbytes := i_nbytes it; i_key := i_key it;
                           i_suffix := i_suffix it; i_data := i_data it ++ b |})
        (c_item_comm c) (c_rlbytes c - blen b)
  | None => c
  end.

Definition step_read sv (c : conn) (k : Sock) (now : Z) : outcome (Server C * conn * Sock * verdict) :=
  r ← try_read_command sv c now;
  match r with
  | Some (sv, c) => Ret (sv, c, k, Continue)
  | None =>
      '(sv, c, k, got) ← try_read_network (S (S (length (s_in k)))) sv c k false;
      Ret (sv, c, k, if (got : bool) then Continue else Stop)
  end.

Definition step_nread sv (c : conn) (k : Sock) (now : Z) : outcome (Server C * conn * Sock * verdict) :=
  if c_rlbytes c =? 0 then '(sv, c) ← complete_nread sv c now; Ret (sv, c, k, Continue)
  else if 0 <? blen (c_rbuf c) then
    let tocopy := Z.min (blen (c_rbuf c)) (c_rlbytes c) in
    if tocopy <? 0 then Fault else
    let b := take (Z.to_nat tocopy) (c_rbuf c) in
    Ret (sv, item_feed (with_rbuf c (drop (Z.to_nat tocopy) (c_rbuf c)) (c_rsize c)) b, k, Continue)
  else
    let '(r, k) := sock_read k (c_rlbytes c) in
    match r with
    | RData [] | REof | RErr => Ret (sv, conn_set_state c conn_closing, k, Continue)
    | RData b => Ret (count_io sv (blen b) 0, item_feed c b, k, Continue)
    | RAgain => Ret (sv, c, k, Stop)
    end.

Definition step_swallow sv (c : conn) (k : Sock) : outcome (Server C * conn * Sock * verdict) :=
  if c_sbytes c =? 0 then Ret (sv, conn_set_state c conn_read, k, Continue)
  else if 0 <? blen (c_rbuf c) then
    let tocopy := Z.min (blen (c_rbuf c)) (c_sbytes c) in
    Ret (sv, with_sbytes (with_rbuf c (drop (Z.to_nat tocopy) (c_rbuf c)) (c_rsize c)) (c_sbytes c - tocopy), k, Continue)
  else
    let '(r, k) := sock_read k (Z.min (c_rsize c) (c_sbytes c)) in
    match r with
    | RData [] | REof | RErr => Ret (sv, conn_set_state c conn_closing, k, Continue)
    | RData b => Ret (count_io sv (blen b) 0, with_sbytes c (c_sbytes c - blen b), k, Continue)
    | RAgain => Ret (sv, c, k, Stop)
    end.

(** [conn_write] falls through to [conn_mwrite]. *)
Definition step_write sv (c : conn) (k : Sock) : outcome (Server C * conn * Sock * verdict) :=
  c ← (if bool_decide (c_state c = conn_write) && (c_iovused c =? 0)
       then add_iov IOV_FUEL c (c_wbuf c) else Ret c);
  let '(sv, c, k, r) := transmit sv c k in
  match r with
  | TRANSMIT_COMPLETE =>
      Ret (sv, match c_state c with
               | conn_mwrite => conn_set_state c conn_read
               | conn_write => conn_set_state c (c_write_and_go c)
               | _ => conn_set_state c conn_closing
               end, k, Continue)
  | TRANSMIT_INCOMPLETE | TRANSMIT_HARD_ERROR => Ret (sv, c, k, Continue)
  | TRANSMIT_SOFT_ERROR => Ret (sv, c, k, Stop)
  end.

(** One round of the loop of [drive_machine]. *)
Definition drive_step sv (c : conn) (k : Sock) (now : Z) : outcome (Server C * conn * Sock * verdict) :=
  match c_state c with
  | conn_read => step_read sv c k now
  | conn_nread => step_nread sv c k now
  | conn_swallow => step_swallow sv c k
  | conn_write | conn_mwrite => step_write sv c k
  | conn_closing => Ret (sv, c, k, Closed)
  end.

Fixpoint drive_machine (fuel : nat) sv (c : conn) (k : Sock) (now : Z)
  : outcome (Server C * conn * Sock * verdict) :=
  match fuel with
  | O => Fault
  | S f =>
      '(sv, c, k, v) ← drive_step sv c k now;
      match v with Continue => drive_machine f sv c k now | _ => Ret (sv, c, k, v) end
  end.
End Server.
