(* ===== verification/ProtocolFacts.v ===== *)
(** * Replies arrive whole and in order

    Replies are lists of messages, each a list of buffers; sending cuts them
    anywhere.  [add_iov] appends to the stream of bytes to send, [transmit] moves
    bytes from its front to the socket, and a [get] answers with the values of the
    map. *)
From Stdlib Require Import ZArith Lia List.
From stdpp Require Import base numbers list gmap strings.
From S2P Require Import Prelude Hash CText Codec CodecFacts HTree Disk Record RecordFacts Buckets BucketsFacts Bitcask BitcaskInv BitcaskSteps BitcaskSpec BitcaskHistory HStore HStoreFacts Protocol.

(** ** The stream of bytes to send *)
Definition msg_bytes (m : list bytes) : bytes := concat m.
Definition pending (c : conn) : bytes := concat (List.map msg_bytes (c_msgs c)).

(** The messages of a connection while a reply is built: the last one has
    [c_msgbytes] bytes, none has more than [IOV_MAX] buffers, and a single first
    one is within [MAX_PAYLOAD_SIZE]. *)
Record iov_ok (c : conn) : Prop := {
  io_last : exists init m, c_msgs c = init ++ [m] /\ blen (msg_bytes m) = c_msgbytes c;
  io_iovs : Forall (fun m => Z.of_nat (length m) <= IOV_MAX) (c_msgs c);
  io_first : forall m r, c_msgs c = m :: r -> blen (msg_bytes m) <= MAX_PAYLOAD_SIZE
}.

(** Every message has bytes, but for a single new one. *)
Definition has_bytes (m : list bytes) : Prop := msg_bytes m <> [].
Definition chunky (c : conn) : Prop := c_msgs c = [[]] \/ Forall has_bytes (c_msgs c).

Lemma push_iov_last init m b : push_iov (init ++ [m]) b = init ++ [m ++ [b]].
Proof.
  induction init as [|x r IH]; [done|]. cbn [app push_iov]. destruct (r ++ [m]) as [|y l] eqn:E; [by destruct r|]. by rewrite IH.
Qed.

Lemma pending_snoc c init m : c_msgs c = init ++ [m] -> pending c = concat (List.map msg_bytes init) ++ msg_bytes m.
Proof. intros E. unfold pending. rewrite E, map_app, concat_app. simpl. by rewrite app_nil_r. Qed.

(** What [add_iov] leaves alone. *)
Definition same_conn (c c' : conn) : Prop :=
  c_state c' = c_state c /\ c_rbuf c' = c_rbuf c /\ c_rsize c' = c_rsize c /\ c_wbuf c' = c_wbuf c /\ c_write_and_go c' = c_write_and_go c /\
  c_noreply c' = c_noreply c /\ c_item c' = c_item c.
Lemma same_conn_trans a b c : same_conn a b -> same_conn b c -> same_conn a c.
Proof. unfold same_conn. intuition congruence. Qed.

(** One round: [n] bytes go to the last message, or to a new one. *)
Lemma push_round c init m n buf mb iu :
  c_msgs c = init ++ [m] -> blen (msg_bytes m) = mb -> Forall (fun m => Z.of_nat (length m) <= IOV_MAX) (c_msgs c) -> Z.of_nat (length m) < IOV_MAX ->
  (init = [] -> mb + blen (take n buf) <= MAX_PAYLOAD_SIZE) -> (forall x r, c_msgs c = x :: r -> blen (msg_bytes x) <= MAX_PAYLOAD_SIZE) ->
  let c' := with_msgs c (push_iov (c_msgs c) (take n buf)) (mb + blen (take n buf)) iu in
  iov_ok c' /\ pending c' = pending c ++ take n buf /\ length (c_msgs c') = length (c_msgs c).
Proof.
  intros E Hmb Hio Hlt Hlim Hfst c'. assert (Em : c_msgs c' = init ++ [m ++ [take n buf]]) by (unfold c'; cbn [with_msgs c_msgs]; by rewrite E, push_iov_last).
  assert (Hb : blen (msg_bytes (m ++ [take n buf])) = mb + blen (take n buf)) by (unfold msg_bytes; rewrite concat_app, blen_app; simpl; rewrite app_nil_r; unfold msg_bytes in Hmb; lia).
  split; [|split].
  - constructor; rewrite ?Em.
    + exists init, (m ++ [take n buf]). done.
    + rewrite E in Hio. apply Forall_app in Hio as [H1 _]. apply Forall_app. split; [done|]. constructor; [|done]. rewrite length_app. simpl. lia.
    + intros x r Ex. destruct init as [|y init].
      * injection Ex as <- _. rewrite Hb. by apply Hlim.
      * injection Ex as <- _. by apply (Hfst y (init ++ [m])).
  - rewrite (pending_snoc c' _ _ Em), (pending_snoc c _ _ E). unfold msg_bytes. rewrite concat_app. simpl. by rewrite app_nil_r, app_assoc.
  - by rewrite Em, E, !length_app.
Qed.

(** The message a round writes to. *)
Lemma header_round c m0 :
  iov_ok c -> last (c_msgs c) = Some m0 ->
  let limit := (length (c_msgs c) =? 1)%nat in
  let c1 := if (Z.of_nat (length m0) =? IOV_MAX) || (limit && (MAX_PAYLOAD_SIZE <=? c_msgbytes c)) then add_msghdr c else c in
  pending c1 = pending c /\ same_conn c c1 /\ c_iovused c1 = c_iovused c /\
  Forall (fun m => Z.of_nat (length m) <= IOV_MAX) (c_msgs c1) /\ (forall x r, c_msgs c1 = x :: r -> blen (msg_bytes x) <= MAX_PAYLOAD_SIZE) /\
  exists init m, c_msgs c1 = init ++ [m] /\ blen (msg_bytes m) = c_msgbytes c1 /\ Z.of_nat (length m) < IOV_MAX /\
    (limit = true -> c_msgbytes c1 < MAX_PAYLOAD_SIZE) /\ (init = [] -> limit = true) /\
    (limit = true -> MAX_PAYLOAD_SIZE <= c_msgbytes c -> init <> []) /\ (chunky c -> Forall has_bytes init).
Proof.
  intros [(init & m & E & Hmb) Hio Hf] Hl limit. rewrite E, last_snoc in Hl. injection Hl as <-. assert (Hm : Z.of_nat (length m) <= IOV_MAX) by (rewrite E in Hio; apply Forall_app in Hio as [_ Hx]; by inversion Hx).
  destruct (_ || _) eqn:Eh; cbv zeta.
  - assert (Em : c_msgs (add_msghdr c) = (init ++ [m]) ++ [[]]) by (unfold add_msghdr; cbn [with_msgs c_msgs]; by rewrite E).
    split; [rewrite (pending_snoc _ _ _ Em); unfold pending; rewrite E; simpl; by rewrite app_nil_r|]. split; [done|]. split; [done|]. rewrite Em.
    split; [apply Forall_app; split; [by rewrite <- E|]; constructor; [done|done]|].
    split; [intros x r Ex; destruct init as [|y init]; injection Ex as <- _; [by apply (Hf m [])|by apply (Hf y (init ++ [m]))]|].
    exists (init ++ [m]), []. split; [done|]. split; [done|]. split; [done|]. split; [done|]. split; [by destruct init|]. split; [intros _ _; by destruct init|].
    intros [Hch|Hch]; [|by rewrite <- E]. rewrite E in Hch. apply app_singleton in Hch as [[-> [= ->]]|[_ ?]]; [|done]. exfalso. change (Z.of_nat (length (@nil bytes))) with 0 in Eh.
    change (blen (msg_bytes [])) with 0 in Hmb. rewrite <- Hmb in Eh. by rewrite andb_false_r in Eh.
  - apply orb_false_elim in Eh as [E1%Z.eqb_neq E2]. split; [done|]. split; [done|]. split; [done|]. split; [done|]. split; [done|]. exists init, m.
    split; [done|]. split; [done|]. split; [lia|]. split; [intros ->; by apply Z.leb_gt in E2|]. split.
    + intros ->. unfold limit. by rewrite E.
    + split; [intros -> Hge; apply Z.leb_gt in E2; lia|]. intros [Hch|Hch]; rewrite E in Hch; [|by apply Forall_app in Hch as [? _]].
      apply app_singleton in Hch as [[-> _]|[_ ?]]; done.
Qed.

Definition rank (c : conn) : nat :=
  if (length (c_msgs c) =? 1)%nat then (if MAX_PAYLOAD_SIZE <=? c_msgbytes c then 2%nat else 3%nat) else 1%nat.

Lemma add_iov_spec fuel c buf :
  iov_ok c -> (rank c <= fuel)%nat ->
  exists c', add_iov fuel c buf = Ret c' /\ iov_ok c' /\ pending c' = pending c ++ buf /\ same_conn c c' /\ c_iovused c < c_iovused c' /\
    (chunky c -> buf <> [] -> Forall has_bytes (c_msgs c')).
Proof.
  revert c buf. induction fuel as [|fuel IH]; intros c buf Hc Hr.
  { unfold rank in Hr. repeat case_match; lia. }
  cbn [add_iov]. destruct (io_last c Hc) as (i0 & m0 & E0 & _). assert (El : last (c_msgs c) = Some m0) by (rewrite E0; apply last_snoc). rewrite El. cbv zeta.
  pose proof (header_round c m0 Hc El) as H. cbv zeta in H.
  set (limit := (length (c_msgs c) =? 1)%nat) in *. set (c1 := if _ || _ then add_msghdr c else c) in *. clearbody c1.
  destruct H as (Hp & Hs & Hu & Hio & Hf & init & m & E1 & Hmb & Hlt & Hlim & Hnil & Hfull & Hch).
  set (left := if limit && _ then _ else 0). pose proof (blen_nonneg buf) as Hb. pose proof (blen_nonneg (msg_bytes m)) as Hb'.
  assert (Hleft : 0 <= left < blen buf \/ left = 0) by (unfold left; destruct limit; cbn [andb]; [specialize (Hlim eq_refl); destruct (Z.ltb_spec MAX_PAYLOAD_SIZE (blen buf + c_msgbytes c1)); lia|lia]).
  assert (Ht : blen (take (Z.to_nat (blen buf - left)) buf) = blen buf - left) by (unfold blen in *; rewrite length_take; lia).
  destruct (push_round c1 init m (Z.to_nat (blen buf - left)) buf (c_msgbytes c1) (c_iovused c1 + 1)) as (Hok & Hpe & Hlen); auto.
  { intros Hi%Hnil. specialize (Hlim Hi). rewrite Ht. unfold left. rewrite Hi. cbn [andb]. destruct (Z.ltb_spec MAX_PAYLOAD_SIZE (blen buf + c_msgbytes c1)); lia. }
  rewrite Ht in *. set (c2 := with_msgs c1 _ _ _) in *. assert (Hs2 : same_conn c c2) by (apply (same_conn_trans _ c1); done). rewrite Hp in Hpe.
  assert (Hch2 : chunky c -> buf <> [] -> Forall has_bytes (c_msgs c2)).
  { intros Hc1 Hne. unfold c2. cbn [with_msgs c_msgs]. rewrite E1, push_iov_last. apply Forall_app. split; [by apply Hch|]. constructor; [|done]. unfold has_bytes, msg_bytes.
    rewrite concat_app. intros [_ Hn]%app_nil. simpl in Hn. rewrite app_nil_r in Hn. rewrite Hn in Ht. change (blen []) with 0 in Ht.
    assert (0 < blen buf) by (destruct buf; [done|unfold blen; simpl; lia]). lia. }
  destruct (Z.ltb_spec 0 left) as [Hpos|Hz].
  - destruct (IH c2 (drop (Z.to_nat (blen buf - left)) buf) Hok) as (c' & -> & Hok' & Hpe' & Hs' & Hu' & Hch').
    { assert (limit = true /\ left = blen buf + c_msgbytes c1 - MAX_PAYLOAD_SIZE) as [Hl Hle].
      { revert Hpos. unfold left. destruct limit; cbn [andb]; [|lia]. destruct (Z.ltb_spec MAX_PAYLOAD_SIZE (blen buf + c_msgbytes c1)); [done|lia]. }
      unfold rank in Hr. fold limit in Hr. rewrite Hl in *.
      unfold rank. rewrite Hlen, E1, length_app. destruct init as [|y init].
      - simpl. unfold c2. cbn [with_msgs c_msgbytes].
        rewrite (proj2 (Z.leb_le _ _)) by lia. destruct (Z.leb_spec MAX_PAYLOAD_SIZE (c_msgbytes c)) as [Hge|]; [|lia]. by specialize (Hfull eq_refl Hge).
      - simpl. replace (length init + 1)%nat with (S (length init)) by lia. simpl. destruct (MAX_PAYLOAD_SIZE <=? c_msgbytes c); lia. }
    exists c'. split; [done|]. split; [done|]. split; [by rewrite Hpe', Hpe, <- app_assoc, take_drop|]. split; [by apply (same_conn_trans _ c2)|].
    unfold c2 in Hu'. cbn [with_msgs c_iovused] in Hu'. split; [lia|]. intros Hc1 Hne. apply Hch'; [right; auto|].
    intros Hn. apply (f_equal length) in Hn. rewrite length_drop in Hn. simpl in Hn. unfold blen in *. lia.
  - exists c2. split; [done|]. split; [done|]. split; [|split; [done|split; [unfold c2; cbn [with_msgs c_iovused]; lia|done]]].
    rewrite Hpe. f_equal. apply take_ge. unfold blen in *. lia.
Qed.

(** ** Sending *)
Lemma consume_spec l n :
  0 <= n <= blen (concat l) -> concat (consume_iov l n) = drop (Z.to_nat n) (concat l) /\ (n = blen (concat l) -> consume_iov l n = []).
Proof.
  revert n. induction l as [|b r IH]; intros n Hn; cbn [consume_iov concat] in *; [by rewrite drop_nil|]. rewrite blen_app in Hn.
  pose proof (blen_nonneg b). pose proof (blen_nonneg (concat r)). destruct (Z.leb_spec (blen b) n) as [Hle|Hgt].
  - destruct (IH (n - blen b) ltac:(lia)) as [E1 E2]. rewrite E1, blen_app. split; [|intros; apply E2; lia].
    rewrite drop_app_ge by (unfold blen in *; lia). f_equal. unfold blen in *. lia.
  - split; [|rewrite blen_app; lia]. destruct (Z.ltb_spec 0 n) as [|Hz]; cbn [concat].
    + rewrite drop_app_le by (unfold blen in *; lia). done.
    + replace n with 0 by lia. done.
Qed.

(** The messages after the one that has been sent. *)
Definition to_send (c : conn) : list (list bytes) := match c_msgs c with [] :: r => r | m => m end.
Lemma pending_to_send c : pending c = concat (List.map msg_bytes (to_send c)).
Proof. unfold pending, to_send. by destruct (c_msgs c) as [|[|b m] r]. Qed.

Section Sending.
Context {C : Type} {KC : KeyCodec C} (se : ServerEnv).
Implicit Types sv : Server C.

(** What a call of [transmit] does to the bytes on their way. *)
Lemma transmit_spec sv c k sv' c' k' r :
  transmit sv c k = (sv', c', k', r) ->
  sv_store sv' = sv_store sv /\ s_in k' = s_in k /\ c_rbuf c' = c_rbuf c /\
  match r with
  | TRANSMIT_COMPLETE => to_send c = [] /\ k' = k /\ same_conn c c' /\ c_msgs c' = []
  | TRANSMIT_INCOMPLETE =>
      s_sent k' ++ pending c' = s_sent k ++ pending c /\ same_conn c c' /\
      exists m rest n ws, to_send c = m :: rest /\ s_out k = WSent n :: ws /\ s_out k' = ws /\ 0 < n /\ c_iovused c' = c_iovused c /\
        c_msgs c' = consume_iov m (Z.min n (blen (msg_bytes m))) :: rest
  | TRANSMIT_SOFT_ERROR => s_sent k' = s_sent k /\ pending c' = pending c /\ same_conn c c' /\ forall n ws, s_out k <> WSent n :: ws
  | TRANSMIT_HARD_ERROR => s_sent k' = s_sent k /\ c_state c' = conn_closing
  end.
Proof.
  unfold transmit. fold (to_send c). pose proof (pending_to_send c) as Hp. destruct (to_send c) as [|m rest] eqn:Em.
  { intros [= <- <- <- <-]. done. }
  unfold sock_write. destruct (s_out k) as [|w ws] eqn:Eo.
  { intros [= <- <- <- <-]. do 4 (split; [done|]). split; [by rewrite Hp|done]. }
  destruct w as [n| |].
  - destruct (Z.ltb_spec 0 n); intros [= <- <- <- <-]; [|done]. do 3 (split; [done|]). split; [|split; [done|by exists m, rest, n, ws]].
    rewrite Hp. unfold pending. cbn [with_msgs c_msgs s_sent List.map concat]. unfold msg_bytes at 1 3.
    pose proof (blen_nonneg (concat m)). destruct (consume_spec m (Z.min n (blen (concat m))) ltac:(lia)) as [-> _].
    rewrite <- app_assoc. f_equal. by rewrite app_assoc, take_drop.
  - intros [= <- <- <- <-]. do 4 (split; [done|]). split; [by rewrite Hp|done].
  - intros [= <- <- <- <-]. done.
Qed.

(** All messages still to send have bytes. *)
Definition sendable (c : conn) : Prop := Forall (fun m => msg_bytes m <> []) (to_send c).

(** No complete line waits in the buffer. *)
Definition idle (c : conn) (k : Sock) : Prop := split_line (c_rbuf c) = None /\ s_in k = [].

Lemma read_idle sv c k now :
  c_state c = conn_read -> idle c k -> exists c', drive_step se sv c k now = Ret (sv, c', k, Stop) /\ c_state c' = conn_read.
Proof.
  intros Hs [Hl Hi]. unfold drive_step. rewrite Hs. unfold step_read, try_read_command. rewrite Hl. cbn [mbind outcome_bind]. rewrite Hi.
  cbn [length try_read_network]. unfold sock_read. rewrite Hi. cbn [mbind outcome_bind]. eexists. split; [done|]. done.
Qed.

(** A reply is being sent. *)
Definition writing (c : conn) : Prop :=
  c_state c = conn_mwrite \/ (c_state c = conn_write /\ c_iovused c <> 0 /\ c_write_and_go c = conn_read).

Lemma step_write_eq sv c k : writing c -> 
  step_write sv c k =
  (let '(sv, c, k, r) := transmit sv c k in
   Ret (sv, match r with TRANSMIT_COMPLETE => conn_set_state c conn_read | _ => c end, k,
        match r with TRANSMIT_SOFT_ERROR => Stop | _ => Continue end)).
Proof.
  intros Hw. unfold step_write. assert (bool_decide (c_state c = conn_write) && (c_iovused c =? 0) = false) as ->.
  { destruct Hw as [->|(-> & Hu & _)]; [done|]. apply andb_false_intro2. by apply Z.eqb_neq. }
  cbn [mbind outcome_bind]. destruct (transmit sv c k) as [[[sv' c'] k'] r] eqn:Et. apply transmit_spec in Et as (_ & _ & _ & H).
  destruct r; [|done|done|done]. destruct H as (_ & _ & (S1 & _ & _ & _ & S5 & _) & _). rewrite S1.
  destruct Hw as [->|(-> & _ & Hg)]; [done|]. by rewrite S5, Hg.
Qed.

(** The socket takes something at every call. *)
Definition accepting (k : Sock) : Prop := Forall (fun w => exists n, w = WSent n /\ 0 < n) (s_out k).

Lemma write_step sv c k now :
  writing c -> sendable c -> idle c k -> accepting k ->
  (pending c = [] /\ exists c', drive_step se sv c k now = Ret (sv, c', k, Continue) /\ c_state c' = conn_read /\ idle c' k) \/
  (0 < blen (pending c) /\ (s_out k <> [] -> exists sv' c' k', drive_step se sv c k now = Ret (sv', c', k', Continue) /\ sv_store sv' = sv_store sv /\
     writing c' /\ sendable c' /\ idle c' k' /\ accepting k' /\ s_sent k' ++ pending c' = s_sent k ++ pending c /\
     blen (pending c') < blen (pending c) /\ length (s_out k) = S (length (s_out k')))).
Proof.
  intros Hw Hs [Hi1 Hi2] Ho. assert (Hws : drive_step se sv c k now = step_write sv c k) by (unfold drive_step; by destruct Hw as [->|(-> & _)]).
  rewrite Hws, step_write_eq by done. destruct (to_send c) as [|m rest] eqn:Em.
  { left. rewrite pending_to_send, Em. split; [done|]. unfold transmit. fold (to_send c). rewrite Em. eexists. split; [done|]. done. }
  unfold sendable in Hs. rewrite Em in Hs. apply Forall_cons in Hs as [Hmne Hrest].
  assert (Hpos : 0 < blen (msg_bytes m)) by (destruct (msg_bytes m); [done|unfold blen; simpl; lia]).
  right. split; [rewrite pending_to_send, Em; cbn [List.map concat]; rewrite blen_app; pose proof (blen_nonneg (concat (List.map msg_bytes rest))); lia|].
  intros Hne. destruct (transmit sv c k) as [[[sv' c'] k'] r] eqn:Et. pose proof Et as Et'. apply transmit_spec in Et as (Hsv & Hin & Hrb & H).
  destruct (s_out k) as [|w ws] eqn:Eo; [done|]. unfold accepting in Ho. rewrite Eo in Ho. apply Forall_cons in Ho as [(n & -> & Hn) Ho].
  assert (r = TRANSMIT_INCOMPLETE) as ->.
  { unfold transmit in Et'. fold (to_send c) in Et'. rewrite Em in Et'. unfold sock_write in Et'. rewrite Eo, (proj2 (Z.ltb_lt 0 n) Hn) in Et'. by injection Et'. }
  destruct H as (Hsent & (S1 & S2 & S3 & S4 & S5 & S6 & S7) & m' & rest' & n' & ws' & Em' & Eo' & Eo2 & Hn' & Hu & Hm). rewrite Em in Em'. injection Em' as <- <-. injection Eo' as <- <-.
  set (q := Z.min n (blen (msg_bytes m))) in *. destruct (consume_spec m q ltac:(unfold q; unfold msg_bytes in *; lia)) as [Ec1 Ec2].
  exists sv', c', k'. split; [done|]. split; [done|]. split; [unfold writing; by rewrite S1, S5, Hu|]. split; [|split; [by unfold idle; rewrite Hrb, Hin|]].
  - unfold sendable, to_send. rewrite Hm. destruct (consume_iov m q) as [|b l] eqn:Eq; [done|]. constructor; [|done]. unfold msg_bytes. rewrite Ec1. intros Hd.
    apply (f_equal length) in Hd. rewrite length_drop in Hd. simpl in Hd. assert (q = blen (concat m)) by (unfold q, msg_bytes, blen in *; lia). by specialize (Ec2 H).
  - split; [unfold accepting; by rewrite Eo2|]. split; [done|]. split; [|simpl; by rewrite Eo2].
    rewrite (pending_to_send c), Em. unfold pending. rewrite Hm. cbn [List.map concat]. rewrite !blen_app. unfold msg_bytes at 1. rewrite Ec1.
    assert (blen (drop (Z.to_nat q) (concat m)) = blen (concat m) - q) by (unfold q, msg_bytes, blen in *; rewrite length_drop; lia). unfold msg_bytes at 2. unfold q in *. lia.
Qed.

Lemma deliver b fuel sv c k now :
  writing c -> sendable c -> idle c k -> accepting k -> blen (pending c) <= Z.of_nat b -> (b <= length (s_out k))%nat -> (b + 2 <= fuel)%nat ->
  exists sv' c' k', drive_machine se fuel sv c k now = Ret (sv', c', k', Stop) /\ sv_store sv' = sv_store sv /\ c_state c' = conn_read /\
    s_sent k' = s_sent k ++ pending c.
Proof.
  revert fuel sv c k. induction b as [|b IH]; intros fuel sv c k Hw Hs Hi Ho Hp Hb Hf; (destruct fuel as [|fuel]; [lia|]);
    (destruct (write_step sv c k now Hw Hs Hi Ho) as [(Hn & c1 & E & Hc1 & Hi1)|[Hpos Hstep]];
     [cbn [drive_machine]; rewrite E; cbn [mbind outcome_bind]; destruct fuel as [|fuel]; [lia|]; destruct (read_idle sv c1 k now Hc1 Hi1) as (c2 & E2 & Hc2);
      cbn [drive_machine]; rewrite E2; cbn [mbind outcome_bind]; exists sv, c2, k; rewrite Hn, app_nil_r; done|]).
  - lia.
  - destruct Hstep as (sv1 & c1 & k1 & E & Hsv & Hw1 & Hs1 & Hi1 & Ho1 & Hsent & Hlt & Hlen); [intros Hn; rewrite Hn in Hb; simpl in Hb; lia|].
    cbn [drive_machine]. rewrite E. cbn [mbind outcome_bind]. destruct (IH fuel sv1 c1 k1 Hw1 Hs1 Hi1 Ho1) as (sv2 & c2 & k2 & E2 & Hsv2 & Hc2 & Hs2); [lia|lia|lia|].
    exists sv2, c2, k2. split; [done|]. split; [congruence|]. split; [done|]. by rewrite Hs2.
Qed.

(** A reply built by a command: a line in [c_wbuf], or messages. *)
Definition ready (c : conn) : Prop :=
  (c_state c = conn_mwrite /\ sendable c) \/
  (c_state c = conn_write /\ c_iovused c = 0 /\ c_msgs c = [[]] /\ c_msgbytes c = 0 /\ c_wbuf c <> [] /\ c_write_and_go c = conn_read).
Definition reply (c : conn) : bytes := if bool_decide (c_state c = conn_write) then c_wbuf c else pending c.

Lemma new_message_ok c : c_msgs c = [[]] -> c_msgbytes c = 0 -> iov_ok c.
Proof.
  intros E Eb. constructor; rewrite E.
  - exists [], []. by rewrite Eb.
  - constructor; [done|constructor].
  - intros m r [= <- <-]. done.
Qed.

Lemma ready_writing sv c k now :
  ready c -> exists c', writing c' /\ sendable c' /\ c_rbuf c' = c_rbuf c /\ pending c' = reply c /\
    forall fuel, drive_machine se fuel sv c k now = drive_machine se fuel sv c' k now.
Proof.
  intros [[Hst Hs]|(Hst & Hu & Hm & Hb & Hw & Hg)].
  { exists c. split; [by left|]. split; [done|]. split; [done|]. split; [unfold reply; by rewrite Hst|done]. }
  pose proof (new_message_ok c Hm Hb) as Hok. destruct (add_iov_spec IOV_FUEL c (c_wbuf c) Hok) as (c' & E & _ & Hp & (S1 & S2 & S3 & S4 & S5 & S6 & S7) & Hu' & Hch).
  { unfold rank, IOV_FUEL. repeat case_match; lia. }
  assert (Hw' : writing c') by (right; split; [congruence|]; split; [lia|congruence]). exists c'. split; [done|]. split.
  { specialize (Hch (or_introl Hm) Hw). unfold sendable, to_send. destruct (c_msgs c') as [|[|b m] r]; [done| |done]. by apply Forall_cons in Hch as [? _]. }
  split; [done|]. split; [unfold reply; rewrite Hp, Hst; unfold pending; by rewrite Hm|].
  intros [|fuel]; [done|]. cbn [drive_machine]. f_equal. unfold drive_step. rewrite S1, Hst. rewrite (step_write_eq sv c' k Hw'). unfold step_write.
  rewrite Hst, Hu, E. cbn [mbind outcome_bind]. rewrite bool_decide_true by done. cbn [andb Z.eqb]. pose proof (step_write_eq sv c' k Hw') as Eq.
  unfold step_write in Eq. rewrite (proj2 (Z.eqb_neq (c_iovused c') 0)), andb_false_r in Eq by lia. exact Eq.
Qed.

Lemma deliver_ready sv c k now fuel :
  ready c -> idle c k -> accepting k -> blen (reply c) <= Z.of_nat (length (s_out k)) -> (length (reply c) + 2 <= fuel)%nat ->
  exists sv' c' k', drive_machine se fuel sv c k now = Ret (sv', c', k', Stop) /\ sv_store sv' = sv_store sv /\ c_state c' = conn_read /\
    s_sent k' = s_sent k ++ reply c.
Proof.
  intros Hr Hi Ho Hl Hf. destruct (ready_writing sv c k now Hr) as (c' & Hw & Hs & Hb & Hp & E). rewrite E, <- Hp in *.
  apply (deliver (length (pending c'))); auto; unfold blen in *; try lia. unfold idle in *. by rewrite Hb.
Qed.

(** C35. Replies are built whole.  On a connection whose messages are in order,
    [add_iov] returns within three rounds; the bytes to send are those before
    followed by the new ones, no message has more than [IOV_MAX] buffers, and the
    first message stays within [MAX_PAYLOAD_SIZE]. *)
Theorem add_iov_appends c buf :
  iov_ok c -> exists c', add_iov IOV_FUEL c buf = Ret c' /\ pending c' = pending c ++ buf /\ iov_ok c'.
Proof.
  intros Hc. destruct (add_iov_spec IOV_FUEL c buf Hc) as (c' & E & Hok & Hp & _); [|by exists c'].
  unfold rank, IOV_FUEL. repeat case_match; lia.
Qed.

(** C34. Replies are delivered.  However the socket cuts them, as long as it takes
    at least one byte per call, [drive_machine] sends exactly the bytes of the
    reply, in order, goes back to reading and then waits for input. *)
Theorem reply_delivered sv c k now fuel :
  ready c -> idle c k -> accepting k -> blen (reply c) <= Z.of_nat (length (s_out k)) -> (length (reply c) + 2 <= fuel)%nat ->
  exists sv' c' k', drive_machine se fuel sv c k now = Ret (sv', c', k', Stop) /\ sv_store sv' = sv_store sv /\ c_state c' = conn_read /\
    s_sent k' = s_sent k ++ reply c.
Proof. apply deliver_ready. Qed.
End Sending.

(** ** Words *)
(** The words of a line: what is between the spaces; [s] is the word begun. *)
Fixpoint words (s e : bytes) : list bytes :=
  match e with
  | [] => match s with [] => [] | _ => [s] end
  | c :: e' => if c =? 32 then match s with [] => words [] e' | _ => s :: words [] e' end else words (s ++ [c]) e'
  end.

(** [tokenize_command] takes words from the front; nothing is lost. *)
Lemma tokenize_words n s e :
  (n = O -> s = []) ->
  words s e = (tokenize n s e).1 ++ match (tokenize n s e).2 with Some r => words [] r | None => [] end /\
  forall r, (tokenize n s e).2 = Some r -> length (tokenize n s e).1 = n /\ (length r + n <= length e + Nat.min 1 (length s))%nat /\ r <> [].
Proof.
  revert n s. induction e as [|c e IH]; intros n s Hn.
  - destruct n as [|n]; cbn [tokenize words]; [rewrite (Hn eq_refl); done|]. destruct s; simpl; done.
  - destruct n as [|n].
    { cbn [tokenize fst snd app length]. rewrite (Hn eq_refl). split; [done|]. intros r [= <-]. simpl. split; [done|]. split; [lia|done]. }
    cbn [tokenize words]. destruct (c =? 32).
    + destruct s as [|x s].
      * destruct (IH (S n) [] ltac:(done)) as (H1 & H3). split; [done|]. intros r Hr. destruct (H3 r Hr) as (? & H4 & ?). cbn [length] in *. split; [lia|]. split; [lia|done].
      * destruct (IH n [] ltac:(done)) as (H1 & H3). destruct (tokenize n [] e) as [ts rest] eqn:Et. cbn [fst snd] in *. split; [simpl; by rewrite H1|].
        intros r Hr. destruct (H3 r Hr) as (? & H4 & ?). cbn [length] in *. split; [lia|]. split; [lia|done].
    + destruct (IH (S n) (s ++ [c]) ltac:(done)) as (H1 & H3). split; [done|]. intros r Hr. destruct (H3 r Hr) as (? & H4 & ?). rewrite length_app in H4. cbn [length] in *. split; [done|]. split; [lia|done].
Qed.

Lemma tokens_words e :
  words [] e = (tokenize_command e).1 ++ match (tokenize_command e).2 with Some r => words [] r | None => [] end /\
  forall r, (tokenize_command e).2 = Some r -> length (tokenize_command e).1 = 7%nat /\ (length r < length e)%nat /\ r <> [].
Proof.
  destruct (tokenize_words (Z.to_nat (MAX_TOKENS - 1)) [] e ltac:(done)) as [H1 H2]. split; [exact H1|]. intros r Hr. destruct (H2 r Hr) as (H3 & H4 & H5).
  change (Z.to_nat (MAX_TOKENS - 1)) with 7%nat in *. simpl in H4. split; [exact H3|]. split; [lia|done].
Qed.

(** ** The get command *)
(** The text of a value, as the memcached protocol has it. *)
Definition value_text (key : bytes) (v : bytes * Z) : bytes :=
  lit "VALUE " ++ key ++ item_suffix v.2 (s32 (blen v.1 + 2)) ++ v.1 ++ crlf.
Definition answer_text (M : store) (key : bytes) : bytes :=
  match spec_hget M key with Some v => value_text key v | None => [] end.
Definition get_reply (M : store) (keys : list bytes) : bytes := concat (List.map (answer_text M) keys) ++ lit "END" ++ crlf.

(** A key that names a record. *)
Definition plain_key (key : bytes) : Prop := bytes_ok key /\ key <> [] /\ blen key <= MAX_KEY_LEN /\ starts 64 key = false /\ starts 63 key = false.

Lemma print_d_int32 x : Z.abs x <= 2 ^ 31 -> blen (print_d x) <= 11.
Proof.
  intros Hx. change (2 ^ 31) with 2147483648 in Hx. pose proof (print_d_length (Z.abs x) 9) as H. change (10 ^ Z.of_nat 10) with 10000000000 in H. specialize (H ltac:(lia)).
  unfold print_d in *. destruct (Z.ltb_spec (Z.abs x) 0); [lia|]. destruct (Z.ltb_spec x 0).
  - rewrite Z.abs_neq in H by lia. unfold blen. simpl. lia.
  - rewrite Z.abs_eq in H by lia. unfold blen. lia.
Qed.
Lemma suffix_short flags nbytes : blen (item_suffix flags nbytes) < 40.
Proof.
  unfold item_suffix. rewrite !blen_app. pose proof (s32_range flags). pose proof (s32_range (nbytes - 2)). unfold int32 in *.
  pose proof (print_d_int32 (s32 flags) ltac:(lia)). pose proof (print_d_int32 (s32 (nbytes - 2)) ltac:(lia)). change (blen [32]) with 1. change (blen crlf) with 2. lia.
Qed.

Section Commands.
Context {C : Type} {KC : KeyCodec C} {KL : KeyCodecLaws C} (se : ServerEnv).
Context (Hfresh : forall n, length (e_fresh (se_env se) n) = Z.to_nat n /\ bytes_ok (e_fresh (se_env se) n)).
Context (Hmax : 0 <= e_max_bucket_size (se_env se) <= 2 ^ 32 - 2 ^ 27).
Context (dir : Z -> bytes) (Hdir : forall i, blen (dir i) <= 230).
Context (Hmem : forall n, se_malloc_ok se n = true).
Implicit Types (sv : Server C) (M : store).
Let holds n sv M := hinv (se_env se) dir n (sv_store sv) M.

Lemma item_get_spec n sv M key :
  holds n sv M -> plain_key key ->
  exists sv', item_get se sv key = Ret (sv', (fun v => {| i_ver := 0; i_flag := 0; i_nbytes := s32 (blen v.1 + 2); i_key := key;
      i_suffix := item_suffix v.2 (s32 (blen v.1 + 2)); i_data := v.1 ++ crlf |}) <$> spec_hget M key) /\ holds n sv' M.
Proof.
  intros Hh (H1 & _ & _ & H2 & H3). unfold item_get. destruct (hget_spec (se_env se) Hfresh Hmax dir Hdir n (sv_store sv) M key Hh H1 H2 H3) as (s' & -> & Hh' & _).
  cbn [mbind outcome_bind]. destruct (spec_hget M key) as [[v f]|]; [|by exists (with_store sv s')]. unfold item_alloc1.
  rewrite print_path_ok by apply suffix_short. cbn [mbind outcome_bind]. rewrite Hmem. cbn [mbind outcome_bind]. by exists (with_store sv s').
Qed.

(** The state of a reply under construction. *)
Definition extends (c : conn) (x : bytes) (c' : conn) : Prop :=
  iov_ok c' /\ pending c' = pending c ++ x /\ same_conn c c' /\ c_iovused c <= c_iovused c' /\ (chunky c -> chunky c').
Lemma extends_refl c : iov_ok c -> extends c [] c.
Proof. intros Hc. split; [done|]. split; [by rewrite app_nil_r|]. split; [done|]. split; [lia|done]. Qed.
Lemma extends_trans c x c1 y c2 : extends c x c1 -> extends c1 y c2 -> extends c (x ++ y) c2.
Proof.
  intros (A1 & A2 & A3 & A4 & A5) (B1 & B2 & B3 & B4 & B5). split; [done|]. split; [by rewrite B2, A2, app_assoc|]. split; [by apply (same_conn_trans _ c1)|]. split; [lia|auto].
Qed.
Lemma add_iov_extends c buf : iov_ok c -> buf <> [] -> exists c', add_iov IOV_FUEL c buf = Ret c' /\ extends c buf c'.
Proof.
  intros Hc Hb. destruct (add_iov_spec IOV_FUEL c buf Hc) as (c' & E & H1 & H2 & H3 & H4 & H5); [unfold rank, IOV_FUEL; repeat case_match; lia|].
  exists c'. split; [done|]. split; [done|]. split; [done|]. split; [done|]. split; [lia|]. intros Hch. right. auto.
Qed.

Lemma add_value_spec c key v :
  iov_ok c -> key <> [] ->
  exists c', add_value c {| i_ver := 0; i_flag := 0; i_nbytes := s32 (blen v.1 + 2); i_key := key; i_suffix := item_suffix v.2 (s32 (blen v.1 + 2)); i_data := v.1 ++ crlf |} = Ret c' /\
    extends c (value_text key v) c'.
Proof.
  intros Hc Hk. unfold add_value. destruct (add_iov_extends c (lit "VALUE ") Hc) as (c1 & -> & H1); [done|]. cbn [mbind outcome_bind i_key].
  destruct (add_iov_extends c1 key (proj1 H1) Hk) as (c2 & -> & H2). cbn [mbind outcome_bind i_suffix i_data].
  destruct (add_iov_extends c2 (item_suffix v.2 (s32 (blen v.1 + 2)) ++ v.1 ++ crlf) (proj1 H2)) as (c3 & -> & H3); [by unfold item_suffix|].
  exists c3. split; [done|]. unfold value_text. eapply extends_trans; [exact H1|]. by eapply extends_trans.
Qed.

Lemma get_keys_spec n sv M c keys cmds hits misses :
  holds n sv M -> Forall plain_key keys -> iov_ok c ->
  exists sv' c' x, get_keys se sv c keys cmds hits misses = Ret (sv', c', true, x) /\ holds n sv' M /\ extends c (concat (List.map (answer_text M) keys)) c'.
Proof.
  intros Hh Hk. revert sv c cmds hits misses Hh. induction Hk as [|key r Hk _ IH]; intros sv c cmds hits misses Hh Hc; cbn [get_keys List.map concat].
  { exists sv, c, (cmds, hits, misses). split; [done|]. split; [done|]. by apply extends_refl. }
  pose proof Hk as (_ & Hne & Hl & _). rewrite (proj2 (Z.ltb_ge _ _) Hl). destruct (item_get_spec n sv M key Hh Hk) as (sv1 & -> & Hh1). cbn [mbind outcome_bind].
  unfold answer_text at 1. destruct (spec_hget M key) as [v|]; cbn [fmap option_fmap option_map].
  - destruct (add_value_spec c key v Hc Hne) as (c1 & -> & He). cbn [mbind outcome_bind]. destruct (IH sv1 c1 (cmds + 1) (hits + 1) misses Hh1 (proj1 He)) as (sv2 & c2 & x & -> & Hh2 & He2).
    exists sv2, c2, x. split; [done|]. split; [done|]. by eapply extends_trans.
  - destruct (IH sv1 c (cmds + 1) hits (misses + 1) Hh1 Hc) as (sv2 & c2 & x & -> & Hh2 & He2). by exists sv2, c2, x.
Qed.

Lemma get_tokens_spec fuel n sv M c keys rest cmds hits misses :
  let all := keys ++ match rest with Some r => words [] r | None => [] end in
  holds n sv M -> Forall plain_key all -> iov_ok c -> (length (default [] rest) < fuel)%nat -> rest <> Some [] ->
  exists sv' c', get_tokens se fuel sv c keys rest cmds hits misses = Ret (sv', c') /\ holds n sv' M /\ c_state c' = conn_mwrite /\
    c_rbuf c' = c_rbuf c /\ pending c' = pending c ++ get_reply M all /\ (chunky c -> chunky c') /\ iov_ok c'.
Proof.
  intros all. subst all. revert sv c keys rest cmds hits misses. induction fuel as [|fuel IH]; intros sv c keys rest cmds hits misses Hh Hk Hc Hf Hr; [lia|].
  apply Forall_app in Hk as [Hk Hk']. cbn [get_tokens]. destruct (get_keys_spec n sv M c keys cmds hits misses Hh Hk Hc) as (sv1 & c1 & x & -> & Hh1 & He). cbn [mbind outcome_bind].
  destruct x as [[cmds' hits'] misses']. cbn [negb]. pose proof He as (Hc1 & Hp1 & (S1 & S2 & _) & _ & Hch). destruct rest as [rest|].
  - destruct (tokens_words rest) as [W1 W2]. destruct (tokenize_command rest) as [keys2 rest2]. cbn [fst snd] in *.
    destruct (IH sv1 c1 keys2 rest2 cmds' hits' misses' Hh1) as (sv2 & c2 & -> & Hh2 & Hs2 & Hb2 & Hp2 & Hch2 & Hok2); [by rewrite <- W1|done| | |].
    { destruct rest2 as [r2|]; simpl in *; [destruct (W2 r2 eq_refl) as (_ & ? & _); lia|]. destruct rest; [done|simpl in Hf; lia]. }
    { destruct rest2 as [r2|]; [|done]. destruct (W2 r2 eq_refl) as (_ & _ & ?). congruence. }
    exists sv2, c2. split; [done|]. split; [done|]. split; [done|]. split; [congruence|]. split; [|auto]. rewrite Hp2, Hp1, W1. unfold get_reply. by rewrite !map_app, !concat_app, !app_assoc.
  - destruct (add_iov_extends c1 (lit "END" ++ crlf) Hc1) as (c2 & -> & He2); [done|]. cbn [mbind outcome_bind]. pose proof He2 as (Hok2 & Hp2 & (T1 & T2 & _) & _ & Hch2).
    eexists _, _. split; [done|]. split; [done|]. split; [done|]. split; [simpl; congruence|].
    split; [change (pending (conn_set_state c2 conn_mwrite)) with (pending c2); rewrite Hp2, Hp1; unfold get_reply; rewrite app_nil_r, <- !app_assoc; done|].
    split; [intros Hx; by apply Hch2, Hch|]. destruct Hok2. by constructor.
Qed.

(** The connection [process_command] works on. *)
Definition fresh_reply (c : conn) : conn := add_msghdr (with_msgs c [] (c_msgbytes c) 0).
Lemma fresh_reply_ok c : c_msgs (fresh_reply c) = [[]] /\ c_msgbytes (fresh_reply c) = 0 /\ c_iovused (fresh_reply c) = 0 /\ iov_ok (fresh_reply c) /\ pending (fresh_reply c) = [] /\ same_conn c (fresh_reply c).
Proof. repeat (split; [done|]). split; [by apply new_message_ok|]. done. Qed.

Lemma get_command_spec n sv M c command keys now :
  holds n sv M -> words [] command = lit "get" :: keys -> keys <> [] -> Forall plain_key keys ->
  exists sv' c', process_command se sv c command now = Ret (sv', c') /\ holds n sv' M /\ ready c' /\ reply c' = get_reply M keys /\ c_rbuf c' = c_rbuf c.
Proof.
  intros Hh Hw Hne Hk. unfold process_command. fold (fresh_reply c). destruct (fresh_reply_ok c) as (M1 & M2 & M3 & Hok & Hpe & (S1 & S2 & _)).
  destruct (tokens_words command) as [W1 W2]. destruct (tokenize_command command) as [tokens rest]. cbn [fst snd] in *. rewrite Hw in W1.
  assert (Ht : exists keys1, tokens = lit "get" :: keys1 /\ keys = keys1 ++ match rest with Some r => words [] r | None => [] end /\ keys1 <> []).
  { destruct tokens as [|t0 keys1]; [destruct rest as [r|]; [by destruct (W2 r eq_refl) as [? _]|done]|]. injection W1 as <- W1. exists keys1. split; [done|]. split; [done|].
    intros ->. destruct rest as [r|]; [by destruct (W2 r eq_refl) as [? _]|]. by subst keys. }
  destruct Ht as (keys1 & -> & Hkeys & Hne1). set (tk := lit "get" :: keys1).
  assert (Hn : (3 <=? Z.of_nat (length tk) + 1) = true) by (apply Z.leb_le; unfold tk; destruct keys1; [done|simpl; lia]).
  rewrite Hn. assert (bool_decide (head tk = Some (lit "get")) = true) as -> by done. cbn [andb]. unfold process_get_command.
  destruct (get_tokens_spec (S (length (default [] rest))) n sv M (fresh_reply c) (drop 1 tk) rest 0 0 0 Hh) as (sv' & c' & -> & Hh' & Hst & Hb & Hp & Hch & Hok').
  { change (drop 1 tk) with keys1. by rewrite <- Hkeys. }
  { done. }
  { lia. }
  { destruct rest as [r|]; [|done]. destruct (W2 r eq_refl) as (_ & _ & ?). congruence. }
  change (drop 1 tk) with keys1 in Hp. rewrite <- Hkeys, Hpe in Hp. exists sv', c'. split; [done|]. split; [done|]. split; [left; split; [done|]|split; [unfold reply; by rewrite Hst|congruence]].
  unfold sendable, to_send. destruct (Hch (or_introl M1)) as [E|Hall]; [by rewrite E|]. destruct (c_msgs c') as [|[|b m] r]; [done| |done]. by apply Forall_cons in Hall as [? _].
Qed.

Lemma drive_S fuel sv c k now :
  drive_machine se (S fuel) sv c k now =
  ('(sv, c, k, v) ← drive_step se sv c k now; match v with Continue => drive_machine se fuel sv c k now | _ => Ret (sv, c, k, v) end).
Proof. reflexivity. Qed.

(** ** Lines *)
Definition line_ok (l : bytes) : Prop := l <> [] /\ Forall (fun c => c <> 10 /\ c <> 0) l.

Lemma split_line_app l tail : Forall (fun c => c <> 10 /\ c <> 0) l -> split_line (l ++ 10 :: tail) = Some (l, tail).
Proof. induction 1 as [|c r [Hc _] _ IH]; [done|]. cbn [app split_line]. by rewrite (proj2 (Z.eqb_neq c 10)), IH. Qed.

Lemma command_line l : line_ok l -> cstr (strip_cr (l ++ [13])) = l.
Proof.
  intros [Hne Hl]. unfold strip_cr. rewrite blen_app, last_snoc, bool_decide_true by done. change (blen [13]) with 1.
  assert (0 < blen l) by (destruct l; [done|unfold blen; simpl; lia]). rewrite (proj2 (Z.ltb_lt _ _)) by lia. cbn [andb].
  rewrite length_app, take_app_length' by (simpl; lia). apply cstr_nozero. eapply Forall_impl; [exact Hl|]. by intros c [_ ?].
Qed.

(** A complete line in the buffer is executed. *)
Lemma line_step sv c k l tail now :
  c_state c = conn_read -> c_rbuf c = l ++ [13] ++ 10 :: tail -> line_ok l ->
  drive_step se sv c k now = ('(sv, c) ← process_command se sv (with_rbuf c tail (c_rsize c)) l now; Ret (sv, c, k, Continue)).
Proof.
  intros Hs Hb Hl. unfold drive_step. rewrite Hs. unfold step_read, try_read_command.
  assert (split_line (c_rbuf c) = Some (l ++ [13], tail)) as ->.
  { rewrite Hb, app_assoc. apply split_line_app, Forall_app. split; [apply Hl|]. constructor; [done|constructor]. }
  rewrite command_line by done. destruct (process_command se sv (with_rbuf c tail (c_rsize c)) l now) as [[sv' c']| |]; done.
Qed.

Lemma get_line_spec n sv M c k line tail keys now fuel :
  holds n sv M -> c_state c = conn_read -> c_rbuf c = line ++ [13] ++ 10 :: tail -> line_ok line -> split_line tail = None -> s_in k = [] ->
  words [] line = lit "get" :: keys -> keys <> [] -> Forall plain_key keys ->
  accepting k -> blen (get_reply M keys) <= Z.of_nat (length (s_out k)) -> (length (get_reply M keys) + 3 <= fuel)%nat ->
  exists sv' c' k', drive_machine se fuel sv c k now = Ret (sv', c', k', Stop) /\ holds n sv' M /\ c_state c' = conn_read /\
    s_sent k' = s_sent k ++ get_reply M keys.
Proof.
  intros Hh Hs Hb Hl Ht Hin Hw Hne Hk Ha Hlen Hf. destruct fuel as [|fuel]; [lia|]. cbn [drive_machine]. rewrite (line_step sv c k line tail now Hs Hb Hl).
  destruct (get_command_spec n sv M (with_rbuf c tail (c_rsize c)) line keys now Hh Hw Hne Hk) as (sv1 & c1 & -> & Hh1 & Hr & Hre & Hb1). cbn [mbind outcome_bind].
  rewrite <- Hre in *. destruct (deliver_ready se sv1 c1 k now fuel Hr) as (sv2 & c2 & k2 & E & Hsv & Hc2 & Hsent); [by split; [rewrite Hb1|]|done|lia|lia|].
  exists sv2, c2, k2. split; [done|]. split; [unfold holds; by rewrite Hsv|done].
Qed.

(** ** The set command *)
Lemma few_words line ws : words [] line = ws -> (length ws < 7)%nat -> tokenize_command line = (ws, None).
Proof.
  intros Hw Hl. destruct (tokens_words line) as [W1 W2]. destruct (tokenize_command line) as [ts rest]. cbn [fst snd] in *. rewrite Hw in W1. destruct rest as [r|].
  - destruct (W2 r eq_refl) as [H _]. rewrite W1, length_app in Hl. lia.
  - rewrite app_nil_r in W1. by rewrite W1.
Qed.

(** What the tokens of a set or append command say: the flags, the version and
    the length of the value. *)
Record update_tokens (tf te tv : bytes) (flags version vlen : Z) : Prop := {
  ut_flags : strtoul 10 tf = (flags, false);
  ut_version : strtol 10 te = (version, false);
  ut_vlen : strtol 10 tv = (vlen, false);
  ut_reply : tv <> lit "noreply";
  ut_range : int32 flags /\ int32 version /\ 0 <= vlen < 2 ^ 31 - 2
}.

Definition new_item (key : bytes) (flags version nbytes : Z) : item :=
  {| i_ver := version; i_flag := u32 flags; i_nbytes := nbytes; i_key := key; i_suffix := item_suffix flags nbytes; i_data := [] |}.

Lemma update_command_spec sv c line comm cmd key tf te tv flags version vlen now :
  words [] line = [cmd; key; tf; te; tv] -> (cmd, comm) ∈ [(lit "set", NREAD_SET); (lit "append", NREAD_APPEND)] ->
  update_tokens tf te tv flags version vlen -> blen key <= MAX_KEY_LEN ->
  process_command se sv c line now =
    Ret (sv, conn_set_state (with_item (fresh_reply c) (Some (new_item key flags version (vlen + 2))) comm (vlen + 2)) conn_nread).
Proof.
  intros Hw Hc [Hf He Hv Hnr (R1 & R2 & R3)] Hk. unfold process_command. fold (fresh_reply c). rewrite (few_words line _ Hw) by (simpl; lia).
  assert (Hu : process_update_command se sv (fresh_reply c) [cmd; key; tf; te; tv] comm =
    Ret (sv, conn_set_state (with_item (fresh_reply c) (Some (new_item key flags version (vlen + 2))) comm (vlen + 2)) conn_nread)).
  { unfold process_update_command, set_noreply_maybe. cbn [last]. rewrite bool_decide_false by done.
    change (fetch [cmd; key; tf; te; tv] 1) with (Ret key). change (fetch [cmd; key; tf; te; tv] 2) with (Ret tf).
    change (fetch [cmd; key; tf; te; tv] 3) with (Ret te). change (fetch [cmd; key; tf; te; tv] 4) with (Ret tv). cbn [mbind outcome_bind].
    rewrite (proj2 (Z.ltb_ge _ _) Hk). unfold erange. rewrite Hf, He, Hv. cbn [fst snd orb]. unfold int32 in *. change (2 ^ 31) with 2147483648 in *.
    rewrite !s32_id by (change (2 ^ 31) with 2147483648; lia). rewrite (proj2 (Z.ltb_ge vlen 0)) by lia. unfold item_alloc1.
    rewrite print_path_ok by apply suffix_short. cbn [mbind outcome_bind]. rewrite Hmem. cbn [mbind outcome_bind]. reflexivity. }
  assert (H : (cmd = lit "set" /\ comm = NREAD_SET) \/ (cmd = lit "append" /\ comm = NREAD_APPEND)) by set_solver.
  destruct H as [[-> ->]|[-> ->]]; exact Hu.
Qed.

(** ** Reading the value *)
(** The input still to come, in pieces. *)
Definition arriving (k : Sock) (chunks : list bytes) : Prop := s_in k = List.map RData chunks /\ Forall (fun b => b <> []) chunks.

(** A connection that reads the item [it] and has its reply lines empty. *)
Record nreading (c : conn) (it : item) (comm : nread_comm) (rl : Z) : Prop := {
  nr_state : c_state c = conn_nread;
  nr_item : c_item c = Some it;
  nr_comm : c_item_comm c = comm;
  nr_left : c_rlbytes c = rl;
  nr_reply : c_noreply c = false;
  nr_msgs : c_msgs c = [[]] /\ c_msgbytes c = 0 /\ c_iovused c = 0
}.
Definition with_data (it : item) (d : bytes) : item :=
  {| i_ver := i_ver it; i_flag := i_flag it; i_nbytes := i_nbytes it; i_key := i_key it; i_suffix := i_suffix it; i_data := d |}.

Lemma feed_spec c it comm rl b :
  nreading c it comm rl -> nreading (item_feed c b) (with_data it (i_data it ++ b)) comm (rl - blen b) /\ c_rbuf (item_feed c b) = c_rbuf c.
Proof. intros [? Hi ? ? ? (? & ? & ?)]. unfold item_feed. rewrite Hi. split; [|done]. constructor; cbn; auto. lia. Qed.

(** Data in the buffer is taken first. *)
Lemma nread_buffer sv c it comm rl k now :
  nreading c it comm rl -> c_rbuf c <> [] -> blen (c_rbuf c) <= rl ->
  exists c', drive_step se sv c k now = Ret (sv, c', k, Continue) /\ nreading c' (with_data it (i_data it ++ c_rbuf c)) comm (rl - blen (c_rbuf c)) /\ c_rbuf c' = [].
Proof.
  intros Hn Hb Hle. pose proof Hn as []. assert (0 < blen (c_rbuf c)) by (destruct (c_rbuf c); [done|unfold blen; simpl; lia]).
  unfold drive_step. rewrite nr_state0. unfold step_nread. rewrite nr_left0, (proj2 (Z.eqb_neq rl 0)), (proj2 (Z.ltb_lt 0 _)), Z.min_l, (proj2 (Z.ltb_ge _ 0)) by lia.
  rewrite take_ge, drop_ge by (unfold blen; lia). eexists. split; [done|].
  assert (Hn' : nreading (with_rbuf c [] (c_rsize c)) it comm rl) by by constructor. destruct (feed_spec _ _ _ _ (c_rbuf c) Hn') as [H1 H2]. done.
Qed.

(** Then what the socket has. *)
Lemma nread_socket sv c it comm rl k b chunks now :
  nreading c it comm rl -> c_rbuf c = [] -> arriving k (b :: chunks) -> blen b <= rl ->
  exists sv' c' k', drive_step se sv c k now = Ret (sv', c', k', Continue) /\ sv_store sv' = sv_store sv /\
    nreading c' (with_data it (i_data it ++ b)) comm (rl - blen b) /\ c_rbuf c' = [] /\ arriving k' chunks /\ s_out k' = s_out k /\ s_sent k' = s_sent k.
Proof.
  intros Hn Hb [Hin Hne] Hle. pose proof Hn as []. apply Forall_cons in Hne as [Hb0 Hne]. assert (0 < blen b) by (destruct b; [done|unfold blen; simpl; lia]).
  unfold drive_step. rewrite nr_state0. unfold step_nread. rewrite nr_left0, (proj2 (Z.eqb_neq rl 0)), Hb by lia. cbn [blen length Z.of_nat Z.ltb Z.compare].
  unfold sock_read. rewrite Hin. cbn [List.map]. rewrite (proj2 (Z.leb_le _ _) Hle). destruct b as [|x b]; [done|].
  eexists _, _, _. split; [done|]. split; [done|]. destruct (feed_spec _ _ _ _ (x :: b) Hn) as [H1 H2]. split; [done|]. split; [by rewrite H2|]. done.
Qed.

Lemma nread_chunks chunks sv c it comm k now fuel :
  nreading c it comm (blen (concat chunks)) -> c_rbuf c = [] -> arriving k chunks ->
  exists sv' c' k', drive_machine se (length chunks + fuel) sv c k now = drive_machine se fuel sv' c' k' now /\ sv_store sv' = sv_store sv /\
    nreading c' (with_data it (i_data it ++ concat chunks)) comm 0 /\ c_rbuf c' = [] /\ s_in k' = [] /\ s_out k' = s_out k /\ s_sent k' = s_sent k.
Proof.
  revert sv c it k. induction chunks as [|b chunks IH]; intros sv c it k Hn Hb Ha.
  - exists sv, c, k. split; [done|]. split; [done|]. cbn [concat]. rewrite app_nil_r. split; [by destruct it|]. split; [done|]. split; [apply Ha|done].
  - cbn [concat] in *. rewrite blen_app in Hn. pose proof (blen_nonneg (concat chunks)).
    destruct (nread_socket sv c it comm _ k b chunks now Hn Hb Ha) as (sv1 & c1 & k1 & E & Hsv & Hn1 & Hb1 & Ha1 & Ho1 & Hs1); [lia|].
    replace (blen b + blen (concat chunks) - blen b) with (blen (concat chunks)) in Hn1 by lia.
    destruct (IH sv1 c1 _ k1 Hn1 Hb1 Ha1) as (sv2 & c2 & k2 & E2 & Hsv2 & Hn2 & Hb2 & Hi2 & Ho2 & Hs2).
    exists sv2, c2, k2. cbn [length Nat.add drive_machine]. rewrite E. cbn [mbind outcome_bind]. split; [done|]. split; [congruence|].
    split; [cbn [with_data i_data] in Hn2; rewrite <- app_assoc in Hn2; exact Hn2|]. split; [done|]. split; [done|]. split; congruence.
Qed.

(** The value, whatever the pieces it comes in. *)
Lemma nread_all sv c it comm k chunks now fuel :
  nreading c it comm (blen (c_rbuf c ++ concat chunks)) -> arriving k chunks ->
  exists sv' c' k', drive_machine se (S (length chunks + fuel)) sv c k now = drive_machine se (if bool_decide (c_rbuf c = []) then S fuel else fuel) sv' c' k' now /\
    sv_store sv' = sv_store sv /\ nreading c' (with_data it (i_data it ++ c_rbuf c ++ concat chunks)) comm 0 /\ c_rbuf c' = [] /\ s_in k' = [] /\
    s_out k' = s_out k /\ s_sent k' = s_sent k.
Proof.
  intros Hn Ha. case_bool_decide as Hb.
  - rewrite Hb in *. cbn [app] in *. replace (S (length chunks + fuel)) with (length chunks + S fuel)%nat by lia. by apply nread_chunks.
  - rewrite blen_app in Hn. pose proof (blen_nonneg (concat chunks)). destruct (nread_buffer sv c it comm _ k now Hn Hb) as (c1 & E & Hn1 & Hb1); [lia|].
    replace (blen (c_rbuf c) + blen (concat chunks) - blen (c_rbuf c)) with (blen (concat chunks)) in Hn1 by lia.
    destruct (nread_chunks chunks sv c1 _ comm k now fuel Hn1 Hb1 Ha) as (sv2 & c2 & k2 & E2 & Hx). exists sv2, c2, k2.
    cbn [drive_machine]. rewrite E. cbn [mbind outcome_bind]. split; [done|]. cbn [with_data i_data] in Hx. by rewrite <- app_assoc in Hx.
Qed.

(** What the store does with an item. *)
Definition spec_store (M : store) (comm : nread_comm) (key value : bytes) (flags version : Z) : store * bool :=
  match comm with NREAD_SET => spec_hset M key value (u32 flags) version | NREAD_APPEND => spec_append M key value end.

(** A value that may be stored under a key. *)
Record storable (comm : nread_comm) (key value : bytes) (flags version : Z) : Prop := {
  sb_request : hrequest_ok key value;
  sb_flags : Z.land (s32 (u32 flags)) COMPRESS_FLAG = 0;
  sb_version : Z.abs version <= 2 ^ 30;
  sb_plain : comm = NREAD_APPEND -> starts 64 key = false /\ starts 63 key = false
}.

Lemma store_item_spec n sv M comm key value flags version now :
  holds n sv M -> 0 <= n < MAX_OPS -> storable comm key value flags version ->
  exists s', store_item se sv (with_data (new_item key flags version (blen value + 2)) (value ++ crlf)) comm now =
      Ret (with_store sv s', (spec_store M comm key value flags version).2) /\
    after (se_env se) dir n s' (spec_store M comm key value flags version).1.
Proof.
  intros Hh Hn []. unfold store_item. cbn [with_data new_item i_nbytes i_data i_key i_flag i_ver].
  assert (take (Z.to_nat (blen value + 2 - 2)) (value ++ crlf) = value) as -> by (apply take_app_length'; unfold blen; lia). destruct comm; cbn [spec_store].
  - destruct (hset_spec (se_env se) Hfresh Hmax dir Hdir n (sv_store sv) M key value (u32 flags) version now) as (s' & -> & Ha); auto. by exists s'.
  - destruct (sb_plain0 eq_refl). destruct (happend_spec (se_env se) Hfresh Hmax dir Hdir n (sv_store sv) M key value now) as (s' & -> & Ha); auto. by exists s'.
Qed.

Definition stored_line (ok : bool) : bytes := (if ok then lit "STORED" else lit "NOT_STORED") ++ crlf.

Lemma complete_spec n sv M c comm key value flags version k now :
  holds n sv M -> 0 <= n < MAX_OPS -> storable comm key value flags version -> c_rbuf c = [] ->
  nreading c (with_data (new_item key flags version (blen value + 2)) (value ++ crlf)) comm 0 ->
  exists sv' c', drive_step se sv c k now = Ret (sv', c', k, Continue) /\
    after (se_env se) dir n (sv_store sv') (spec_store M comm key value flags version).1 /\
    ready c' /\ reply c' = stored_line (spec_store M comm key value flags version).2 /\ c_rbuf c' = [].
Proof.
  intros Hh Hn Hs Hb []. unfold drive_step. rewrite nr_state0. unfold step_nread. rewrite nr_left0. cbn [Z.eqb]. unfold complete_nread. rewrite nr_item0.
  cbn [with_data new_item i_nbytes i_data]. assert (drop (Z.to_nat (blen value + 2 - 2)) (value ++ crlf) = crlf) as -> by (apply drop_app_length'; unfold blen; lia).
  rewrite bool_decide_true by done. cbn [negb]. rewrite nr_comm0.
  destruct (store_item_spec n (count_set sv) M comm key value flags version now Hh Hn Hs) as (s' & E & Ha).
  change {| i_ver := _; i_flag := _; i_nbytes := _; i_key := _; i_suffix := _; i_data := _ |} with (with_data (new_item key flags version (blen value + 2)) (value ++ crlf)).
  rewrite E. cbn [mbind outcome_bind]. unfold out_string. rewrite nr_reply0. destruct nr_msgs0 as (M1 & M2 & M3).
  set (ok := (spec_store M comm key value flags version).2) in *.
  assert ((DATA_BUFFER_SIZE <? blen (if ok then lit "STORED" else lit "NOT_STORED") + 2) = false) as -> by by destruct ok. cbn [mbind outcome_bind].
  eexists _, _. split; [done|]. split; [exact Ha|]. split; [right; cbn; repeat (split; [done|]); by destruct ok|]. split; [|exact Hb].
  unfold reply. cbn. by destruct ok.
Qed.

Lemma update_line_spec n sv M c k line pre chunks cmd comm key tf te tv flags version value now fuel :
  holds n sv M -> 0 <= n < MAX_OPS -> c_state c = conn_read -> c_noreply c = false -> c_rbuf c = line ++ [13] ++ 10 :: pre -> line_ok line ->
  words [] line = [cmd; key; tf; te; tv] -> (cmd, comm) ∈ [(lit "set", NREAD_SET); (lit "append", NREAD_APPEND)] ->
  update_tokens tf te tv flags version (blen value) -> storable comm key value flags version ->
  arriving k chunks -> pre ++ concat chunks = value ++ crlf -> accepting k -> (12 <= length (s_out k))%nat -> (length chunks + 20 <= fuel)%nat ->
  exists sv' c' k', drive_machine se fuel sv c k now = Ret (sv', c', k', Stop) /\
    after (se_env se) dir n (sv_store sv') (spec_store M comm key value flags version).1 /\ c_state c' = conn_read /\
    s_sent k' = s_sent k ++ stored_line (spec_store M comm key value flags version).2.
Proof.
  intros Hh Hn Hs Hnr Hb Hl Hw Hc Ht Hst Ha Hv Hacc Hlen Hf. assert (exists f, fuel = S (S (length chunks + (16 + f)))) as [f ->] by (exists (fuel - length chunks - 18)%nat; lia).
  pose proof Hst as [(Hk1 & Hk2 & Hk3) _ _ _]. rewrite drive_S, (line_step sv c k line pre now Hs Hb Hl).
  rewrite (update_command_spec sv _ line comm cmd key tf te tv flags version (blen value) now Hw Hc Ht) by (unfold MAX_KEY_LEN; lia). cbn [mbind outcome_bind].
  set (c1 := conn_set_state _ conn_nread).
  assert (Hn1 : nreading c1 (new_item key flags version (blen value + 2)) comm (blen (pre ++ concat chunks))).
  { rewrite Hv, blen_app. by constructor. }
  change pre with (c_rbuf c1) in Hn1, Hv. destruct (nread_all sv c1 _ comm k chunks now (16 + f) Hn1 Ha) as (sv2 & c2 & k2 & -> & Hsv2 & Hn2 & Hb2 & Hi2 & Ho2 & Hs2).
  rewrite Hv in Hn2. cbn [new_item i_data app] in Hn2. assert (Hh2 : holds n sv2 M) by (unfold holds; by rewrite Hsv2).
  destruct (complete_spec n sv2 M c2 comm key value flags version k2 now Hh2 Hn Hst Hb2 Hn2) as (sv3 & c3 & E3 & Ha3 & Hr3 & Hre3 & Hb3).
  assert (Hlr : (length (reply c3) <= 12)%nat) by (rewrite Hre3; by destruct (spec_store M comm key value flags version).2; cbn; lia).
  assert (Hrun : forall g, (15 <= g)%nat -> exists sv' c' k', drive_machine se (S g) sv2 c2 k2 now = Ret (sv', c', k', Stop) /\ sv_store sv' = sv_store sv3 /\ c_state c' = conn_read /\ s_sent k' = s_sent k2 ++ reply c3).
  { intros g Hg. cbn [drive_machine]. rewrite E3. cbn [mbind outcome_bind]. apply deliver_ready; auto; [by split; [rewrite Hb3|]|unfold accepting; by rewrite Ho2|rewrite Ho2; unfold blen; lia|lia]. }
  destruct (Hrun (if bool_decide (c_rbuf c1 = []) then 16 + f else 15 + f)%nat) as (sv4 & c4 & k4 & E4 & Hsv4 & Hc4 & Hs4); [case_bool_decide; lia|].
  exists sv4, c4, k4. split; [rewrite <- E4; by case_bool_decide|]. split; [by rewrite Hsv4|]. split; [done|]. by rewrite Hs4, Hs2, Hre3.
Qed.
End Commands.
