(* ===== verification/Sessions.v ===== *)
(** * Sessions

    What a client sees: a line it sends is answered with the lines the map of the
    store demands, however the network cuts the request and the reply. *)
From Stdlib Require Import ZArith Lia List.
From stdpp Require Import base numbers list gmap strings.
From S2P Require Import Prelude Hash CText Codec CodecFacts HTree Disk Record RecordFacts Buckets BucketsFacts Bitcask BitcaskInv BitcaskSteps BitcaskSpec BitcaskHistory HStore HStoreFacts Protocol ProtocolFacts.

Section Sessions.
Context {C : Type} {KC : KeyCodec C} {KL : KeyCodecLaws C} (se : ServerEnv).
Context (Hfresh : forall n, length (e_fresh (se_env se) n) = Z.to_nat n /\ bytes_ok (e_fresh (se_env se) n)).
Context (Hmax : 0 <= e_max_bucket_size (se_env se) <= 2 ^ 32 - 2 ^ 27).
Context (dir : Z -> bytes) (Hdir : forall i, blen (dir i) <= 230).
Context (Hmem : forall n, se_malloc_ok se n = true).
Implicit Types (sv : Server C) (M : store).

(** C5. A get is answered.  When a connection that reads has a line
    [get k1 ... kn] in its buffer (any number of keys, more than the eight tokens
    the parser takes at a time), the client receives exactly the [VALUE] lines and
    data of the keys the store holds, in the order asked, and [END]; the store is
    unchanged. *)
Theorem get_answered n sv M c k line tail keys now fuel :
  hinv (se_env se) dir n (sv_store sv) M ->
  c_state c = conn_read -> c_rbuf c = line ++ [13] ++ 10 :: tail -> line_ok line -> split_line tail = None -> s_in k = [] ->
  words [] line = lit "get" :: keys -> keys <> [] -> Forall plain_key keys ->
  accepting k -> blen (get_reply M keys) <= Z.of_nat (length (s_out k)) -> (length (get_reply M keys) + 3 <= fuel)%nat ->
  exists sv' c' k', drive_machine se fuel sv c k now = Ret (sv', c', k', Stop) /\ hinv (se_env se) dir n (sv_store sv') M /\
    c_state c' = conn_read /\ s_sent k' = s_sent k ++ get_reply M keys.
Proof. by apply get_line_spec. Qed.

(** C6. A set is carried out.  When a connection has a line [set key flags
    version length] (or [append ...]) in its buffer, and the value and its line end
    arrive in any pieces, in the buffer or from the socket, then the map of the
    store is updated as [spec_store] says and the client receives [STORED], or
    [NOT_STORED] if the request is refused. *)
Theorem update_answered n sv M c k line pre chunks cmd comm key tf te tv flags version value now fuel :
  hinv (se_env se) dir n (sv_store sv) M -> 0 <= n < MAX_OPS ->
  c_state c = conn_read -> c_noreply c = false -> c_rbuf c = line ++ [13] ++ 10 :: pre -> line_ok line ->
  words [] line = [cmd; key; tf; te; tv] -> (cmd, comm) ∈ [(lit "set", NREAD_SET); (lit "append", NREAD_APPEND)] ->
  update_tokens tf te tv flags version (blen value) -> storable comm key value flags version ->
  arriving k chunks -> pre ++ concat chunks = value ++ crlf ->
  accepting k -> (12 <= length (s_out k))%nat -> (length chunks + 20 <= fuel)%nat ->
  exists sv' c' k', drive_machine se fuel sv c k now = Ret (sv', c', k', Stop) /\
    (exhausted (sv_store sv') \/ hinv (se_env se) dir (n + 1) (sv_store sv') (spec_store M comm key value flags version).1) /\
    c_state c' = conn_read /\ s_sent k' = s_sent k ++ stored_line (spec_store M comm key value flags version).2.
Proof. by apply update_line_spec. Qed.
End Sessions.

(** ** A concrete server *)
Definition demo_se : ServerEnv :=
  {| se_env := small_env; se_malloc_ok := fun _ => true; se_item_buf_size := 512; se_stats_text := fun _ _ _ _ => [];
     se_version := lit "0.7"; se_stopme := false; se_einval := false |}.
Definition no_stats : Stats :=
  {| get_cmds := 0; set_cmds := 0; delete_cmds := 0; get_hits := 0; get_misses := 0; bytes_read := 0; bytes_written := 0 |}.
Definition demo_server : Server Codec := {| sv_store := demo_store; sv_verbose := 0; sv_stats := no_stats; sv_quit := false |}.
Definition demo_sock (chunks : list bytes) (n : nat) : Sock := {| s_in := List.map RData chunks; s_out := repeat (WSent 3) n; s_sent := [] |}.
Definition demo_conn (b : bytes) : conn := with_rbuf conn_new b DATA_BUFFER_SIZE.

Lemma demo_accepting chunks n : accepting (demo_sock chunks n).
Proof. unfold accepting, demo_sock. cbn [s_out]. apply Forall_forall. intros w Hw%list_elem_of_In%repeat_spec. exists 3. split; [done|lia]. Qed.

Lemma get_answered_witness :
  exists sv' c' k', drive_machine demo_se 100 demo_server (demo_conn (lit "get k1 k2" ++ [13] ++ 10 :: [])) (demo_sock [] 10) 100 = Ret (sv', c', k', Stop) /\
    hinv small_env (dir_of 1 (lit "/db")) 0 (sv_store sv') ∅ /\ c_state c' = conn_read /\
    s_sent k' = s_sent (demo_sock [] 10) ++ get_reply ∅ [lit "k1"; lit "k2"].
Proof.
  apply (get_answered demo_se (fun n => zeros_ok n) ltac:(split; vm_compute; discriminate) (dir_of 1 (lit "/db")) (dir_of_short _ _) (fun _ => eq_refl) 0 demo_server ∅ _ _ (lit "get k1 k2") []).
  - apply empty_hinv. lia.
  - reflexivity.
  - reflexivity.
  - split; [discriminate|]. by_compute.
  - reflexivity.
  - reflexivity.
  - vm_compute. reflexivity.
  - discriminate.
  - unfold plain_key. by_compute.
  - apply demo_accepting.
  - vm_compute. discriminate.
  - apply Nat.leb_le. vm_compute. reflexivity.
Defined.

Lemma update_answered_witness :
  exists sv' c' k', drive_machine demo_se 100 demo_server (demo_conn (lit "set photo 3 0 5" ++ [13] ++ 10 :: lit "he")) (demo_sock [lit "l"; lit "lo" ++ [13]; [10]] 12) 100 = Ret (sv', c', k', Stop) /\
    (exhausted (sv_store sv') \/ hinv small_env (dir_of 1 (lit "/db")) (0 + 1) (sv_store sv') (spec_store ∅ NREAD_SET (lit "photo") (lit "hello") 3 0).1) /\
    c_state c' = conn_read /\ s_sent k' = s_sent (demo_sock [lit "l"; lit "lo" ++ [13]; [10]] 12) ++ stored_line (spec_store ∅ NREAD_SET (lit "photo") (lit "hello") 3 0).2.
Proof.
  apply (update_answered demo_se (fun n => zeros_ok n) ltac:(split; vm_compute; discriminate) (dir_of 1 (lit "/db")) (dir_of_short _ _) (fun _ => eq_refl) 0 demo_server ∅
    _ _ (lit "set photo 3 0 5") (lit "he") [lit "l"; lit "lo" ++ [13]; [10]] (lit "set") NREAD_SET (lit "photo") (lit "3") (lit "0") (lit "5") 3 0 (lit "hello")).
  - apply empty_hinv. lia.
  - unfold MAX_OPS. lia.
  - reflexivity.
  - reflexivity.
  - reflexivity.
  - split; [discriminate|]. by_compute.
  - vm_compute. reflexivity.
  - apply list_elem_of_here.
  - constructor; [vm_compute; reflexivity|vm_compute; reflexivity|vm_compute; reflexivity|discriminate|]. split; [split; vm_compute; [discriminate|reflexivity]|]. split; split; vm_compute; (discriminate || reflexivity).
  - constructor; [by_compute|vm_compute; reflexivity|vm_compute; discriminate|discriminate].
  - split; [reflexivity|]. by_compute.
  - vm_compute. reflexivity.
  - apply demo_accepting.
  - apply Nat.leb_le. vm_compute. reflexivity.
  - apply Nat.leb_le. vm_compute. reflexivity.
Defined.

(** A whole session: two values are stored, one is counted, both are read. *)
Definition session (input : list bytes) : option bytes :=
  match drive_machine demo_se 400 demo_server conn_new {| s_in := List.map RData input; s_out := repeat (WSent 7) 200; s_sent := [] |} 100 with
  | Ret (_, _, k, Stop) => Some (s_sent k)
  | _ => None
  end.
Definition ln (s : String.string) : bytes := lit s ++ crlf.

Example session_answers :
  session [ln "set photo 3 0 5"; ln "hello"; ln "incr hits 41"; lit "incr hi"; ln "ts 1"; ln "get photo nothing hits" ++ lit "delete pho"; ln "to" ++ ln "get photo"] =
  Some (ln "STORED" ++ ln "41" ++ ln "42" ++ ln "VALUE photo 3 5" ++ ln "hello" ++ ln "VALUE hits 516 2" ++ ln "42" ++ ln "END" ++ ln "DELETED" ++ ln "END").
Proof. vm_compute. reflexivity. Qed.

(** ** Witnesses for the sending of replies *)
Definition stored_conn : conn := with_wbuf (conn_set_state (fresh_reply conn_new) conn_write) (ln "STORED") conn_read.

Lemma add_iov_appends_witness :
  exists c', add_iov IOV_FUEL stored_conn (repeat 97 5000) = Ret c' /\ pending c' = pending stored_conn ++ repeat 97 5000 /\ iov_ok c'.
Proof. apply add_iov_appends. by apply new_message_ok. Defined.

Lemma reply_delivered_witness :
  exists sv' c' k', drive_machine demo_se 10 demo_server stored_conn (demo_sock [] 8) 100 = Ret (sv', c', k', Stop) /\
    sv_store sv' = sv_store demo_server /\ c_state c' = conn_read /\ s_sent k' = s_sent (demo_sock [] 8) ++ reply stored_conn.
Proof.
  apply (reply_delivered demo_se).
  - right. split; [reflexivity|]. split; [reflexivity|]. split; [reflexivity|]. split; [reflexivity|]. split; [vm_compute; discriminate|reflexivity].
  - split; reflexivity.
  - apply demo_accepting.
  - vm_compute. discriminate.
  - apply Nat.leb_le. vm_compute. reflexivity.
Defined.
