(* ===== verification/EventLoop.v ===== *)
(** * The event loop and the worker threads (thread.c, ae_epoll.c, ae_select.c,
      and the connection list of beansdb.c)

    The workers take turns as the leader: the leader waits for the kernel, takes
    one descriptor that is ready, gives up the lock and drives the connection
    behind it while another worker leads.  Every access to shared memory and every
    system call is a step of its own; the steps of the workers interleave freely.
    The kernel is represented by the descriptors that are armed: epoll with
    [EPOLLONESHOT] disarms a descriptor when it reports it, select does not. *)
From Stdlib Require Import ZArith Lia List.
From stdpp Require Import base numbers list gmap.
From S2P Require Import Prelude.

Definition AE_SETSIZE : Z := 1024 * 60.
Definition AE_OK : Z := 0.
Definition AE_ERR : Z := -1.

(** Descriptors and connections (the address of a [conn]). *)
Abbreviation fd := Z (only parsing).
Abbreviation cid := Z (only parsing).

(** ** The loop *)
(** [loop.conns], [loop.fired] up to [loop.nready] (the last one first), and the
    descriptors armed in the kernel. *)
Record EventLoop := { el_conns : gmap Z cid; el_fired : list fd; el_armed : list fd }.

Definition set_conns (l : EventLoop) (m : gmap Z cid) : EventLoop :=
  {| el_conns := m; el_fired := el_fired l; el_armed := el_armed l |}.
Definition set_armed (l : EventLoop) (a : list fd) : EventLoop :=
  {| el_conns := el_conns l; el_fired := el_fired l; el_armed := a |}.

Definition disarm (x : fd) (a : list fd) : list fd := List.filter (fun y => negb (y =? x)) a.

(** [ok] is whether the kernel grants the request; a descriptor that is added is
    not registered yet. *)
Definition aeApiAddEvent (ok : bool) (l : EventLoop) (x : fd) : EventLoop * Z :=
  if ok then (set_armed l (x :: disarm x (el_armed l)), 0) else (l, -1).
Definition aeApiUpdateEvent (ok : bool) (l : EventLoop) (x : fd) : EventLoop * Z :=
  if ok then (set_armed l (x :: disarm x (el_armed l)), 0) else (l, -1).
Definition aeApiDelEvent (l : EventLoop) (x : fd) : EventLoop := set_armed l (disarm x (el_armed l)).

(** [aeApiPoll]: the kernel reports [ready]. *)
Definition aeApiPoll (oneshot : bool) (l : EventLoop) (ready : list fd) : EventLoop :=
  {| el_conns := el_conns l; el_fired := ready;
     el_armed := if oneshot then List.filter (fun y => negb (bool_decide (y ∈ ready))) (el_armed l) else el_armed l |}.

(** [add_event] in two halves: the test and the entry, then the system call. *)
Definition add_event_enter (l : EventLoop) (x : fd) (c : cid) : EventLoop * Z :=
  if AE_SETSIZE <=? x then (l, AE_ERR)
  else match el_conns l !! x with
       | Some _ => (l, AE_ERR)
       | None => (set_conns l (<[x := c]> (el_conns l)), AE_OK)
       end.
Definition add_event_arm (ok : bool) (l : EventLoop) (x : fd) : EventLoop * Z :=
  let '(l, r) := aeApiAddEvent ok l x in
  if r =? -1 then (set_conns l (delete x (el_conns l)), AE_ERR) else (l, AE_OK).

(** [update_event] in two halves. *)
Definition update_event_enter (l : EventLoop) (x : fd) (c : cid) : EventLoop := set_conns l (<[x := c]> (el_conns l)).
Definition update_event_arm (ok : bool) (l : EventLoop) (x : fd) : EventLoop * Z :=
  let '(l, r) := aeApiUpdateEvent ok l x in
  if r =? -1 then (set_conns l (delete x (el_conns l)), AE_ERR) else (l, AE_OK).

Definition delete_event (l : EventLoop) (x : fd) : EventLoop :=
  if AE_SETSIZE <=? x then l else aeApiDelEvent (set_conns l (delete x (el_conns l))) x.

(** ** The list of free connections *)
(** [freeconns] up to [freecurr] (the last one first), and [freetotal]. *)
Record FreeConns := { fc_list : list cid; fc_total : Z }.
Definition conn_init : FreeConns := {| fc_list := []; fc_total := 200 |}.

Definition do_conn_from_freelist (f : FreeConns) : FreeConns * option cid :=
  match fc_list f with
  | c :: r => ({| fc_list := r; fc_total := fc_total f |}, Some c)
  | [] => (f, None)
  end.

(** [ok] is whether the array can be enlarged; [true] means that the connection
    was not added. *)
Definition do_conn_add_to_freelist (ok : bool) (f : FreeConns) (c : cid) : FreeConns * bool :=
  if Z.of_nat (length (fc_list f)) <? fc_total f then ({| fc_list := c :: fc_list f; fc_total := fc_total f |}, false)
  else if ok then ({| fc_list := c :: fc_list f; fc_total := s32 (fc_total f * 2) |}, false)
  else (f, true).

(** ** The workers *)
Inductive worker :=
| Waiting                       (* for the lock [leader] *)
| Leading                       (* with the lock *)
| Driving (x : fd) (c : cid)    (* in [drive_machine(c)] *)
| Accepted (x : fd) (c : cid) (sfd : fd)               (* [accept] returned [sfd] *)
| Creating (x : fd) (c : cid) (sfd : fd) (n : cid)     (* [conn_new] before [add_event] *)
| Adding (x : fd) (c : cid) (sfd : fd) (n : cid)       (* in [add_event] *)
| Refusing (x : fd) (c : cid) (sfd : fd) (n : cid)     (* [add_event] failed *)
| Refused (x : fd) (c : cid) (sfd : fd)                (* [conn_new] returned NULL *)
| Rearming (x : fd) (c : cid)   (* in [update_event] *)
| Closing (x : fd) (c : cid)    (* in [conn_close] *)
| Deleted (x : fd) (c : cid)    (* after [delete_event], before [close] *)
| Freeing (c : cid)             (* after [close] *)
| Stopped.

(** The descriptors and the connections in the hands of a worker. *)
Definition fds (w : worker) : list fd :=
  match w with
  | Waiting | Leading | Freeing _ | Stopped => []
  | Driving x _ | Rearming x _ | Closing x _ | Deleted x _ => [x]
  | Accepted x _ s | Creating x _ s _ | Adding x _ s _ | Refusing x _ s _ | Refused x _ s => [x; s]
  end.
Definition cids (w : worker) : list cid :=
  match w with
  | Waiting | Leading | Stopped => []
  | Driving _ c | Accepted _ c _ | Refused _ c _ | Rearming _ c | Closing _ c | Deleted _ c | Freeing c => [c]
  | Creating _ c _ n | Adding _ c _ n | Refusing _ c _ n => [c; n]
  end.

Record LoopState := { ls_loop : EventLoop; ls_free : FreeConns; ls_leader : option nat; ls_workers : list worker }.

(** The descriptors that wait for the kernel or for a worker, all descriptors of
    connections, all connections. *)
Definition queued (l : EventLoop) : list fd := el_fired l ++ el_armed l.
Definition all_fds (s : LoopState) : list fd := queued (ls_loop s) ++ flat_map fds (ls_workers s).
Definition conn_of (l : EventLoop) (x : fd) : list cid := option_list (el_conns l !! x).
Definition used_cids (s : LoopState) : list cid := flat_map (conn_of (ls_loop s)) (queued (ls_loop s)) ++ flat_map cids (ls_workers s).
Definition all_cids (s : LoopState) : list cid := used_cids s ++ fc_list (ls_free s).

Definition set_worker (s : LoopState) (i : nat) (w : worker) (l : EventLoop) : LoopState :=
  {| ls_loop := l; ls_free := ls_free s; ls_leader := ls_leader s; ls_workers := <[i := w]> (ls_workers s) |}.
Definition set_free (s : LoopState) (f : FreeConns) : LoopState :=
  {| ls_loop := ls_loop s; ls_free := f; ls_leader := ls_leader s; ls_workers := ls_workers s |}.
Definition set_leader (s : LoopState) (i : option nat) : LoopState :=
  {| ls_loop := ls_loop s; ls_free := ls_free s; ls_leader := i; ls_workers := ls_workers s |}.

(** [worker_main]: the loop of a worker, and [update_event] after [drive_machine]. *)
Inductive worker_main (oneshot : bool) (s : LoopState) : LoopState -> Prop :=
| SLock i : ls_workers s !! i = Some Waiting -> ls_leader s = None ->
    worker_main oneshot s (set_worker (set_leader s (Some i)) i Leading (ls_loop s))
| SPoll i ready : ls_workers s !! i = Some Leading -> ls_leader s = Some i -> el_fired (ls_loop s) = [] ->
    NoDup ready -> (forall x, x ∈ ready -> x ∈ el_armed (ls_loop s)) ->
    worker_main oneshot s (set_worker s i Leading (aeApiPoll oneshot (ls_loop s) ready))
| SQuit i : ls_workers s !! i = Some Leading -> ls_leader s = Some i ->
    worker_main oneshot s (set_worker (set_leader s None) i Stopped (ls_loop s))
| SDone i : ls_workers s !! i = Some Waiting ->   (* [daemon_quit] before the lock *)
    worker_main oneshot s (set_worker s i Stopped (ls_loop s))
| STake i x r c : ls_workers s !! i = Some Leading -> ls_leader s = Some i -> el_fired (ls_loop s) = x :: r -> el_conns (ls_loop s) !! x = Some c ->
    worker_main oneshot s (set_worker (set_leader s None) i (Driving x c) {| el_conns := el_conns (ls_loop s); el_fired := r; el_armed := el_armed (ls_loop s) |})
| SBug i x r : ls_workers s !! i = Some Leading -> ls_leader s = Some i -> el_fired (ls_loop s) = x :: r -> el_conns (ls_loop s) !! x = None ->
    worker_main oneshot s (set_worker s i Leading (delete_event {| el_conns := el_conns (ls_loop s); el_fired := r; el_armed := el_armed (ls_loop s) |} x))
| SAgain i x c : ls_workers s !! i = Some (Driving x c) ->
    worker_main oneshot s (set_worker s i (Rearming x c) (update_event_enter (ls_loop s) x c))
| SRearm i x c ok l r : ls_workers s !! i = Some (Rearming x c) -> update_event_arm ok (ls_loop s) x = (l, r) ->
    worker_main oneshot s (set_worker s i (if r =? AE_OK then Waiting else Closing x c) l).

(** [drive_machine] of a listening connection.  Without free descriptors ([EMFILE]) the
    worker gives up the descriptor [stub_fd] to accept and close the connection, and
    opens it again; this is one step here, as if no other worker did the same or took
    the descriptor in between. *)
Inductive accept_step (s : LoopState) : LoopState -> Prop :=
| SAccept i x c sfd : ls_workers s !! i = Some (Driving x c) -> sfd ∉ all_fds s ->
    accept_step s (set_worker s i (Accepted x c sfd) (ls_loop s))
| SFull i x c : ls_workers s !! i = Some (Driving x c) ->   (* [EMFILE] *)
    accept_step s (set_worker s i (Driving x c) (ls_loop s))
| SNonblock i x c sfd : ls_workers s !! i = Some (Accepted x c sfd) ->   (* [fcntl] failed *)
    accept_step s (set_worker s i (Driving x c) (ls_loop s))
| SShutNew i x c sfd : ls_workers s !! i = Some (Refused x c sfd) ->
    accept_step s (set_worker s i (Driving x c) (ls_loop s)).

(** [conn_new] of an accepted descriptor. *)
Inductive conn_new_step (s : LoopState) : LoopState -> Prop :=
| SReuse i x c sfd f n : ls_workers s !! i = Some (Accepted x c sfd) -> do_conn_from_freelist (ls_free s) = (f, Some n) ->
    conn_new_step s (set_worker (set_free s f) i (Creating x c sfd n) (ls_loop s))
| SMalloc i x c sfd n : ls_workers s !! i = Some (Accepted x c sfd) -> fc_list (ls_free s) = [] -> n ∉ all_cids s ->
    conn_new_step s (set_worker s i (Creating x c sfd n) (ls_loop s))
| SNoMem i x c sfd : ls_workers s !! i = Some (Accepted x c sfd) -> fc_list (ls_free s) = [] ->
    conn_new_step s (set_worker s i (Refused x c sfd) (ls_loop s))
| SEnter i x c sfd n l r : ls_workers s !! i = Some (Creating x c sfd n) -> add_event_enter (ls_loop s) sfd n = (l, r) ->
    conn_new_step s (set_worker s i (if r =? AE_OK then Adding x c sfd n else Refusing x c sfd n) l)
| SAdd i x c sfd n ok l r : ls_workers s !! i = Some (Adding x c sfd n) -> add_event_arm ok (ls_loop s) sfd = (l, r) ->
    conn_new_step s (set_worker s i (if r =? AE_OK then Driving x c else Refusing x c sfd n) l)
| SRefuse i x c sfd n ok f b : ls_workers s !! i = Some (Refusing x c sfd n) -> do_conn_add_to_freelist ok (ls_free s) n = (f, b) ->
    conn_new_step s (set_worker (set_free s f) i (Refused x c sfd) (ls_loop s)).

(** [drive_machine] in the state [conn_closing], and [conn_close]. *)
Inductive conn_close_step (s : LoopState) : LoopState -> Prop :=
| SClose i x c : ls_workers s !! i = Some (Driving x c) ->
    conn_close_step s (set_worker s i (Closing x c) (ls_loop s))
| SDelete i x c : ls_workers s !! i = Some (Closing x c) ->
    conn_close_step s (set_worker s i (Deleted x c) (delete_event (ls_loop s) x))
| SShut i x c : ls_workers s !! i = Some (Deleted x c) ->
    conn_close_step s (set_worker s i (Freeing c) (ls_loop s))
| SFree i c ok f b : ls_workers s !! i = Some (Freeing c) -> do_conn_add_to_freelist ok (ls_free s) c = (f, b) ->
    conn_close_step s (set_worker (set_free s f) i Waiting (ls_loop s))
| SBig i c : ls_workers s !! i = Some (Freeing c) ->   (* [conn_free] of a connection with big buffers *)
    conn_close_step s (set_worker s i Waiting (ls_loop s)).

(** One step of some worker. *)
Inductive step (oneshot : bool) (s s' : LoopState) : Prop :=
| SMain : worker_main oneshot s s' -> step oneshot s s'
| SListen : accept_step s s' -> step oneshot s s'
| SNew : conn_new_step s s' -> step oneshot s s'
| SEnd : conn_close_step s s' -> step oneshot s s'.

(** [loop_run(nthread)] with the listening connections of [server_socket]. *)
Definition loop_start (nthread : nat) (listening : list (fd * cid)) : LoopState :=
  {| ls_loop := {| el_conns := list_to_map listening; el_fired := []; el_armed := List.map fst listening |};
     ls_free := conn_init; ls_leader := None; ls_workers := replicate nthread Waiting |}.

Inductive reachable (oneshot : bool) (s0 : LoopState) : LoopState -> Prop :=
| RStart : reachable oneshot s0 s0
| RStep s s' : reachable oneshot s0 s -> step oneshot s s' -> reachable oneshot s0 s'.
