(* ===== verification/EventLoopFacts.v ===== *)
(** * No connection is driven by two workers

    Under epoll every descriptor of a connection is in exactly one place: armed in
    the kernel, reported and not yet taken, or in the hands of one worker; and so
    is every connection object, the free ones included.  Under select this fails. *)
From Stdlib Require Import ZArith Lia List.
From stdpp Require Import base numbers list gmap.
From S2P Require Import Prelude EventLoop.

(** ** Counting *)
Definition cnt (x : Z) (l : list Z) : nat := count_occ Z.eq_dec l x.
Lemma cnt_app x a b : cnt x (a ++ b) = (cnt x a + cnt x b)%nat.
Proof. apply count_occ_app. Qed.
Lemma cnt_cons x y l : cnt x (y :: l) = ((if decide (x = y) then 1 else 0) + cnt x l)%nat.
Proof. unfold cnt. simpl. destruct (Z.eq_dec y x), (decide (x = y)); congruence || done. Qed.
Lemma cnt_nil x : cnt x [] = 0%nat.
Proof. done. Qed.
Lemma cnt_in x l : x ∈ l <-> (0 < cnt x l)%nat.
Proof. rewrite list_elem_of_In. apply count_occ_In. Qed.
Lemma cnt_nodup l : NoDup l <-> forall x, (cnt x l <= 1)%nat.
Proof. rewrite NoDup_ListNoDup. apply NoDup_count_occ. Qed.
Lemma cnt_disarm x y l : cnt x (disarm y l) = if decide (x = y) then 0%nat else cnt x l.
Proof.
  induction l as [|z l IH]; [by case_decide|]. unfold disarm in *. cbn [List.filter]. destruct (Z.eqb_spec z y) as [->|Hne]; cbn [negb]; rewrite ?cnt_cons, IH; repeat case_decide; subst; lia || done.
Qed.
Lemma cnt_unreported x ready e : cnt x (el_armed (aeApiPoll true e ready)) = if decide (x ∈ ready) then 0%nat else cnt x (el_armed e).
Proof.
  unfold aeApiPoll. cbn [el_armed]. induction (el_armed e) as [|z l IH]; [by case_decide|]. cbn [List.filter]. case_bool_decide as Hz; cbn [negb]; rewrite ?cnt_cons, IH; repeat case_decide; subst; lia || done.
Qed.

(** ** The invariant *)
(** What a worker knows about the descriptors in its hands. *)
Definition own (l : EventLoop) (w : worker) : Prop :=
  Forall (fun x => x < AE_SETSIZE) (match w with Accepted x _ _ | Creating x _ _ _ | Refusing x _ _ _ | Refused x _ _ => [x] | _ => fds w end) /\
  match w with
  | Waiting | Leading | Freeing _ | Stopped => True
  | Driving x c | Rearming x c => el_conns l !! x = Some c
  | Accepted x c s | Creating x c s _ | Refusing x c s _ | Refused x c s => el_conns l !! x = Some c /\ el_conns l !! s = None
  | Adding x c s n => el_conns l !! x = Some c /\ el_conns l !! s = Some n
  | Closing x c => el_conns l !! x = Some c \/ el_conns l !! x = None
  | Deleted x _ => el_conns l !! x = None
  end.

Record inv (l : EventLoop) (free : list cid) (ws : list worker) : Prop := {
  iv_fds : forall x, (cnt x (queued l) + cnt x (flat_map fds ws) <= 1)%nat;
  iv_cids : forall c, (cnt c (flat_map (conn_of l) (queued l)) + cnt c (flat_map cids ws) + cnt c free <= 1)%nat;
  iv_queued : forall x, x ∈ queued l -> is_Some (el_conns l !! x) /\ x < AE_SETSIZE;
  iv_own : Forall (own l) ws;
  iv_dom : forall x, is_Some (el_conns l !! x) -> (0 < cnt x (queued l) + cnt x (flat_map fds ws))%nat
}.

Lemma cnt_perm {A} x (g : A -> list Z) a b : a ≡ₚ b -> cnt x (flat_map g a) = cnt x (flat_map g b).
Proof. intros H. unfold cnt. apply (Permutation_count_occ Z.eq_dec). by apply Permutation_flat_map. Qed.

Lemma inv_perm l free ws ws' : ws ≡ₚ ws' -> inv l free ws -> inv l free ws'.
Proof.
  intros Hp []. constructor; auto.
  - intros x. rewrite <- (cnt_perm x fds _ _ Hp). auto.
  - intros x. rewrite <- (cnt_perm x cids _ _ Hp). auto.
  - by rewrite <- Hp.
  - intros x Hx. rewrite <- (cnt_perm x fds _ _ Hp). auto.
Qed.

(** The worker that takes the step, first. *)
Lemma focus (ws : list worker) i w : ws !! i = Some w -> exists rest, ws ≡ₚ w :: rest /\ forall w', <[i := w']> ws ≡ₚ w' :: rest.
Proof.
  intros H. exists (take i ws ++ drop (S i) ws). split.
  - rewrite <- (take_drop_middle ws i w H) at 1. symmetry. apply Permutation_middle.
  - intros w'. rewrite insert_take_drop by (by eapply lookup_lt_Some). symmetry. apply Permutation_middle.
Qed.

(** The descriptors of the others are not touched. *)
Lemma own_frame l l' w : (forall x, x ∈ fds w -> el_conns l' !! x = el_conns l !! x) -> own l w -> own l' w.
Proof.
  intros H [H1 H2]. split; [done|]. destruct w; cbn [fds] in H; rewrite ?H by set_solver; done.
Qed.
Lemma owns_frame l l' ws :
  (forall x, (0 < cnt x (flat_map fds ws))%nat -> el_conns l' !! x = el_conns l !! x) -> Forall (own l) ws -> Forall (own l') ws.
Proof.
  intros H Hf. apply Forall_forall. intros w Hw. apply (own_frame l); [|by apply (proj1 (Forall_forall _ _) Hf)].
  intros x Hx. apply H, cnt_in, elem_of_flat_map. eauto.
Qed.
Lemma conns_frame l l' q : (forall x, x ∈ q -> el_conns l' !! x = el_conns l !! x) -> flat_map (conn_of l') q = flat_map (conn_of l) q.
Proof.
  intros H. induction q as [|y q IH]; [done|]. cbn [flat_map]. rewrite IH by (intros; apply H; by apply list_elem_of_further).
  unfold conn_of. by rewrite H by apply list_elem_of_here.
Qed.

Lemma conn_of_some l x c : el_conns l !! x = Some c -> conn_of l x = [c].
Proof. unfold conn_of. by intros ->. Qed.

Lemma disarm_none x l : cnt x l = 0%nat -> disarm x l = l.
Proof.
  induction l as [|y l IH]; [done|]. rewrite cnt_cons. intros H. unfold disarm in *. cbn [List.filter]. destruct (Z.eqb_spec y x) as [->|]; [case_decide; [lia|done]|].
  cbn [negb]. by rewrite IH by lia.
Qed.

(** ** Steps that leave the loop alone *)
Lemma inv_same l free free' w w' rest :
  inv l free (w :: rest) -> own l w' ->
  (forall x, (cnt x (fds w') <= cnt x (fds w))%nat \/ (cnt x (queued l) + cnt x (fds w') + cnt x (flat_map fds rest) <= 1)%nat) ->
  (forall c, (cnt c (cids w') + cnt c free' <= cnt c (cids w) + cnt c free)%nat \/
     (cnt c (flat_map (conn_of l) (queued l)) + cnt c (cids w') + cnt c (flat_map cids rest) + cnt c free' <= 1)%nat) ->
  (forall x, is_Some (el_conns l !! x) -> (0 < cnt x (fds w))%nat -> (0 < cnt x (fds w'))%nat) ->
  inv l free' (w' :: rest).
Proof.
  intros [] Ho Hf Hc Hd. constructor; cbn [flat_map] in *; auto.
  - intros x. specialize (iv_fds0 x). specialize (Hf x). rewrite cnt_app in *. lia.
  - intros c. specialize (iv_cids0 c). specialize (Hc c). rewrite cnt_app in *. lia.
  - constructor; [done|]. by inversion iv_own0.
  - intros x Hx. specialize (iv_dom0 x Hx). specialize (Hd x Hx). rewrite cnt_app in *. lia.
Qed.

(** ** Steps that change the loop *)
(** The table changes only at the descriptors of the worker; they leave the queue
    or enter it together with their connections. *)
Lemma inv_change l l' free w w' rest :
  inv l free (w :: rest) -> own l' w' ->
  (forall x, cnt x (fds w) = 0%nat -> el_conns l' !! x = el_conns l !! x) ->
  (forall x, (cnt x (queued l') + cnt x (fds w') = cnt x (queued l) + cnt x (fds w))%nat) ->
  (forall c, (cnt c (flat_map (conn_of l') (queued l')) + cnt c (cids w') = cnt c (flat_map (conn_of l) (queued l)) + cnt c (cids w))%nat) ->
  (forall x, (0 < cnt x (fds w))%nat -> x ∈ queued l' -> is_Some (el_conns l' !! x) /\ x < AE_SETSIZE) ->
  inv l' free (w' :: rest).
Proof.
  intros [] Ho Hframe Hf Hc Hq. cbn [flat_map] in *. constructor; cbn [flat_map].
  - intros x. specialize (iv_fds0 x). specialize (Hf x). rewrite cnt_app in *. lia.
  - intros c. specialize (iv_cids0 c). specialize (Hc c). rewrite cnt_app in *. lia.
  - intros x Hx. destruct (decide (cnt x (fds w) = 0%nat)) as [E|E]; [|apply Hq; [lia|done]]. rewrite Hframe by done. apply iv_queued0. apply cnt_in in Hx. apply cnt_in. specialize (Hf x). lia.
  - constructor; [done|]. apply (owns_frame l); [|by inversion iv_own0]. intros x Hx. apply Hframe. specialize (iv_fds0 x). rewrite cnt_app in iv_fds0. lia.
  - intros x Hx. destruct (decide (cnt x (fds w) = 0%nat)) as [E|E]; [|specialize (Hf x); rewrite cnt_app; lia]. rewrite Hframe in Hx by done.
    specialize (iv_dom0 x Hx). specialize (Hf x). rewrite cnt_app in *. lia.
Qed.

(** The queue does not see a change at a descriptor that is in hand. *)
Lemma inv_conns_frame l l' free w rest x :
  inv l free (w :: rest) -> (0 < cnt x (fds w))%nat -> (forall y, y <> x -> el_conns l' !! y = el_conns l !! y) ->
  flat_map (conn_of l') (queued l) = flat_map (conn_of l) (queued l) /\ cnt x (el_armed l) = 0%nat /\ cnt x (el_fired l) = 0%nat.
Proof.
  intros [] Hx H. specialize (iv_fds0 x) as Hn. cbn [flat_map] in Hn. unfold queued in Hn. rewrite !cnt_app in Hn. split; [|lia]. apply conns_frame. intros y Hy. apply H. intros ->.
  apply cnt_in in Hy. unfold queued in Hy. rewrite cnt_app in Hy. lia.
Qed.

(** The kernel reports descriptors. *)
Lemma inv_poll l free ws ready :
  inv l free ws -> el_fired l = [] -> NoDup ready -> (forall x, x ∈ ready -> x ∈ el_armed l) -> inv (aeApiPoll true l ready) free ws.
Proof.
  intros [] Hf Hn Hs. assert (Hq : queued l ≡ₚ queued (aeApiPoll true l ready)).
  { unfold queued. rewrite Hf. cbn [app]. apply (Permutation_count_occ Z.eq_dec). intros x. change (cnt x (el_armed l) = cnt x (ready ++ el_armed (aeApiPoll true l ready))).
    rewrite cnt_app, cnt_unreported. specialize (iv_fds0 x). unfold queued in iv_fds0. rewrite Hf in iv_fds0. cbn [app] in iv_fds0. pose proof (proj1 (cnt_nodup ready) Hn x).
    case_decide as E; [pose proof (proj1 (cnt_in _ _) E); apply Hs, cnt_in in E; lia|]. assert (~ (0 < cnt x ready)%nat) by by rewrite <- cnt_in. lia. }
  assert (Hc : forall x, cnt x (queued (aeApiPoll true l ready)) = cnt x (queued l)) by (intros x; symmetry; by apply (Permutation_count_occ Z.eq_dec)).
  constructor.
  - intros x. rewrite Hc. auto.
  - intros c. change (conn_of (aeApiPoll true l ready)) with (conn_of l). rewrite <- (cnt_perm c (conn_of l) _ _ Hq). auto.
  - intros x Hx. apply iv_queued0. by rewrite Hq.
  - apply (owns_frame l); [done|done].
  - intros x Hx. rewrite Hc. auto.
Qed.

(** A worker writes the table at a descriptor in its hands. *)
Lemma inv_write l m free w w' rest x :
  inv l free (w :: rest) -> (0 < cnt x (fds w))%nat -> (forall y, y <> x -> m !! y = el_conns l !! y) ->
  own (set_conns l m) w' -> fds w' = fds w -> cids w' = cids w -> inv (set_conns l m) free (w' :: rest).
Proof.
  intros Hi Hx Hm Ho Hf Hc. destruct (inv_conns_frame l (set_conns l m) free w rest x Hi Hx Hm) as (Hq & Ha & Hr).
  apply (inv_change l (set_conns l m) free w); auto; rewrite ?Hf, ?Hc; auto.
  - intros y Hy. apply Hm. intros ->. lia.
  - intros c. change (queued (set_conns l m)) with (queued l). by rewrite Hq.
  - intros y Hy Hin. destruct Hi. specialize (iv_fds0 y). apply cnt_in in Hin. change (queued (set_conns l m)) with (queued l) in Hin. cbn [flat_map] in iv_fds0. rewrite cnt_app in iv_fds0. lia.
Qed.

(** A worker hands a descriptor over to the kernel. *)
Lemma inv_arm l free w w' rest x c :
  inv l free (w :: rest) -> el_conns l !! x = Some c -> x < AE_SETSIZE -> own l w' ->
  (forall y, cnt y (fds w) = cnt y (x :: fds w')) -> (forall y, cnt y (cids w) = cnt y (c :: cids w')) ->
  inv (set_armed l (x :: disarm x (el_armed l))) free (w' :: rest).
Proof.
  intros Hi Hx Hs Ho Hf Hc. assert (Hin : (0 < cnt x (fds w))%nat) by (rewrite Hf, cnt_cons; case_decide; [lia|done]).
  destruct (inv_conns_frame l l free w rest x Hi Hin (fun _ _ => eq_refl)) as (_ & Ha & _). rewrite disarm_none by done.
  apply (inv_change l _ free w); auto.
  - intros y. rewrite Hf. unfold queued, set_armed. cbn [el_fired el_armed]. rewrite !cnt_app, !cnt_cons. lia.
  - intros d. rewrite Hc. unfold queued, set_armed. cbn [el_fired el_armed]. change (conn_of _) with (conn_of l).
    rewrite !flat_map_app, !cnt_app. cbn [flat_map]. rewrite (conn_of_some l x c Hx). cbn [app]. rewrite !cnt_cons. lia.
  - intros y Hy Hq. unfold set_armed. cbn [el_conns]. destruct (decide (y = x)) as [->|Hne]; [by eauto|]. apply (iv_queued _ _ _ Hi). apply cnt_in. apply cnt_in in Hq.
    unfold queued, set_armed in *. cbn [el_fired el_armed] in Hq. rewrite cnt_app, cnt_cons in Hq. rewrite cnt_app. case_decide; [done|lia].
Qed.

(** ** Every step keeps the invariant *)
Ltac count := intros; cbn [fds cids] in *; rewrite ?cnt_app, ?cnt_cons, ?cnt_nil in *; repeat case_decide; subst; try congruence; try lia.

Lemma inv_own l free w rest : inv l free (w :: rest) -> own l w.
Proof. intros []. by inversion iv_own0. Qed.
Lemma inv_distinct l free w rest x y r : inv l free (w :: rest) -> fds w = x :: y :: r -> x <> y.
Proof. intros [] Hw ->. specialize (iv_fds0 y). cbn [flat_map] in iv_fds0. rewrite Hw in iv_fds0. count. Qed.

Lemma freelist_in ok f c f' b x : do_conn_add_to_freelist ok f c = (f', b) -> (cnt x (fc_list f') <= cnt x (c :: fc_list f))%nat.
Proof. unfold do_conn_add_to_freelist. intros H. repeat case_match; simplify_eq; cbn [fc_list]; count. Qed.

(** [worker_main]. *)
Lemma take_keeps l free rest x r c :
  inv l free (Leading :: rest) -> el_fired l = x :: r -> el_conns l !! x = Some c ->
  inv {| el_conns := el_conns l; el_fired := r; el_armed := el_armed l |} free (Driving x c :: rest).
Proof.
  intros Hi Hf Hx. assert (Hs : x < AE_SETSIZE) by (apply (iv_queued _ _ _ Hi); unfold queued; rewrite Hf; apply list_elem_of_here).
  apply (inv_change l _ free Leading); auto.
  - split; [by repeat constructor|done].
  - unfold queued. cbn [el_fired el_armed]. rewrite Hf. count.
  - intros d. unfold queued. cbn [el_fired el_armed]. rewrite Hf. change (conn_of {| el_conns := _; el_fired := _; el_armed := _ |}) with (conn_of l). cbn [app flat_map]. rewrite (conn_of_some l x c Hx). count.
  - cbn [fds]. intros y Hy. rewrite cnt_nil in Hy. lia.
Qed.

Lemma no_bug l free ws x r : inv l free ws -> el_fired l = x :: r -> is_Some (el_conns l !! x) /\ x < AE_SETSIZE.
Proof. intros [] Hf. apply iv_queued0. unfold queued. rewrite Hf. apply list_elem_of_here. Qed.

Lemma rearm_keeps ok l l' free rest x c r :
  inv l free (Rearming x c :: rest) -> update_event_arm ok l x = (l', r) ->
  inv l' free ((if r =? AE_OK then Waiting else Closing x c) :: rest).
Proof.
  intros Hi. pose proof (inv_own _ _ _ _ Hi) as [Hs Hx]. cbn [fds] in Hs. inversion_clear Hs as [|? ? Hs' _]. unfold update_event_arm, aeApiUpdateEvent. destruct ok; cbn [Z.eqb]; intros [= <- <-]; cbn [Z.eqb AE_OK AE_ERR].
  - apply (inv_arm l free (Rearming x c) Waiting rest x c); auto. by repeat constructor.
  - apply (inv_write l _ free (Rearming x c) (Closing x c) rest x); auto; [count|intros; by rewrite lookup_delete_ne|].
    split; [by repeat constructor|right]. cbn. by rewrite lookup_delete_eq.
Qed.

Lemma delete_keeps l free rest x c : inv l free (Closing x c :: rest) -> inv (delete_event l x) free (Deleted x c :: rest).
Proof.
  intros Hi. pose proof (inv_own _ _ _ _ Hi) as [Hs Hx]. cbn [fds] in Hs. inversion_clear Hs as [|? ? Hs' _]. unfold delete_event, aeApiDelEvent. destruct (Z.leb_spec AE_SETSIZE x); [lia|].
  destruct (inv_conns_frame l l free _ rest x Hi ltac:(count) (fun _ _ => eq_refl)) as (_ & Ha & _). cbn [el_armed set_conns].
  rewrite disarm_none by done. apply (inv_write l (delete x (el_conns l)) free (Closing x c) (Deleted x c) rest x); auto; [count|intros; by rewrite lookup_delete_ne|].
  split; [by repeat constructor|]. cbn. by rewrite lookup_delete_eq.
Qed.

(** [conn_new] after [accept]. *)
Lemma accept_keeps l free rest x c sfd :
  inv l free (Driving x c :: rest) -> (cnt sfd (queued l) + cnt sfd (flat_map fds (Driving x c :: rest)) = 0)%nat -> inv l free (Accepted x c sfd :: rest).
Proof.
  intros Hi Hn. pose proof (inv_own _ _ _ _ Hi) as [Hs Hx]. apply (inv_same l free free (Driving x c)); auto; try by count.
  - split; [done|]. split; [done|]. destruct (el_conns l !! sfd) eqn:E; [|done]. pose proof (iv_dom _ _ _ Hi sfd (mk_is_Some _ _ E)). lia.
  - intros y. pose proof (iv_fds _ _ _ Hi y) as H. cbn [flat_map fds] in *. count.
Qed.

Lemma enter_keeps l l' free rest x c sfd n r :
  inv l free (Creating x c sfd n :: rest) -> add_event_enter l sfd n = (l', r) ->
  inv l' free ((if r =? AE_OK then Adding x c sfd n else Refusing x c sfd n) :: rest).
Proof.
  intros Hi. pose proof (inv_own _ _ _ _ Hi) as (Hs & Hx & Hn). pose proof (inv_distinct _ _ _ _ x sfd [] Hi eq_refl) as Hd. unfold add_event_enter. rewrite Hn. destruct (Z.leb_spec AE_SETSIZE sfd); intros [= <- <-]; cbn [Z.eqb AE_OK AE_ERR].
  - apply (inv_same l free free (Creating x c sfd n)); auto; by count.
  - inversion_clear Hs as [|? ? Hs' _]. apply (inv_write l _ free (Creating x c sfd n) (Adding x c sfd n) rest sfd); auto; [count|intros; by rewrite lookup_insert_ne|].
    split; [by repeat constructor|]. cbn. by rewrite lookup_insert_eq, lookup_insert_ne.
Qed.

Lemma add_keeps ok l l' free rest x c sfd n r :
  inv l free (Adding x c sfd n :: rest) -> add_event_arm ok l sfd = (l', r) ->
  inv l' free ((if r =? AE_OK then Driving x c else Refusing x c sfd n) :: rest).
Proof.
  intros Hi. pose proof (inv_own _ _ _ _ Hi) as (Hs & Hx & Hn). pose proof (inv_distinct _ _ _ _ x sfd [] Hi eq_refl) as Hd. inversion_clear Hs as [|? ? Hs1 Hs2]. inversion_clear Hs2 as [|? ? Hs3 _].
  unfold add_event_arm, aeApiAddEvent. destruct ok; cbn [Z.eqb]; intros [= <- <-]; cbn [Z.eqb AE_OK AE_ERR].
  - apply (inv_arm l free (Adding x c sfd n) (Driving x c) rest sfd n); auto; [|count..]. split; [by repeat constructor|done].
  - apply (inv_write l _ free (Adding x c sfd n) (Refusing x c sfd n) rest sfd); auto; [count|intros; by rewrite lookup_delete_ne|].
    split; [by repeat constructor|]. cbn. by rewrite lookup_delete_eq, lookup_delete_ne.
Qed.

Lemma create_keeps l free free' rest x c sfd n :
  inv l free (Accepted x c sfd :: rest) ->
  free = n :: free' \/ free = free' /\ (cnt n (flat_map (conn_of l) (queued l)) + cnt n (flat_map cids (Accepted x c sfd :: rest)) + cnt n free = 0)%nat ->
  inv l free' (Creating x c sfd n :: rest).
Proof.
  intros Hi H. pose proof (inv_own _ _ _ _ Hi) as Ho. apply (inv_same l free free' (Accepted x c sfd)); auto.
  intros d. pose proof (iv_cids _ _ _ Hi d) as Hd. cbn [flat_map cids] in *. destruct H as [->|[-> H]]; count.
Qed.

Definition consistent (s : LoopState) : Prop := inv (ls_loop s) (fc_list (ls_free s)) (ls_workers s).

Lemma unused_fd s i w rest x :
  ls_workers s !! i = Some w -> ls_workers s ≡ₚ w :: rest -> x ∉ all_fds s -> (cnt x (queued (ls_loop s)) + cnt x (flat_map fds (w :: rest)) = 0)%nat.
Proof. intros _ Hp Hx. rewrite <- (cnt_perm x fds _ _ Hp). rewrite cnt_in in Hx. unfold all_fds in Hx. rewrite cnt_app in Hx. lia. Qed.
Lemma unused_cid s i w rest c :
  ls_workers s !! i = Some w -> ls_workers s ≡ₚ w :: rest -> c ∉ all_cids s ->
  (cnt c (flat_map (conn_of (ls_loop s)) (queued (ls_loop s))) + cnt c (flat_map cids (w :: rest)) + cnt c (fc_list (ls_free s)) = 0)%nat.
Proof. intros _ Hp Hx. rewrite <- (cnt_perm c cids _ _ Hp). rewrite cnt_in in Hx. unfold all_cids, used_cids in Hx. rewrite !cnt_app in Hx. lia. Qed.

(** The steps that only change the state of the worker and the free list. *)
Ltac leave := match goal with Hi : inv _ _ (?w :: _) |- _ =>
  pose proof (inv_own _ _ _ _ Hi) as Hown; apply (inv_same _ _ _ w _ _ Hi); [|count..] end; try (unfold own, is_Some in *; cbn [fds] in *; naive_solver).

Ltac released := match goal with H : do_conn_add_to_freelist _ _ _ = _ |- context [cnt ?d (fc_list _)] => pose proof (freelist_in _ _ _ _ _ d H) end; count.

(** The worker that takes the step comes first, on both sides. *)
Ltac focus_on_worker s Hi Hi' := match goal with Hw : ls_workers s !! _ = Some _ |- _ =>
    let rest := fresh "rest" in let Hp := fresh "Hp" in let Hu := fresh "Hu" in
    destruct (focus _ _ _ Hw) as (rest & Hp & Hu); pose proof (inv_perm _ _ _ _ Hp Hi) as Hi';
    cbn [ls_loop ls_free ls_workers set_worker set_free set_leader]; refine (inv_perm _ _ _ _ (symmetry (Hu _)) _) end.

Lemma main_keeps s s' : worker_main true s s' -> consistent s -> consistent s'.
Proof.
  unfold consistent. intros H Hi. destruct H; focus_on_worker s Hi Hi'.
  - clear Hi. leave.
  - apply inv_poll; auto.
  - clear Hi. leave.
  - clear Hi. leave.
  - by eapply take_keeps.
  - destruct (no_bug _ _ _ _ _ Hi' ltac:(eassumption)) as [[] _]. congruence.
  - pose proof (inv_own _ _ _ _ Hi') as [Hs Hx]. unfold update_event_enter. rewrite insert_id by done. replace (set_conns _ _) with (ls_loop s) by (by destruct (ls_loop s)). clear Hi. leave.
  - eapply rearm_keeps; eauto.
Qed.

Lemma listen_keeps s s' : accept_step s s' -> consistent s -> consistent s'.
Proof.
  unfold consistent. intros H Hi. destruct H; focus_on_worker s Hi Hi'.
  - eapply accept_keeps; eauto using unused_fd.
  - done.
  - clear Hi. leave.
  - clear Hi. leave.
Qed.

Lemma new_keeps s s' : conn_new_step s s' -> consistent s -> consistent s'.
Proof.
  unfold consistent. intros H Hi. destruct H; focus_on_worker s Hi Hi'.
  - eapply create_keeps; [done|]. unfold do_conn_from_freelist in *. case_match; simplify_eq. by left.
  - eapply create_keeps; [done|]. right. split; [done|]. eapply unused_cid; eauto.
  - clear Hi. leave.
  - eapply enter_keeps; eauto.
  - eapply add_keeps; eauto.
  - clear Hi. leave; released.
Qed.

Lemma close_keeps s s' : conn_close_step s s' -> consistent s -> consistent s'.
Proof.
  unfold consistent. intros H Hi. destruct H; focus_on_worker s Hi Hi'.
  - clear Hi. leave.
  - by eapply delete_keeps.
  - clear Hi. leave.
  - clear Hi. leave; released.
  - clear Hi. leave.
Qed.

Lemma step_keeps s s' : step true s s' -> consistent s -> consistent s'.
Proof. intros []; eauto using main_keeps, listen_keeps, new_keeps, close_keeps. Qed.

Lemma start_consistent nthread listening :
  NoDup (List.map fst listening) -> NoDup (List.map snd listening) -> Forall (fun '(x, _) => x < AE_SETSIZE) listening -> consistent (loop_start nthread listening).
Proof.
  intros Hf Hc Hs. assert (Hw : forall g, g Waiting = [] -> flat_map g (replicate nthread Waiting) = @nil Z) by (intros g Hg; induction nthread as [|k IH]; [done|]; cbn [replicate flat_map]; by rewrite Hg, IH).
  assert (Hl : forall x c, (x, c) ∈ listening -> (list_to_map listening : gmap Z cid) !! x = Some c) by (intros x c Hx; by apply elem_of_list_to_map_1).
  assert (Hq : flat_map (conn_of (ls_loop (loop_start nthread listening))) (queued (ls_loop (loop_start nthread listening))) = List.map snd listening).
  { unfold loop_start, queued, conn_of. cbn [ls_loop el_fired el_armed el_conns app]. clear Hf Hc Hs. revert Hl. generalize (list_to_map listening : gmap Z cid). intros m Hl. induction listening as [|[x c] r IH]; [done|]. cbn [List.map flat_map fst snd]. rewrite (Hl x c) by apply list_elem_of_here. cbn [option_list app]. f_equal. apply IH.
    intros y d Hy. apply Hl. by apply list_elem_of_further. }
  constructor; rewrite ?Hq; unfold loop_start, queued; cbn [ls_loop ls_free ls_workers el_fired el_armed el_conns conn_init fc_list app]; rewrite ?(Hw fds eq_refl), ?(Hw cids eq_refl).
  - intros x. rewrite cnt_nil. pose proof (proj1 (cnt_nodup _) Hf x). lia.
  - intros c. rewrite !cnt_nil. pose proof (proj1 (cnt_nodup _) Hc c). lia.
  - intros x Hx. apply list_elem_of_In, in_map_iff in Hx as ([y c] & <- & Hx). apply list_elem_of_In in Hx. cbn [fst]. split; [by rewrite (Hl y c)|]. apply (proj1 (Forall_forall _ _) Hs _ Hx).
  - apply Forall_replicate. by repeat constructor.
  - intros x [c Hx]. apply elem_of_list_to_map_2 in Hx. rewrite cnt_nil. assert (Hin : x ∈ List.map fst listening) by (apply list_elem_of_In, in_map_iff; exists (x, c); split; [done|by apply list_elem_of_In]). apply cnt_in in Hin. lia.
Qed.

(** ** What every reachable state has *)
Section Reachable.
  Context (nthread : nat) (listening : list (fd * cid)).
  Hypothesis Hfds : NoDup (List.map fst listening).
  Hypothesis Hcids : NoDup (List.map snd listening).
  Hypothesis Hsize : Forall (fun '(x, _) => x < AE_SETSIZE) listening.

Lemma reachable_consistent s : reachable true (loop_start nthread listening) s -> consistent s.
Proof. induction 1; [by apply start_consistent|by eapply step_keeps]. Qed.

Lemma reachable_exclusive s : reachable true (loop_start nthread listening) s -> NoDup (all_fds s) /\ NoDup (all_cids s).
Proof.
  intros H. destruct (reachable_consistent s H). split; apply cnt_nodup; intros x; unfold all_fds, all_cids, used_cids; rewrite !cnt_app; auto.
Qed.

(** C10. With [EPOLLONESHOT], in every state the workers can reach: no descriptor is
    in two places (armed in the kernel, reported, in the hands of a worker), no
    connection object is in two places (behind such a descriptor, with a worker, on
    the free list), so two workers never drive the same connection and a connection
    on the free list is not in use. *)
Theorem connections_exclusive s :
  reachable true (loop_start nthread listening) s -> NoDup (all_fds s) /\ NoDup (all_cids s).
Proof. apply reachable_exclusive. Qed.

(** C11. The two reports of an inconsistent table are unreachable: a descriptor that
    the leader takes always has its connection (the message "Bug: conn should not be
    NULL" is never logged), and [add_event] of a descriptor that [accept] has just
    returned fails only when the descriptor is too large (never with "fd is used"). *)
Theorem table_reports_unreachable s :
  reachable true (loop_start nthread listening) s ->
  (forall x r, el_fired (ls_loop s) = x :: r -> is_Some (el_conns (ls_loop s) !! x)) /\
  (forall i x c sfd n, ls_workers s !! i = Some (Creating x c sfd n) ->
     snd (add_event_enter (ls_loop s) sfd n) = if AE_SETSIZE <=? sfd then AE_ERR else AE_OK).
Proof.
  intros H. pose proof (reachable_consistent s H) as Hi. split.
  - intros x r Hx. by apply (no_bug _ _ _ _ _ Hi Hx).
  - intros i x c sfd n Hw. pose proof (Forall_lookup_1 _ _ _ _ (iv_own _ _ _ Hi) Hw) as (_ & _ & Hs). unfold add_event_enter. rewrite Hs. by case_match.
Qed.
End Reachable.

(** A run of the model: two clients are served by two workers at once. *)
Definition listen1 : list (fd * cid) := [(3, 100)].
Definition poll_take (oneshot : bool) (i : nat) (x : fd) (c : cid) (s : LoopState) : LoopState :=
  let s1 := set_worker (set_leader s (Some i)) i Leading (ls_loop s) in
  let s2 := set_worker s1 i Leading (aeApiPoll oneshot (ls_loop s1) [x]) in
  set_worker (set_leader s2 None) i (Driving x c) {| el_conns := el_conns (ls_loop s2); el_fired := []; el_armed := el_armed (ls_loop s2) |}.

Lemma reach_take oneshot s0 s i x c :
  reachable oneshot s0 s -> ls_workers s !! i = Some Waiting -> ls_leader s = None -> el_fired (ls_loop s) = [] -> x ∈ el_armed (ls_loop s) -> el_conns (ls_loop s) !! x = Some c ->
  reachable oneshot s0 (poll_take oneshot i x c s).
Proof.
  intros H Hw Hl Hf Ha Hc. assert (Hi : (i < length (ls_workers s))%nat) by by eapply lookup_lt_Some.
  eapply RStep; [eapply RStep; [eapply RStep; [exact H|]|]|].
  - by apply SMain, (SLock oneshot s i).
  - apply SMain, (SPoll oneshot _ i [x]); cbn; rewrite ?list_lookup_insert_eq; auto; [by apply NoDup_singleton|]. by intros y ->%list_elem_of_singleton.
  - apply SMain, (STake oneshot _ i x [] c); cbn; rewrite ?list_lookup_insert_eq; rewrite ?length_insert; auto.
Qed.

(** The first worker takes the listening descriptor 3, accepts 7 and gives it the
    fresh connection 101. *)
Definition accepted1 : LoopState :=
  let s := loop_start 2 listen1 in
  let s := poll_take true 0 3 100 s in
  let s := set_worker s 0 (Accepted 3 100 7) (ls_loop s) in
  set_worker s 0 (Creating 3 100 7 101) (ls_loop s).
Ltac evaluate := first [reflexivity | by_compute].
Lemma accepted1_reachable : reachable true (loop_start 2 listen1) accepted1.
Proof.
  eapply RStep; [eapply RStep; [apply (reach_take true _ (loop_start 2 listen1) 0 3 100); [apply RStart|evaluate..]|]|].
  - apply SListen, (SAccept _ 0 3 100 7); evaluate.
  - apply SNew, (SMalloc _ 0 3 100 7 101); evaluate.
Qed.

(** Its hypotheses hold in a run in which a client is being accepted. *)
Lemma connections_exclusive_witness : NoDup (all_fds accepted1) /\ NoDup (all_cids accepted1).
Proof. apply (connections_exclusive 2 listen1); [by_compute|by_compute|by_compute|apply accepted1_reachable]. Defined.
Lemma table_reports_unreachable_witness : snd (add_event_enter (ls_loop accepted1) 7 101) = AE_OK.
Proof. apply (table_reports_unreachable 2 listen1) with (i := 0%nat) (x := 3) (c := 100) (sfd := 7) (n := 101); [by_compute|by_compute|by_compute|apply accepted1_reachable|reflexivity]. Defined.

(** With [select] (ae_select.c), which has no one-shot mode, the leader reports a
    descriptor again while its connection is being driven: two workers drive the same
    connection at the same time. *)
Theorem select_shares_connection :
  exists s, reachable false (loop_start 2 listen1) s /\ ls_workers s = [Driving 3 100; Driving 3 100].
Proof.
  exists (poll_take false 1 3 100 (poll_take false 0 3 100 (loop_start 2 listen1))). split; [|reflexivity].
  apply reach_take; [apply reach_take; [apply RStart|evaluate..]|evaluate..].
Qed.
