(* ===== verification/Items.v ===== *)
(** * The item buffers (item.c)

    An item that fits in [settings.item_buf_size] bytes lives in a buffer of that
    size, taken from the list of free buffers and given back to it; a larger one has
    memory of its own.  [item_free] decides by the size it computes from the header
    of the item which of the two it was.  A buffer is its address; the model keeps
    the size that was allocated at each address. *)
From Stdlib Require Import ZArith Lia List.
From stdpp Require Import base numbers list gmap strings.
From S2P Require Import Prelude CText HTree Disk Protocol BucketsFacts ProtocolFacts.

Definition INIT_ITEM_FREELIST_LENGTH : Z := 500.
Definition MAX_ITEM_FREELIST_LENGTH : Z := 4000.

(** The header of an item in use. *)
Record header := { h_nkey : Z; h_nsuffix : Z; h_nbytes : Z }.

(** [freeitem] up to [freeitemcurr] (the last one first), [freeitemtotal], the
    sizes of the allocated buffers, the items in use. *)
Record Pool := { p_free : list Z; p_total : Z; p_mem : gmap Z Z; p_used : gmap Z header }.

Definition item_init : Pool := {| p_free := []; p_total := INIT_ITEM_FREELIST_LENGTH; p_mem := ∅; p_used := ∅ |}.

Section Items.
Context (item_buf_size : Z).

(** [malloc] is the address of new memory, [None] when there is none. *)
Definition do_item_from_freelist (malloc : option Z) (p : Pool) : Pool * option Z :=
  match p_free p with
  | s :: r => ({| p_free := r; p_total := p_total p; p_mem := p_mem p; p_used := p_used p |}, Some s)
  | [] =>
      match malloc with
      | Some s => ({| p_free := p_free p; p_total := p_total p; p_mem := <[s := item_buf_size]> (p_mem p); p_used := p_used p |}, Some s)
      | None => (p, None)
      end
  end.

Definition do_item_add_to_freelist (realloc_ok : bool) (p : Pool) (it : Z) : Pool * Z :=
  let add total := {| p_free := it :: p_free p; p_total := total; p_mem := p_mem p; p_used := p_used p |} in
  if Z.of_nat (length (p_free p)) <? p_total p then (add (p_total p), 0)
  else if MAX_ITEM_FREELIST_LENGTH <=? p_total p then (p, 1)
  else if realloc_ok then (add (p_total p * 2), 0)
  else (p, 1).

(** [item_alloc1], as far as memory goes. *)
Definition item_buffer (malloc : option Z) (p : Pool) (key : bytes) (flags nbytes : Z) : outcome (Pool * option Z) :=
  suffix ← print_path 40 (item_suffix flags nbytes);
  let ntotal := item_ntotal (blen key) flags nbytes in
  let '(p, s) := if item_buf_size <? ntotal
                 then match malloc with
                      | Some s => ({| p_free := p_free p; p_total := p_total p; p_mem := <[s := ntotal]> (p_mem p); p_used := p_used p |}, Some s)
                      | None => (p, None)
                      end
                 else do_item_from_freelist malloc p in
  match s with
  | None => Ret (p, None)
  | Some s => Ret ({| p_free := p_free p; p_total := p_total p; p_mem := p_mem p;
                      p_used := <[s := {| h_nkey := u8 (blen key); h_nsuffix := u8 (blen suffix); h_nbytes := nbytes |}]> (p_used p) |}, Some s)
  end.

Definition ITEM_ntotal (h : header) : Z := u64 (16 + h_nkey h + 1 + h_nsuffix h + h_nbytes h).

Definition free (p : Pool) (s : Z) : Pool :=
  {| p_free := p_free p; p_total := p_total p; p_mem := delete s (p_mem p); p_used := p_used p |}.

(** [item_free] of the item [h] at [s], no longer in use. *)
Definition item_free (realloc_ok : bool) (p : Pool) (s : Z) (h : header) : Pool :=
  let p := {| p_free := p_free p; p_total := p_total p; p_mem := p_mem p; p_used := delete s (p_used p) |} in
  if item_buf_size <? ITEM_ntotal h then free p s
  else let '(p, r) := do_item_add_to_freelist realloc_ok p s in
       if r =? 0 then p else free p s.

(** What the server does with items: keys are at most [MAX_KEY_LEN] bytes (checked
    by the commands), [nbytes] is an [int], and [malloc] returns new addresses. *)
Inductive pstep (p : Pool) : Pool -> Prop :=
| PAlloc malloc key flags nbytes p' s :
    blen key <= MAX_KEY_LEN -> 0 <= nbytes < 2 ^ 31 -> (forall a, malloc = Some a -> p_mem p !! a = None) ->
    item_buffer malloc p key flags nbytes = Ret (p', s) -> pstep p p'
| PFree ok s h : p_used p !! s = Some h -> pstep p (item_free ok p s h).
Inductive preachable : Pool -> Prop :=
| PInit : preachable item_init
| PStep p p' : preachable p -> pstep p p' -> preachable p'.

(** ** What holds of the buffers *)
(** The bytes that are written at an item: its header, its key, the suffix and the
    data. *)
Definition extent (h : header) : Z := 16 + (h_nkey h + 1) + h_nsuffix h + h_nbytes h.

Record pool_safe (p : Pool) : Prop := {
  ps_nodup : NoDup (p_free p);
  ps_free : forall s, s ∈ p_free p -> p_mem p !! s = Some item_buf_size /\ p_used p !! s = None;
  ps_used : forall s h, p_used p !! s = Some h ->
    ITEM_ntotal h = extent h /\
    exists size, p_mem p !! s = Some size /\ extent h <= size /\ (item_buf_size < extent h \/ size = item_buf_size);
  ps_leak : forall s, is_Some (p_mem p !! s) -> s ∈ p_free p \/ is_Some (p_used p !! s);
  ps_total : p_total p ∈ [500; 1000; 2000; 4000] /\ Z.of_nat (length (p_free p)) <= p_total p
}.

Lemma header_extent key flags nbytes :
  blen key <= MAX_KEY_LEN -> 0 <= nbytes < 2 ^ 31 ->
  let h := {| h_nkey := u8 (blen key); h_nsuffix := u8 (blen (item_suffix flags nbytes)); h_nbytes := nbytes |} in
  ITEM_ntotal h = extent h /\ extent h = item_ntotal (blen key) flags nbytes.
Proof.
  intros Hk Hn. pose proof (suffix_short flags nbytes) as Hs. pose proof (blen_nonneg key). pose proof (blen_nonneg (item_suffix flags nbytes)). unfold MAX_KEY_LEN in Hk.
  unfold ITEM_ntotal, extent, item_ntotal, u64, u8. cbn [h_nkey h_nsuffix h_nbytes]. change (2 ^ 31) with 2147483648 in Hn. change (2 ^ 8) with 256.
  rewrite !(Z.mod_small _ 256) by lia. change (2 ^ 64) with 18446744073709551616. rewrite !Z.mod_small by lia. lia.
Qed.

(** A buffer that is neither free nor in use, with room for the item. *)
Definition taken (p : Pool) (s : Z) : Prop :=
  s ∉ p_free p /\ p_used p !! s = None.

Lemma use_safe p s h size free' :
  pool_safe p -> taken {| p_free := free'; p_total := p_total p; p_mem := p_mem p; p_used := p_used p |} s ->
  (p_free p = free' /\ p_mem p !! s = None \/ p_free p = s :: free' /\ size = item_buf_size) ->
  ITEM_ntotal h = extent h -> extent h <= size -> (item_buf_size < extent h \/ size = item_buf_size) ->
  pool_safe {| p_free := free'; p_total := p_total p; p_mem := <[s := size]> (p_mem p); p_used := <[s := h]> (p_used p) |}.
Proof.
  intros [] [Ht1 Ht2] Hf Hn Hx Hs. cbn [p_free p_used] in Ht1, Ht2. assert (Hsub : forall a, a ∈ free' -> a ∈ p_free p /\ a <> s) by (intros a Ha; destruct Hf as [[-> _]|[-> _]]; set_solver).
  constructor; cbn [p_free p_total p_mem p_used].
  - destruct Hf as [[<- _]|[Hf _]]; [done|]. rewrite Hf in ps_nodup0. by inversion ps_nodup0.
  - intros a Ha. destruct (Hsub a Ha) as [H1 H2]. rewrite !lookup_insert_ne by done. auto.
  - intros a h' Ha. destruct (decide (a = s)) as [->|Hne].
    + rewrite lookup_insert_eq in Ha. simplify_eq. split; [done|]. exists size. by rewrite lookup_insert_eq.
    + rewrite lookup_insert_ne in Ha by done. rewrite lookup_insert_ne by done. auto.
  - intros a Ha. destruct (decide (a = s)) as [->|Hne]; [right; rewrite lookup_insert_eq; eauto|]. rewrite !lookup_insert_ne in * by done.
    destruct (ps_leak0 a Ha) as [H|H]; [|by right]. left. destruct Hf as [[<- _]|[Hf _]]; [done|]. rewrite Hf in H. set_solver.
  - split; [apply ps_total0|]. destruct ps_total0 as [_ Hl]. destruct Hf as [[<- _]|[Hf _]]; [done|]. rewrite Hf in Hl. cbn [length] in Hl. lia.
Qed.

Lemma alloc_safe malloc p key flags nbytes p' s :
  pool_safe p -> blen key <= MAX_KEY_LEN -> 0 <= nbytes < 2 ^ 31 -> (forall a, malloc = Some a -> p_mem p !! a = None) ->
  item_buffer malloc p key flags nbytes = Ret (p', s) -> pool_safe p'.
Proof.
  intros Hp Hk Hn Hm. unfold item_buffer. rewrite print_path_ok by apply suffix_short. cbn [mbind outcome_bind].
  destruct (header_extent key flags nbytes Hk Hn) as [He1 He2]. set (h := {| h_nkey := _ |}) in *. rewrite <- He2.
  assert (Hfresh : forall a, malloc = Some a -> taken p a).
  { intros a Ha. specialize (Hm a Ha). destruct Hp. split; [intros Hin; destruct (ps_free0 a Hin); congruence|]. destruct (p_used p !! a) eqn:E; [|done]. destruct (ps_used0 a _ E) as (_ & ? & ? & _). congruence. }
  destruct (Z.ltb_spec item_buf_size (extent h)) as [Hlt|Hge].
  - destruct malloc as [a|]; intros [= <- <-]; [|done]. apply (use_safe p a h (extent h) (p_free p)); auto; [by apply Hfresh|lia].
  - unfold do_item_from_freelist. destruct (p_free p) as [|a r] eqn:Hf.
    + destruct malloc as [a|]; intros [= <- <-]; [|done]. cbn [p_free p_total p_mem p_used]. destruct (Hfresh a eq_refl) as [_ Hu]. apply (use_safe p a h item_buf_size []); auto. by split; [apply not_elem_of_nil|].
    + intros [= <- <-]. cbn [p_free p_total p_mem p_used]. assert (Ha : a ∈ p_free p) by (rewrite Hf; apply list_elem_of_here). destruct (ps_free p Hp a Ha) as [Hm1 Hm2].
      rewrite <- (insert_id (p_mem p) a item_buf_size) by done. apply (use_safe p a h item_buf_size r); auto. split; [|done]. cbn [p_free]. pose proof (ps_nodup p Hp) as Hnd. rewrite Hf in Hnd. by inversion Hnd.
Qed.

(** A buffer goes back to the allocator, or to the list. *)
Lemma release_safe p s h :
  pool_safe p -> p_used p !! s = Some h ->
  pool_safe (free {| p_free := p_free p; p_total := p_total p; p_mem := p_mem p; p_used := delete s (p_used p) |} s).
Proof.
  intros [] Hs. assert (Hne : forall a, a ∈ p_free p -> a <> s) by (intros a Ha ->; destruct (ps_free0 s Ha); congruence).
  unfold free. constructor; cbn [p_free p_total p_mem p_used]; auto.
  - intros a Ha. rewrite !lookup_delete_ne by (apply not_eq_sym; auto). auto.
  - intros a h' Ha. apply lookup_delete_Some in Ha as [Hn Ha]. rewrite lookup_delete_ne by done. auto.
  - intros a [? Ha]. apply lookup_delete_Some in Ha as [Hn Ha]. rewrite lookup_delete_ne by done. eauto.
Qed.

Lemma recycle_safe p s h total :
  pool_safe p -> p_used p !! s = Some h -> extent h <= item_buf_size -> total ∈ [500; 1000; 2000; 4000] -> Z.of_nat (length (p_free p)) < total ->
  pool_safe {| p_free := s :: p_free p; p_total := total; p_mem := p_mem p; p_used := delete s (p_used p) |}.
Proof.
  intros [] Hs Hx Ht Hl. destruct (ps_used0 s h Hs) as (_ & size & Hm & _ & Hz).
  assert (Hne : forall a, a ∈ p_free p -> a <> s) by (intros a Ha ->; destruct (ps_free0 s Ha); congruence).
  constructor; cbn [p_free p_total p_mem p_used].
  - constructor; [|done]. intros Ha. by apply (Hne s).
  - intros a [->|Ha]%elem_of_cons; [|rewrite lookup_delete_ne by (apply not_eq_sym; auto); auto]. rewrite lookup_delete_eq. split; [|done]. destruct Hz; [lia|congruence].
  - intros a h' Ha. apply lookup_delete_Some in Ha as [Hn Ha]. auto.
  - intros a Ha. destruct (decide (a = s)) as [->|Hn]; [left; apply list_elem_of_here|]. rewrite lookup_delete_ne by done.
    destruct (ps_leak0 a Ha); [left; by apply list_elem_of_further|by right].
  - split; [done|]. cbn [length]. lia.
Qed.

Lemma free_safe ok p s h : pool_safe p -> p_used p !! s = Some h -> pool_safe (item_free ok p s h).
Proof.
  intros Hp Hs. destruct (ps_used p Hp s h Hs) as (He & size & Hm & Hx & Hz). unfold item_free. rewrite He. destruct (Z.ltb_spec item_buf_size (extent h)); [by apply (release_safe p s h)|].
  destruct (ps_total p Hp) as [Ht Hl]. unfold do_item_add_to_freelist. cbn [p_free p_total p_mem p_used].
  destruct (Z.ltb_spec (Z.of_nat (length (p_free p))) (p_total p)); [cbn [Z.eqb]; by apply (recycle_safe p s h)|].
  destruct (Z.leb_spec MAX_ITEM_FREELIST_LENGTH (p_total p)) as [Hb|Hb]; [cbn [Z.eqb]; by apply (release_safe p s h)|]. unfold MAX_ITEM_FREELIST_LENGTH in Hb.
  destruct ok; cbn [Z.eqb]; [|by apply (release_safe p s h)]. apply (recycle_safe p s h); auto; [|set_unfold; lia]. set_unfold. lia.
Qed.

(** C13. Whatever items the server allocates and frees, and whenever malloc or realloc
    fails: every item lies within the memory allocated for it, the buffers on the free
    list are distinct, not in use and of [item_buf_size] bytes, no buffer is leaked,
    and the list holds at most 4000 buffers and never overruns its array. *)
Theorem items_memory_safe p : preachable p -> pool_safe p.
Proof.
  induction 1 as [|p p' _ IH Hs].
  - constructor; cbn; [constructor|set_solver| | |].
    + intros s h Hs. by rewrite lookup_empty in Hs.
    + intros s [? Hs]. by rewrite lookup_empty in Hs.
    + unfold INIT_ITEM_FREELIST_LENGTH. split; [apply list_elem_of_here|lia].
  - destruct Hs as [m key flags nbytes p' s Hk Hn Hm Ha|ok s h Hs]; [by eapply alloc_safe|by apply free_safe].
Qed.
End Items.

(** An item of 3 bytes is allocated in a small buffer, freed, and its buffer is used
    again for another item. *)
Definition small_item (malloc : option Z) (p : Pool) : Pool :=
  match item_buffer 4096 malloc p (lit "key") 0 5 with Ret (p', _) => p' | _ => p end.
Definition reused : Pool :=
  let p := small_item (Some 1000) item_init in
  match p_used p !! 1000 with Some h => small_item None (item_free 4096 true p 1000 h) | None => p end.
Lemma reused_reachable : preachable 4096 reused.
Proof.
  eapply PStep; [eapply PStep; [eapply PStep; [apply PInit|]|]|].
  - apply (PAlloc 4096 item_init (Some 1000) (lit "key") 0 5 (small_item (Some 1000) item_init) (Some 1000)); [vm_compute; discriminate|lia|done|reflexivity].
  - by apply (PFree 4096 _ true 1000 {| h_nkey := 3; h_nsuffix := 6; h_nbytes := 5 |}).
  - apply (PAlloc 4096 _ None (lit "key") 0 5 reused (Some 1000)); [vm_compute; discriminate|lia|done|reflexivity].
Qed.
Lemma items_memory_safe_witness : pool_safe 4096 reused /\ p_used reused !! 1000 = Some {| h_nkey := 3; h_nsuffix := 6; h_nbytes := 5 |} /\ p_free reused = [].
Proof. split; [apply (items_memory_safe 4096), reused_reachable|]. split; vm_compute; reflexivity. Defined.
