(* ===== verification/MFile.v ===== *)
(** * The budget for mapped files (mfile.c)

    All threads share the counter [curr_mmap_size], in megabytes.  [open_mfile] of a
    file larger than 100 MB waits until the file fits the budget of 4 GB; smaller
    files are let in at once.  [close_mfile] gives the megabytes back.  A slot is one
    pair of these calls; the steps of the slots interleave.  A file has any size up to
    1 PB, so that its megabytes and their sum with the counter fit an [int]. *)
From Stdlib Require Import ZArith Lia List.
From stdpp Require Import base numbers list.
From S2P Require Import Prelude.

Definition MAX_MMAP_SIZE : Z := Z.shiftl 1 12.

(** [int mb = sb.st_size >> 20] *)
Definition megabytes (size : Z) : Z := s32 (Z.shiftr size 20).

Inductive slot :=
| Unmapped
| Waits (size : Z)      (* in the loop with [sleep(5)] *)
| Mapping (size : Z)    (* counted, [mmap] not done *)
| Mapped (size : Z).    (* [open_mfile] has returned the file *)

Record MmapState := { curr_mmap_size : Z; m_slots : list slot }.

Definition set_slot (s : MmapState) (i : nat) (w : slot) (curr : Z) : MmapState :=
  {| curr_mmap_size := curr; m_slots := <[i := w]> (m_slots s) |}.

(** The condition of the waiting loop. *)
Definition must_wait (curr mb : Z) : bool := (MAX_MMAP_SIZE <? s32 (curr + mb)) && (100 <? mb).

Inductive open_mfile (s : MmapState) : MmapState -> Prop :=
| MOpen i size : m_slots s !! i = Some Unmapped -> 0 <= size < 2 ^ 50 ->
    open_mfile s (set_slot s i (Waits size) (curr_mmap_size s))
| MSleep i size : m_slots s !! i = Some (Waits size) -> must_wait (curr_mmap_size s) (megabytes size) = true ->
    open_mfile s (set_slot s i (Waits size) (curr_mmap_size s))
| MCount i size : m_slots s !! i = Some (Waits size) -> must_wait (curr_mmap_size s) (megabytes size) = false ->
    open_mfile s (set_slot s i (Mapping size) (s32 (curr_mmap_size s + megabytes size)))
| MFailed i size : m_slots s !! i = Some (Mapping size) ->
    open_mfile s (set_slot s i Unmapped (s32 (curr_mmap_size s - megabytes size)))
| MDone i size : m_slots s !! i = Some (Mapping size) ->
    open_mfile s (set_slot s i (Mapped size) (curr_mmap_size s)).
Inductive close_mfile (s : MmapState) : MmapState -> Prop :=
| MClose i size : m_slots s !! i = Some (Mapped size) ->
    close_mfile s (set_slot s i Unmapped (s32 (curr_mmap_size s - Z.shiftr size 20))).

Inductive mreachable (n : nat) : MmapState -> Prop :=
| MInit : mreachable n {| curr_mmap_size := 0; m_slots := replicate n Unmapped |}
| MOpening s s' : mreachable n s -> open_mfile s s' -> mreachable n s'
| MClosing s s' : mreachable n s -> close_mfile s s' -> mreachable n s'.

(** ** The counter is the memory in use *)
Definition held (w : slot) : Z := match w with Mapping size | Mapped size => megabytes size | _ => 0 end.
Definition large (w : slot) : Z := if 100 <? held w then held w else 0.
Definition total (g : slot -> Z) (ws : list slot) : Z := fold_right (fun w t => g w + t) 0 ws.
Definition slot_ok (w : slot) : Prop :=
  match w with
  | Unmapped => True
  | Waits size => 0 <= size < 2 ^ 50
  | Mapping size | Mapped size => 0 <= size < 2 ^ 50 /\ megabytes size <= MAX_MMAP_SIZE
  end.

Lemma megabytes_range size : 0 <= size < 2 ^ 50 -> megabytes size = Z.shiftr size 20 /\ 0 <= megabytes size < 2 ^ 30.
Proof.
  intros H. assert (0 <= Z.shiftr size 20 < 2 ^ 30).
  { rewrite Z.shiftr_div_pow2 by lia. split; [apply Z.div_pos; lia|]. apply Z.div_lt_upper_bound; [lia|]. change (2 ^ 20 * 2 ^ 30) with (2 ^ 50). lia. }
  assert (E : megabytes size = Z.shiftr size 20) by (unfold megabytes; apply s32_id; lia). by rewrite E.
Qed.
Lemma held_range w : slot_ok w -> 0 <= held w <= 4096.
Proof.
  destruct w; cbn [slot_ok held]; try lia; intros [H Hm]; pose proof (megabytes_range size H) as [_ ?]; unfold MAX_MMAP_SIZE in Hm; change (Z.shiftl 1 12) with 4096 in Hm; lia.
Qed.
Lemma large_le w : slot_ok w -> 0 <= large w /\ held w - 100 <= large w <= held w.
Proof. intros H%held_range. unfold large. destruct (Z.ltb_spec 100 (held w)); lia. Qed.

Lemma total_insert g ws i w w' : ws !! i = Some w -> total g (<[i := w']> ws) = total g ws - g w + g w'.
Proof. unfold total. revert i. induction ws as [|x ws IH]; intros [|i] H; cbn in *; [done|done|simplify_eq; lia|rewrite IH by done; lia]. Qed.
Lemma total_bound ws : Forall slot_ok ws -> 0 <= total held ws <= 4096 * Z.of_nat (length ws) /\ 0 <= total large ws /\ total held ws <= total large ws + 100 * Z.of_nat (length ws).
Proof. induction 1 as [|w ws Hw _ IH]; cbn [total fold_right length]; [lia|]. pose proof (held_range w Hw). pose proof (large_le w Hw). unfold total in IH. lia. Qed.

Lemma total_large_le ws : Forall slot_ok ws -> total large ws <= total held ws.
Proof. unfold total. induction 1 as [|w ws Hw _ IH]; cbn; [lia|]. pose proof (large_le w Hw). lia. Qed.

Record budget_ok (n : nat) (s : MmapState) : Prop := {
  bo_len : length (m_slots s) = n;
  bo_slots : Forall slot_ok (m_slots s);
  bo_curr : curr_mmap_size s = total held (m_slots s);
  bo_large : total large (m_slots s) <= MAX_MMAP_SIZE
}.

(** A slot changes and the counter moves with it. *)
Lemma budget_set n s i w w' curr :
  Z.of_nat n <= 2 ^ 18 -> budget_ok n s -> m_slots s !! i = Some w -> slot_ok w' ->
  curr = s32 (curr_mmap_size s - held w + held w') -> total large (m_slots s) - large w + large w' <= MAX_MMAP_SIZE ->
  budget_ok n (set_slot s i w' curr).
Proof.
  intros Hn [] Hw Hok -> Hl. assert (Hf : Forall slot_ok (<[i := w']> (m_slots s))) by by apply Forall_insert.
  pose proof (total_bound _ Hf) as (Hb & _). rewrite length_insert, (total_insert _ _ _ _ _ Hw), <- bo_curr0, bo_len0 in Hb.
  constructor; cbn [set_slot m_slots curr_mmap_size]; [by rewrite length_insert|done| |by rewrite (total_insert _ _ _ _ _ Hw)].
  rewrite (total_insert _ _ _ _ _ Hw), <- bo_curr0. apply s32_id. lia.
Qed.

Lemma curr_range n s : Z.of_nat n <= 2 ^ 18 -> budget_ok n s -> 0 <= curr_mmap_size s <= 2 ^ 30.
Proof. intros Hn [Hlen Hsl Hc _]. pose proof (total_bound _ Hsl) as (Ht & _). rewrite Hlen, <- Hc in Ht. lia. Qed.

(** The test of the waiting loop without its 32 bits. *)
Lemma must_wait_eq n s size :
  Z.of_nat n <= 2 ^ 18 -> budget_ok n s -> 0 <= size < 2 ^ 50 ->
  must_wait (curr_mmap_size s) (megabytes size) = (MAX_MMAP_SIZE <? curr_mmap_size s + megabytes size) && (100 <? megabytes size).
Proof.
  intros Hn Hb Hs. pose proof (curr_range n s Hn Hb). destruct (megabytes_range size Hs) as [_ Hm]. unfold must_wait. rewrite s32_id; [done|].
  change (2 ^ 31) with 2147483648. change (2 ^ 30) with 1073741824 in *.
  destruct Hb as [Hlen Hsl Hc _]. pose proof (total_bound _ Hsl) as (Ht & _). rewrite Hlen, <- Hc in Ht. change (2 ^ 18) with 262144 in Hn. lia.
Qed.

Lemma budget_open n s s' : Z.of_nat n <= 2 ^ 18 -> budget_ok n s -> open_mfile s s' -> budget_ok n s'.
Proof.
  intros Hn Hb Hs. pose proof Hb as [Hlen Hsl Hc Hl]. pose proof (curr_range n s Hn Hb) as Ht. pose proof (total_bound _ Hsl) as (_ & Ht' & _).
  assert (Hid : s32 (curr_mmap_size s) = curr_mmap_size s) by (apply s32_id; lia).
  assert (Hsame : forall w w', held w' = held w -> curr_mmap_size s = s32 (curr_mmap_size s - held w + held w') /\ total large (m_slots s) - large w + large w' <= MAX_MMAP_SIZE).
  { intros w w' E. assert (large w' = large w) by (unfold large; by rewrite E). rewrite E. replace (_ - held w + held w) with (curr_mmap_size s) by lia. rewrite Hid. split; [done|lia]. }
  destruct Hs as [i size H H0|i size H H0|i size H H0|i size H|i size H]; (pose proof (Forall_lookup_1 _ _ _ _ Hsl H) as Hok); cbn [slot_ok] in Hok.
  - destruct (Hsame Unmapped (Waits size) eq_refl). by apply (budget_set n s i Unmapped).
  - destruct (Hsame (Waits size) (Waits size) eq_refl). by apply (budget_set n s i (Waits size)).
  - rewrite (must_wait_eq n s size Hn Hb Hok) in H0. destruct (megabytes_range size Hok) as [_ Hr]. assert (Hm : megabytes size <= MAX_MMAP_SIZE /\ (100 < megabytes size -> curr_mmap_size s + megabytes size <= MAX_MMAP_SIZE)).
    { destruct (Z.ltb_spec 100 (megabytes size)); rewrite ?andb_true_r, ?andb_false_r in H0; [apply Z.ltb_ge in H0; lia|]. unfold MAX_MMAP_SIZE. change (Z.shiftl 1 12) with 4096. lia. }
    apply (budget_set n s i (Waits size)); auto; [split; [done|apply Hm]|cbn [held]; f_equal; lia|]. change (large (Waits size)) with 0. unfold large at 2. cbn [held].
    pose proof (total_large_le _ Hsl). destruct (Z.ltb_spec 100 (megabytes size)); lia.
  - apply (budget_set n s i (Mapping size)); auto; [done|cbn [held]; f_equal; lia|]. pose proof (large_le (Mapping size) Hok). change (large Unmapped) with 0. lia.
  - destruct (Hsame (Mapping size) (Mapped size) eq_refl). by apply (budget_set n s i (Mapping size)).
Qed.
Lemma budget_close n s s' : Z.of_nat n <= 2 ^ 18 -> budget_ok n s -> close_mfile s s' -> budget_ok n s'.
Proof.
  intros Hn Hb [i size H]. pose proof (Forall_lookup_1 _ _ _ _ (bo_slots _ _ Hb) H) as Hok. destruct Hok as [Hs Hm]. pose proof (megabytes_range size Hs) as [E Hr]. pose proof (bo_large _ _ Hb).
  apply (budget_set n s i _ _ _ Hn Hb H); cbn [held slot_ok]; [done|rewrite <- E; f_equal; lia|]. pose proof (large_le (Mapped size) (conj Hs Hm)). change (large Unmapped) with 0. lia.
Qed.

Lemma budget_reachable n s : Z.of_nat n <= 2 ^ 18 -> mreachable n s -> budget_ok n s.
Proof.
  intros Hn Hr. induction Hr as [|s s' _ IH Hs|s s' _ IH Hs]; [|by eapply budget_open|by eapply budget_close].
  assert (E : forall g, g Unmapped = 0 -> total g (replicate n Unmapped) = 0) by (intros g Hg; clear Hn; unfold total; induction n as [|k IH]; cbn; [done|]; rewrite IH; lia).
  constructor; cbn [m_slots curr_mmap_size]; [apply length_replicate|by apply Forall_replicate|by rewrite E|by rewrite E].
Qed.

(** ** Who waits *)
(** [later s s']: steps of any threads lead from [s] to [s']. *)
Inductive later (s : MmapState) : MmapState -> Prop :=
| LNow : later s s
| LOpen s1 s2 : later s s1 -> open_mfile s1 s2 -> later s s2
| LClose s1 s2 : later s s1 -> close_mfile s1 s2 -> later s s2.

(** [ends s s']: threads that hold a file finish with it (the mapping is made, the
    file is closed); no other file is opened. *)
Inductive ends (s : MmapState) : MmapState -> Prop :=
| ENow : ends s s
| EMap s1 i size : ends s s1 -> m_slots s1 !! i = Some (Mapping size) -> ends s (set_slot s1 i (Mapped size) (curr_mmap_size s1))
| EClose s1 i size : ends s s1 -> m_slots s1 !! i = Some (Mapped size) -> ends s (set_slot s1 i Unmapped (s32 (curr_mmap_size s1 - Z.shiftr size 20))).

Lemma ends_later s s' : ends s s' -> later s s'.
Proof. induction 1 as [|s1 i size _ IH H|s1 i size _ IH H]; [constructor|eapply LOpen; [exact IH|by apply MDone]|eapply LClose; [exact IH|by constructor]]. Qed.
Lemma ends_trans s1 s2 s3 : ends s1 s2 -> ends s2 s3 -> ends s1 s3.
Proof. intros H12. induction 1; [done|by apply EMap|by eapply EClose]. Qed.
Lemma budget_later n s s' : Z.of_nat n <= 2 ^ 18 -> budget_ok n s -> later s s' -> budget_ok n s'.
Proof. intros Hn Hb. induction 1; [done|by eapply budget_open|by eapply budget_close]. Qed.

(** How far the slots are from being unmapped. *)
Definition busy (w : slot) : Z := match w with Mapping _ => 2 | Mapped _ => 1 | _ => 0 end.

Lemma busy_nonneg ws : 0 <= total busy ws.
Proof. unfold total. induction ws as [|w ws IH]; cbn [fold_right]; [done|]. assert (0 <= busy w) by (destruct w; done). lia. Qed.

(** All files that are held can be given back, while the waiting threads wait. *)
Lemma all_end k : forall s, total busy (m_slots s) <= Z.of_nat k ->
  exists s', ends s s' /\ Forall (fun w => busy w = 0) (m_slots s') /\ forall i size, m_slots s !! i = Some (Waits size) -> m_slots s' !! i = Some (Waits size).
Proof.
  assert (Hz : forall ws, Forall (fun w => busy w = 0) ws \/ exists i w, ws !! i = Some w /\ busy w <> 0).
  { induction ws as [|w ws [IH|(i & w' & H)]]; [by left| |right; by exists (S i), w']. destruct (decide (busy w = 0)) as [E|E]; [left; by constructor|right; by exists 0%nat, w]. }
  induction k as [|k IH]; intros s Hk; (destruct (Hz (m_slots s)) as [H0|(i & w & Hw & Hb)]; [exists s; by split; [constructor|]|]);
    pose proof (total_insert busy _ i w Unmapped Hw) as E0; change (busy Unmapped) with 0 in E0.
  { assert (0 <= busy w) by (destruct w; done). pose proof (busy_nonneg (<[i := Unmapped]> (m_slots s))). lia. }
  assert (Hnext : exists s1, ends s s1 /\ total busy (m_slots s1) <= Z.of_nat k /\ forall j size, m_slots s !! j = Some (Waits size) -> m_slots s1 !! j = Some (Waits size)).
  { assert (Hkeep : forall w' c j size, m_slots s !! j = Some (Waits size) -> m_slots (set_slot s i w' c) !! j = Some (Waits size)).
    { intros w' c j size Hj. cbn [set_slot m_slots]. rewrite list_lookup_insert_ne; [done|]. intros ->. rewrite Hw in Hj. injection Hj as ->. by apply Hb. }
    destruct w as [| |size|size]; [done|done| |].
    - eexists. split; [eapply EMap; [apply ENow|exact Hw]|]. split; [|apply Hkeep]. cbn [set_slot m_slots]. rewrite (total_insert busy _ i _ (Mapped size) Hw). cbn [busy]. lia.
    - eexists. split; [eapply EClose; [apply ENow|exact Hw]|]. split; [|apply Hkeep]. cbn [set_slot m_slots]. rewrite E0. cbn [busy]. lia. }
  destruct Hnext as (s1 & He & Hk1 & Hkeep). destruct (IH s1 Hk1) as (s2 & He2 & H0 & Hkeep2). exists s2. split; [by eapply ends_trans|]. split; [done|]. intros j size Hj. by apply Hkeep2, Hkeep.
Qed.

Lemma not_busy_held ws : Forall (fun w => busy w = 0) ws -> total held ws = 0.
Proof. unfold total. induction 1 as [|w ws Hw _ IH]; cbn; [done|]. destruct w; try done; cbn [held]; lia. Qed.

(** A file above the whole budget stays where it is. *)
Lemma waits_for_ever n s s' i size :
  Z.of_nat n <= 2 ^ 18 -> budget_ok n s -> m_slots s !! i = Some (Waits size) -> MAX_MMAP_SIZE < megabytes size -> later s s' -> m_slots s' !! i = Some (Waits size).
Proof.
  intros Hn Hb Hi Hm Hl. assert (Hstep : forall s1 j w w' c, m_slots s1 !! i = Some (Waits size) -> m_slots s1 !! j = Some w -> w <> Waits size \/ w' = Waits size -> m_slots (set_slot s1 j w' c) !! i = Some (Waits size)).
  { intros s1 j w w' c H1 H2 Hne. cbn [set_slot m_slots]. destruct (decide (j = i)) as [->|Hd]; [|by rewrite list_lookup_insert_ne]. rewrite H1 in H2. injection H2 as <-. destruct Hne as [Hne| ->]; [done|].
    apply list_lookup_insert_eq. by eapply lookup_lt_Some. }
  induction Hl as [|s1 s2 Hl IH Ho|s1 s2 Hl IH Ho]; [done| |destruct Ho as [j sz H]; eapply Hstep; [done|exact H|by left]].
  pose proof (budget_later n s s1 Hn Hb Hl) as Hb1. destruct Ho as [j sz H _|j sz H _|j sz H H0|j sz H|j sz H]; try (eapply Hstep; [done|exact H|by left]).
  - eapply Hstep; [done|exact H|]. destruct (decide (sz = size)) as [->|Hne]; [by right|left; congruence].
  - eapply Hstep; [done|exact H|]. left. intros [= ->]. pose proof (Forall_lookup_1 _ _ _ _ (bo_slots _ _ Hb1) H) as Hs. rewrite (must_wait_eq n s1 size Hn Hb1 Hs) in H0.
    pose proof (curr_range n s1 Hn Hb1). unfold MAX_MMAP_SIZE in *. change (Z.shiftl 1 12) with 4096 in *. apply andb_false_iff in H0 as [H0%Z.ltb_ge|H0%Z.ltb_ge]; lia.
Qed.

(** C15. The budget is kept: whatever the order in which up to 2^18 files of at most
    1 PB are opened and closed, and whichever mappings fail, the counter is the sum of
    the mapped megabytes, and the mapped files above 100 MB are at most 4096 MB
    together.  A file waits exactly while it is above 100 MB and does not fit.  A file
    of at most 4096 MB is never stuck: when the files that are held are given back and
    no other one comes before it, it goes on (with others before it, it may have to
    wait again).  A file of more than 4096 MB waits for ever. *)
Theorem mmap_budget n s :
  Z.of_nat n <= 2 ^ 18 -> mreachable n s ->
  curr_mmap_size s = total held (m_slots s) /\ total large (m_slots s) <= MAX_MMAP_SIZE /\ total held (m_slots s) <= MAX_MMAP_SIZE + 100 * Z.of_nat n /\
  forall i size, m_slots s !! i = Some (Waits size) ->
    (must_wait (curr_mmap_size s) (megabytes size) = true <-> MAX_MMAP_SIZE < total held (m_slots s) + megabytes size /\ 100 < megabytes size) /\
    (megabytes size <= MAX_MMAP_SIZE -> exists s', ends s s' /\ m_slots s' !! i = Some (Waits size) /\ must_wait (curr_mmap_size s') (megabytes size) = false) /\
    (MAX_MMAP_SIZE < megabytes size -> forall s', later s s' -> m_slots s' !! i = Some (Waits size)).
Proof.
  intros Hn Hr. pose proof (budget_reachable n s Hn Hr) as Hb. pose proof Hb as [Hlen Hsl Hc Hl]. pose proof (total_bound _ Hsl) as (_ & _ & Ht). rewrite Hlen in Ht. do 2 (split; [done|]). split; [lia|].
  intros i size Hi. pose proof (Forall_lookup_1 _ _ _ _ Hsl Hi) as Hok. cbn [slot_ok] in Hok. split; [|split].
  - rewrite (must_wait_eq n s size Hn Hb Hok), Hc, andb_true_iff, !Z.ltb_lt. done.
  - intros Hm. destruct (all_end (Z.to_nat (total busy (m_slots s))) s ltac:(lia)) as (s' & He & H0 & Hkeep). exists s'. split; [done|]. split; [by apply Hkeep|].
    pose proof (budget_later n s s' Hn Hb (ends_later _ _ He)) as Hb'. rewrite (must_wait_eq n s' size Hn Hb' Hok), (bo_curr _ _ Hb'), (not_busy_held _ H0). apply andb_false_intro1, Z.ltb_ge. lia.
  - intros Hm s' Hlat. by apply (waits_for_ever n s).
Qed.

(** One thread has mapped 3000 MB, the second waits for 2000 MB, the third for 5000. *)
Definition three_files : MmapState := {| curr_mmap_size := 3000; m_slots := [Mapped (3000 * 2 ^ 20); Waits (2000 * 2 ^ 20); Waits (5000 * 2 ^ 20)] |}.
Lemma three_files_reachable : mreachable 3 three_files.
Proof.
  set (x := 3000 * 2 ^ 20). set (y := 2000 * 2 ^ 20). set (s1 := {| curr_mmap_size := 0; m_slots := [Waits x; Unmapped; Unmapped] |}).
  set (s2 := {| curr_mmap_size := 3000; m_slots := [Mapping x; Unmapped; Unmapped] |}). set (s3 := {| curr_mmap_size := 3000; m_slots := [Mapped x; Unmapped; Unmapped] |}).
  set (s4 := {| curr_mmap_size := 3000; m_slots := [Mapped x; Waits y; Unmapped] |}).
  apply (MOpening 3 s4); [apply (MOpening 3 s3); [apply (MOpening 3 s2); [apply (MOpening 3 s1); [eapply MOpening; [apply MInit|]|]|]|]|].
  - refine (MOpen {| curr_mmap_size := 0; m_slots := replicate 3 Unmapped |} 0 x eq_refl _). unfold x. lia.
  - exact (MCount s1 0 x eq_refl eq_refl).
  - exact (MDone s2 0 x eq_refl).
  - refine (MOpen s3 1 y eq_refl _). unfold y. lia.
  - refine (MOpen s4 2 (5000 * 2 ^ 20) eq_refl _). lia.
Qed.
Lemma mmap_budget_witness :
  total large (m_slots three_files) <= MAX_MMAP_SIZE /\ must_wait (curr_mmap_size three_files) (megabytes (2000 * 2 ^ 20)) = true /\
  (exists s', ends three_files s' /\ must_wait (curr_mmap_size s') (megabytes (2000 * 2 ^ 20)) = false) /\
  forall s', later three_files s' -> m_slots s' !! 2%nat = Some (Waits (5000 * 2 ^ 20)).
Proof.
  destruct (mmap_budget 3 three_files) as (_ & H1 & _ & H2); [lia|apply three_files_reachable|]. split; [exact H1|]. split; [vm_compute; reflexivity|]. split.
  - destruct (H2 1%nat (2000 * 2 ^ 20) eq_refl) as (_ & H & _). destruct H as (s' & H3 & _ & H4); [vm_compute; discriminate|]. exists s'. by split.
  - destruct (H2 2%nat (5000 * 2 ^ 20) eq_refl) as (_ & _ & H). apply H. vm_compute. reflexivity.
Defined.
