(* ===== verification/Options.v ===== *)
(** * The command line and the start of the server (beansdb.c, common.c)

    [getopt] turns the arguments into options, each option changes the settings or
    a local variable of [main], the result is checked, and the store is opened.
    What the operating system decides ([stat], [setrlimit], [daemon], [setuid], the
    calendar) is the record [OS]. *)
From Stdlib Require Import ZArith Lia List.
From stdpp Require Import base numbers list gmap strings.
From S2P Require Import Prelude CText Codec CodecFacts HTree HTreeSpec Disk Bitcask BitcaskInv BitcaskSteps BitcaskSpec BitcaskLife BitcaskHistory HStore HStoreFacts.

(** ** Settings *)
(** [slow_cmd_time] is kept in milliseconds. *)
Record Settings := {
  cf_num_threads : Z; cf_item_buf_size : Z; cf_maxconns : Z; cf_port : Z; cf_inter : option bytes; cf_verbose : Z;
  cf_slow_cmd_ms : Z; cf_flush_period : Z; cf_flush_limit : Z; cf_max_bucket_size : Z; cf_check_file_size : bool; cf_autolink : bool
}.

Definition settings_init : Settings :=
  {| cf_port := 7900; cf_inter := None; cf_item_buf_size := 4 * 1024; cf_maxconns := 1024; cf_verbose := 0;
     cf_num_threads := 16; cf_flush_limit := 1024; cf_flush_period := 60 * 10; cf_slow_cmd_ms := 100;
     cf_max_bucket_size := u32 (s32 (Z.shiftl 4000 20)); cf_check_file_size := false; cf_autolink := true |}.

(** ** The options *)
Definition optstring : bytes := lit "p:c:hivl:dru:P:L:t:b:H:T:m:s:f:n:SF:CA".

(** Whether option [c] is known, and whether it takes an argument. *)
Fixpoint find_opt (spec : bytes) (c : Z) : option bool :=
  match spec with
  | [] => None
  | x :: r => if negb (x =? 58) && (x =? c) then Some (match r with 58 :: _ => true | _ => false end) else find_opt r c
  end.

(** The options in one argument, after the dash; a letter when its argument is the
    next one.  63 is the question mark that [getopt] returns for an error. *)
Fixpoint cluster (w : bytes) : list (Z * bytes) * option Z :=
  match w with
  | [] => ([], None)
  | c :: r =>
      match find_opt optstring c with
      | None => let '(l, o) := cluster r in ((63, []) :: l, o)
      | Some false => let '(l, o) := cluster r in ((c, []) :: l, o)
      | Some true => match r with [] => ([], Some c) | _ => ([(c, r)], None) end
      end
  end.

(** [getopt] until it returns -1: operands are passed over, "--" ends. *)
Fixpoint getopt (argv : list bytes) : list (Z * bytes) :=
  match argv with
  | [] => []
  | a :: rest =>
      if bool_decide (a = [45; 45]) then []
      else match a with
           | 45 :: ((_ :: _) as w) =>
               let '(l, o) := cluster w in
               l ++ match o with
                    | None => getopt rest
                    | Some c => match rest with [] => [(63, [])] | v :: rest' => (c, v) :: getopt rest' end
                    end
           | _ => getopt rest
           end
  end.

(** The local variables of [main]. *)
Record Options := {
  o_settings : Settings; o_dbhome : bytes; o_height : Z; o_daemonize : bool; o_use_before : bool; o_buf : bytes; o_maxcore : Z;
  o_username : option bytes; o_pid_file : option bytes; o_conf_path : option bytes; o_stopme : bool; o_invalid : bool
}.
Definition options_init : Options :=
  {| o_settings := settings_init; o_dbhome := lit "testdb"; o_height := 1; o_daemonize := false; o_use_before := false;
     o_buf := lit "2000-01-01-00:00:00" ++ [0]; o_maxcore := 0; o_username := None; o_pid_file := None; o_conf_path := None;
     o_stopme := false; o_invalid := false |}.

(** Assignments to a setting and to a variable. *)
Definition set_num_threads (s : Settings) (x : Z) : Settings :=
  {| cf_num_threads := x; cf_item_buf_size := cf_item_buf_size s; cf_maxconns := cf_maxconns s;
     cf_port := cf_port s; cf_inter := cf_inter s; cf_verbose := cf_verbose s; cf_slow_cmd_ms := cf_slow_cmd_ms s;
     cf_flush_period := cf_flush_period s; cf_flush_limit := cf_flush_limit s;
     cf_max_bucket_size := cf_max_bucket_size s; cf_check_file_size := cf_check_file_size s;
     cf_autolink := cf_autolink s |}.
Definition set_item_buf_size (s : Settings) (x : Z) : Settings :=
  {| cf_num_threads := cf_num_threads s; cf_item_buf_size := x; cf_maxconns := cf_maxconns s;
     cf_port := cf_port s; cf_inter := cf_inter s; cf_verbose := cf_verbose s; cf_slow_cmd_ms := cf_slow_cmd_ms s;
     cf_flush_period := cf_flush_period s; cf_flush_limit := cf_flush_limit s;
     cf_max_bucket_size := cf_max_bucket_size s; cf_check_file_size := cf_check_file_size s;
     cf_autolink := cf_autolink s |}.
Definition set_maxconns (s : Settings) (x : Z) : Settings :=
  {| cf_num_threads := cf_num_threads s; cf_item_buf_size := cf_item_buf_size s; cf_maxconns := x;
     cf_port := cf_port s; cf_inter := cf_inter s; cf_verbose := cf_verbose s; cf_slow_cmd_ms := cf_slow_cmd_ms s;
     cf_flush_period := cf_flush_period s; cf_flush_limit := cf_flush_limit s;
     cf_max_bucket_size := cf_max_bucket_size s; cf_check_file_size := cf_check_file_size s;
     cf_autolink := cf_autolink s |}.
Definition set_port (s : Settings) (x : Z) : Settings :=
  {| cf_num_threads := cf_num_threads s; cf_item_buf_size := cf_item_buf_size s; cf_maxconns := cf_maxconns s;
     cf_port := x; cf_inter := cf_inter s; cf_verbose := cf_verbose s; cf_slow_cmd_ms := cf_slow_cmd_ms s;
     cf_flush_period := cf_flush_period s; cf_flush_limit := cf_flush_limit s;
     cf_max_bucket_size := cf_max_bucket_size s; cf_check_file_size := cf_check_file_size s;
     cf_autolink := cf_autolink s |}.
Definition set_inter (s : Settings) (x : option bytes) : Settings :=
  {| cf_num_threads := cf_num_threads s; cf_item_buf_size := cf_item_buf_size s; cf_maxconns := cf_maxconns s;
     cf_port := cf_port s; cf_inter := x; cf_verbose := cf_verbose s; cf_slow_cmd_ms := cf_slow_cmd_ms s;
     cf_flush_period := cf_flush_period s; cf_flush_limit := cf_flush_limit s;
     cf_max_bucket_size := cf_max_bucket_size s; cf_check_file_size := cf_check_file_size s;
     cf_autolink := cf_autolink s |}.
Definition set_verbose (s : Settings) (x : Z) : Settings :=
  {| cf_num_threads := cf_num_threads s; cf_item_buf_size := cf_item_buf_size s; cf_maxconns := cf_maxconns s;
     cf_port := cf_port s; cf_inter := cf_inter s; cf_verbose := x; cf_slow_cmd_ms := cf_slow_cmd_ms s;
     cf_flush_period := cf_flush_period s; cf_flush_limit := cf_flush_limit s;
     cf_max_bucket_size := cf_max_bucket_size s; cf_check_file_size := cf_check_file_size s;
     cf_autolink := cf_autolink s |}.
Definition set_slow_cmd_ms (s : Settings) (x : Z) : Settings :=
  {| cf_num_threads := cf_num_threads s; cf_item_buf_size := cf_item_buf_size s; cf_maxconns := cf_maxconns s;
     cf_port := cf_port s; cf_inter := cf_inter s; cf_verbose := cf_verbose s; cf_slow_cmd_ms := x;
     cf_flush_period := cf_flush_period s; cf_flush_limit := cf_flush_limit s;
     cf_max_bucket_size := cf_max_bucket_size s; cf_check_file_size := cf_check_file_size s;
     cf_autolink := cf_autolink s |}.
Definition set_flush_period (s : Settings) (x : Z) : Settings :=
  {| cf_num_threads := cf_num_threads s; cf_item_buf_size := cf_item_buf_size s; cf_maxconns := cf_maxconns s;
     cf_port := cf_port s; cf_inter := cf_inter s; cf_verbose := cf_verbose s; cf_slow_cmd_ms := cf_slow_cmd_ms s;
     cf_flush_period := x; cf_flush_limit := cf_flush_limit s; cf_max_bucket_size := cf_max_bucket_size s;
     cf_check_file_size := cf_check_file_size s; cf_autolink := cf_autolink s |}.
Definition set_flush_limit (s : Settings) (x : Z) : Settings :=
  {| cf_num_threads := cf_num_threads s; cf_item_buf_size := cf_item_buf_size s; cf_maxconns := cf_maxconns s;
     cf_port := cf_port s; cf_inter := cf_inter s; cf_verbose := cf_verbose s; cf_slow_cmd_ms := cf_slow_cmd_ms s;
     cf_flush_period := cf_flush_period s; cf_flush_limit := x; cf_max_bucket_size := cf_max_bucket_size s;
     cf_check_file_size := cf_check_file_size s; cf_autolink := cf_autolink s |}.
Definition set_max_bucket_size (s : Settings) (x : Z) : Settings :=
  {| cf_num_threads := cf_num_threads s; cf_item_buf_size := cf_item_buf_size s; cf_maxconns := cf_maxconns s;
     cf_port := cf_port s; cf_inter := cf_inter s; cf_verbose := cf_verbose s; cf_slow_cmd_ms := cf_slow_cmd_ms s;
     cf_flush_period := cf_flush_period s; cf_flush_limit := cf_flush_limit s; cf_max_bucket_size := x;
     cf_check_file_size := cf_check_file_size s; cf_autolink := cf_autolink s |}.
Definition set_check_file_size (s : Settings) (x : bool) : Settings :=
  {| cf_num_threads := cf_num_threads s; cf_item_buf_size := cf_item_buf_size s; cf_maxconns := cf_maxconns s;
     cf_port := cf_port s; cf_inter := cf_inter s; cf_verbose := cf_verbose s; cf_slow_cmd_ms := cf_slow_cmd_ms s;
     cf_flush_period := cf_flush_period s; cf_flush_limit := cf_flush_limit s;
     cf_max_bucket_size := cf_max_bucket_size s; cf_check_file_size := x; cf_autolink := cf_autolink s |}.
Definition put_settings (o : Options) (x : Settings) : Options :=
  {| o_settings := x; o_dbhome := o_dbhome o; o_height := o_height o; o_daemonize := o_daemonize o;
     o_use_before := o_use_before o; o_buf := o_buf o; o_maxcore := o_maxcore o; o_username := o_username o;
     o_pid_file := o_pid_file o; o_conf_path := o_conf_path o; o_stopme := o_stopme o; o_invalid := o_invalid o |}.
Definition put_dbhome (o : Options) (x : bytes) : Options :=
  {| o_settings := o_settings o; o_dbhome := x; o_height := o_height o; o_daemonize := o_daemonize o;
     o_use_before := o_use_before o; o_buf := o_buf o; o_maxcore := o_maxcore o; o_username := o_username o;
     o_pid_file := o_pid_file o; o_conf_path := o_conf_path o; o_stopme := o_stopme o; o_invalid := o_invalid o |}.
Definition put_height (o : Options) (x : Z) : Options :=
  {| o_settings := o_settings o; o_dbhome := o_dbhome o; o_height := x; o_daemonize := o_daemonize o;
     o_use_before := o_use_before o; o_buf := o_buf o; o_maxcore := o_maxcore o; o_username := o_username o;
     o_pid_file := o_pid_file o; o_conf_path := o_conf_path o; o_stopme := o_stopme o; o_invalid := o_invalid o |}.
Definition put_daemonize (o : Options) (x : bool) : Options :=
  {| o_settings := o_settings o; o_dbhome := o_dbhome o; o_height := o_height o; o_daemonize := x;
     o_use_before := o_use_before o; o_buf := o_buf o; o_maxcore := o_maxcore o; o_username := o_username o;
     o_pid_file := o_pid_file o; o_conf_path := o_conf_path o; o_stopme := o_stopme o; o_invalid := o_invalid o |}.
Definition put_use_before (o : Options) (x : bool) : Options :=
  {| o_settings := o_settings o; o_dbhome := o_dbhome o; o_height := o_height o; o_daemonize := o_daemonize o;
     o_use_before := x; o_buf := o_buf o; o_maxcore := o_maxcore o; o_username := o_username o;
     o_pid_file := o_pid_file o; o_conf_path := o_conf_path o; o_stopme := o_stopme o; o_invalid := o_invalid o |}.
Definition put_buf (o : Options) (x : bytes) : Options :=
  {| o_settings := o_settings o; o_dbhome := o_dbhome o; o_height := o_height o; o_daemonize := o_daemonize o;
     o_use_before := o_use_before o; o_buf := x; o_maxcore := o_maxcore o; o_username := o_username o;
     o_pid_file := o_pid_file o; o_conf_path := o_conf_path o; o_stopme := o_stopme o; o_invalid := o_invalid o |}.
Definition put_maxcore (o : Options) (x : Z) : Options :=
  {| o_settings := o_settings o; o_dbhome := o_dbhome o; o_height := o_height o; o_daemonize := o_daemonize o;
     o_use_before := o_use_before o; o_buf := o_buf o; o_maxcore := x; o_username := o_username o;
     o_pid_file := o_pid_file o; o_conf_path := o_conf_path o; o_stopme := o_stopme o; o_invalid := o_invalid o |}.
Definition put_username (o : Options) (x : option bytes) : Options :=
  {| o_settings := o_settings o; o_dbhome := o_dbhome o; o_height := o_height o; o_daemonize := o_daemonize o;
     o_use_before := o_use_before o; o_buf := o_buf o; o_maxcore := o_maxcore o; o_username := x;
     o_pid_file := o_pid_file o; o_conf_path := o_conf_path o; o_stopme := o_stopme o; o_invalid := o_invalid o |}.
Definition put_pid_file (o : Options) (x : option bytes) : Options :=
  {| o_settings := o_settings o; o_dbhome := o_dbhome o; o_height := o_height o; o_daemonize := o_daemonize o;
     o_use_before := o_use_before o; o_buf := o_buf o; o_maxcore := o_maxcore o; o_username := o_username o;
     o_pid_file := x; o_conf_path := o_conf_path o; o_stopme := o_stopme o; o_invalid := o_invalid o |}.
Definition put_conf_path (o : Options) (x : option bytes) : Options :=
  {| o_settings := o_settings o; o_dbhome := o_dbhome o; o_height := o_height o; o_daemonize := o_daemonize o;
     o_use_before := o_use_before o; o_buf := o_buf o; o_maxcore := o_maxcore o; o_username := o_username o;
     o_pid_file := o_pid_file o; o_conf_path := x; o_stopme := o_stopme o; o_invalid := o_invalid o |}.
Definition put_stopme (o : Options) (x : bool) : Options :=
  {| o_settings := o_settings o; o_dbhome := o_dbhome o; o_height := o_height o; o_daemonize := o_daemonize o;
     o_use_before := o_use_before o; o_buf := o_buf o; o_maxcore := o_maxcore o; o_username := o_username o;
     o_pid_file := o_pid_file o; o_conf_path := o_conf_path o; o_stopme := x; o_invalid := o_invalid o |}.
Definition put_invalid (o : Options) (x : bool) : Options :=
  {| o_settings := o_settings o; o_dbhome := o_dbhome o; o_height := o_height o; o_daemonize := o_daemonize o;
     o_use_before := o_use_before o; o_buf := o_buf o; o_maxcore := o_maxcore o; o_username := o_username o;
     o_pid_file := o_pid_file o; o_conf_path := o_conf_path o; o_stopme := o_stopme o; o_invalid := x |}.

(** One turn of the loop over the options. *)
Definition do_option (o : Options) (c : Z) (optarg : bytes) : outcome Options :=
  let s := o_settings o in
  let setting s' := Ret (put_settings o s') in
  if c =? 112 (* p *) then setting (set_port s (atoi optarg))
  else if c =? 99 (* c *) then setting (set_maxconns s (atoi optarg))
  else if c =? 104 (* h *) then Exit 0
  else if c =? 105 (* i *) then Exit 0
  else if c =? 118 (* v *) then setting (set_verbose s (s32 (cf_verbose s + 1)))
  else if c =? 108 (* l *) then setting (set_inter s (Some optarg))
  else if c =? 100 (* d *) then Ret (put_daemonize o true)
  else if c =? 114 (* r *) then Ret (put_maxcore o 1)
  else if c =? 117 (* u *) then Ret (put_username o (Some optarg))
  else if c =? 80 (* P *) then Ret (put_pid_file o (Some optarg))
  else if c =? 76 (* L *) then Ret (put_conf_path o (Some optarg))
  else if c =? 116 (* t *) then setting (set_num_threads s (atoi optarg))
  else if c =? 98 (* b *) then setting (set_item_buf_size s (u64 (atoi optarg)))
  else if c =? 72 (* H *) then Ret (put_dbhome o optarg)
  else if c =? 84 (* T *) then Ret (put_height o (atoi optarg))
  else if c =? 115 (* s *) then setting (set_slow_cmd_ms s (atoi optarg))
  else if c =? 102 (* f *) then setting (set_flush_period s (atoi optarg))
  else if c =? 110 (* n *) then setting (set_flush_limit s (atoi optarg))
  else if c =? 109 (* m *) then
    if blen (o_buf o) <? blen optarg then Exit 1
    else Ret (put_use_before (put_buf o (optarg ++ drop (length optarg) (o_buf o))) true)
  else if c =? 83 (* S *) then Ret (put_stopme o true)
  else if c =? 70 (* F *) then
    let n := u32 (atoll optarg) in
    if (n <? 5) || (4000 <? n) then Exit 1 else setting (set_max_bucket_size s (u32 (n * (1024 * 1024))))
  else if c =? 67 (* C *) then setting (set_check_file_size s true)
  else Ret (put_invalid o true).

Fixpoint do_options (o : Options) (l : list (Z * bytes)) : outcome Options :=
  match l with [] => Ret o | (c, optarg) :: r => o ← do_option o c optarg; do_options o r end.

(** ** The checks *)
Record OS := {
  os_exists : bytes -> bool;           (* [stat] of a path succeeds *)
  os_log_init : bytes -> bool;
  os_timelocal : bytes -> option Z;    (* [timelocal] of what [strptime] reads, if it reads it *)
  os_core : bool;                      (* the core file limit is not 0 in the end *)
  os_getrlimit : bool;
  os_setrlimit : Z -> bool;            (* enough open files for that many connections *)
  os_daemon : bool;
  os_root : bool;
  os_setuid : bytes -> bool            (* the user exists and can be assumed *)
}.

(** The C string in [buf]: without a null byte it is read past the end. *)
Fixpoint c_string (buf : bytes) : outcome bytes :=
  match buf with
  | [] => Fault
  | 0 :: _ => Ret []
  | c :: r => s ← c_string r; Ret (c :: s)
  end.

Definition default_log_confs : list bytes := [lit "./beansdb_log.conf"; lit "/etc/beansdb_log.conf"].

(** [main] from the loop over the options to the opening of the store: the options
    and [before_time]. *)
Definition main_options (os : OS) (argv : list bytes) : outcome (Options * Z) :=
  o ← do_options options_init (getopt argv);
  let s := o_settings o in
  match (match o_conf_path o with Some p => Some p | None => List.find (os_exists os) default_log_confs end) with
  | None => Exit 1
  | Some conf =>
      if negb (os_log_init os conf) then Exit 1
      else if o_invalid o then Exit 1
      else if cf_num_threads s =? 0 then Exit 1
      else if cf_item_buf_size s <? 512 then Exit 1
      else
        before ← (if o_use_before o then
                    b ← c_string (o_buf o);
                    match os_timelocal os b with Some t => Ret t | None => Exit 1 end
                  else Ret 0);
        if negb (o_maxcore o =? 0) && negb (os_core os) then Exit 1
        else if negb (os_getrlimit os) then Exit 1
        else if negb (os_setrlimit os (cf_maxconns s)) then Exit 1
        else if o_daemonize o && negb (os_daemon os) then Exit 1
        else if os_root os && negb (match o_username o with Some (x :: u) => os_setuid os (x :: u) | _ => false end) then Exit 1
        else Ret (o, before)
  end.

(** ** The store of the server *)
(** The environment of the store: the settings, and the kernel [k]. *)
Definition env_of (k : Env) (s : Settings) : Env :=
  {| e_max_bucket_size := cf_max_bucket_size s; e_check_file_size := cf_check_file_size s; e_autolink := cf_autolink s;
     e_disk := e_disk k; e_readdir := e_readdir k; e_fresh := e_fresh k; e_addr := e_addr k; e_cwd := e_cwd k; e_dir_ok := e_dir_ok k |}.

Definition main_open {C} {KC : KeyCodec C} (os : OS) (k : Env) (argv : list bytes) (fss : Z -> fs) (now : Z) : outcome (Options * HStore C) :=
  '(o, before) ← main_options os argv;
  s ← hs_open (env_of k (o_settings o)) fss (o_dbhome o) (o_height o) before now;
  match s with None => Exit 1 | Some s => Ret (o, s) end.

(** ** What the options can be *)
Definition MB : Z := 1024 * 1024.
Definition limit_ok (s : Settings) : Prop := 5 * MB <= cf_max_bucket_size s <= 4000 * MB.

Lemma do_option_limit o c a o' : do_option o c a = Ret o' -> limit_ok (o_settings o) -> limit_ok (o_settings o').
Proof.
  unfold do_option. intros H Hl. repeat (case_match; simplify_eq; [done|]). repeat (case_match; simplify_eq; try done).
  match goal with E : (_ || _) = false |- _ => apply orb_false_elim in E as [E1%Z.ltb_ge E2%Z.ltb_ge] end.
  unfold limit_ok, put_settings, set_max_bucket_size, MB in *. cbn [o_settings cf_max_bucket_size].
  rewrite (u32_id (_ * _)); change (2 ^ 32) with 4294967296; lia.
Qed.

Lemma do_options_limit o l o' : do_options o l = Ret o' -> limit_ok (o_settings o) -> limit_ok (o_settings o').
Proof.
  revert o. induction l as [|[c a] l IH]; intros o; cbn [do_options]; [by intros [= ->]|].
  destruct (do_option o c a) as [o1|?|] eqn:E; cbn [mbind outcome_bind]; [|done..]. intros H Hl. eapply IH; [done|]. by eapply do_option_limit.
Qed.

Lemma main_options_checked os argv o before :
  main_options os argv = Ret (o, before) ->
  do_options options_init (getopt argv) = Ret o /\ o_invalid o = false /\ cf_num_threads (o_settings o) <> 0 /\ 512 <= cf_item_buf_size (o_settings o) /\
  (o_use_before o = false -> before = 0).
Proof.
  unfold main_options. destruct (do_options options_init (getopt argv)) as [o1|?|]; cbn [mbind outcome_bind]; [|done..].
  destruct (match o_conf_path o1 with Some p => _ | None => _ end) as [conf|]; [|done]. destruct (negb _); [done|]. destruct (o_invalid o1) eqn:Hi; [done|].
  destruct (Z.eqb_spec (cf_num_threads (o_settings o1)) 0) as [|Ht]; [done|]. destruct (Z.ltb_spec (cf_item_buf_size (o_settings o1)) 512) as [|Hb]; [done|].
  intros H. assert (Hres : o1 = o /\ (o_use_before o1 = false -> before = 0)).
  { destruct (o_use_before o1); [destruct (c_string (o_buf o1)) as [b|?|]; cbn [mbind outcome_bind] in H; [destruct (os_timelocal os b)| |]|]; cbn [mbind outcome_bind] in H; repeat case_match; simplify_eq; split; done. }
  destruct Hres as [-> Hb0]. done.
Qed.

(** C16. A server that starts has sane limits, whatever its command line: the largest
    data file is between 5 and 4000 MB, so that the offsets in it and a write buffer
    of 64 MB fit 32 bits; no option was unknown; a buffer of items has at least 512
    bytes; there is a number of threads other than 0. *)
Theorem started_options_bounded os argv o before :
  main_options os argv = Ret (o, before) ->
  5 * MB <= cf_max_bucket_size (o_settings o) <= 4000 * MB /\ cf_max_bucket_size (o_settings o) <= 2 ^ 32 - 2 ^ 26 /\
  o_invalid o = false /\ 512 <= cf_item_buf_size (o_settings o) /\ cf_num_threads (o_settings o) <> 0.
Proof.
  intros (Hd & Hi & Ht & Hb & _)%main_options_checked. assert (Hl : limit_ok (o_settings o)) by (apply (do_options_limit _ _ _ Hd); split; vm_compute; discriminate).
  split; [done|]. split; [|done]. destruct Hl as [_ Hl]. unfold MB in Hl. lia.
Qed.

(** From the command line to the answers: a server started with one home directory
    of at most 224 characters (with the working directory, when it is relative), a height from 0 to 3, no [-m] and data files of at most
    3968 MB, on empty directories, opens its store, and the store answers every
    history of requests as one versioned map does. *)
Theorem main_serves_map {C} {KC : KeyCodec C} {KL : KeyCodecLaws C} os k argv o before now rs :
  main_options os argv = Ret (o, before) ->
  o_use_before o = false -> 0 <= o_height o <= 3 -> single (o_dbhome o) -> o_dbhome o <> [] -> blen (absolute (e_cwd k) (o_dbhome o)) <= 224 -> cf_max_bucket_size (o_settings o) <= 3968 * MB ->
  (forall d, e_readdir k d = []) -> (forall d, e_dir_ok k d = true) -> (forall n, length (e_fresh k n) = Z.to_nat n /\ bytes_ok (e_fresh k n)) ->
  Forall hreq_ok rs -> Z.of_nat (length rs) <= MAX_OPS ->
  exists s : HStore C, main_open os k argv (fun _ => ∅) now = Ret (o, s) /\ hrefined (env_of k (o_settings o)) s ∅ rs.
Proof.
  intros Ho Hb Hh Hs Hne Hp Hm Hrd Hok Hfr Hrs Hlen. destruct (main_options_checked _ _ _ _ Ho) as (Hd & _ & _ & _ & Hb0).
  assert (Hmax : 0 <= e_max_bucket_size (env_of k (o_settings o)) <= 2 ^ 32 - 2 ^ 27).
  { pose proof (do_options_limit _ _ _ Hd) as Hl. destruct Hl as [Hl _]; [split; vm_compute; discriminate|]. cbn [env_of e_max_bucket_size]. unfold MB in *. lia. }
  set (env := env_of k (o_settings o)) in *. exists (empty_store (o_height o) (home env (o_dbhome o)) now). split.
  - unfold main_open. rewrite Ho. cbn [mbind outcome_bind]. rewrite (Hb0 Hb), open_store by done. done.
  - apply (hrun_spec env Hfr Hmax (dir_of (o_height o) (home env (o_dbhome o))) (dir_of_short (o_height o) _) 0); [by apply empty_hinv|lia|lia|done].
Qed.

(** ** Concrete command lines *)
Definition demo_os : OS :=
  {| os_exists := fun _ => false; os_log_init := fun _ => true; os_timelocal := fun _ => Some 1262304000; os_core := true; os_getrlimit := true;
     os_setrlimit := fun _ => true; os_daemon := true; os_root := false; os_setuid := fun _ => true |}.
Definition demo_argv : list bytes := List.map lit ["-t8"; "-F"; "100"; "operand"; "-dH"; "/db"; "-L"; "log.conf"]%string.

Lemma started_options_bounded_witness :
  match main_options demo_os demo_argv with
  | Ret (o, _) => cf_max_bucket_size (o_settings o) = 100 * MB /\ cf_num_threads (o_settings o) = 8 /\ o_dbhome o = lit "/db" /\
      cf_max_bucket_size (o_settings o) <= 2 ^ 32 - 2 ^ 26
  | _ => False
  end.
Proof.
  destruct (main_options demo_os demo_argv) as [[o before]|?|] eqn:E; [|vm_compute in E; discriminate..].
  pose proof (started_options_bounded demo_os demo_argv o before E) as (_ & H & _). vm_compute in E. injection E as <- <-. done.
Defined.

Lemma main_serves_map_witness :
  match main_options demo_os demo_argv with
  | Ret (o, _) => exists s : HStore Codec, main_open demo_os small_env demo_argv (fun _ => ∅) 99 = Ret (o, s) /\ hrefined (env_of small_env (o_settings o)) s ∅ demo_requests
  | _ => False
  end.
Proof.
  destruct (main_options demo_os demo_argv) as [[o before]|?|] eqn:E; [|vm_compute in E; discriminate..].
  apply (main_serves_map demo_os small_env demo_argv o before); [exact E| | | | | | |done|done|intros; apply zeros_ok|by_compute|vm_compute; discriminate];
    vm_compute in E; injection E as <- <-; [reflexivity|done|by_compute|discriminate|vm_compute; discriminate|vm_compute; discriminate].
Defined.

(** What is not checked: the number for [-F] is cut to 32 bits before it is
    compared, so 4294967396 is taken for 100; negative numbers pass for [-t] ("must be
    greater than 0") and, as enormous sizes, for [-b]; a time of 20 characters for
    [-m] leaves no room for the terminating null byte, and is read past its end; [-A]
    is in the list of options but refused as illegal. *)
Theorem options_not_checked :
  match main_options demo_os (List.map lit ["-L"; "log.conf"; "-F4294967396"; "-t"; "-1"; "-b-1"]%string) with
  | Ret (o, _) => cf_max_bucket_size (o_settings o) = 100 * MB /\ cf_num_threads (o_settings o) = -1 /\ cf_item_buf_size (o_settings o) = 2 ^ 64 - 1
  | _ => False
  end /\
  main_options demo_os (List.map lit ["-L"; "log.conf"; "-m"; "2010-01-01-00:00:00Z"]%string) = Fault /\
  find_opt optstring 65 = Some false /\ main_options demo_os (List.map lit ["-L"; "log.conf"; "-A"]%string) = Exit 1.
Proof. vm_compute. repeat split. Qed.
