(* ===== verification/Listen.v ===== *)
(** * The listening sockets and the start of the workers (beansdb.c, thread.c)

    [server_socket] walks over the addresses that [getaddrinfo] found: each gets a
    socket, which is bound, put to listening and registered in the event loop by
    [conn_new]; an address in use is skipped, any other failure ends the start.
    What the kernel answers for an address is the record [addrinfo]; the numbers of
    new descriptors and the addresses of new connection objects come from a
    [Kernel], which only promises that they are not in use. *)
From Stdlib Require Import ZArith Lia List.
From stdpp Require Import base numbers list gmap.
From S2P Require Import Prelude EventLoop EventLoopFacts.

(** ** The kernel *)
Inductive bind_result := Bound | AddrInUse | BindFailed.

(** What the kernel answers for one address: [fcntl] with [F_GETFL] and with
    [F_SETFL], [bind] with its errno, [listen], [epoll_ctl]. *)
Record addrinfo := { ai_getfl : Z; ai_setfl : Z; ai_bind : bind_result; ai_listen : Z; ai_epoll : bool }.

(** [socket] and the allocation of a [conn] with its buffers, given what is in use. *)
Record Kernel := { k_socket : addrinfo -> list fd -> Z; k_conn : list cid -> option cid }.

(** POSIX: a new descriptor is not open already; the C library: a new object is not
    allocated already. *)
Class KernelLaws (K : Kernel) := {
  socket_new a used : k_socket K a used = -1 \/ k_socket K a used ∉ used;
  conn_fresh used c : k_conn K used = Some c -> c ∉ used
}.

(** ** The state *)
(** The open descriptors, the allocated connection objects, the event loop and the
    list of free connections. *)
Record Net := { n_open : list fd; n_objs : list cid; n_loop : EventLoop; n_free : FreeConns }.

Definition opened (n : Net) (x : fd) : Net := {| n_open := x :: n_open n; n_objs := n_objs n; n_loop := n_loop n; n_free := n_free n |}.
Definition closed (n : Net) (x : fd) : Net := {| n_open := disarm x (n_open n); n_objs := n_objs n; n_loop := n_loop n; n_free := n_free n |}.

(** [thread_init]: [created] is whether [aeApiCreate] succeeds. *)
Definition thread_init (created : bool) : outcome EventLoop :=
  if created then Ret {| el_conns := ∅; el_fired := []; el_armed := [] |} else Exit 1.

(** ** Sockets *)
Definition new_socket (K : Kernel) (n : Net) (a : addrinfo) : Net * Z :=
  let sfd := k_socket K a (n_open n) in
  if sfd =? -1 then (n, -1)
  else let n := opened n sfd in
       if (ai_getfl a <? 0) || (ai_setfl a <? 0) then (closed n sfd, -1) else (n, sfd).

(** [conn_new(sfd, conn_listening, 1)] *)
Definition conn_listen (K : Kernel) (n : Net) (a : addrinfo) (sfd : fd) : Net * option cid :=
  let '(f, r) := do_conn_from_freelist (n_free n) in
  let '(objs, r) := match r with
                    | Some c => (n_objs n, Some c)
                    | None => match k_conn K (n_objs n) with Some c => (c :: n_objs n, Some c) | None => (n_objs n, None) end
                    end in
  match r with
  | None => ({| n_open := n_open n; n_objs := objs; n_loop := n_loop n; n_free := f |}, None)
  | Some c =>
      let refuse l := ({| n_open := n_open n; n_objs := objs; n_loop := l; n_free := fst (do_conn_add_to_freelist true f c) |}, None) in
      let '(l, e) := add_event_enter (n_loop n) sfd c in
      if e =? AE_ERR then refuse l
      else let '(l, e) := add_event_arm (ai_epoll a) l sfd in
           if e =? AE_ERR then refuse l
           else ({| n_open := n_open n; n_objs := objs; n_loop := l; n_free := f |}, Some c)
  end.

(** The loop over the addresses; the answers to [setsockopt] are ignored. *)
Fixpoint listen_loop (K : Kernel) (n : Net) (ai : list addrinfo) (success : Z) : outcome (Net * Z) :=
  match ai with
  | [] => Ret (n, if success =? 0 then 1 else 0)
  | next :: rest =>
      let '(n, sfd) := new_socket K n next in
      if sfd =? -1 then Ret (n, 1)
      else match ai_bind next with
           | BindFailed => Ret (closed n sfd, 1)
           | AddrInUse => listen_loop K (closed n sfd) rest success
           | Bound =>
               if ai_listen next =? -1 then Ret (closed n sfd, 1)
               else let '(n, c) := conn_listen K n next sfd in
                    match c with None => Exit 1 | Some _ => listen_loop K n rest (success + 1) end
           end
  end.

(** [ai] is what [getaddrinfo] finds, [None] when it fails. *)
Definition server_socket (K : Kernel) (n : Net) (ai : option (list addrinfo)) : outcome (Net * Z) :=
  match ai with None => Ret (n, 1) | Some l => listen_loop K n l 0 end.

(** ** The workers *)
(** [loop_run(nthread)]: the array of thread ids is allocated with [nthread] taken
    for a [size_t]; [created] is whether every [pthread_create] succeeds; the main
    thread is the last worker. *)
Definition loop_run (nthread : Z) (created : bool) (n : Net) : outcome LoopState :=
  if nthread <? 0 then Exit 1
  else if negb created && (1 <? nthread) then Exit 1
  else Ret {| ls_loop := n_loop n; ls_free := n_free n; ls_leader := None; ls_workers := replicate (Z.to_nat (nthread - 1)) Waiting ++ [Waiting] |}.

(** The state in which [main] calls [server_socket]: [base] are the descriptors that
    are open already. *)
Definition net_start (base : list fd) (l : EventLoop) : Net := {| n_open := base; n_objs := []; n_loop := l; n_free := conn_init |}.

(** ** What is listening *)
(** [listening] are the sockets and connections set up so far, the newest first. *)
Record listens (base : list fd) (listening : list (fd * cid)) (n : Net) : Prop := {
  li_open : n_open n = List.map fst listening ++ base;
  li_nodup : NoDup (n_open n);
  li_objs : n_objs n = List.map snd listening;
  li_cids : NoDup (n_objs n);
  li_size : Forall (fun '(x, _) => x < AE_SETSIZE) listening;
  li_loop : n_loop n = {| el_conns := list_to_map listening; el_fired := []; el_armed := List.map fst listening |};
  li_free : n_free n = conn_init
}.

Lemma disarm_absent x l : x ∉ l -> disarm x l = l.
Proof.
  induction l as [|y l IH]; [done|]. intros Hx. apply not_elem_of_cons in Hx as [Hne Hx]. unfold disarm in *. cbn [List.filter].
  rewrite (proj2 (Z.eqb_neq y x)) by congruence. cbn [negb]. by rewrite IH.
Qed.
Lemma closed_opened n x : x ∉ n_open n -> closed (opened n x) x = n.
Proof.
  intros Hx%disarm_absent. destruct n as [o c l f]. unfold closed, opened, disarm in *. cbn [n_open n_objs n_loop n_free List.filter] in *.
  by rewrite Z.eqb_refl, Hx.
Qed.

Section Listening.
Context {K : Kernel} {KL : KernelLaws K}.

(** [new_socket] leaves nothing behind when it fails. *)
Lemma new_socket_spec n a n' sfd :
  new_socket K n a = (n', sfd) -> (sfd = -1 /\ n' = n) \/ (sfd <> -1 /\ n' = opened n sfd /\ sfd ∉ n_open n).
Proof.
  unfold new_socket. pose proof (socket_new a (n_open n)) as Hs. destruct (Z.eqb_spec (k_socket K a (n_open n)) (-1)) as [E|E]; [intros [= <- <-]; by left|].
  destruct Hs as [Hs|Hs]; [done|]. case_match; intros [= <- <-]; [left; by rewrite closed_opened|by right].
Qed.

Lemma conn_listen_spec base L n a sfd n' c :
  listens base L n -> sfd ∉ n_open n -> conn_listen K (opened n sfd) a sfd = (n', Some c) -> listens base ((sfd, c) :: L) n'.
Proof.
  intros [Ho Hnd Hob Hc Hs Hl Hf] Hx. unfold conn_listen. cbn [opened n_free n_objs n_open n_loop]. rewrite Hf. cbn [do_conn_from_freelist conn_init fc_list].
  destruct (k_conn K (n_objs n)) as [c'|] eqn:Ec; [|done]. apply conn_fresh in Ec. unfold add_event_enter. rewrite Hl. cbn [el_conns].
  destruct (Z.leb_spec AE_SETSIZE sfd) as [|Hlt]; [done|]. destruct (list_to_map L !! sfd) as [?|] eqn:Em; [done|]. change (AE_OK =? AE_ERR) with false. cbv iota.
  assert (Harm : sfd ∉ List.map fst L) by (rewrite Ho in Hx; set_solver). unfold add_event_arm, aeApiAddEvent. destruct (ai_epoll a); [|done]. change (0 =? -1) with false. cbv iota.
  change (AE_OK =? AE_ERR) with false. cbv iota. intros [= <- <-]. constructor; cbn [n_open n_objs n_loop n_free List.map fst snd].
  - by rewrite Ho.
  - by constructor.
  - by rewrite Hob.
  - by constructor.
  - by constructor.
  - unfold set_armed, set_conns. cbn [el_conns el_fired el_armed]. by rewrite disarm_absent.
  - done.
Qed.

(** The addresses that were bound. *)
Definition bound (ai : list addrinfo) : list addrinfo := List.filter (fun a => match ai_bind a with Bound => true | _ => false end) ai.

Lemma listen_loop_spec base ai : forall L n n' r,
  listens base L n -> listen_loop K n ai (Z.of_nat (length L)) = Ret (n', r) ->
  exists L', listens base L' n' /\ (r = 1 \/ r = 0 /\ L' <> [] /\ Forall (fun a => ai_bind a <> BindFailed) ai /\ length L' = (length L + length (bound ai))%nat).
Proof.
  induction ai as [|a ai IH]; intros L n n' r Hn; cbn [listen_loop].
  - intros [= <- <-]. exists L. split; [done|]. destruct L as [|x L]; [by left|]. right. rewrite (proj2 (Z.eqb_neq _ 0)) by (simpl; lia). cbn [bound List.filter length]. repeat split; [done|constructor|lia].
  - destruct (new_socket K n a) as [n1 sfd] eqn:En. apply new_socket_spec in En as [[-> ->]|(Hne & -> & Hx)].
    { change (-1 =? -1) with true. intros [= <- <-]. exists L. by split; [|left]. }
    rewrite (proj2 (Z.eqb_neq _ _)) by done. unfold bound. cbn [List.filter]. destruct (ai_bind a) eqn:Eb.
    + destruct (ai_listen a =? -1); [rewrite closed_opened by done; intros [= <- <-]; exists L; by split; [|left]|].
      destruct (conn_listen K (opened n sfd) a sfd) as [n2 [c|]] eqn:Ec; [|done]. apply (conn_listen_spec base L) in Ec; [|done|done].
      replace (Z.of_nat (length L) + 1) with (Z.of_nat (length ((sfd, c) :: L))) by (simpl; lia). intros H. destruct (IH _ _ _ _ Ec H) as (L' & HL & [->|(-> & Hnil & Hall & Hlen)]); exists L'; (split; [done|]); [by left|right].
      split; [done|]. split; [done|]. split; [by constructor; [rewrite Eb|]|]. cbn [length] in *. unfold bound in Hlen. lia.
    + rewrite closed_opened by done. intros H. destruct (IH _ _ _ _ Hn H) as (L' & HL & [->|(-> & Hnil & Hall & Hlen)]); exists L'; (split; [done|]); [by left|right].
      split; [done|]. split; [done|]. split; [by constructor; [rewrite Eb|]|done].
    + rewrite closed_opened by done. intros [= <- <-]. exists L. by split; [|left].
Qed.

Lemma start_listens base l : NoDup base -> thread_init true = Ret l -> listens base [] (net_start base l).
Proof. intros Hb [= <-]. constructor; cbn [net_start n_open n_objs n_loop n_free List.map app]; auto; constructor. Qed.

(** The loop that the workers start with. *)
Lemma listens_start base L n nthread s :
  listens base L n -> loop_run nthread true n = Ret s -> exists k, s = loop_start k L.
Proof.
  intros [Ho _ _ _ _ Hl Hf]. unfold loop_run. case_match; [done|]. cbn [negb andb]. intros [= <-]. exists (S (Z.to_nat (nthread - 1))). unfold loop_start. rewrite Hl, Hf. f_equal.
  by rewrite replicate_S_end.
Qed.

(** C12. The start of the network is clean on every path.  When [server_socket] returns,
    successfully or not, the descriptors it left open are exactly the sockets that are
    registered and armed in the event loop, each with a connection object of its own:
    a socket whose [fcntl], [bind] or [listen] failed is closed.  It returns 0 only if at
    least one socket listens and every address found was either put to listening or
    in use by somebody else.  In whatever state the workers that [loop_run] then
    starts get, no descriptor and no connection object is in two places. *)
Theorem server_socket_listens base l ai n r :
  NoDup base -> thread_init true = Ret l -> server_socket K (net_start base l) ai = Ret (n, r) ->
  exists L, n_open n = List.map fst L ++ base /\ NoDup (n_open n) /\ el_armed (n_loop n) = List.map fst L /\ el_conns (n_loop n) = list_to_map L /\
    (r = 1 \/ r = 0 /\ exists a, ai = Some a /\ L <> [] /\ length L = length (bound a) /\ Forall (fun x => ai_bind x <> BindFailed) a) /\
    forall nthread s0 s, loop_run nthread true n = Ret s0 -> reachable true s0 s -> NoDup (all_fds s) /\ NoDup (all_cids s).
Proof.
  intros Hb Hi. pose proof (start_listens base l Hb Hi) as Hs. intros H.
  assert (exists L, listens base L n /\ (r = 1 \/ r = 0 /\ exists a, ai = Some a /\ L <> [] /\ length L = length (bound a) /\ Forall (fun x => ai_bind x <> BindFailed) a)) as (L & HL & Hr).
  { destruct ai as [a|]; cbn [server_socket] in H; [|injection H as <- <-; exists []; by split; [|left]].
    destruct (listen_loop_spec base a [] _ n r Hs H) as (L & HL & Hr). exists L. split; [done|]. destruct Hr as [Hr|(Hr & Hne & Hall & Hlen)]; [by left|right; eauto 6]. }
  exists L. pose proof HL as [Ho Hnd Hob Hc Hsz Hl _]. rewrite Hl. do 5 (split; [done|]). intros nthread s0 s E Hreach.
  destruct (listens_start base L n nthread s0 HL E) as (k & ->). apply (reachable_exclusive k L); [|by rewrite <- Hob|done|done]. rewrite Ho in Hnd. by apply NoDup_app in Hnd as [? _].
Qed.
End Listening.

(** ** Two addresses, one of them in use *)
Definition demo_addr (b : bind_result) : addrinfo := {| ai_getfl := 2; ai_setfl := 0; ai_bind := b; ai_listen := 0; ai_epoll := true |}.
Definition above (l : list Z) : Z := List.fold_right (fun x y => Z.max (x + 1) y) 0 l.
Definition demo_kernel : Kernel := {| k_socket := fun _ used => above used; k_conn := fun used => Some (1000 + above used) |}.

Lemma above_spec l : Forall (fun x => x < above l) l.
Proof. induction l as [|x l IH]; constructor; cbn [above List.fold_right]; [unfold above; lia|]. eapply Forall_impl; [exact IH|]. intros y. unfold above. cbn beta. lia. Qed.
#[export] Instance demo_kernel_laws : KernelLaws demo_kernel.
Proof.
  split; cbn [demo_kernel k_socket k_conn].
  - intros _ used. right. intros Hin. pose proof (proj1 (Forall_forall _ _) (above_spec used) _ Hin) as H. cbn beta in H. lia.
  - intros used c [= <-] Hin. pose proof (proj1 (Forall_forall _ _) (above_spec used) _ Hin) as H. cbn beta in H. lia.
Qed.

Definition demo_listening : outcome (Net * Z) :=
  l ← thread_init true; server_socket demo_kernel (net_start [0; 1; 2; 3] l) (Some [demo_addr AddrInUse; demo_addr Bound; demo_addr Bound]).
Example demo_listening_fds : (fun x => (n_open x.1, x.2)) <$> (match demo_listening with Ret x => Some x | _ => None end) = Some ([5; 4; 0; 1; 2; 3], 0).
Proof. vm_compute. reflexivity. Qed.

Lemma server_socket_listens_witness :
  match demo_listening with
  | Ret (n, r) => r = 0 /\ forall s0 s, loop_run 4 true n = Ret s0 -> reachable true s0 s -> NoDup (all_fds s) /\ NoDup (all_cids s)
  | _ => False
  end.
Proof.
  destruct demo_listening as [[n r]|?|] eqn:E; [|vm_compute in E; discriminate..]. split; [vm_compute in E; by injection E as _ <-|].
  destruct (server_socket_listens [0; 1; 2; 3] _ (Some [demo_addr AddrInUse; demo_addr Bound; demo_addr Bound]) n r ltac:(by_compute) eq_refl E) as (L & _ & _ & _ & _ & _ & H).
  intros s0 s. apply H.
Defined.
