(* ===== verification/Server.v ===== *)
(** * The life of the server: [main] from the command line to the exit (beansdb.c)

    [main] reads the options, writes the pid file, opens the store, starts to
    listen, starts the flush thread and the workers, and, when a signal has set
    [daemon_quit] and they have ended, closes the store and removes the pid file.
    Between start and end the model runs a list of events: a request that a worker
    passes to the store, a round of the flush thread, a signal, a client that asks the
    server to stop. *)
From Stdlib Require Import ZArith Lia List.
From stdpp Require Import base numbers list gmap strings.
From S2P Require Import Prelude CText Codec CodecFacts Disk Bitcask BitcaskInv BitcaskSteps BitcaskSpec BitcaskLife BitcaskHistory Reopen Shutdown Restart HStore HStoreFacts StoreRestart EventLoop Options Listen.

(** ** The operating system *)
Record ServerOS := {
  sv_pid : Z;
  sv_fopen : bytes -> bool;                  (* the pid file can be opened for writing *)
  sv_fclose : bytes -> option bytes;         (* what the file holds if [fclose] fails *)
  sv_unlink : bytes -> bool;
  sv_stub : Z;                               (* [open("/dev/null", O_RDONLY)] *)
  sv_loop : bool;                            (* [aeApiCreate] succeeds *)
  sv_fds : list fd;                          (* the descriptors open before [server_socket] *)
  sv_getaddrinfo : option bytes -> Z -> option (list addrinfo);
  sv_flush_thread : bool;                    (* [pthread_create] of the flush thread *)
  sv_workers : bool                          (* [pthread_create] of the workers *)
}.

(** ** The pid file *)
Definition save_pid (sv : ServerOS) (files : gmap bytes bytes) (pid : Z) (pid_file : option bytes) : gmap bytes bytes :=
  match pid_file with
  | None => files
  | Some p => if sv_fopen sv p then <[p := default (print_d pid ++ [10]) (sv_fclose sv p)]> files else files
  end.
Definition remove_pidfile (sv : ServerOS) (files : gmap bytes bytes) (pid_file : option bytes) : gmap bytes bytes :=
  match pid_file with
  | None => files
  | Some p => if sv_unlink sv p then delete p files else files
  end.

(** ** Signals and the flush thread *)
Definition SIGINT : Z := 2.
Definition SIGQUIT : Z := 3.
Definition SIGTERM : Z := 15.

Definition sig_handler (daemon_quit : bool) (sig : Z) : bool :=
  if negb (sig =? SIGTERM) && negb (sig =? SIGQUIT) && negb (sig =? SIGINT) then daemon_quit
  else if daemon_quit then daemon_quit
  else true.

(** One round of the loop of [do_flush]; after [daemon_quit] there are none. *)
Definition do_flush {C} {KC : KeyCodec C} (env : Env) (c : Settings) (daemon_quit : bool) (s : HStore C) (now : Z) : outcome (HStore C) :=
  if daemon_quit then Ret s else hs_flush env s (u32 (cf_flush_limit c)) (cf_flush_period c) now.

(** ** What happens while the server runs *)
Inductive event :=
| Serve (r : hreq)       (* a worker passes a request of a client to the store *)
| Tick (now : Z)         (* the flush thread wakes up *)
| Signal (sig : Z)
| StopMe.                (* the command [stopme], which only [-S] allows *)

(** The store, [daemon_quit] and the answers to the clients. *)
Fixpoint serve {C} {KC : KeyCodec C} (env : Env) (o : Options) (s : HStore C) (daemon_quit : bool) (es : list event) : outcome (HStore C * bool * list hans) :=
  match es with
  | [] => Ret (s, daemon_quit, [])
  | Serve r :: es => '(s, a) ← hs_step env s r; '(s, q, l) ← serve env o s daemon_quit es; Ret (s, q, a :: l)
  | Tick now :: es => s ← do_flush env (o_settings o) daemon_quit s now; serve env o s daemon_quit es
  | Signal sig :: es => serve env o s (sig_handler daemon_quit sig) es
  | StopMe :: es => serve env o s (o_stopme o || daemon_quit) es
  end.

(** ** [main] *)
Record Server C := { sr_options : Options; sr_store : HStore C; sr_loop : LoopState; sr_files : gmap bytes bytes }.
Arguments sr_options {C}.
Arguments sr_store {C}.
Arguments sr_loop {C}.
Arguments sr_files {C}.

(** From the command line to the running workers.  [save_pid] comes before the change
    to the user of [-u], which is the last check of [main_options]; a server that
    exits there, or at any check below, leaves its pid file behind, which an [Exit]
    does not show. *)
Definition main_start {C} {KC : KeyCodec C} (os : OS) (sv : ServerOS) (K : Kernel) (k : Env) (argv : list bytes)
    (fss : Z -> fs) (files : gmap bytes bytes) (now : Z) : outcome (Server C) :=
  '(o, before) ← main_options os argv;
  let c := o_settings o in
  let files := if o_daemonize o then save_pid sv files (sv_pid sv) (o_pid_file o) else files in
  s ← hs_open (env_of k c) fss (o_dbhome o) (o_height o) before now;
  match s with
  | None => Exit 1
  | Some s =>
      if sv_stub sv =? -1 then Exit 1
      else
        l ← thread_init (sv_loop sv);
        '(n, r) ← server_socket K (net_start (sv_fds sv) l) (sv_getaddrinfo sv (cf_inter c) (cf_port c));
        if negb (r =? 0) then Exit 1
        else if negb (sv_flush_thread sv) then Exit 1
        else ls ← loop_run (cf_num_threads c) (sv_workers sv) n;
             Ret {| sr_options := o; sr_store := s; sr_loop := ls; sr_files := files |}
  end.

(** After the workers and the flush thread have ended: the files of the store and
    the other files. *)
Definition main_stop {C} {KC : KeyCodec C} (sv : ServerOS) (k : Env) (o : Options) (s : HStore C) (files : gmap bytes bytes) (now : Z) : outcome (list fs * gmap bytes bytes) :=
  fl ← hs_close (env_of k (o_settings o)) s now;
  Ret (fl, if o_daemonize o then remove_pidfile sv files (o_pid_file o) else files).

(** How a run of the server ended: the files of the bitcasks, the other files, the
    answers.  [None] is a server that still runs after the events. *)
Definition ending : Type := list fs * gmap bytes bytes * list hans.
Definition main {C} {KC : KeyCodec C} (os : OS) (sv : ServerOS) (K : Kernel) (k : Env) (names : bytes -> list bytes) (argv : list bytes)
    (fss : Z -> fs) (files : gmap bytes bytes) (now : Z) (es : list event) (closing : Z) : outcome (option ending) :=
  sr ← main_start (C := C) os sv K (with_listing k names) argv fss files now;
  let o := sr_options sr in
  '(s, q, l) ← serve (env_of k (o_settings o)) o (sr_store sr) false es;
  if q : bool then '(fl, files) ← main_stop sv k o s (sr_files sr) closing; Ret (Some (fl, files, l)) else Ret None.

(** ** Events as requests to the store *)
Section Events.
Context {C : Type} {KC : KeyCodec C} (env : Env) (o : Options).
Implicit Types (s : HStore C) (es : list event) (q : bool) (M : store).

(** What the store sees, and what the clients asked for. *)
Fixpoint requests q es : list hreq :=
  match es with
  | [] => []
  | Serve r :: es => r :: requests q es
  | Tick now :: es => if q then requests q es else HFlush (u32 (cf_flush_limit (o_settings o))) (cf_flush_period (o_settings o)) now :: requests q es
  | Signal sig :: es => requests (sig_handler q sig) es
  | StopMe :: es => requests (o_stopme o || q) es
  end.
Definition clients es : list hreq := omap (fun e => match e with Serve r => Some r | _ => None end) es.
Definition quits q es : bool := List.fold_left (fun q e => match e with Signal sig => sig_handler q sig | StopMe => o_stopme o || q | _ => q end) es q.

Lemma requests_length es : forall q, (length (requests q es) <= length es)%nat.
Proof. induction es as [|[r|now|sig|] es IH]; intros q; cbn [requests length]; [lia|specialize (IH q); lia|destruct q; [specialize (IH true)|specialize (IH false)]; simpl; lia|specialize (IH (sig_handler q sig)); lia|specialize (IH (o_stopme o || q)); lia]. Qed.
Lemma requests_ok es : forall q, Forall hreq_ok (clients es) -> Forall hreq_ok (requests q es).
Proof.
  induction es as [|[r|now|sig|] es IH]; intros q H; cbn [requests]; cbn in H; [done|apply Forall_cons in H as [Hr H]; constructor; auto| |by apply IH..].
  destruct q; [by apply IH|constructor; [done|by apply IH]].
Qed.
Lemma requests_prefix es : forall q rs1 rs2, requests q es = rs1 ++ rs2 -> exists es1 es2, es = es1 ++ es2 /\ requests q es1 = rs1.
Proof.
  induction es as [|e es IH]; intros q rs1 rs2 H; [cbn [requests] in H; symmetry in H; apply app_nil in H as [-> _]; by exists [], []|].
  destruct rs1 as [|x rs1]; [by exists [], (e :: es)|]. destruct e as [r|now|sig|]; cbn [requests] in H.
  - injection H as <- H. destruct (IH _ _ _ H) as (es1 & es2 & -> & <-). by exists (Serve r :: es1), es2.
  - destruct q.
    + destruct (IH _ _ _ H) as (es1 & es2 & -> & <-). by exists (Tick now :: es1), es2.
    + injection H as <- H. destruct (IH _ _ _ H) as (es1 & es2 & -> & <-). by exists (Tick now :: es1), es2.
  - destruct (IH _ _ _ H) as (es1 & es2 & -> & E). by exists (Signal sig :: es1), es2.
  - destruct (IH _ _ _ H) as (es1 & es2 & -> & E). by exists (StopMe :: es1), es2.
Qed.

(** To the clients flushes and signals are invisible. *)
Lemma requests_spec es : forall q M, (spec_hrun M (requests q es)).1 = (spec_hrun M (clients es)).1.
Proof. induction es as [|[r|now|sig|] es IH]; intros q M; cbn; [done|apply IH|destruct q; cbn; apply IH|apply IH..]. Qed.
Lemma serve_run es : forall q s M s',
  hs_run env s (requests q es) = Ret (s', (spec_hrun M (requests q es)).2) -> serve env o s q es = Ret (s', quits q es, (spec_hrun M (clients es)).2).
Proof.
  induction es as [|[r|now|sig|] es IH]; intros q s M s'; cbn [requests serve]; [by intros [= <-]| | |apply IH..].
  - cbn [hs_run spec_hrun snd]. intros H. apply bind_ret in H as ([s1 a] & E & H). apply bind_ret in H as ([s2 l] & E2 & H). injection H as <- -> ->.
    rewrite E. cbn [mbind outcome_bind]. apply IH in E2. rewrite E2. done.
  - unfold do_flush. destruct q; [cbn [mbind outcome_bind]; apply IH|]. cbn [hs_run hs_step spec_hrun spec_hstep snd fst]. intros H. apply bind_ret in H as ([s1 a] & E & H).
    apply bind_ret in E as (s0 & E & E1). injection E1 as -> <-. apply bind_ret in H as ([s2 l] & E2 & H). injection H as <- ->. rewrite E. cbn [mbind outcome_bind]. by apply IH.
Qed.
End Events.

(** ** Run after run *)
Section Runs.
Context {C : Type} {KC : KeyCodec C} {KL : KeyCodecLaws C}.
Context (os : OS) (sv : ServerOS) (K : Kernel) (k : Env) (argv : list bytes) (o : Options) (before : Z).
Context (Ho : main_options os argv = Ret (o, before)).
Context (Hbefore : o_use_before o = false) (Hh : 0 <= o_height o <= 3).
Context (Hone : single (o_dbhome o)) (Hne : o_dbhome o <> []) (Hp : blen (absolute (e_cwd k) (o_dbhome o)) <= 224).
Context (Hmax : 128 * MB <= cf_max_bucket_size (o_settings o) <= 3968 * MB) (Hcheck : cf_check_file_size (o_settings o) = false).
Context (Hthreads : 0 < cf_num_threads (o_settings o)).
Context (Hfresh : forall n, length (e_fresh k n) = Z.to_nat n /\ bytes_ok (e_fresh k n)) (Hok : forall d, e_dir_ok k d = true).
(** The kernel lets the server start. *)
Context (Hstub : sv_stub sv <> -1) (Hloop : sv_loop sv = true) (Hft : sv_flush_thread sv = true) (Hwk : sv_workers sv = true).
Context (Hnet : exists n, server_socket K (net_start (sv_fds sv) {| el_conns := ∅; el_fired := []; el_armed := [] |}) (sv_getaddrinfo sv (cf_inter (o_settings o)) (cf_port (o_settings o))) = Ret (n, 0)).
Context (Hpid : forall p, o_pid_file o = Some p -> sv_unlink sv p = true).
Implicit Types (M : store) (files : gmap bytes bytes).

Let env : Env := env_of k (o_settings o).
Let h : Z := o_height o.
Let path : bytes := o_dbhome o.

(** One run: the time of the start, the events, the time of the end. *)
Record run := { r_start : Z; r_events : list event; r_end : Z }.

(** The directories of the bitcasks are listed as [names] and hold [fl]. *)
Definition left_by (fl : list fs) (now : Z) (names : bytes -> list bytes) : Prop :=
  forall i f, fl !! i = Some f -> lists (bdir env path h (Z.of_nat i)) f (names (bdir env path h (Z.of_nat i))) /\ settled (bdir env path h (Z.of_nat i)) f now.

(** Every run starts, answers its clients as a map that holds the live entries of
    [M], and ends with its pid file removed; the next run finds what it left. *)
Fixpoint runs_ok (names : bytes -> list bytes) (fss : Z -> fs) files M (rs : list run) : Prop :=
  match rs with
  | [] => True
  | r :: rs =>
      exists (sr : Server C) M0, main_start os sv K (with_listing k names) argv fss files (r_start r) = Ret sr /\ sr_options sr = o /\ recovered M M0 /\
      ((exists s, serve env o (sr_store sr) false (r_events r) = Ret (s, true, (spec_hrun M0 (clients (r_events r))).2) /\
          (Forall (closable h) (hs_bitcasks s) ->
           exists fl files', main (C := C) os sv K k names argv fss files (r_start r) (r_events r) (r_end r) = Ret (Some (fl, files', (spec_hrun M0 (clients (r_events r))).2)) /\
             (o_daemonize o = true -> forall p, o_pid_file o = Some p -> files' !! p = None) /\
             forall names', left_by fl (r_end r) names' ->
               runs_ok names' (fun i => default ∅ (fl !! Z.to_nat i)) files' (spec_hrun M0 (clients (r_events r))).1 rs)) \/
       (exists es1 es2 s q, r_events r = es1 ++ es2 /\ serve env o (sr_store sr) false es1 = Ret (s, q, (spec_hrun M0 (clients es1)).2) /\ exhausted s))
  end.

(** The store opens at any time with the live entries of [M]. *)
Definition opens (names : bytes -> list bytes) (fss : Z -> fs) (n : Z) M : Prop :=
  forall now, exists s M0, hs_open (C := C) (with_listing env names) fss path h 0 now = Ret (Some s) /\ recovered M M0 /\ hinv env (bdir env path h) n s M0 /\ hs_height s = h.

Lemma limits : 2 ^ 27 <= e_max_bucket_size env <= 2 ^ 32 - 2 ^ 27.
Proof. cbn [env env_of e_max_bucket_size]. unfold MB in Hmax. lia. Qed.

Lemma start_spec names fss files n M now :
  opens names fss n M ->
  exists (sr : Server C) M0, main_start os sv K (with_listing k names) argv fss files now = Ret sr /\ sr_options sr = o /\ recovered M M0 /\
    hinv env (bdir env path h) n (sr_store sr) M0 /\ hs_height (sr_store sr) = h.
Proof.
  intros Hop. destruct (Hop now) as (s & M0 & E & Hr & Hi & Hht). destruct (main_options_checked _ _ _ _ Ho) as (_ & _ & _ & _ & Hb0). destruct Hnet as [net En].
  eexists {| sr_store := s |}, M0. unfold main_start. rewrite Ho. cbn [mbind outcome_bind]. rewrite (Hb0 Hbefore).
  change (env_of (with_listing k names) (o_settings o)) with (with_listing env names). fold path h. rewrite E. cbn [mbind outcome_bind].
  rewrite (proj2 (Z.eqb_neq _ _) Hstub), Hloop. cbn [thread_init mbind outcome_bind]. rewrite En. cbn [mbind outcome_bind]. change (negb (0 =? 0)) with false. cbv iota. rewrite Hft, Hwk. cbn [negb].
  unfold loop_run. rewrite (proj2 (Z.ltb_ge _ 0)) by lia. cbn [negb andb mbind outcome_bind]. split; [reflexivity|]. done.
Qed.

Lemma pid_removed files p : o_pid_file o = Some p -> remove_pidfile sv files (o_pid_file o) !! p = None.
Proof. intros E. rewrite E. cbn [remove_pidfile]. rewrite (Hpid p E). apply lookup_delete_eq. Qed.

Lemma stop_spec n s M files now :
  hinv env (bdir env path h) n s M -> hs_height s = h -> n <= MAX_OPS -> Forall (closable h) (hs_bitcasks s) ->
  exists fl files', main_stop sv k o s files now = Ret (fl, files') /\ (o_daemonize o = true -> forall p, o_pid_file o = Some p -> files' !! p = None) /\
    forall names, left_by fl now names -> opens names (fun i => default ∅ (fl !! Z.to_nat i)) n M.
Proof.
  intros Hi Hht Hn Hcl. pose proof Hi as [_ _ Hlen He _ _]. rewrite Hht in *. pose proof limits as Hlim.
  destruct (close_all_spec (C := C) env Hfresh limits path h n M now (hs_bitcasks s) 0 Hn He Hcl) as (fl & Ef & Hfl & Hlv).
  exists fl, (if o_daemonize o then remove_pidfile sv files (o_pid_file o) else files). split; [unfold main_stop, hs_close; fold env; by rewrite Ef|].
  split; [intros -> p; apply pid_removed|]. intros names Hns now'.
  destruct (reopen_store (C := C) env Hfresh Hcheck path h Hh Hone Hne Hp Hok n now s M fl names now') as (s' & M' & Eo & Hrec & Hi' & Hht');
    [done|done|done|by rewrite Hfl|intros i f Hf; split; [by apply (Hlv i)|by apply Hns]|]. by exists s', M'.
Qed.

Lemma runs_spec rs : forall names fss files n M,
  opens names fss n M -> Forall (fun r => quits o false (r_events r) = true /\ Forall hreq_ok (clients (r_events r))) rs ->
  0 <= n -> n + Z.of_nat (length (flat_map r_events rs)) <= MAX_OPS -> runs_ok names fss files M rs.
Proof.
  induction rs as [|r rs IH]; intros names fss files n M Hop Hrs Hn Hlen; [done|]. apply Forall_cons in Hrs as [[Hq Hr] Hrs]. cbn [runs_ok flat_map] in *. rewrite length_app in Hlen.
  destruct (start_spec names fss files n M (r_start r) Hop) as (sr & M0 & Es & Hso & Hrec & Hi & Hht). exists sr, M0. do 3 (split; [done|]).
  pose proof limits as Hlim. pose proof (requests_length o (r_events r) false) as Hrl. pose proof (requests_ok o (r_events r) false Hr) as Hrq.
  destruct (hrun_reached env Hfresh ltac:(lia) (bdir env path h) (bdir_short env path h) n (sr_store sr) M0 (requests o false (r_events r)) Hi Hn ltac:(lia) Hrq)
    as [(s & E & Hi1)|(rs1 & rs2 & s & Hsplit & E & Hex)].
  - left. pose proof (run_height env _ _ _ _ Hrq E) as Hh1. rewrite Hht in Hh1. apply serve_run in E. rewrite Hq in E. exists s. split; [done|]. intros Hcl. rewrite requests_spec in Hi1.
    destruct (stop_spec _ s _ (sr_files sr) (r_end r) Hi1 Hh1 ltac:(lia) Hcl) as (fl & files' & Est & Hpf & Hnext). exists fl, files'. split.
    { unfold main. rewrite Es. cbn [mbind outcome_bind]. rewrite Hso. fold env. rewrite E. cbn [mbind outcome_bind]. by rewrite Est. }
    split; [done|]. intros names' Hl. apply (IH _ _ _ (n + Z.of_nat (length (requests o false (r_events r))))); [by apply Hnext|done|lia|lia].
  - right. destruct (requests_prefix o (r_events r) false rs1 rs2 Hsplit) as (es1 & es2 & Hes & <-). exists es1, es2, s, (quits o false es1). split; [done|]. split; [by apply serve_run|done].
Qed.

(** C1. The whole program.  A server is started again and again with the same command
    line, first on empty directories: one home directory, a height from 0 to 3, no
    [-m] and no [-C], data files of 128 to 3968 MB.  In every run it opens its store,
    listens, and answers its clients as one versioned map does, whatever the flush
    thread does in between, until a signal or the command [stopme] ends it; then it closes the store and
    removes its pid file; and the next run, whatever the order in which the kernel
    lists the directories, starts with every live entry that the run before had. *)
Theorem server_keeps_data files rs :
  Forall (fun r => quits o false (r_events r) = true /\ Forall hreq_ok (clients (r_events r))) rs -> Z.of_nat (length (flat_map r_events rs)) <= MAX_OPS ->
  runs_ok (fun _ => []) (fun _ => ∅) files ∅ rs.
Proof.
  intros Hrs Hlen. apply (runs_spec rs _ _ _ 0); [|done|lia|lia]. intros now. exists (empty_store h (home env path) now), ∅.
  split; [by apply (open_store (with_listing env (fun _ => [])))|]. split; [intros x; by rewrite lookup_empty|]. split; [by apply empty_hinv|done].
Qed.
End Runs.

(** ** Two runs of a daemon *)
Definition daemon_argv : list bytes := List.map lit ["-t8"; "-F"; "256"; "-dH"; "/db"; "-P"; "/run/beansdb.pid"; "-L"; "log.conf"]%string.
Definition demo_sv : ServerOS :=
  {| sv_pid := 4711; sv_fopen := fun _ => true; sv_fclose := fun _ => None; sv_unlink := fun _ => true; sv_stub := 3; sv_loop := true; sv_fds := [0; 1; 2; 3; 4];
     sv_getaddrinfo := fun _ _ => Some [demo_addr Bound; demo_addr AddrInUse]; sv_flush_thread := true; sv_workers := true |}.
Definition demo_runs : list run :=
  [{| r_start := 99; r_events := [Serve (HSet (lit "photo") (repeat 97 700) 3 0 100); Tick 101; Serve (HIncr (lit "hits") 5 102); Signal SIGTERM; Tick 103; Serve (HGet (lit "photo"))]; r_end := 200 |};
   {| r_start := 300; r_events := [Serve (HIncr (lit "hits") 1 301); Serve (HGet (lit "photo")); Signal SIGINT; Signal SIGINT]; r_end := 400 |}].

Definition main_kept : outcome (option ending * option ending) :=
  let run names fss r := main (C := Codec) demo_os demo_sv demo_kernel (quiet_env 0) names daemon_argv fss ∅ (r_start r) (r_events r) (r_end r) in
  match demo_runs with
  | [r1; r2] =>
      a ← run (fun _ => []) (fun _ => ∅) r1;
      match a with
      | None => Fault
      | Some (fl, _, _) =>
          let names d := List.concat (List.map (fun i => let x := dir_of 1 (lit "/db") i in if bool_decide (x = d) then listing x (default ∅ (fl !! Z.to_nat i)) else []) (seqZ 0 16)) in
          b ← run names (fun i => default ∅ (fl !! Z.to_nat i)) r2; Ret (a, b)
      end
  | _ => Fault
  end.
Example demo_main :
  match main_kept with
  | Ret (Some (_, files1, l1), Some (_, files2, l2)) =>
      l1 = [HStored true; HCount 5; HValue (Some (repeat 97 700, 3))] /\ l2 = [HCount 6; HValue (Some (repeat 97 700, 3))] /\ files1 = ∅ /\ files2 = ∅
  | _ => False
  end.
Proof. vm_compute. repeat split. Qed.

Lemma server_keeps_data_witness :
  match main_options demo_os daemon_argv with
  | Ret (o, _) => runs_ok (C := Codec) demo_os demo_sv demo_kernel (quiet_env 0) daemon_argv o (fun _ => []) (fun _ => ∅) ∅ ∅ demo_runs
  | _ => False
  end.
Proof.
  destruct (main_options demo_os daemon_argv) as [[o before]|?|] eqn:E; [|vm_compute in E; discriminate..].
  apply (server_keeps_data demo_os demo_sv demo_kernel (quiet_env 0) daemon_argv o before E); try (vm_compute in E; injection E as <- <-);
    first [reflexivity | discriminate | lia | done | (intros n; apply zeros_ok) | by_compute | (split; vm_compute; discriminate) | (vm_compute; discriminate) | (eexists; vm_compute; reflexivity) | idtac].
Defined.
