(* ===== verification/Findings.v ===== *)
(** * Where the code does not do what it means to

    Concrete inputs that make the program read or write out of bounds, hang, or
    answer wrongly; each is the model run on that input. *)
From Stdlib Require Import ZArith Lia List.
From stdpp Require Import base numbers list gmap strings.
From S2P Require Import Prelude Hash CText Codec CodecFacts HTree Disk DiskFacts Record RecordFacts Buckets BucketsFacts Bitcask BitcaskLife BitcaskHistory Reopen Shutdown Restart HStore HStoreFacts Protocol ProtocolFacts Sessions.

(** A key that is too long after a hit leaves a get unfinished.  The error line
    goes to [c_wbuf], which [conn_write] adds to the messages only if none was
    begun: the client receives the value and neither [END] nor an error. *)
Theorem long_key_after_hit :
  session [ln "set a 0 0 1"; ln "x"; ln "get a"; lit "get a " ++ repeat 107 251 ++ crlf] =
  Some (ln "STORED" ++ ln "VALUE a 0 1" ++ ln "x" ++ ln "END" ++ ln "VALUE a 0 1" ++ ln "x").
Proof. vm_compute. reflexivity. Qed.

(** The item of an update is used before it is tested.  A value length of
    2^31 - 2 makes the item's size negative, hence as a [size_t] more than any
    allocator gives; [process_update_command] then writes through the null
    pointer. *)
Theorem huge_value_faults se (sv : Server Codec) c now :
  (forall n, 2 ^ 63 <= n -> se_malloc_ok se n = false) -> 0 <= se_item_buf_size se ->
  process_command se sv c (lit "set k 0 0 2147483646") now = Fault.
Proof.
  intros Hm Hb. unfold process_command. assert (tokenize_command (lit "set k 0 0 2147483646") = ([lit "set"; lit "k"; lit "0"; lit "0"; lit "2147483646"], None)) as -> by (vm_compute; reflexivity).
  cbn [length Z.of_nat Pos.of_succ_nat Pos.succ]. change (process_update_command se sv (add_msghdr (with_msgs c [] (c_msgbytes c) 0)) [lit "set"; lit "k"; lit "0"; lit "0"; lit "2147483646"] NREAD_SET = Fault).
  unfold process_update_command. set (tk := [_; _; _; _; _]). change (fetch tk 1) with (Ret (lit "k")). change (fetch tk 2) with (Ret (lit "0")).
  change (fetch tk 3) with (Ret (lit "0")). change (fetch tk 4) with (Ret (lit "2147483646")). cbn [mbind outcome_bind].
  change (MAX_KEY_LEN <? blen (lit "k")) with false. cbv iota. set (e := erange _ _ _ || _ || _ || _). assert (e = false) as -> by (vm_compute; reflexivity). cbv iota zeta.
  unfold item_alloc1. set (p := print_path 40 _). assert (p = Ret (lit " 0 2147483646" ++ crlf)) as -> by (vm_compute; reflexivity). cbn [mbind outcome_bind].
  set (x := item_ntotal _ _ _). assert (x = 18446744071562068001) as -> by (vm_compute; reflexivity). rewrite Hm by lia. reflexivity.
Qed.

(** A directory query with a negative number indexes before the array of
    bitcasks. *)
Theorem list_negative_index (bcs : list (Bitcask Codec)) :
  let s := {| hs_height := 2; hs_before := 0; hs_op_start := 0; hs_op_end := 0; hs_op_laststat := 0; hs_op_limit := 0; hs_bitcasks := bcs |} in
  hs_get small_env s (lit "@-1") = Fault.
Proof. vm_compute. reflexivity. Qed.

(** [load_buckets] does not end on a line that does not start with a number:
    no number of rounds is enough. *)
Theorem load_buckets_hangs fuel b last : load_loop fuel (lit "size 10") b last = Fault.
Proof. induction fuel as [|fuel IH]; [reflexivity|]. cbn [load_loop]. assert (st_used (strto_scan 10 (lit "size 10")) = 0%nat) as -> by (vm_compute; reflexivity). exact IH. Qed.

(** [bc_optimize] gives up on a lost data file without clearing
    [optimize_flag]; [bc_close] then waits for ever. *)
Theorem optimize_lost_file :
  exists bc, bc_optimize (C := Codec) small_env (set_files (set_curr (fresh_bitcask demo_mgr 0 0 99) 1) {[ 0 := 256 ]} ∅) 0 100 = Ret (bc, false) /\
    bc_close small_env bc 101 = Fault.
Proof.
  destruct (bc_optimize (C := Codec) small_env (set_files (set_curr (fresh_bitcask demo_mgr 0 0 99) 1) {[ 0 := 256 ]} ∅) 0 100) as [[bc ok]| |] eqn:E; vm_compute in E; [|discriminate|discriminate].
  injection E as <- <-. eexists. split; [reflexivity|]. vm_compute. reflexivity.
Qed.

(** Two collections lose a key.  When the collected files need fewer numbers,
    [bc_optimize] gives the current file a smaller one: it moves the tree from the
    positions in [curr_tree] to the new ones, but [curr_tree] keeps the old ones.
    If the next collection renumbers the file once more, they no longer match
    those of the tree; the file is renamed and the tree is not, so a key that was
    written before both cannot be read until the next start. *)
Definition collected_twice : outcome (list Z * list answer * list answer * list answer) :=
  let env := quiet_env 1000 in
  let fill := List.concat (List.map (fun i => [ESet [107; 48 + i] (repeat 97 200) 0 0 100; EFlushBegin 0 0 100; EFlushEnd 100]) [0; 1; 2; 3; 4; 5; 6]) in
  let read := [EGet (lit "key") false] in
  bc ← bc_opened (C := Codec) env demo_mgr ∅ 0 0 99;
  '(bc, _) ← bc_run env bc (fill ++ [ESet (lit "key") (lit "value") 0 0 101]);
  '(b1, _) ← bc_optimize env bc 100 10000;
  '(b1, l1) ← bc_run env b1 read;
  '(b2, _) ← bc_run env b1 (List.map (fun i => EDelete [107; 48 + i] 10001) [0; 1; 2; 3; 4]);
  '(b2, _) ← bc_optimize env b2 100 20000;
  '(b2, l2) ← bc_run env b2 read;
  f ← bc_shutdown env b2 20001;
  b3 ← bc_opened (C := Codec) (with_listing env (fun _ => listing (lit "/db") f)) demo_mgr f 0 0 30000;
  '(_, l3) ← bc_run env b3 read;
  Ret ([bc_curr bc; bc_curr b1; bc_curr b2], l1, l2, l3).
Theorem second_collection_loses :
  collected_twice = Ret ([7; 3; 1], [AValue (Some (1, 0, lit "value"))], [AValue None], [AValue (Some (1, 0, lit "value"))]).
Proof. vm_compute. reflexivity. Qed.

Lemma huge_value_faults_witness :
  process_command {| se_env := small_env; se_malloc_ok := fun n => n <? 2 ^ 40; se_item_buf_size := 512; se_stats_text := fun _ _ _ _ => [];
                     se_version := lit "0.7"; se_stopme := false; se_einval := false |}
    demo_server conn_new (lit "set k 0 0 2147483646") 100 = Fault.
Proof.
  apply huge_value_faults.
  - intros n Hn. cbn [se_malloc_ok]. apply Z.ltb_ge. lia.
  - cbn [se_item_buf_size]. lia.
Defined.
